(* ===== verification/_CoqProject ===== *)
-Q . S2P
Prelude.v
Scan.v
Files.v
Sys.v
ProcFs.v
ProcMaps.v
Remote.v
Inject.v
MonState.v
ZygoteAbi.v
Monitor.v
Reap.v
Control.v
Stage.v
Cli.v
Elf.v
ElfFile.v
Fossil.v
Mounts.v
Daemon.v
UniqueFd.v
Atexit.v
Solist.v
Soinfo.v
Records.v
Seccomp.v
JniEnv.v
Jni.v
Spoof.v
Args.v
JniHooks.v
HookGen.v
InjState.v
Module.v
Hook.v
PltLock.v
Hygiene.v
Lifecycle.v
Originals.v
Api.v
Entry.v
Chain.v
