(* ===== verification/Prelude.v ===== *)
(** * NeoZygisk: a verification library for the loader

    The C++ of NeoZygisk (src/loader/src) is two programs. An executable, run as root, follows
    init with ptrace, catches every zygote as it is started and makes it load a library
    (ptracer/, common/misc.cpp). The library, in zygote, hooks the functions that fork and
    specialize apps, loads the modules in each child, hides what there is to hide, and unloads
    itself (injector/, common/). A daemon written in Rust answers both over sockets. This
    library models the two programs function by function and proves what makes them correct.

    ** How code is modelled

    Code that talks to the world is a tree of calls ([prog] below): a call's answer is whatever
    the kernel, the linker, the JVM or the daemon chooses, so a theorem about [every_run] of a
    program holds whatever they do. Each component has its own type of calls: [sys] for the
    executable (Sys.v), [net] for the daemon's sockets (Daemon.v), [libc] (Atexit.v), [lnk]
    (Solist.v), [scmp] (Seccomp.v), [jni] (JniEnv.v), [vm] (Spoof.v), and [inj] for the injected
    library (InjState.v), which contains the others; [lift] runs a component's program inside
    its client's. A run ends with a value or stops: by exit, by execve, with undefined
    behaviour (a null or freed pointer, a read outside a mapping, an uncaught exception), or
    because a loop outlasted its fuel. Code without calls is a function: parsing, symbol
    lookup, sorting, the state updates.

    Integers are [Z] with the wrap-around of their width written out ([wrap], [u32], [s32]);
    memory is a list of bytes or words with offsets for pointers; structures are records with
    the source's field names, enumerations inductive types. The globals of the injected library
    ([g_ctx], [g_hook], the linker's records) are one record, [zygote], passed through a state
    monad; the members of the monitor are the record [AppMonitor].

    ** The files

    Foundations
    - Prelude.v (this file): integers, strings, sorting, the effects and their proof rules;
    - Scan.v: streams, [sscanf], [strtol], [from_chars], device numbers, and [parse_int] of
      common/misc.cpp;
    - Files.v: common/files.cpp and include/files.hpp, owners of files and the line reader.

    The executable
    - Sys.v: its calls and constants, wait statuses, [parse_status] of ptracer/utils.cpp;
    - ProcFs.v: ptracer/utils.cpp, mappings, libraries and functions of another process,
      telling zygote apart from its stubs;
    - ProcMaps.v: the kernel's text of /proc/<pid>/maps, which ProcFs.v reads back;
    - Remote.v: ptracer/utils.cpp, memory access, [wait_for_trace], [remote_call] on x86,
      x86_64, arm and arm64;
    - Inject.v: ptracer/ptracer.cpp, the library's path into a process, before its entry point
      and in a running one, and both ways of attaching; include/trace.hpp;
    - MonState.v, ZygoteAbi.v, Monitor.v: types.hpp, zygote_abi.cpp, monitor_impl.cpp and
      event_loop.cpp: the monitor's state, a zygote and its daemon, crash loops, attaching to
      what already runs, the event handlers and the loop;
    - Reap.v: what the handlers and the loop promise the children they trace;
    - Control.v, Cli.v: main.cpp, the control socket's client and the commands;
    - Stage.v: stage.cpp, the boot stages, arming a running system and hot install; and
      [copy_to_temp] of ptracer.cpp;
    - Chain.v: from the monitor's poll of its child to the library's entry, across main.cpp,
      ptracer.cpp and entry.cpp.

    The library
    - Elf.v: common/elf_parser.cpp, symbols of a loaded library, with the interface [Symbols]
      the next users are proved against;
    - ElfFile.v: the same file's constructor and destructor, opening and mapping a library;
    - Fossil.v: injector/fossil.cpp and [spoof_zygote_fossil] of injector/clean.cpp;
    - Mounts.v: injector/unmount.cpp and the decision of module.cpp on it;
    - Daemon.v: common/socket_utils.cpp and common/daemon.cpp;
    - UniqueFd.v: include/daemon.hpp, the objects that own descriptors and the vector of
      modules, as cells that are swapped when an object moves;
    - Atexit.v, Solist.v: injector/atexit.cpp and injector/solist.cpp, libc's handlers and the
      linker's list, both against [Symbols]; and their callers in clean.cpp;
    - Soinfo.v: include/linker_soinfo.h, the declared layout of the linker's records, and the
      search of solist.cpp that finds the layout there is;
    - Records.v: dropping records as the linker's list sees it;
    - Seccomp.v: injector/seccomp.cpp, with an interpreter of the BPF it installs;
    - JniEnv.v: injector/android_util.hpp, scoped references, checked invocations, ART's
      method layout, and the rules of the Java interface as a state machine with its
      weakest-precondition calculus;
    - Jni.v: [hook_jni_methods] of injector/hook.cpp, with a model of the methods of a JVM;
    - Spoof.v: [spoof_virtual_maps] of clean.cpp, with a model of an address space;
    - Args.v: the structures of arguments of injector/module.hpp, as references into the
      parameters of the function that builds them, and what a module of each version can
      assign;
    - JniHooks.v, HookGen.v: the 24 functions of injector/jni_hooks.hpp and the generator
      gen_jni_hooks.py that wrote them ([zygote_hooks_generated] says they agree), with a
      parser of JNI descriptors;
    - InjState.v, Module.v, Hook.v: injector/module.hpp, module.cpp and hook.cpp, with the body
      of the generated functions ([hooked]);
    - PltLock.v: include/misc.hpp's [mutex_guard], and module.cpp's calls for PLT hooks made by
      several threads at once, one access to the shared vectors at a time;
    - Hygiene.v: the rules of the Java interface over all of hook.cpp's uses of it;
    - Lifecycle.v, Originals.v: whole runs of the generated functions;
    - Api.v: include/api.hpp, the header modules are built against, and its match with
      module.hpp;
    - Entry.v: injector/entry.cpp and injector/system_server.cpp.

    ** What is shown

    Injection (Inject.v, Remote.v, Cli.v). Asking for the detach of a traced process is the last
    act on every path after attaching, and outside the modes for running processes a success
    means it worked ([trace_target_detaches]); the late path's last act on its thread is to give
    back the registers it found ([inject_after_start_restores]); a success of the early path has
    put the entry point back before any remote call and resumes there
    ([inject_before_start_resumes]); remote calls follow each architecture's convention, its
    alignment only when what is spilled keeps it ([remote_call_convention],
    [i386_calls_misaligned]); waits end ([wait_for_trace_total]); mappings are read back as the
    kernel prints them ([maps_roundtrip]) and the library is told its range exactly
    ([library_range_exact]); exit statuses report what happened ([trace_pid_reports]).

    The monitor (Monitor.v, ZygoteAbi.v, Control.v). Its state keeps an invariant over every
    sequence of events and messages, about what it asked of init, and about what is so while
    init's attachment is not refused ([monitor_invariant], [refused_seize_unnoticed]); whenever
    its loop goes to sleep every stop reported to it has been answered, and it always comes back
    ([no_child_left_stopped], from [handleChildEvent_resumes]), a parent's stop with the right
    signal ([handleParentEvent_signals]); the crash-loop test finds exactly the bursts
    ([is_in_crash_loop_burst]); a rearm injects no zygote whose mapping it saw, none twice, and
    its verdict is backed by the zygotes it found ([rearm_zygote_never_reinjects],
    [rearm_verdict_sound]); what it counts as hooked was traced with success and told its range,
    by that process's own tracer, and had what its mode needs asked of the linker
    ([confirmed_means_hooked]); a client's request reaches it, and its verdict the client
    ([rearm_end_to_end]).

    The stages (Stage.v). Arming a running system restarts zygote only on a verdict
    ([arm_restarts_on_verdict]); copies are faithful ([copy_chunks_faithful]); sleeps are bounded
    ([hot_install_sleeps]).

    Zygote and its children (Lifecycle.v, Originals.v, Api.v, Hygiene.v, Entry.v, Module.v,
    Hook.v, Jni.v, Seccomp.v). A fork that succeeds runs no module in zygote and children keep
    none of our functions ([zygote_runs_no_module]; of a fork that fails,
    [failed_fork_is_child]); each original method is the one remembered for its place, called
    once with values of the types its signature promises, which in zygote are Java's own
    ([original_gets_its_types]); the Java interface is used by its rules
    ([jni_used_by_its_rules]); the thread in a running system_server leaves nothing behind
    ([system_server_thread]); descriptors, mounts and namespaces are handled exactly
    ([sanitize_fds_exact], [unmount_zygote_once], [check_zygote_traces_exact],
    [unshare_switches_once]); hooks are undone
    ([hooks_are_undone]) and nothing is unmapped before they are ([unmap_after_restore]); a
    module reaches the loader through its header from its registration until its context is
    torn down, after which its tables are freed memory ([api_reaches_the_loader], from
    [register_fills_abi]); threads that ask for PLT hooks at
    once are served as if one after another ([plt_hooks_serialized]); the seccomp filter traces
    one call and allows the rest ([filter_traces_signature]).

    Hiding (Atexit.v, Solist.v, Soinfo.v, Records.v, Fossil.v, Spoof.v, Elf.v). Live exit
    handlers stay, written only under libc's own lock in pages that are closed again or said not
    to be ([recompact_keeps_handlers], [scrub_discipline]); the fields of the linker's records
    are found where they are ([heuristics_find_layout]), and of the records on its list those
    with a telling path go and the others stay ([dropSoPath_clears], with [dropSoPath_drops]);
    spoofing a fossil writes its template in its place and nothing in front or behind, unless
    the template is longer ([spoof_effect], [spoof_overruns]); spoofing mappings keeps their
    bytes, and their protections as far as the kernel allows ([spoof_unnoticed]); symbol lookups
    give the symbol asked for, at its load address when the library's bias is zero, and miss
    none of the GNU table ([findSymbolAddress_sound], [biased_symbol_misplaced],
    [findSymbolByGnuHash_complete]).

    The daemon's client (Daemon.v, UniqueFd.v). Strings cross the socket whole
    ([string_crosses_socket]) and a request that returns has closed its socket, or returned it
    ([requests_close_their_socket]); a descriptor given to an owning object is closed once,
    however the objects are moved ([fds_closed_once]), and the vector the modules are received
    in is the list the other files have ([modules_vector_implements]).

    Lemmas beside these record what the code does in cases it does not mean to reach: a failed
    restoration, a refused module, a failed fork, a daemon that is away, a clean fossil longer
    than the one it replaces.

    ** Fuel and bounds

    Loops without a bound of their own take fuel: retried reads and writes, waits, walks over
    the linker's list, rounds of the event loop, chunks of a file, the argument and environment
    strings of a process, the steps a module takes before it returns. Running out is a result of
    its own ([NoFuel]), never a value, so safety statements hold for every fuel; where a result
    is promised the fuel that suffices is stated ([string_crosses_socket],
    [wait_for_trace_total]; in [no_child_left_stopped] as the number of waits a run that
    exhausts it has made) or computed (the chains of .gnu.hash never exceed the mapping,
    [attach_running]'s polls are 400, [Connect]'s attempts are its argument). The polls and
    sleeps of the stages are the source's constants.

    ** What is not modelled

    The daemon (zygiskd, in Rust), the module's shell scripts and its Gradle build are other
    programs. lsplt, which rewrites PLT entries, is a submodule: its functions are calls. Of the
    generator the printing of the C++ text is left out. A module is not code of the repository:
    it is whatever makes API calls, assigns to the arguments it is given and returns. ART's and
    the linker's own layouts are read where the code finds them, not fixed. Logging is left
    out. Programs run one thread at a time: locks are
    calls whose discipline is proved, and races with other threads of zygote are outside the
    model, except where a lock of the repository's own guards the data (PltLock.v). Allocation
    does not fail. *)
From Stdlib Require Import ZArith Lia List String Ascii Bool Sorting.
From stdpp Require Import base list strings.

Open Scope string_scope.
Open Scope list_scope.
Open Scope bool_scope.
Open Scope Z_scope.

(** ** Machine integers *)

Definition wrap (w z : Z) : Z := z mod 2 ^ w.
Definition u8 (z : Z) : Z := wrap 8 z.
Definition u32 (z : Z) : Z := wrap 32 z.
Definition u64 (z : Z) : Z := wrap 64 z.

(** Two's complement reading of the low [w] bits. *)
Definition signed (w z : Z) : Z := (z + 2 ^ (w - 1)) mod 2 ^ w - 2 ^ (w - 1).
Definition s32 (z : Z) : Z := signed 32 z.

Definition has_flag (flags m : Z) : bool := negb (Z.land flags m =? 0).

Lemma wrap_bound w z : 0 <= w -> 0 <= wrap w z < 2 ^ w.
Proof. intros. unfold wrap. apply Z.mod_pos_bound. lia. Qed.

Lemma wrap_small w z : 0 <= z < 2 ^ w -> wrap w z = z.
Proof. apply Z.mod_small. Qed.

Lemma signed_small w z : 0 < w -> - 2 ^ (w - 1) <= z < 2 ^ (w - 1) -> signed w z = z.
Proof.
  intros Hw H. unfold signed. assert (2 ^ w = 2 * 2 ^ (w - 1)) as E.
  { rewrite <- Z.pow_succ_r by lia. f_equal. lia. }
  rewrite Z.mod_small by lia. lia.
Qed.
Lemma s32_small z : - 2 ^ 31 <= z < 2 ^ 31 -> s32 z = z.
Proof. intros H. by apply signed_small. Qed.

Lemma wrap_wrap w z : 0 <= w -> wrap w (wrap w z) = wrap w z.
Proof. intros. apply wrap_small. by apply wrap_bound. Qed.

Lemma has_flag_lor a b m : has_flag (Z.lor a b) m = has_flag a m || has_flag b m.
Proof.
  unfold has_flag. rewrite Z.land_lor_distr_l.
  destruct (Z.eqb_spec (Z.land a m) 0) as [E|E]; cbn.
  - by rewrite E, Z.lor_0_l.
  - destruct (Z.eqb_spec (Z.lor (Z.land a m) (Z.land b m)) 0) as [E'|E']; [|done].
    apply Z.lor_eq_0_iff in E'. tauto.
Qed.

(** The mask of a single bit. *)
Lemma has_flag_bit flags k : 0 <= k -> has_flag flags (Z.shiftl 1 k) = Z.testbit flags k.
Proof.
  intros Hk. unfold has_flag. rewrite Z.shiftl_1_l.
  assert (Z.testbit (Z.land flags (2 ^ k)) k = Z.testbit flags k) as E.
  { by rewrite Z.land_spec, Z.pow2_bits_true, andb_true_r. }
  destruct (Z.eqb_spec (Z.land flags (2 ^ k)) 0) as [H|H]; cbn.
  - by rewrite <- E, H, Z.bits_0.
  - destruct (Z.testbit flags k) eqn:Et; [done|]. destruct H. apply Z.bits_inj'. intros i Hi.
    rewrite Z.land_spec, Z.bits_0. destruct (Z.eq_dec i k) as [->|Hne]; [by rewrite Et|].
    by rewrite Z.pow2_bits_false, andb_false_r.
Qed.

Create HintDb neo.
Create Rewrite HintDb neo_rw.

(** ** Strings

    [std::string::find], [rfind(p, 0) == 0], [ends_with] and friends. *)

Definition str_find (needle s : string) : option nat := String.index 0 needle s.
Definition contains (s needle : string) : bool :=
  match str_find needle s with Some _ => true | None => false end.
Definition starts_with (s p : string) : bool := String.prefix p s.
Definition ends_with (s suf : string) : bool :=
  Nat.leb (String.length suf) (String.length s) &&
  String.eqb (String.substring (String.length s - String.length suf) (String.length suf) s) suf.
Definition is_empty (s : string) : bool := match s with EmptyString => true | _ => false end.

Definition drop_str (n : nat) (s : string) : string :=
  String.substring n (String.length s - n) s.

(** Decimal rendering, for the paths built with [std::to_string]. *)
Fixpoint digits_fuel (fuel : nat) (n : Z) (acc : string) : string :=
  match fuel with
  | O => acc
  | S f =>
      let acc' := String (Ascii.ascii_of_N (48 + Z.to_N (n mod 10))) acc in
      if n <? 10 then acc' else digits_fuel f (n / 10) acc'
  end.
Definition to_string (z : Z) : string :=
  if z <? 0 then String "-" (digits_fuel 20 (- z) "") else digits_fuel 20 z "".

Lemma length_list_ascii s : List.length (list_ascii_of_string s) = String.length s.
Proof. induction s as [|c s IH]; cbn; auto. Qed.

(** ** Sorting

    [std::sort] by a key, greatest first. The order of elements with the same key is one of
    those the library may choose. *)
Section Sort.
Context {A : Type} (key : A -> Z).

Fixpoint insert_desc (x : A) (l : list A) : list A :=
  match l with
  | [] => [x]
  | y :: l' => if key y <? key x then x :: l else y :: insert_desc x l'
  end.
Definition sort_desc (l : list A) : list A := foldr insert_desc [] l.

Definition not_below (x y : A) : Prop := key y <= key x.

Lemma insert_desc_perm x l : Permutation (insert_desc x l) (x :: l).
Proof.
  induction l as [|y l IH]; cbn [insert_desc]; [done|].
  destruct (key y <? key x); [done|]. rewrite IH. apply perm_swap.
Qed.

Lemma insert_desc_hdrel y x l :
  not_below y x -> HdRel not_below y l -> HdRel not_below y (insert_desc x l).
Proof.
  intros Hyx H. destruct l as [|z l]; cbn [insert_desc]; [by constructor|].
  destruct (key z <? key x); [by constructor|]. constructor. by inversion H.
Qed.

Lemma insert_desc_sorted x l : Sorted not_below l -> Sorted not_below (insert_desc x l).
Proof.
  induction 1 as [|y l Hl IH Hy]; cbn [insert_desc]; [by repeat constructor|].
  destruct (Z.ltb_spec (key y) (key x)).
  - constructor; [by constructor|]. constructor. unfold not_below. lia.
  - constructor; [done|]. apply insert_desc_hdrel; [unfold not_below; lia|done].
Qed.

Lemma sort_desc_perm l : Permutation (sort_desc l) l.
Proof. induction l as [|x l IH]; cbn; [done|]. by rewrite insert_desc_perm, IH. Qed.

Lemma sort_desc_sorted l : StronglySorted not_below (sort_desc l).
Proof.
  apply Sorted_StronglySorted; [intros x y z; unfold not_below; lia|].
  induction l as [|x l IH]; cbn; [constructor|]. by apply insert_desc_sorted.
Qed.
End Sort.

(** ** Effects

    Code that talks to the kernel, to the linker or to the JVM is a tree of calls: each node
    carries one call and continues with the answer. Quantifying over the answers is
    quantifying over everything the outside world can do, and the recorded events are what
    the safety theorems talk about. *)

Inductive halt : Type :=
| Exited (code : Z)        (* exit() or _exit() *)
| Replaced                 (* execve gave the process to another program *)
| Undefined (why : string) (* undefined behaviour or an uncaught C++ exception *)
| NoFuel.                  (* a loop outlasted the fuel it was given *)

Inductive res (A : Type) : Type :=
| Val (a : A)
| Stop (h : halt).
Arguments Val {A} a.
Arguments Stop {A} h.

Inductive prog (E : Type -> Type) (A : Type) : Type :=
| Ret (a : A)
| Halt (h : halt)
| Vis {X : Type} (e : E X) (k : X -> prog E A).
Arguments Ret {E A} a.
Arguments Halt {E A} h.
Arguments Vis {E A X} e k.

Inductive event (E : Type -> Type) : Type :=
| Ev {X : Type} (e : E X) (x : X).
Arguments Ev {E X} e x.

(** A pure computation that may stop. *)
Definition ofres {E A} (r : res A) : prog E A :=
  match r with Val a => Ret a | Stop h => Halt h end.

Section Prog.
Context {E : Type -> Type}.

Definition call {X} (e : E X) : prog E X := Vis e Ret.

Fixpoint bind {A B} (p : prog E A) (f : A -> prog E B) : prog E B :=
  match p with
  | Ret a => f a
  | Halt h => Halt h
  | Vis e k => Vis e (fun x => bind (k x) f)
  end.

(** [exec p tr r]: the answers recorded in [tr] drive [p] to the result [r]. *)
Fixpoint exec {A} (p : prog E A) (tr : list (event E)) (r : res A) : Prop :=
  match p with
  | Ret a => tr = [] /\ r = Val a
  | Halt h => tr = [] /\ r = Stop h
  | Vis e k => exists x tr', tr = Ev e x :: tr' /\ exec (k x) tr' r
  end.

(** [every_run p Q]: whatever the answers, the events and the result satisfy [Q]. *)
Fixpoint every_run {A} (p : prog E A) (Q : list (event E) -> res A -> Prop) : Prop :=
  match p with
  | Ret a => Q [] (Val a)
  | Halt h => Q [] (Stop h)
  | Vis e k => forall x, every_run (k x) (fun tr r => Q (Ev e x :: tr) r)
  end.

(** A concrete world answers the [n]-th call of a run. *)
Fixpoint run {A} (o : nat -> forall X, E X -> X) (n : nat) (p : prog E A) :
    list (event E) * res A :=
  match p with
  | Ret a => ([], Val a)
  | Halt h => ([], Stop h)
  | Vis e k =>
      let x := o n _ e in
      let '(tr, r) := run o (S n) (k x) in (Ev e x :: tr, r)
  end.
End Prog.

Declare Scope prog_scope.
Delimit Scope prog_scope with prog.
Notation "x <- m ;; k" := (bind m (fun x => k))
  (at level 100, m at next level, right associativity) : prog_scope.
Notation "'let*' p := m 'in' k" := (bind m (fun x => match x with p => k end))
  (at level 100, p strict pattern, m at next level, right associativity) : prog_scope.
Notation "m ;;; k" := (bind m (fun _ => k))
  (at level 100, right associativity) : prog_scope.
Open Scope prog_scope.

Section ProgFacts.
Context {E : Type -> Type}.

Lemma every_run_exec {A} (p : prog E A) Q :
  every_run p Q <-> forall tr r, exec p tr r -> Q tr r.
Proof.
  revert Q. induction p as [a|h|X e k IH]; intros Q; cbn.
  - split; [intros H ? ? [-> ->]; done | eauto].
  - split; [intros H ? ? [-> ->]; done | eauto].
  - split.
    + intros H tr r (x & tr' & -> & Hx). exact (proj1 (IH x _) (H x) tr' r Hx).
    + intros H x. apply IH. intros tr r Hx. apply H. eauto.
Qed.

(** A run is itself the best description of what a program did. *)
Lemma every_run_self {A} (p : prog E A) : every_run p (exec p).
Proof. by apply every_run_exec. Qed.

Lemma exec_run {A} (p : prog E A) o n : exec p (run o n p).1 (run o n p).2.
Proof.
  revert n. induction p as [a|h|X e k IH]; intros n; cbn; eauto.
  specialize (IH (o n X e) (S n)). destruct (run o (S n) (k (o n X e))) as [tr r]. eauto.
Qed.

(** So a property of every run is a property of the run in each world. *)
Lemma every_run_run {A} (p : prog E A) Q o n :
  every_run p Q -> Q (run o n p).1 (run o n p).2.
Proof. rewrite every_run_exec. intros H. apply H, exec_run. Qed.

Lemma every_run_mono {A} (p : prog E A) (Q Q' : list (event E) -> res A -> Prop) :
  (forall tr r, Q tr r -> Q' tr r) -> every_run p Q -> every_run p Q'.
Proof. rewrite !every_run_exec. eauto. Qed.

Lemma every_run_and {A} (p : prog E A) Q Q' :
  every_run p Q -> every_run p Q' -> every_run p (fun tr r => Q tr r /\ Q' tr r).
Proof. rewrite !every_run_exec. eauto. Qed.

Lemma every_run_trivial {A} (p : prog E A) (Q : list (event E) -> res A -> Prop) :
  (forall tr r, Q tr r) -> every_run p Q.
Proof. rewrite every_run_exec. eauto. Qed.

(** The cut rule. *)
Lemma every_run_bind {A B} (p : prog E A) (f : A -> prog E B) Q :
  every_run p (fun tr r =>
    match r with
    | Val a => every_run (f a) (fun tr' r' => Q (tr ++ tr') r')
    | Stop h => Q tr (Stop h)
    end) ->
  every_run (bind p f) Q.
Proof.
  revert Q. induction p as [a|h|X e k IH]; intros Q H; cbn in *; [exact H|exact H|].
  intros x. apply IH, H.
Qed.

Lemma every_run_call {X} (e : E X) Q :
  (forall x, Q [Ev e x] (Val x)) -> every_run (call e) Q.
Proof. done. Qed.

Lemma every_run_step {X B} (e : E X) (f : X -> prog E B) Q :
  (forall x, every_run (f x) (fun tr r => Q (Ev e x :: tr) r)) -> every_run (bind (call e) f) Q.
Proof. done. Qed.

(** Cut with a specification of the first part. *)
Lemma every_run_seq {A B} (p : prog E A) (f : A -> prog E B)
    (S : list (event E) -> res A -> Prop) Q :
  every_run p S ->
  (forall tr h, S tr (Stop h) -> Q tr (Stop h)) ->
  (forall tr a, S tr (Val a) -> every_run (f a) (fun tr' r' => Q (tr ++ tr') r')) ->
  every_run (bind p f) Q.
Proof.
  intros HS Hh Hv. apply every_run_bind. revert HS. apply every_run_mono.
  intros tr [a|h]; auto.
Qed.

(** A run that returns is a run of each part. *)
Lemma exec_bind_val {A B} (p : prog E A) (f : A -> prog E B) tr b :
  exec (bind p f) tr (Val b) ->
  exists tr1 a tr2, tr = tr1 ++ tr2 /\ exec p tr1 (Val a) /\ exec (f a) tr2 (Val b).
Proof.
  revert tr. induction p as [a|h|X e k IH]; cbn; intros tr H.
  - by exists [], a, tr.
  - by destruct H as [_ [=]].
  - destruct H as (x & tr' & -> & Hx). destruct (IH _ _ Hx) as (tr1 & a & tr2 & -> & H1 & H2).
    exists (Ev e x :: tr1), a, tr2. split; [done|]. split; [|done]. by exists x, tr1.
Qed.

Lemma bind_bind {A B C} (p : prog E A) (f : A -> prog E B) (g : B -> prog E C) Q :
  every_run (bind (bind p f) g) Q <-> every_run (bind p (fun a => bind (f a) g)) Q.
Proof.
  revert Q. induction p as [a|h|X e k IH]; intros Q; cbn; [done|done|].
  split; intros H x; apply IH, H.
Qed.
End ProgFacts.

(** A postcondition that only looks at how a run ends passes over everything before. *)
Section Endings.
Context {E : Type -> Type}.

Definition on_return {A} (P : list (event E) -> A -> Prop) (tr : list (event E)) (r : res A) : Prop :=
  match r with Val a => P tr a | Stop _ => True end.

Lemma every_run_suffix {A B} (p : prog E A) (f : A -> prog E B) P :
  (forall tr tr' b, P tr' b -> P (tr ++ tr') b) ->
  (forall a, every_run (f a) (on_return P)) ->
  every_run (bind p f) (on_return P).
Proof.
  intros Hs Hf. apply every_run_bind, every_run_trivial.
  intros tr [a|h]; [|done]. eapply every_run_mono, Hf.
  intros tr' [b|h]; cbn; auto.
Qed.

Lemma every_run_vis_suffix {X B} (e : E X) (f : X -> prog E B) P :
  (forall tr tr' b, P tr' b -> P (tr ++ tr') b) ->
  (forall a, every_run (f a) (on_return P)) ->
  every_run (Vis e f) (on_return P).
Proof. intros Hs Hf. exact (every_run_suffix (call e) f P Hs Hf). Qed.

(** Whether the last event of a run satisfies [f]. *)
Definition last_is (f : event E -> bool) (tr : list (event E)) : bool :=
  match last tr with Some ev => f ev | None => false end.

Lemma last_is_app f tr tr' : last_is f tr' = true -> last_is f (tr ++ tr') = true.
Proof.
  unfold last_is. intros H. destruct tr' as [|ev tr'] using rev_ind; [done|].
  rewrite app_assoc. rewrite last_snoc in *. exact H.
Qed.

Lemma last_is_snoc f tr ev : last_is f (tr ++ [ev]) = f ev.
Proof. unfold last_is. by rewrite last_snoc. Qed.
End Endings.

(** Every event of every run is of a given kind. *)
Section Emits.
Context {E : Type -> Type}.

Definition emits {A} (P : event E -> bool) (p : prog E A) : Prop :=
  every_run p (fun tr _ => forallb P tr = true).

Lemma emits_ret {A} P (a : A) : emits P (Ret a).
Proof. done. Qed.
Lemma emits_halt {A} P h : emits (A := A) P (Halt h).
Proof. done. Qed.
Lemma emits_call {X} P (e : E X) : (forall x, P (Ev e x) = true) -> emits P (call e).
Proof. intros H x. cbn. by rewrite H. Qed.
Lemma emits_bind {A B} P (p : prog E A) (f : A -> prog E B) :
  emits P p -> (forall a, emits P (f a)) -> emits P (bind p f).
Proof.
  intros Hp Hf. eapply every_run_seq; [exact Hp|done|].
  intros tr a Htr. eapply every_run_mono; [|apply Hf].
  intros tr' r Htr'. cbn in *. by rewrite forallb_app, Htr, Htr'.
Qed.
Lemma emits_mono {A} (P P' : event E -> bool) (p : prog E A) :
  (forall ev, P ev = true -> P' ev = true) -> emits P p -> emits P' p.
Proof.
  intros H. apply every_run_mono. intros tr _. induction tr as [|ev tr IH]; [done|]. cbn.
  intros [H1 H2]%andb_prop. rewrite H by done. by apply IH.
Qed.
End Emits.

(** What a program returns, when it returns, whatever it was answered. *)
Section Returns.
Context {E : Type -> Type}.

Definition returns {A} (P : A -> Prop) (p : prog E A) : Prop :=
  every_run p (on_return (fun _ a => P a)).

Lemma returns_ret {A} (P : A -> Prop) a : P a -> returns P (Ret a).
Proof. done. Qed.
Lemma returns_halt {A} (P : A -> Prop) h : returns P (Halt h).
Proof. done. Qed.
Lemma returns_any {A} (p : prog E A) : returns (fun _ => True) p.
Proof. apply every_run_trivial. by intros tr [a|h]. Qed.
Lemma returns_bind {A B} (P : A -> Prop) (Q : B -> Prop) (p : prog E A) (f : A -> prog E B) :
  returns P p -> (forall a, P a -> returns Q (f a)) -> returns Q (bind p f).
Proof.
  intros Hp Hf. eapply every_run_seq; [exact Hp|done|]. intros tr a Ha. cbn in Ha.
  eapply every_run_mono; [|apply Hf, Ha]. by intros tr' [b|h].
Qed.
Lemma returns_skip {A B} (Q : B -> Prop) (p : prog E A) (f : A -> prog E B) :
  (forall a, returns Q (f a)) -> returns Q (bind p f).
Proof. intros Hf. eapply returns_bind; [apply returns_any|]. auto. Qed.
Lemma returns_mono {A} (P Q : A -> Prop) (p : prog E A) :
  (forall a, P a -> Q a) -> returns P p -> returns Q p.
Proof. intros H. apply every_run_mono. intros tr [a|h]; cbn; auto. Qed.
End Returns.

(** Walks a program, splitting on its tests; leaves the calls it knows nothing about. *)
Ltac emits_tac :=
  repeat first
    [ apply emits_ret | apply emits_halt
    | apply emits_call; intros; reflexivity
    | solve [eauto with neo]
    | apply emits_bind; [|intros]
    | match goal with
      | |- emits _ (if ?b then _ else _) => destruct b
      | |- emits _ (match ?x with _ => _ end) => destruct x
      | |- emits _ (let _ := _ in _) => cbv zeta
      end ].

(** Calls of one kind made through another: a component's program run by its client. *)
Section Lift.
Context {E F : Type -> Type} (h : forall X, E X -> F X).

Fixpoint lift {A} (p : prog E A) : prog F A :=
  match p with
  | Ret a => Ret a
  | Halt x => Halt x
  | Vis e k => Vis (h _ e) (fun x => lift (k x))
  end.

Definition lift_event (ev : event E) : event F := match ev with Ev e x => Ev (h _ e) x end.

Lemma every_run_lift {A} (p : prog E A) Q :
  every_run p (fun tr r => Q (map lift_event tr) r) -> every_run (lift p) Q.
Proof.
  revert Q. induction p as [a|x|X e k IH]; intros Q H; cbn in *; [done|done|].
  intros x. apply IH. exact (H x).
Qed.

Lemma emits_lift {A} (P : event F -> bool) (p : prog E A) :
  emits (fun ev => P (lift_event ev)) p -> emits P (lift p).
Proof.
  intros H. apply every_run_lift. eapply every_run_mono; [|exact H]. intros tr r Htr. clear H.
  induction tr as [|ev tr IH]; [done|]. cbn in *. apply andb_prop in Htr as [H1 H2].
  rewrite H1. by apply IH.
Qed.

Lemma returns_lift {A} (P : A -> Prop) (p : prog E A) : returns P p -> returns P (lift p).
Proof. intros H. apply every_run_lift. eapply every_run_mono; [|exact H]. by intros tr [a|x]. Qed.
End Lift.

(** Loops over a list, and bounded retries. *)
Section Loops.
Context {E : Type -> Type}.

Fixpoint for_each {A} (l : list A) (body : A -> prog E unit) : prog E unit :=
  match l with
  | [] => Ret tt
  | x :: l => body x ;;; for_each l body
  end.

Fixpoint fold_prog {A S} (l : list A) (s : S) (body : S -> A -> prog E S) : prog E S :=
  match l with
  | [] => Ret s
  | x :: l => s' <- body s x ;; fold_prog l s' body
  end.

Lemma fold_prog_inv {A S} (l : list A) (s : S) body (I : list (event E) -> S -> Prop)
    (H : list (event E) -> Prop) :
  I [] s ->
  (forall tr s x, In x l -> I tr s ->
     every_run (body s x) (fun tr' r =>
       match r with Val s' => I (tr ++ tr') s' | Stop _ => H (tr ++ tr') end)) ->
  every_run (fold_prog l s body) (fun tr r =>
    match r with Val s' => I tr s' | Stop _ => H tr end).
Proof.
  enough (forall tr, I tr s ->
    (forall tr s x, In x l -> I tr s ->
     every_run (body s x) (fun tr' r =>
       match r with Val s' => I (tr ++ tr') s' | Stop _ => H (tr ++ tr') end)) ->
    every_run (fold_prog l s body) (fun tr' r =>
      match r with Val s' => I (tr ++ tr') s' | Stop _ => H (tr ++ tr') end)) as Hg.
  { intros H0 Hb. exact (Hg [] H0 Hb). }
  revert s. induction l as [|x l IH]; intros s tr H0 Hb; cbn.
  - by rewrite app_nil_r.
  - eapply every_run_seq; [apply Hb; [by left|exact H0]|done|].
    intros tr' s' Hs'. eapply every_run_mono; [|apply (IH s' (tr ++ tr') Hs')].
    + intros tr'' [a|h]; by rewrite app_assoc.
    + intros. apply Hb; [by right|done].
Qed.

Lemma emits_fold_prog {A S} P (l : list A) (s : S) (body : S -> A -> prog E S) :
  (forall s x, emits P (body s x)) -> emits P (fold_prog l s body).
Proof.
  intros H. revert s. induction l as [|x l IH]; intros s; [done|].
  apply emits_bind; [apply H|apply IH].
Qed.
Lemma returns_fold_prog {A S} (I : S -> Prop) (l : list A) (s : S) (body : S -> A -> prog E S) :
  I s -> (forall s x, In x l -> I s -> returns I (body s x)) -> returns I (fold_prog l s body).
Proof.
  revert s. induction l as [|x l IH]; intros s Hs Hb; [exact Hs|].
  eapply returns_bind; [apply Hb; [by left|done]|].
  intros s' Hs'. apply IH; [done|]. intros. apply Hb; [by right|done].
Qed.
Lemma emits_for_each {A} P (l : list A) (body : A -> prog E unit) :
  (forall x, emits P (body x)) -> emits P (for_each l body).
Proof.
  intros H. induction l as [|x l IH]; [done|]. by apply emits_bind.
Qed.
End Loops.

(** ** Trace vocabulary *)
Section Traces.
Context {E : Type -> Type}.
Definition count (f : event E -> bool) (tr : list (event E)) : nat :=
  List.length (List.filter f tr).

Lemma count_app f tr tr' : count f (tr ++ tr') = (count f tr + count f tr')%nat.
Proof. unfold count. by rewrite List.filter_app, length_app. Qed.
Lemma count_cons f ev tr : count f (ev :: tr) = ((if f ev then 1 else 0) + count f tr)%nat.
Proof. unfold count. cbn. by destruct (f ev). Qed.
Lemma count_nil f : count f [] = 0%nat.
Proof. done. Qed.
End Traces.

#[export] Hint Rewrite @count_app @count_cons @count_nil : neo_rw.

(** Symbolic execution: introduce each answer and split on each test. *)
Ltac step := apply every_run_step.
Ltac sym_step :=
  match goal with
  | |- every_run (Vis _ _) _ => cbn [every_run]
  | |- forall _, _ => intros
  | |- context [match ?x with _ => _ end] => case_eq x; intros
  end.
Ltac sym := repeat (cbn; intros; try case_match).
