(* ===== verification/Scan.v ===== *)
(** * Text scanning

    The pieces of the C and C++ libraries the loader reads text with: [std::getline] and
    [operator>>] on a stream, [std::from_chars], [strtol], [fgets] and the conversions of
    [sscanf]; [parse_int] of common/misc.cpp, which is built on them; and bionic's numbers of
    devices. *)
From Stdlib Require Import ZArith Lia List String Ascii Bool.
From stdpp Require Import base list strings.
From S2P Require Import Prelude.
Open Scope string_scope.
Open Scope list_scope.
Open Scope Z_scope.

Definition code (c : ascii) : Z := Z.of_N (N_of_ascii c).
Definition char (z : Z) : ascii := ascii_of_N (Z.to_N z).
Definition newline : ascii := char 10.
Definition nul : ascii := char 0.

(** [isspace] in the C locale. *)
Definition is_space (c : ascii) : bool :=
  ((9 <=? code c) && (code c <=? 13)) || (code c =? 32).

Definition digit (base : Z) (c : ascii) : option Z :=
  let z := code c in
  let v := if (48 <=? z) && (z <=? 57) then z - 48
           else if (97 <=? z) && (z <=? 102) then z - 87
           else if (65 <=? z) && (z <=? 70) then z - 55
           else 99 in
  if v <? base then Some v else None.

Fixpoint skip_space (s : string) : string :=
  match s with
  | String c s' => if is_space c then skip_space s' else s
  | EmptyString => s
  end.

(** The digits at the front of [s], most significant first: value, how many, what is left. *)
Fixpoint scan_digits (base : Z) (acc : Z) (n : nat) (s : string) : Z * nat * string :=
  match s with
  | String c s' =>
      match digit base c with
      | Some d => scan_digits base (acc * base + d) (S n) s'
      | None => (acc, n, s)
      end
  | EmptyString => (acc, n, s)
  end.

Definition scan_nat (base : Z) (s : string) : option (Z * string) :=
  let '(v, n, rest) := scan_digits base 0 0 s in
  match n with O => None | S _ => Some (v, rest) end.

(** An optional sign, then digits: what [strtol] and the integer conversions accept. *)
Definition scan_signed (base : Z) (s : string) : option (Z * string) :=
  match s with
  | String "-" s' => option_map (fun '(v, r) => (- v, r)) (scan_nat base s')
  | String "+" s' => scan_nat base s'
  | _ => scan_nat base s
  end.

(** [sscanf]'s [%d], [%u] and [%lu] (skipping blanks first), and [%x] with its optional 0x. *)
Definition scan_d (s : string) : option (Z * string) := scan_signed 10 (skip_space s).
Definition scan_u (w : Z) (s : string) : option (Z * string) :=
  option_map (fun '(v, r) => (wrap w v, r)) (scan_d s).
Definition scan_x (w : Z) (s : string) : option (Z * string) :=
  let s := skip_space s in
  let s' := match s with
            | String "0" (String "x" (String c r)) =>
                match digit 16 c with Some _ => String c r | None => s end
            | _ => s
            end in
  option_map (fun '(v, r) => (wrap w v, r)) (scan_signed 16 s').

Fixpoint scan_lit (lit s : string) : option string :=
  match lit, s with
  | EmptyString, _ => Some s
  | String a l, String b s' => if Ascii.eqb a b then scan_lit l s' else None
  | _, EmptyString => None
  end.

(** A run of non-blanks, at most [n] of them ([%4s]), and without a bound ([operator>>]). *)
Fixpoint take_word (n : nat) (s : string) : string * string :=
  match n, s with
  | S n, String c s' =>
      if is_space c then ("", s)
      else let '(w, r) := take_word n s' in (String c w, r)
  | _, _ => ("", s)
  end.
Definition scan_word (n : nat) (s : string) : option (string * string) :=
  let '(w, r) := take_word n (skip_space s) in
  if is_empty w then None else Some (w, r).
Definition next_token (s : string) : option (string * string) :=
  scan_word (String.length s) s.

(** [stream >> unsigned]: failure on anything but a number in range. *)
Definition next_unsigned (s : string) : option (Z * string) :=
  match scan_d s with
  | Some (v, r) => if Z.abs v <? 2 ^ 32 then Some (u32 v, r) else None
  | None => None
  end.

(** Everything up to the newline: [std::getline] on what is left of a line. *)
Fixpoint split_line (s : string) : string * string :=
  match s with
  | EmptyString => ("", "")
  | String c s' =>
      if Ascii.eqb c newline then ("", s')
      else let '(l, r) := split_line s' in (String c l, r)
  end.

(** A whole file read with [while (std::getline(file, line))]: the newlines are dropped and a
    last line without one still counts. *)
Fixpoint lines_from (cur : string) (s : string) : list string :=
  match s with
  | EmptyString => if is_empty cur then [] else [cur]
  | String c s' =>
      if Ascii.eqb c newline then cur :: lines_from "" s'
      else lines_from (cur +:+ String c "") s'
  end.
Definition getlines (s : string) : list string := lines_from "" s.

(** [fgets] with a buffer of [n + 1] bytes, over a whole file: at most [n] characters a piece,
    the newline kept. *)
Fixpoint fgets_from (n : nat) (room : nat) (cur : string) (s : string) : list string :=
  match s with
  | EmptyString => if is_empty cur then [] else [cur]
  | String c s' =>
      let cur' := cur +:+ String c "" in
      match Ascii.eqb c newline, room with
      | true, _ => cur' :: fgets_from n (pred n) "" s'
      | false, O => cur' :: fgets_from n (pred n) "" s'
      | false, S room' => fgets_from n room' cur' s'
      end
  end.
Definition fgets_all (n : nat) (s : string) : list string := fgets_from n (pred n) "" s.

(** The first line one of [f]'s conversions matches. *)
Fixpoint first_match {A} (f : string -> option A) (ls : list string) : option A :=
  match ls with
  | [] => None
  | l :: ls => match f l with Some a => Some a | None => first_match f ls end
  end.

(** A C string ends at its first NUL. *)
Fixpoint c_str (s : string) : string :=
  match s with
  | EmptyString => ""
  | String c s' => if Ascii.eqb c nul then "" else String c (c_str s')
  end.

(** [std::from_chars] into an int: a minus sign but no plus and no blanks, range checked. *)
Definition from_chars_int (s : string) : option (Z * string) :=
  let r := match s with
           | String "-" s' => option_map (fun '(v, r) => (- v, r)) (scan_nat 10 s')
           | _ => scan_nat 10 s
           end in
  match r with
  | Some (v, rest) => if (- 2 ^ 31 <=? v) && (v <? 2 ^ 31) then Some (v, rest) else None
  | None => None
  end.

(** misc.cpp: the whole text must be the number, and -1 stands for every failure. *)
Definition parse_int (s : string) : Z :=
  match from_chars_int s with
  | Some (v, EmptyString) => v
  | _ => -1
  end.

(** [strtol(s, &end, 10)] followed by the checks [*end == 0], [errno == 0], [value > 0]. *)
Definition strtol_positive (s : string) : option Z :=
  match scan_d s with
  | Some (v, EmptyString) => if (0 <? v) && (v <? 2 ^ 63) then Some v else None
  | _ => None
  end.

(** ** Device numbers

    bionic's [makedev], [major] and [minor]: the numbers are interleaved in a [dev_t] of [w]
    bits. *)
Definition makedev (w maj min : Z) : Z :=
  wrap w (Z.lor (Z.lor (Z.shiftl (Z.land maj 0xfffff000) 32) (Z.shiftl (Z.land maj 0xfff) 8))
                (Z.lor (Z.shiftl (Z.land min 0xffffff00) 12) (Z.land min 0xff))).
Definition major (dev : Z) : Z :=
  Z.lor (Z.land (Z.shiftr dev 32) 0xfffff000) (Z.land (Z.shiftr dev 8) 0xfff).
Definition minor (dev : Z) : Z :=
  Z.lor (Z.land (Z.shiftr dev 12) 0xffffff00) (Z.land dev 0xff).

(** ** Facts *)

Lemma append_cons c s t : String c s +:+ t = String c (s +:+ t).
Proof. reflexivity. Qed.
Lemma append_nil t : "" +:+ t = t.
Proof. reflexivity. Qed.
Lemma append_empty_r s : s +:+ "" = s.
Proof. induction s as [|c s IH]; [done|]. by rewrite append_cons, IH. Qed.

Lemma digit_of_value d : 0 <= d < 10 -> digit 10 (ascii_of_N (48 + Z.to_N d)) = Some d.
Proof.
  intros H. assert (d = 0 \/ d = 1 \/ d = 2 \/ d = 3 \/ d = 4 \/ d = 5 \/ d = 6 \/ d = 7
    \/ d = 8 \/ d = 9) as Hd by lia.
  repeat (destruct Hd as [-> | Hd]; [reflexivity|]). by subst.
Qed.

Lemma scan_digits_app fuel n acc k rest0 :
  0 <= n < 10 ^ Z.of_nat fuel -> fuel <> O ->
  exists m, 0 < m /\ forall a, scan_digits 10 a k (digits_fuel fuel n acc +:+ rest0)
    = scan_digits 10 (a * 10 ^ m + n) (k + Z.to_nat m) (acc +:+ rest0).
Proof.
  revert n acc k. induction fuel as [|f IH]; [done|].
  intros n acc k Hn _. cbn [digits_fuel].
  destruct (Z.ltb_spec n 10) as [Hlt|Hge].
  - exists 1. split; [lia|]. intros a. rewrite append_cons. cbn [scan_digits].
    rewrite Z.mod_small, digit_of_value by lia. f_equal; lia.
  - destruct f as [|f']; [cbn in Hn; lia|].
    destruct (IH (n / 10) (String (ascii_of_N (48 + Z.to_N (n mod 10))) acc) k) as (m & Hm & E).
    { split; [apply Z.div_pos; lia|].
      apply Z.div_lt_upper_bound; [lia|].
      rewrite (Nat2Z.inj_succ (S f')), Z.pow_succ_r in Hn by lia. lia. }
    { done. }
    exists (m + 1). split; [lia|]. intros a. rewrite E. rewrite append_cons. cbn [scan_digits].
    rewrite digit_of_value by (apply Z.mod_pos_bound; lia).
    rewrite Z.pow_add_r by lia. f_equal; [|lia].
    pose proof (Z.div_mod n 10). lia.
Qed.

Lemma scan_nat_to_string n rest :
  0 <= n < 10 ^ 20 -> (forall c s, rest = String c s -> digit 10 c = None) ->
  scan_nat 10 (to_string n +:+ rest) = Some (n, rest).
Proof.
  intros Hn Hrest. unfold scan_nat, to_string.
  destruct (Z.ltb_spec n 0); [lia|].
  destruct (scan_digits_app 20 n "" 0 rest) as (m & Hm & E); [done|done|].
  rewrite E, append_nil. rewrite Z.mul_0_l, Z.add_0_l, Nat.add_0_l.
  destruct rest as [|c s]; cbn.
  - by destruct (Z.to_nat m) eqn:?; [lia|].
  - rewrite (Hrest c s eq_refl). by destruct (Z.to_nat m) eqn:?; [lia|].
Qed.

(** The first character of a rendered number is a digit. *)
Lemma digits_fuel_head fuel n acc :
  fuel <> O -> exists d t, 0 <= d < 10 /\
    digits_fuel fuel n acc = String (ascii_of_N (48 + Z.to_N d)) t.
Proof.
  revert n acc. induction fuel as [|f IH]; [done|]. intros n acc _. cbn [digits_fuel].
  pose proof (Z.mod_pos_bound n 10).
  destruct (n <? 10); [exists (n mod 10), acc; auto with lia|].
  destruct f as [|f']; [exists (n mod 10), acc; cbn; auto with lia|].
  by apply IH.
Qed.

Lemma to_string_head n : 0 <= n -> exists d t, 0 <= d < 10 /\
  to_string n = String (ascii_of_N (48 + Z.to_N d)) t.
Proof.
  intros Hn. unfold to_string. destruct (Z.ltb_spec n 0); [lia|]. by apply digits_fuel_head.
Qed.
(** A digit is neither a sign nor a blank. *)
Lemma digit_not_sign d : 0 <= d < 10 ->
  (forall A (a b : A), match ascii_of_N (48 + Z.to_N d) with "-"%char => a | _ => b end = b) /\
  (forall A (a b c : A), match ascii_of_N (48 + Z.to_N d) with
                         | "-"%char => a | "+"%char => b | _ => c end = c) /\
  is_space (ascii_of_N (48 + Z.to_N d)) = false.
Proof.
  intros H. assert (d = 0 \/ d = 1 \/ d = 2 \/ d = 3 \/ d = 4 \/ d = 5 \/ d = 6 \/ d = 7
    \/ d = 8 \/ d = 9) as Hd by lia.
  repeat (destruct Hd as [-> | Hd]; [by repeat split|]). by subst.
Qed.
Lemma scan_nat_whole n : 0 <= n < 10 ^ 20 -> scan_nat 10 (to_string n) = Some (n, "").
Proof. intros Hn. rewrite <- (append_empty_r (to_string n)). by apply scan_nat_to_string. Qed.

(** The names [/proc/self/fd] lists are the decimal descriptors, and [parse_int] reads back
    exactly the descriptor. *)
Lemma parse_int_to_string n : 0 <= n < 2 ^ 31 -> parse_int (to_string n) = n.
Proof.
  intros Hn. unfold parse_int, from_chars_int. pose proof (scan_nat_whole n) as E.
  destruct (to_string_head n) as (d & t & Hd & Ht); [lia|]. rewrite Ht in *.
  destruct (digit_not_sign d Hd) as [Hc _]. rewrite Hc, E by lia.
  destruct (Z.leb_spec (- 2 ^ 31) n); [|lia]. by destruct (Z.ltb_spec n (2 ^ 31)); [|lia].
Qed.

(** A pid written with [std::to_string] is the one [strtol] reads. *)
Lemma strtol_to_string n : 0 < n < 2 ^ 63 -> strtol_positive (to_string n) = Some n.
Proof.
  intros Hn. unfold strtol_positive, scan_d. pose proof (scan_nat_whole n) as E.
  destruct (to_string_head n) as (d & t & Hd & Ht); [lia|]. rewrite Ht in *.
  destruct (digit_not_sign d Hd) as (_ & Hc & Hs). cbn [skip_space]. rewrite Hs.
  unfold scan_signed. rewrite Hc, E by lia.
  destruct (Z.ltb_spec 0 n); [|lia]. by destruct (Z.ltb_spec n (2 ^ 63)); [|lia].
Qed.

Example parse_int_dot : parse_int "." = -1. Proof. reflexivity. Qed.
Example parse_int_17 : parse_int "17" = 17. Proof. reflexivity. Qed.
Example parse_int_overflow : parse_int "2147483648" = -1. Proof. reflexivity. Qed.
Example parse_int_trailing : parse_int "12a" = -1. Proof. reflexivity. Qed.

(** ** Facts: device numbers *)

(** The bits of a run of ones, and of the masks of the three functions. *)
Lemma testbit_run k n i :
  0 <= k -> 0 <= n -> 0 <= i -> Z.testbit (Z.shiftl (Z.ones n) k) i = (k <=? i) && (i <? k + n).
Proof.
  intros Hk Hn Hi. rewrite Z.shiftl_spec by lia. destruct (Z.leb_spec k i); cbn.
  - rewrite Z.testbit_ones_nonneg by lia. destruct (Z.ltb_spec (i - k) n), (Z.ltb_spec i (k + n)); lia.
  - by rewrite Z.testbit_neg_r by lia.
Qed.

Lemma dev_masks i : 0 <= i ->
  Z.testbit 0xfffff000 i = (12 <=? i) && (i <? 32) /\ Z.testbit 0xfff i = (i <? 12) /\
  Z.testbit 0xffffff00 i = (8 <=? i) && (i <? 32) /\ Z.testbit 0xff i = (i <? 8).
Proof.
  intros Hi.
  change 0xfffff000 with (Z.shiftl (Z.ones 20) 12). change 0xfff with (Z.shiftl (Z.ones 12) 0).
  change 0xffffff00 with (Z.shiftl (Z.ones 24) 8). change 0xff with (Z.shiftl (Z.ones 8) 0).
  rewrite !testbit_run by lia. cbn [Z.add]. destruct (Z.leb_spec 0 i); [|lia]. done.
Qed.

Lemma testbit_major d i : 0 <= i ->
  Z.testbit (major d) i = (if i <? 12 then Z.testbit d (i + 8)
                           else if i <? 32 then Z.testbit d (i + 32) else false).
Proof.
  intros Hi. unfold major. rewrite Z.lor_spec, !Z.land_spec, !Z.shiftr_spec by done.
  destruct (dev_masks i Hi) as (-> & -> & _).
  destruct (Z.leb_spec 12 i), (Z.ltb_spec i 12), (Z.ltb_spec i 32); try lia; cbn;
    by rewrite ?andb_false_r, ?andb_true_r, ?orb_false_r.
Qed.
Lemma testbit_minor d i : 0 <= i ->
  Z.testbit (minor d) i = (if i <? 8 then Z.testbit d i
                           else if i <? 32 then Z.testbit d (i + 12) else false).
Proof.
  intros Hi. unfold minor. rewrite Z.lor_spec, !Z.land_spec, !Z.shiftr_spec by done.
  destruct (dev_masks i Hi) as (_ & _ & -> & ->).
  destruct (Z.leb_spec 8 i), (Z.ltb_spec i 8), (Z.ltb_spec i 32); try lia; cbn;
    by rewrite ?andb_false_r, ?andb_true_r, ?orb_false_r.
Qed.

(** A number of [n] bits. *)
Lemma bits_bound z n : 0 <= n -> 0 <= z -> (forall i, n <= i -> Z.testbit z i = false) -> z < 2 ^ n.
Proof.
  intros Hn Hz H. destruct (Z.eq_dec z 0) as [->|Hne]; [by apply Z.pow_pos_nonneg|].
  destruct (Z.lt_ge_cases z (2 ^ n)) as [|Hge]; [done|]. exfalso.
  assert (n <= Z.log2 z) as Hl by (apply Z.log2_le_pow2; lia).
  specialize (H _ Hl). by rewrite Z.bit_log2 in H by lia.
Qed.
Lemma major_bound d : 0 <= d -> 0 <= major d < 2 ^ 32.
Proof.
  intros Hd. assert (0 <= major d) as H.
  { unfold major. apply Z.lor_nonneg. split; apply Z.land_nonneg; lia. }
  split; [done|]. apply bits_bound; [done..|]. intros i Hi. rewrite testbit_major by lia.
  destruct (Z.ltb_spec i 12), (Z.ltb_spec i 32); lia || done.
Qed.
Lemma minor_bound d : 0 <= d -> 0 <= minor d < 2 ^ 32.
Proof.
  intros Hd. assert (0 <= minor d) as H.
  { unfold minor. apply Z.lor_nonneg. split; apply Z.land_nonneg; lia. }
  split; [done|]. apply bits_bound; [done..|]. intros i Hi. rewrite testbit_minor by lia.
  destruct (Z.ltb_spec i 8), (Z.ltb_spec i 32); lia || done.
Qed.

(** Where [makedev] puts a run of a number's bits. *)
Lemma testbit_field x k n s i :
  0 <= k -> 0 <= n -> 0 <= s -> 0 <= i ->
  Z.testbit (Z.shiftl (Z.land x (Z.shiftl (Z.ones n) k)) s) i =
    (s + k <=? i) && (i <? s + k + n) && Z.testbit x (i - s).
Proof.
  intros. rewrite Z.shiftl_spec by done. destruct (Z.leb_spec s i).
  - rewrite Z.land_spec, testbit_run, andb_comm by lia. f_equal.
    destruct (Z.leb_spec k (i - s)), (Z.leb_spec (s + k) i), (Z.ltb_spec (i - s) (k + n)),
      (Z.ltb_spec i (s + k + n)); lia || done.
  - rewrite Z.testbit_neg_r by lia. destruct (Z.leb_spec (s + k) i); lia || done.
Qed.

(** Every [dev_t] is what [makedev] makes of its two numbers. *)
Lemma makedev_major_minor w d : 0 <= d < 2 ^ Z.min w 64 -> makedev w (major d) (minor d) = d.
Proof.
  intros [Hd Hlt]. assert (0 <= w) as Hw.
  { destruct (Z.le_gt_cases 0 w); [done|]. rewrite Z.pow_neg_r in Hlt by lia. lia. }
  assert (d < 2 ^ w /\ d < 2 ^ 64) as [Hdw Hd64].
  { split; (eapply Z.lt_le_trans; [exact Hlt|]); apply Z.pow_le_mono_r; lia. }
  unfold makedev. replace (Z.lor _ _) with d; [by apply wrap_small|].
  apply Z.bits_inj'. intros i Hi.
  assert (64 <= i -> Z.testbit d i = false) as Hhigh.
  { intros H. apply Z.bits_above_log2; [done|]. destruct (Z.eq_dec d 0) as [->|]; [cbn; lia|].
    apply Z.log2_lt_pow2; [lia|]. eapply Z.lt_le_trans; [exact Hd64|]. apply Z.pow_le_mono_r; lia. }
  rewrite <- (Z.shiftl_0_r (Z.land (minor d) 0xff)).
  change 0xfffff000 with (Z.shiftl (Z.ones 20) 12). change 0xfff with (Z.shiftl (Z.ones 12) 0).
  change 0xffffff00 with (Z.shiftl (Z.ones 24) 8). change 0xff with (Z.shiftl (Z.ones 8) 0).
  rewrite !Z.lor_spec, !testbit_field by lia.
  assert (i < 8 \/ 8 <= i < 20 \/ 20 <= i < 44 \/ 44 <= i < 64 \/ 64 <= i) as Hc by lia.
  destruct Hc as [Hc|[Hc|[Hc|[Hc|Hc]]]];
    repeat (match goal with
            | |- context [?x <=? ?y] => destruct (Z.leb_spec x y); try lia
            | |- context [?x <? ?y] => destruct (Z.ltb_spec x y); try lia
            end); cbn [andb orb]; rewrite ?orb_false_r, ?testbit_major, ?testbit_minor by lia;
    [..|by apply Hhigh];
    repeat (match goal with |- context [?x <? ?y] => destruct (Z.ltb_spec x y); try lia end);
    f_equal; lia.
Qed.
