(* ===== verification/Files.v ===== *)
(** * Files and directories of the standard library

    common/files.cpp and include/files.hpp: the owning wrappers of FILE and DIR, and the reader
    that gives a file to a callback line by line. *)
From Stdlib Require Import ZArith Lia List String Ascii Bool.
From stdpp Require Import base list strings.
From S2P Require Import Prelude.
From S2P Require Import Scan.
Open Scope string_scope.
Open Scope list_scope.
Open Scope Z_scope.

(** The calls of the C library; a null pointer is 0. [getline] may move its buffer. *)
Inductive stdio : Type -> Type :=
| Fopen (path mode : string) : stdio Z
| Fdopen (fd : Z) (mode : string) : stdio Z
| Fclose (fp : Z) : stdio Z
| Opendir (path : string) : stdio Z
| Fdopendir (fd : Z) : stdio Z
| Closedir (dp : Z) : stdio Z
| Malloc (size : Z) : stdio Z
| Getline (buf fp : Z) : stdio (Z * option string)   (* the buffer, and the line it read *)
| Free (buf : Z) : stdio unit.

(** ** Owners *)

(** The deleters of [make_file] and [make_dir], and the owners' destructors, which call them
    unless they own nothing. *)
Definition file_deleter (fp : Z) : prog stdio Z := if fp =? 0 then Ret 1 else call (Fclose fp).
Definition dir_deleter (dp : Z) : prog stdio Z := if dp =? 0 then Ret 1 else call (Closedir dp).
Definition owning {A} (deleter : Z -> prog stdio Z) (made : prog stdio Z) (body : Z -> prog stdio A) :
    prog stdio A :=
  p <- made ;;
  a <- body p ;;
  (if p =? 0 then Ret tt else deleter p ;;; Ret tt) ;;; Ret a.
Definition make_file {A} : prog stdio Z -> (Z -> prog stdio A) -> prog stdio A := owning file_deleter.
Definition make_dir {A} : prog stdio Z -> (Z -> prog stdio A) -> prog stdio A := owning dir_deleter.

Definition open_dir {A} (path : string) : (Z -> prog stdio A) -> prog stdio A :=
  make_dir (call (Opendir path)).
Definition xopen_dir {A} (path : string) : (Z -> prog stdio A) -> prog stdio A :=
  make_dir (call (Opendir path)).
Definition xopen_dir_fd {A} (dirfd : Z) : (Z -> prog stdio A) -> prog stdio A :=
  make_dir (call (Fdopendir dirfd)).
Definition open_file {A} (path mode : string) : (Z -> prog stdio A) -> prog stdio A :=
  make_file (call (Fopen path mode)).
Definition xopen_file {A} (path mode : string) : (Z -> prog stdio A) -> prog stdio A :=
  make_file (call (Fopen path mode)).
Definition xopen_file_fd {A} (fd : Z) (mode : string) : (Z -> prog stdio A) -> prog stdio A :=
  make_file (call (Fdopen fd mode)).

(** ** Lines *)

(** What trimming strips from the end, and from the front. *)
Definition is_trailing (c : ascii) : bool :=
  Ascii.eqb c newline || Ascii.eqb c (char 13) || Ascii.eqb c " ".
Fixpoint trim_end (s : string) : string :=
  match s with
  | EmptyString => ""
  | String c s =>
      let t := trim_end s in
      if is_empty t && is_trailing c then "" else String c t
  end.
Fixpoint trim_front (s : string) : string :=
  match s with String " " s' => trim_front s' | _ => s end.
(** The callback sees a C string. *)
Definition shown (trim : bool) (line : string) : string :=
  if trim then trim_front (c_str (trim_end line)) else c_str line.

(** [fn] answers whether to go on; [S] is what it keeps. *)
Section Readline.
Context {S : Type} (fn : S -> string -> S * bool) (trim : bool).

Fixpoint read_lines (fuel : nat) (fp buf : Z) (st : S) : prog stdio (Z * S) :=
  match fuel with
  | O => Halt NoFuel
  | Datatypes.S fuel =>
      let* (buf, line) := call (Getline buf fp) in
      match line with
      | None => Ret (buf, st)
      | Some line =>
          let '(st, more) := fn st (shown trim line) in
          if more : bool then read_lines fuel fp buf st else Ret (buf, st)
      end
  end.

Definition file_readline (fuel : nat) (fp : Z) (st : S) : prog stdio S :=
  buf <- call (Malloc 1024) ;;
  let* (buf, st) := read_lines fuel fp buf st in
  call (Free buf) ;;; Ret st.

Definition file_readline_path (fuel : nat) (file : string) (st : S) : prog stdio S :=
  open_file file "re" (fun fp => if fp =? 0 then Ret st else file_readline fuel fp st).
End Readline.

Definition file_readline_raw {S} (fn : S -> string -> S * bool) (fuel : nat) (file : string) (st : S) :
    prog stdio S := file_readline_path fn false fuel file st.

(** ** Facts: what is opened is closed, what is allocated is freed *)

Definition reads (fp : Z) (ev : event stdio) : bool :=
  match ev with Ev (Getline _ p) _ => p =? fp | _ => false end.

Section ReadlineFacts.
Context {S : Type} (fn : S -> string -> S * bool) (trim : bool).

Lemma read_lines_reads fuel fp buf st : emits (reads fp) (read_lines fn trim fuel fp buf st).
Proof.
  revert buf st. induction fuel as [|fuel IH]; intros buf st; [done|]. cbn [read_lines].
  apply emits_bind; [apply emits_call; intros; apply Z.eqb_refl|].
  intros [buf' [line|]]; [|done]. destruct (fn st _) as [st' []]; [apply IH|done].
Qed.

(** When the file could be opened, its buffer is freed and it is closed, once and last, and in
    between it was only read; otherwise nothing was touched. *)
Lemma file_given_back fuel file st :
  every_run (file_readline_path fn trim fuel file st) (on_return (fun tr st' => exists fp,
    if fp =? 0 then tr = [Ev (Fopen file "re") fp] /\ st' = st
    else exists buf during buf' closed,
      tr = Ev (Fopen file "re") fp :: Ev (Malloc 1024) buf :: during ++
             [Ev (Free buf') tt; Ev (Fclose fp) closed] /\
      forallb (reads fp) during = true)).
Proof.
  unfold file_readline_path, open_file, make_file, owning. step. intros fp.
  destruct (fp =? 0) eqn:E; [by exists fp; rewrite E|].
  apply bind_bind. step. intros buf. apply bind_bind.
  eapply every_run_seq; [apply read_lines_reads|done|]. intros during [buf' st'] Hr.
  unfold file_deleter. rewrite E. intros [] closed. exists fp. rewrite E.
  by exists buf, during, buf', closed.
Qed.

(** A callback that never stops the reader is given every line. *)
Fixpoint line_events (fp buf : Z) (lines : list string) : list (event stdio) :=
  match lines with
  | [] => [Ev (Getline buf fp) (buf, None)]
  | l :: lines => Ev (Getline buf fp) (buf, Some l) :: line_events fp buf lines
  end.
Lemma read_lines_folds fuel fp buf lines st :
  (forall st l, snd (fn st l) = true) -> (List.length lines < fuel)%nat ->
  exec (read_lines fn trim fuel fp buf st) (line_events fp buf lines)
    (Val (buf, fold_left (fun st l => fst (fn st (shown trim l))) lines st)).
Proof.
  intros Hfn. revert fuel st. induction lines as [|l lines IH]; intros [|fuel] st Hf; cbn in Hf; try lia.
  - by exists (buf, None), [].
  - exists (buf, Some l), (line_events fp buf lines). split; [done|]. cbn.
    destruct (fn st (shown trim l)) as [st' more] eqn:E.
    pose proof (Hfn st (shown trim l)) as Hm. rewrite E in Hm. cbn in Hm. subst more.
    apply IH. lia.
Qed.
End ReadlineFacts.

(** Trimming leaves no blank at either end. *)
Lemma trim_end_last s t c : trim_end s = t +:+ String c "" -> is_trailing c = false.
Proof.
  revert t. induction s as [|x s IH]; intros t; cbn; [by destruct t|].
  destruct (trim_end s) as [|y u] eqn:E.
  - cbn. destruct (is_trailing x) eqn:Ex; [by destruct t|]. intros H. destruct t as [|z t].
    + by injection H as ->.
    + rewrite append_cons in H. injection H as _ H. by destruct t.
  - cbn. intros H. destruct t as [|z t]; [by injection H|].
    rewrite append_cons in H. injection H as _ H. by apply (IH t).
Qed.
Lemma trim_front_head s : forall t, trim_front s <> String " " t.
Proof.
  induction s as [|x s IH]; intros t; [done|]. cbn.
  destruct x as [[] [] [] [] [] [] [] []]; first [apply IH|discriminate].
Qed.
Example shown_trimmed : shown true ("  ab c " +:+ String (char 13) (String newline "")) = "ab c".
Proof. vm_compute. reflexivity. Qed.
