(* ===== verification/Sys.v ===== *)
(** * The kernel as the tracer and the monitor see it

    The calls the ptracer executable makes, with the constants it passes and the encoding of
    the wait status it reads back. A call's answer is whatever the kernel chooses. *)
From Stdlib Require Import ZArith Lia List String Ascii Bool.
From stdpp Require Import base list strings.
From S2P Require Import Prelude.
From S2P Require Import Scan.
Open Scope string_scope.
Open Scope list_scope.
Open Scope Z_scope.

(** ** Signals, ptrace events and options *)

Definition SIGINT : Z := 2.
Definition SIGKILL : Z := 9.
Definition SIGSEGV : Z := 11.
Definition SIGTERM : Z := 15.
Definition SIGTRAP : Z := 5.
Definition SIGCHLD : Z := 17.
Definition SIGCONT : Z := 18.
Definition SIGSTOP : Z := 19.
Definition SIGTSTP : Z := 20.
Definition SIGTTIN : Z := 21.
Definition SIGTTOU : Z := 22.

Definition PTRACE_EVENT_FORK : Z := 1.
Definition PTRACE_EVENT_VFORK : Z := 2.
Definition PTRACE_EVENT_CLONE : Z := 3.
Definition PTRACE_EVENT_EXEC : Z := 4.
Definition PTRACE_EVENT_VFORK_DONE : Z := 5.
Definition PTRACE_EVENT_EXIT : Z := 6.
Definition PTRACE_EVENT_SECCOMP : Z := 7.
Definition PTRACE_EVENT_STOP : Z := 128.

Definition PTRACE_O_TRACEFORK : Z := 0x2.
Definition PTRACE_O_TRACEEXEC : Z := 0x10.
Definition PTRACE_O_TRACESECCOMP : Z := 0x80.
Definition PTRACE_O_EXITKILL : Z := 0x100000.

Definition WNOHANG : Z := 1.
Definition WALL : Z := 0x40000000.   (* __WALL *)
Definition EIO : Z := 5.
Definition EINTR : Z := 4.
Definition ENOENT : Z := 2.
Definition EAGAIN : Z := 11.
Definition EEXIST : Z := 17.
Definition ECONNREFUSED : Z := 111.
Definition EXIT_SUCCESS : Z := 0.
Definition EXIT_FAILURE : Z := 1.

(** ** The wait status, as libc's macros take it apart *)

Definition WTERMSIG (s : Z) : Z := Z.land s 0x7f.
Definition WEXITSTATUS (s : Z) : Z := Z.shiftr (Z.land s 0xff00) 8.
Definition WSTOPSIG (s : Z) : Z := WEXITSTATUS s.
Definition WIFEXITED (s : Z) : bool := WTERMSIG s =? 0.
Definition WIFSTOPPED (s : Z) : bool := WTERMSIG s =? 0x7f.
Definition WIFSIGNALED (s : Z) : bool := 2 <=? WTERMSIG (s + 1).

(** monitor.hpp and utils.hpp. *)
Definition stopped_with (status sig event : Z) : bool :=
  WIFSTOPPED status && (Z.shiftr status 8 =? Z.lor sig (Z.shiftl event 8)).
Definition WPTEVENT (x : Z) : Z := Z.shiftr x 16.

(** The status of a stop by [sig] at ptrace event [event]. *)
Definition stop_status (sig event : Z) : Z := event * 65536 + sig * 256 + 0x7f.
Definition exit_status (code : Z) : Z := code * 256.

Definition parse_ptrace_event (status : Z) : string :=
  let e := Z.shiftr status 16 in
  if e =? PTRACE_EVENT_FORK then "PTRACE_EVENT_FORK"
  else if e =? PTRACE_EVENT_VFORK then "PTRACE_EVENT_VFORK"
  else if e =? PTRACE_EVENT_CLONE then "PTRACE_EVENT_CLONE"
  else if e =? PTRACE_EVENT_EXEC then "PTRACE_EVENT_EXEC"
  else if e =? PTRACE_EVENT_VFORK_DONE then "PTRACE_EVENT_VFORK_DONE"
  else if e =? PTRACE_EVENT_EXIT then "PTRACE_EVENT_EXIT"
  else if e =? PTRACE_EVENT_SECCOMP then "PTRACE_EVENT_SECCOMP"
  else if e =? PTRACE_EVENT_STOP then "PTRACE_EVENT_STOP"
  else "(no event)".

(** libc's [sys_signame], for the signals that have an abbreviation. *)
Definition sys_signame : list string :=
  ["Signal 0"; "HUP"; "INT"; "QUIT"; "ILL"; "TRAP"; "ABRT"; "BUS"; "FPE"; "KILL"; "USR1";
   "SEGV"; "USR2"; "PIPE"; "ALRM"; "TERM"; "STKFLT"; "CHLD"; "CONT"; "STOP"; "TSTP"; "TTIN";
   "TTOU"; "URG"; "XCPU"; "XFSZ"; "VTALRM"; "PROF"; "WINCH"; "IO"; "PWR"; "SYS"].
Definition NSIG : Z := 65.
Definition sigabbrev_np (sig : Z) : string :=
  if (0 <? sig) && (sig <? NSIG) then nth (Z.to_nat sig) sys_signame "" else "(unknown)".

Fixpoint hex_fuel (fuel : nat) (n : Z) (acc : string) : string :=
  match fuel with
  | O => acc
  | S f =>
      let d := n mod 16 in
      let c := char (if d <? 10 then 48 + d else 87 + d) in
      if n <? 16 then String c acc else hex_fuel f (n / 16) (String c acc)
  end.
Definition to_hex (z : Z) : string := hex_fuel 16 (u32 z) "".

Definition parse_status (status : Z) : string :=
  "0x" +:+ to_hex status +:+ " " +:+
  (if WIFEXITED status then "exited with " +:+ to_string (WEXITSTATUS status)
   else if WIFSIGNALED status then
     "signaled with " +:+ sigabbrev_np (WTERMSIG status) +:+ "("
       +:+ to_string (WTERMSIG status) +:+ ")"
   else if WIFSTOPPED status then
     let sig := WSTOPSIG status in
     "stopped by signal=" +:+ sigabbrev_np sig +:+ "(" +:+ to_string sig +:+ "),event="
       +:+ parse_ptrace_event status
   else "unknown").

(** ** Registers

    The registers of the four architectures the tracer is built for, by the role it uses them
    in. [SYSNR] is the register the syscall number is read back from. *)
Inductive arch := X86_64 | I386 | AARCH64 | ARM.

Inductive reg :=
| SP | IP | RET | SYSNR | LINK | PSTATE | ORIG
| ARG (i : nat).

#[export] Instance arch_eq_dec : EqDecision arch.
Proof. solve_decision. Defined.
#[export] Instance reg_eq_dec : EqDecision reg.
Proof. solve_decision. Defined.

(** On aarch64 and arm the result register is argument register 0. *)
Definition slot (a : arch) (r : reg) : reg :=
  match a, r with
  | AARCH64, RET | ARM, RET => ARG 0
  | _, r => r
  end.

Definition regs := reg -> Z.
Definition get (a : arch) (rs : regs) (r : reg) : Z := rs (slot a r).
Definition set (a : arch) (r : reg) (v : Z) (rs : regs) : regs :=
  fun r' => if decide (r' = slot a r) then v else rs r'.

Lemma get_set_eq a r v rs : get a (set a r v rs) r = v.
Proof. unfold get, set. by case_decide. Qed.
Lemma get_set_ne a r r' v rs : slot a r <> slot a r' -> get a (set a r v rs) r' = get a rs r'.
Proof. unfold get, set. intros. case_decide; congruence. Qed.

(** ** Calls *)

Inductive ptrace_request :=
| PTRACE_SEIZE (options : Z)
| PTRACE_ATTACH
| PTRACE_INTERRUPT
| PTRACE_CONT (sig : Z)
| PTRACE_SYSCALL
| PTRACE_DETACH (sig : Z)
| PTRACE_SETOPTIONS (options : Z)
| PTRACE_GETEVENTMSG
| PTRACE_SKIP_SYSCALL.  (* NT_ARM_SYSTEM_CALL or PTRACE_SET_SYSCALL with -1 *)

#[export] Instance ptrace_request_eq_dec : EqDecision ptrace_request.
Proof. solve_decision. Defined.

(** One mapping of /proc/<pid>/maps, its device a [dev_t]. *)
Record MapInfo := {
  m_start : Z; m_end : Z; m_read : bool; m_write : bool; m_exec : bool;
  m_private : bool; m_offset : Z; m_dev : Z; m_inode : Z; m_path : string }.

Inductive fs_op :=
| Mkdir (path : string) (mode : Z)
| Chmod (path : string) (mode : Z)
| Label (path context : string)
| Chown (path : string) (uid gid : Z)
| Rename (from to : string)
| Unlink (path : string).

(** A failing call answers -1 (or nothing); [Errno] is what libc left in [errno]. *)
Inductive sys : Type -> Type :=
| Ptrace (req : ptrace_request) (pid : Z) : sys Z
| Errno : sys Z
| GetRegs (pid : Z) : sys (option regs)           (* PTRACE_GETREGS *)
| SetRegs (pid : Z) (rs : regs) : sys bool        (* PTRACE_SETREGS *)
| GetRegSet (pid : Z) : sys (option regs)         (* PTRACE_GETREGSET with NT_PRSTATUS *)
| SetRegSet (pid : Z) (rs : regs) : sys bool      (* PTRACE_SETREGSET with NT_PRSTATUS *)
| ReadVm (pid addr len : Z) : sys (Z * list Z)
| WriteVm (pid addr : Z) (bytes : list Z) : sys Z
| Waitpid (pid flags : Z) : sys (Z * Z)
| Kill (pid sig : Z) : sys Z
| Fork : sys Z
| Execl (path : string) (argv : list string) : sys bool   (* true: it did not return *)
| Prctl_PDEATHSIG (sig : Z) : sys unit
| Getppid : sys Z
| Setsid : sys unit
| Dup2 (from to : Z) : sys unit
| Usleep (us : Z) : sys unit
| ClockSec : sys Z
| Getenv (name : string) : sys (option string)
| SetenvIfUnset (name value : string) : sys unit        (* setenv with overwrite 0 *)
| Uname : sys (option string)
| ReadFile (path : string) : sys (option string)
| ReadLink (path : string) (size : Z) : sys (option string)
| RealPath (path : string) : sys (option string)
| ListDir (path : string) : sys (option (list string))
| IsDir (path : string) : sys bool
| AccessOk (path : string) (exec : bool) : sys bool
| WriteFile (path content : string) : sys bool
| FsOp (op : fs_op) : sys bool
| OpenRead (path : string) : sys Z
| OpenWrite (path : string) : sys Z
| OpenCreate (path : string) (mode : Z) : sys Z
| Mkstemps (template : string) (suffix : Z) : sys (Z * string)  (* the name it chose *)
| ReadFd (fd len : Z) : sys (Z * string)
| WriteFd (fd : Z) (data : string) : sys Z
| CloseFd (fd : Z) : sys unit
| Chdir (path : string) : sys bool
| DlSym (lib func : string) : sys (option Z)     (* local dlopen and dlsym *)
| SockOpen : sys Z
| SockConnect (fd : Z) (path : string) : sys bool
| SockBind (fd : Z) (path : string) : sys bool
| SockBindAuto (fd : Z) : sys bool                (* an abstract name of the kernel's choice *)
| SockTimeout (fd : Z) (seconds : Z) : sys bool
| Sleep (seconds : Z) : sys unit
| Say (text : string) : sys unit                  (* what a command's output consists of *)
| OnInterrupt (pid : Z) : sys unit                (* the SIGINT and SIGTERM handlers, for pid *)
| SockSend (fd : Z) (path : string) (msg : list Z) : sys Z
| SockRecv (fd : Z) (len : Z) : sys (Z * list Z)
| SockPeek (fd : Z) (len : Z) : sys (Z * list Z)   (* MSG_PEEK | MSG_TRUNC: the real length *)
| SockRecvFrom (fd : Z) (len : Z) : sys (Z * list Z * (list Z * Z))  (* and the peer, its length *)
| SockAnswer (fd : Z) (peer : list Z) (byte : Z) : sys Z
| SigFdOpen : sys Z                               (* sigprocmask, then signalfd; -1 *)
| SigFdRead (fd : Z) : sys (option bool)          (* whether a whole SIGCHLD record came *)
| EpollCreate : sys Z
| EpollAdd (epfd fd : Z) : sys bool
| EpollWait (epfd : Z) : sys (option (list Z))    (* the descriptors that are ready *)
| Daemon_ZygoteRestart : sys unit
| Daemon_RefreshModules (ignore_disable : bool) : sys bool.

(** [execl], and what the caller does when it comes back. *)
Definition execl {A} (path : string) (argv : list string) (failed : prog sys A) : prog sys A :=
  replaced <- call (Execl path argv) ;; if replaced : bool then Halt Replaced else failed.

(** Whether an event is a ptrace request [f] accepts on [pid]. *)
Definition is_ptrace (pid : Z) (f : ptrace_request -> bool) (ev : event sys) : bool :=
  match ev with Ev (Ptrace req p) _ => (p =? pid) && f req | _ => false end.
Definition is_detach (pid : Z) : event sys -> bool :=
  is_ptrace pid (fun r => match r with PTRACE_DETACH _ => true | _ => false end).
(** What lets a stopped tracee run again. *)
Definition is_resume (pid : Z) : event sys -> bool :=
  is_ptrace pid (fun r =>
    match r with PTRACE_CONT _ | PTRACE_SYSCALL | PTRACE_DETACH _ => true | _ => false end).

(** A write of [pid]'s registers, and the registers it writes. *)
Definition set_regs_of (pid : Z) (ev : event sys) : option regs :=
  match ev with
  | Ev (SetRegs p rs) _ | Ev (SetRegSet p rs) _ => if p =? pid then Some rs else None
  | _ => None
  end.

(** ** Facts about statuses *)

Lemma land_ff00 s : WEXITSTATUS s = (s / 256) mod 256.
Proof.
  unfold WEXITSTATUS. rewrite Z.shiftr_land.
  change (Z.shiftr 0xff00 8) with (Z.ones 8). rewrite Z.land_ones by lia.
  by rewrite Z.shiftr_div_pow2 by lia.
Qed.

Lemma wtermsig_mod s : WTERMSIG s = s mod 128.
Proof. unfold WTERMSIG. change 0x7f with (Z.ones 7). by rewrite Z.land_ones by lia. Qed.

Lemma stop_status_stopped sig ev : WIFSTOPPED (stop_status sig ev) = true.
Proof.
  unfold WIFSTOPPED, stop_status. rewrite wtermsig_mod.
  replace (ev * 65536 + sig * 256 + 127) with (127 + (ev * 512 + sig * 2) * 128) by lia.
  by rewrite Z.mod_add by lia.
Qed.

Lemma wstopsig_stop_status sig ev : 0 <= sig < 256 -> WSTOPSIG (stop_status sig ev) = sig.
Proof.
  intros. unfold WSTOPSIG. rewrite land_ff00. unfold stop_status.
  replace (ev * 65536 + sig * 256 + 127) with (127 + (sig + ev * 256) * 256) by lia.
  rewrite Z.div_add by lia. change (127 / 256) with 0.
  rewrite Z.add_0_l, Z.mod_add by lia. by apply Z.mod_small.
Qed.

Lemma wptevent_stop_status sig ev : 0 <= sig < 256 -> WPTEVENT (stop_status sig ev) = ev.
Proof.
  intros. unfold WPTEVENT, stop_status. rewrite Z.shiftr_div_pow2 by lia.
  change (2 ^ 16) with 65536.
  replace (ev * 65536 + sig * 256 + 127) with ((sig * 256 + 127) + ev * 65536) by lia.
  rewrite Z.div_add by lia. rewrite Z.div_small by lia. lia.
Qed.

Lemma stopped_with_stop_status sig ev s e :
  0 <= sig < 256 -> 0 <= ev -> 0 <= s < 256 -> 0 <= e ->
  stopped_with (stop_status sig ev) s e = (sig =? s) && (ev =? e).
Proof.
  intros Hs He Hsr Her. unfold stopped_with. rewrite stop_status_stopped. cbn [andb].
  assert (Z.shiftr (stop_status sig ev) 8 = sig + ev * 256) as ->.
  { rewrite Z.shiftr_div_pow2 by lia. unfold stop_status. change (2 ^ 8) with 256.
    replace (ev * 65536 + sig * 256 + 127) with (127 + (sig + ev * 256) * 256) by lia.
    rewrite Z.div_add by lia. rewrite Z.div_small; lia. }
  rewrite Z.shiftl_mul_pow2 by lia. change (2 ^ 8) with 256.
  assert (Z.lor s (e * 256) = s + e * 256) as ->.
  { rewrite Z.add_nocarry_lxor; [rewrite Z.lxor_lor; [done|]|];
      (replace s with (Z.land s (Z.ones 8)) by (rewrite Z.land_ones, Z.mod_small; lia));
      rewrite <- Z.land_assoc; (replace (Z.land (Z.ones 8) (e * 256)) with 0; [by rewrite Z.land_0_r|]);
      rewrite Z.land_comm, Z.land_ones by lia; by rewrite Z.mod_mul. }
  destruct (Z.eqb_spec sig s), (Z.eqb_spec ev e); subst; cbn; try apply Z.eqb_refl;
    apply Z.eqb_neq; lia.
Qed.

(** A stopped process has not ended. *)
Lemma stopped_not_ended status :
  WIFSTOPPED status = true -> WIFEXITED status || WIFSIGNALED status = false.
Proof.
  unfold WIFSTOPPED, WIFEXITED, WIFSIGNALED. intros H%Z.eqb_eq. rewrite H. cbn.
  rewrite wtermsig_mod in *. apply Z.leb_gt. by rewrite Zplus_mod, H.
Qed.

Lemma stopped_with_stopped status sig ev : stopped_with status sig ev = true -> WIFSTOPPED status = true.
Proof. unfold stopped_with. by intros [? _]%andb_prop. Qed.

Example parse_status_exit : parse_status (exit_status 3) = "0x300 exited with 3".
Proof. reflexivity. Qed.
Example parse_status_stop :
  parse_status (stop_status SIGTRAP PTRACE_EVENT_EXEC)
    = "0x4057f stopped by signal=TRAP(5),event=PTRACE_EVENT_EXEC".
Proof. reflexivity. Qed.

#[export] Hint Resolve stop_status_stopped stopped_with_stopped : neo.

(** A world for examples: an old kernel on which nothing else is to be had. *)
Definition idle (X : Type) (e : sys X) : X :=
  match e with
  | Uname => Some "4.14.190-perf"
  | GetRegs _ | GetRegSet _ | Getenv _ | ReadFile _ | RealPath _ | ListDir _ | EpollWait _ => None
  | ReadLink _ _ | DlSym _ _ | SigFdRead _ => None
  | SetRegs _ _ | SetRegSet _ _ | Execl _ _ | IsDir _ | AccessOk _ _ | WriteFile _ _ | FsOp _ | Chdir _
  | SockConnect _ _ | SockBind _ _ | SockBindAuto _ | SockTimeout _ _ | EpollAdd _ _
  | Daemon_RefreshModules _ => false
  | ReadVm _ _ _ => (-1, [])
  | Waitpid _ _ => (-1, 0)
  | ReadFd _ _ | Mkstemps _ _ => (-1, "")
  | SockRecv _ _ | SockPeek _ _ => (-1, [])
  | SockRecvFrom _ _ => (-1, [], ([], 0))
  | ClockSec | Getppid => 1
  | Ptrace _ _ | Errno | WriteVm _ _ _ | Kill _ _ | Fork | OpenRead _ | OpenWrite _
  | OpenCreate _ _ | WriteFd _ _ | SockOpen | SockSend _ _ _ | SockAnswer _ _ _ | SigFdOpen
  | EpollCreate => -1
  | Prctl_PDEATHSIG _ | SetenvIfUnset _ _ | Setsid | Dup2 _ _ | Usleep _ | CloseFd _ | Sleep _ | Say _
  | OnInterrupt _ | Daemon_ZygoteRestart => tt
  end.
