(* ===== verification/ProcFs.v ===== *)
(** * Processes as /proc shows them

    ptracer/utils.cpp: scanning a process's mappings, locating libraries and functions in
    them, and the queries that tell a zygote from everything else running its executable. *)
From Stdlib Require Import ZArith Lia List String Ascii Bool.
From stdpp Require Import base list strings.
From S2P Require Import Prelude.
From S2P Require Import Scan.
From S2P Require Import Sys.
Open Scope string_scope.
Open Scope list_scope.
Open Scope Z_scope.

Definition proc_path (pid : Z) (file : string) : string :=
  "/proc/" +:+ to_string pid +:+ "/" +:+ file.

(** ** Mappings *)

Definition str_nth (n : nat) (s : string) : ascii :=
  match String.get n s with Some c => c | None => nul end.

(** The [sscanf] of [MapInfo::Scan], for pointers of [w] bits. The pathname is what is left
    after the seventh field and the blanks that follow it. *)
Definition parse_maps_line (w : Z) (line : string) : option MapInfo :=
  match scan_x w line with None => None | Some (start, s) =>
  match scan_lit "-" s with None => None | Some s =>
  match scan_x w s with None => None | Some (end_, s) =>
  match scan_word 4 s with None => None | Some (perm, s) =>
  match scan_x w s with None => None | Some (off, s) =>
  match scan_x 32 s with None => None | Some (dev_major, s) =>
  match scan_lit ":" s with None => None | Some s =>
  match scan_x 32 s with None => None | Some (dev_minor, s) =>
  match scan_u w s with None => None | Some (inode, s) =>
    Some {| m_start := start; m_end := end_;
            m_read := Ascii.eqb (str_nth 0 perm) "r";
            m_write := Ascii.eqb (str_nth 1 perm) "w";
            m_exec := Ascii.eqb (str_nth 2 perm) "x";
            m_private := Ascii.eqb (str_nth 3 perm) "p";
            m_offset := off; m_dev := makedev w dev_major dev_minor; m_inode := inode;
            m_path := skip_space s |}
  end end end end end end end end end.

Definition parse_maps (w : Z) (content : string) : list MapInfo :=
  flat_map (fun l => match parse_maps_line w l with Some m => [m] | None => [] end)
    (getlines content).

Definition Scan_maps (w : Z) (pid : string) : prog sys (list MapInfo) :=
  content <- call (ReadFile ("/proc/" +:+ pid +:+ "/maps")) ;;
  Ret (match content with Some c => parse_maps w c | None => [] end).

Definition find_module_return_addr (info : list MapInfo) (suffix : string) : Z :=
  match List.find (fun m => negb (m_exec m) && ends_with (m_path m) suffix) info with
  | Some m => m_start m
  | None => 0
  end.

Definition find_module_base (info : list MapInfo) (suffix : string) : Z :=
  match List.find (fun m => (m_offset m =? 0) && ends_with (m_path m) suffix) info with
  | Some m => m_start m
  | None => 0
  end.

Definition get_addr_mem_region (info : list MapInfo) (addr : Z) : string :=
  match List.find (fun m => (m_start m <=? addr) && (addr <? m_end m)) info with
  | Some m => m_path m +:+ " " +:+ (if m_read m then "r" else "-")
                +:+ (if m_write m then "w" else "-") +:+ (if m_exec m then "x" else "-")
  | None => "<unknown>"
  end.

(** remote_base + (local_sym - local_base), on pointers of [w] bits. *)
Definition find_func_addr (w : Z) (local_info remote_info : list MapInfo)
    (module func : string) : prog sys Z :=
  sym <- call (DlSym module func) ;;
  match sym with
  | None => Ret 0
  | Some local_sym =>
      if local_sym =? 0 then Ret 0
      else
        let local_base := find_module_base local_info module in
        if local_base =? 0 then Ret 0
        else
          let remote_base := find_module_base remote_info module in
          if remote_base =? 0 then Ret 0
          else Ret (wrap w (remote_base + (local_sym - local_base)))
  end.

Definition has_library_mapped (w : Z) (pid : Z) (suffix : string) : prog sys bool :=
  info <- Scan_maps w (to_string pid) ;;
  Ret (existsb (fun m => contains (m_path m) suffix) info).

(** ** Process queries *)

Definition get_program (pid : Z) : prog sys string :=
  link <- call (ReadLink (proc_path pid "exe") 256) ;;
  Ret (match link with Some s => c_str s | None => "" end).

(** [dirname(3)]: the part before the last slash. *)
Fixpoint last_slash (i : nat) (s : string) (found : option nat) : option nat :=
  match s with
  | EmptyString => found
  | String c s' => last_slash (S i) s' (if Ascii.eqb c "/" then Some i else found)
  end.
Definition dirname (s : string) : string :=
  match last_slash 0 s None with
  | None => "."
  | Some O => "/"
  | Some n => String.substring 0 n s
  end.
Definition basename (s : string) : string :=
  match last_slash 0 s None with
  | None => s
  | Some n => drop_str (S n) s
  end.

Definition get_module_dir : prog sys string :=
  link <- call (ReadLink "/proc/self/exe" 4095) ;;
  Ret (match link with Some exe => dirname (dirname (c_str exe)) | None => "." end).

Fixpoint trim_trailing (p : ascii -> bool) (s : string) : string :=
  match s with
  | EmptyString => ""
  | String c s' =>
      let t := trim_trailing p s' in
      if is_empty t && p c then "" else String c t
  end.

(** [fgets] into 64 bytes, then the trailing newline dropped. *)
Definition get_comm (pid : Z) : prog sys string :=
  content <- call (ReadFile (proc_path pid "comm")) ;;
  Ret (match content with
       | None => ""
       | Some c =>
           match fgets_all 63 c with
           | [] => ""
           | l :: _ => trim_trailing (fun a => Ascii.eqb a newline || Ascii.eqb a nul) (c_str l)
           end
       end).

(** NUL-separated arguments, empty ones dropped. *)
Fixpoint split_cmdline (arg : string) (s : string) : list string :=
  match s with
  | EmptyString => if is_empty arg then [] else [arg]
  | String c s' =>
      if Ascii.eqb c nul
      then (if is_empty arg then [] else [arg]) ++ split_cmdline "" s'
      else split_cmdline (arg +:+ String c "") s'
  end.

Definition read_cmdline (pid : Z) : prog sys (list string) :=
  content <- call (ReadFile (proc_path pid "cmdline")) ;;
  Ret (match content with Some c => split_cmdline "" c | None => [] end).

(** The [fgets] loops over /proc/<pid>/status, 255 characters at a time. *)
Definition status_field (key : string) (line : string) : option Z :=
  match scan_lit key line with
  | Some s => option_map (fun '(v, _) => s32 v) (scan_d s)
  | None => None
  end.

Definition status_int (pid : Z) (key : string) : prog sys Z :=
  content <- call (ReadFile (proc_path pid "status")) ;;
  Ret (match content with
       | None => -1
       | Some c => match first_match (status_field key) (fgets_all 255 c) with
                   | Some v => v
                   | None => -1
                   end
       end).

Definition get_ppid (pid : Z) : prog sys Z := status_int pid "PPid:".
Definition get_tracer_pid (pid : Z) : prog sys Z := status_int pid "TracerPid:".

Definition status_state (line : string) : option ascii :=
  match scan_lit "State:" line with
  | Some s => match skip_space s with String c _ => Some c | EmptyString => None end
  | None => None
  end.

Definition get_process_state (pid : Z) : prog sys ascii :=
  content <- call (ReadFile (proc_path pid "status")) ;;
  Ret (match content with
       | None => nul
       | Some c => match first_match status_state (fgets_all 255 c) with
                   | Some a => a
                   | None => nul
                   end
       end).

Fixpoint find_processes_in (exe : string) (names : list string) : prog sys (list Z) :=
  match names with
  | [] => Ret []
  | name :: names =>
      match strtol_positive name with
      | None => find_processes_in exe names
      | Some value =>
          link <- call (ReadLink ("/proc/" +:+ name +:+ "/exe") 4095) ;;
          rest <- find_processes_in exe names ;;
          Ret (match link with
               | Some buf => if String.eqb exe (c_str buf) then s32 value :: rest else rest
               | None => rest
               end)
      end
  end.

Definition find_processes_by_exe (exe : string) : prog sys (list Z) :=
  dir <- call (ListDir "/proc") ;;
  match dir with
  | None => Ret []
  | Some names => find_processes_in exe names
  end.

Definition zygote_argv (argv : list string) : bool :=
  match argv with
  | [] => false
  | name :: _ =>
      starts_with (basename name) "zygote" || existsb (String.eqb "--zygote") argv
  end.

Definition has_zygote_cmdline (pid : Z) : prog sys bool :=
  argv <- read_cmdline pid ;; Ret (zygote_argv argv).

Fixpoint filter_zygotes (pids : list Z) : prog sys (list Z) :=
  match pids with
  | [] => Ret []
  | pid :: pids =>
      ppid <- get_ppid pid ;;
      keep <- (if ppid =? 1 then has_zygote_cmdline pid else Ret false) ;;
      rest <- filter_zygotes pids ;;
      Ret (if keep : bool then pid :: rest else rest)
  end.

(** The zygote of this build's ABI. *)
Definition kZygoteProgram (lp64 : bool) : string :=
  "/system/bin/app_process" +:+ (if lp64 then "64" else "32").

Definition find_zygotes (lp64 : bool) : prog sys (list Z) :=
  pids <- find_processes_by_exe (kZygoteProgram lp64) ;; filter_zygotes pids.

(** ** Facts *)

Fixpoint no_nul (s : string) : bool :=
  match s with
  | EmptyString => true
  | String c s' => negb (Ascii.eqb c nul) && no_nul s'
  end.

(** The argument block as the kernel lays it out: each argument, then its terminator. *)
Definition cmdline_block (args : list string) : string :=
  fold_right (fun a s => a +:+ String nul s) "" args.

Lemma append_assoc_cons s c t : (s +:+ String c "") +:+ t = s +:+ String c t.
Proof. induction s as [|a s IH]; [done|]. by rewrite !append_cons, IH. Qed.

Lemma is_empty_snoc s c : is_empty (s +:+ String c "") = false.
Proof. by destruct s. Qed.

Lemma split_cmdline_arg cur a rest :
  no_nul a = true -> is_empty (cur +:+ a) = false ->
  split_cmdline cur (a +:+ String nul rest) = (cur +:+ a) :: split_cmdline "" rest.
Proof.
  revert cur. induction a as [|c a IH]; intros cur Hn He.
  - rewrite append_empty_r in *. change ("" +:+ String nul rest) with (String nul rest).
    cbn [split_cmdline]. by rewrite Ascii.eqb_refl, He.
  - rewrite append_cons. cbn [split_cmdline]. cbn [no_nul] in Hn.
    apply andb_prop in Hn as [Hc Hn]. apply negb_true_iff in Hc. rewrite Hc.
    rewrite IH; [by rewrite append_assoc_cons|done|].
    rewrite append_assoc_cons. by destruct cur.
Qed.

Lemma split_cmdline_block args tail :
  Forall (fun a => no_nul a = true /\ is_empty a = false) args ->
  split_cmdline "" (cmdline_block args +:+ tail) = args ++ split_cmdline "" tail.
Proof.
  induction 1 as [|a args [Hn He] _ IH]; [done|].
  cbn [cmdline_block fold_right].
  fold (cmdline_block args).
  replace ((a +:+ String nul (cmdline_block args)) +:+ tail)
    with (a +:+ String nul (cmdline_block args +:+ tail)).
  - rewrite split_cmdline_arg; [|done|done]. by rewrite IH.
  - clear. induction a as [|c a IH]; [done|]. by rewrite !append_cons, <- IH.
Qed.

Lemma split_cmdline_zeroes n :
  split_cmdline "" (fold_right (fun c s => String c s) "" (repeat nul n)) = [].
Proof. by induction n as [|n IH]. Qed.
