(* ===== verification/ProcMaps.v ===== *)
(** * Reading back what the kernel writes

    The text of /proc/<pid>/maps, as the kernel prints it, and [MapInfo::Scan] of
    ptracer/utils.cpp on it: every mapping comes back as it was. *)
From Stdlib Require Import ZArith Lia List String Ascii Bool.
From stdpp Require Import base list strings.
From S2P Require Import Prelude.
From S2P Require Import Scan.
From S2P Require Import Sys.
From S2P Require Import ProcFs.
Open Scope string_scope.
Open Scope list_scope.
Open Scope Z_scope.

(** ** The kernel's text *)

Definition hex_char (d : Z) : ascii := char (if d <? 10 then 48 + d else 87 + d).
(** The low [n] hexadecimal digits. *)
Fixpoint hex_digits (n : nat) (v : Z) : string :=
  match n with
  | O => ""
  | S n => hex_digits n (v / 16) +:+ String (hex_char (v mod 16)) ""
  end.
(** As many as it takes, and at least [n]: [%0*lx]. *)
Definition hex_padded (n : nat) (v : Z) : string :=
  hex_digits (Nat.max n (Z.to_nat (Z.log2 v / 4 + 1))) v.

Fixpoint blanks (n : nat) : string :=
  match n with O => "" | S n => String " " (blanks n) end.

(** A line, with [pad] more blanks before the name. *)
Definition print_mapping (pad : nat) (m : MapInfo) : string :=
  hex_padded 8 (m_start m) +:+ "-" +:+ hex_padded 8 (m_end m) +:+ " " +:+
  (if m_read m then "r" else "-") +:+ (if m_write m then "w" else "-") +:+
  (if m_exec m then "x" else "-") +:+ (if m_private m then "p" else "s") +:+ " " +:+
  hex_padded 8 (m_offset m) +:+ " " +:+
  hex_padded 2 (major (m_dev m)) +:+ ":" +:+ hex_padded 2 (minor (m_dev m)) +:+ " " +:+
  to_string (m_inode m) +:+ " " +:+ blanks pad +:+ m_path m.
Fixpoint print_mappings (pad : MapInfo -> nat) (ms : list MapInfo) : string :=
  match ms with
  | [] => ""
  | m :: ms => print_mapping (pad m) m +:+ String newline (print_mappings pad ms)
  end.

(** What a mapping of a process of [w]-bit pointers can be; newlines in names are escaped by the
    kernel. *)
Fixpoint lacks (c : ascii) (s : string) : bool :=
  match s with EmptyString => true | String c' s => negb (Ascii.eqb c' c) && lacks c s end.
Definition starts_dark (s : string) : bool :=
  match s with EmptyString => true | String c _ => negb (is_space c) end.
Record mapping_ok (w : Z) (m : MapInfo) : Prop := {
  ok_start : 0 <= m_start m < 2 ^ w;
  ok_end : 0 <= m_end m < 2 ^ w;
  ok_offset : 0 <= m_offset m < 2 ^ w;
  ok_dev : 0 <= m_dev m < 2 ^ Z.min w 64;
  ok_inode : 0 <= m_inode m < Z.min (2 ^ w) (10 ^ 20);
  ok_path : lacks newline (m_path m) = true /\ starts_dark (m_path m) = true }.

(** ** Facts: hexadecimal *)

(** A fact of the sixteen digits. *)
Ltac sixteen d H :=
  let Hd := fresh in
  assert (d = 0 \/ d = 1 \/ d = 2 \/ d = 3 \/ d = 4 \/ d = 5 \/ d = 6 \/ d = 7 \/ d = 8 \/ d = 9 \/
    d = 10 \/ d = 11 \/ d = 12 \/ d = 13 \/ d = 14 \/ d = 15) as Hd by lia;
  repeat (destruct Hd as [-> | Hd]; [by repeat split|]); subst d; by repeat split.

Lemma hex_char_digit d : 0 <= d < 16 -> digit 16 (hex_char d) = Some d.
Proof. intros H. sixteen d H. Qed.
(** It is none of the characters the conversions look for. *)
Lemma hex_char_plain d : 0 <= d < 16 ->
  (forall A (a b c : A), match hex_char d with "-"%char => a | "+"%char => b | _ => c end = c) /\
  (forall A (a b : A), match hex_char d with "x"%char => a | _ => b end = b) /\
  (forall A (a : A), match hex_char d with "0"%char => a | _ => a end = a) /\
  is_space (hex_char d) = false /\ Ascii.eqb (hex_char d) newline = false.
Proof. intros H. sixteen d H. Qed.

Lemma string_app_assoc (a b c : string) : (a +:+ b) +:+ c = a +:+ (b +:+ c).
Proof. induction a as [|x a IH]; [done|]. by rewrite !append_cons, IH. Qed.

Lemma hex_digits_scan n v acc k rest :
  0 <= v -> scan_digits 16 acc k (hex_digits n v +:+ rest) =
    scan_digits 16 (acc * 16 ^ Z.of_nat n + v mod 16 ^ Z.of_nat n) (n + k) rest.
Proof.
  revert v acc k rest. induction n as [|n IH]; intros v acc k rest Hv.
  - cbn [hex_digits]. rewrite append_nil. cbn [Z.of_nat]. rewrite Z.pow_0_r, Z.mod_1_r.
    f_equal; lia.
  - cbn [hex_digits]. rewrite string_app_assoc, append_cons, append_nil.
    rewrite IH by (apply Z.div_pos; lia). cbn [scan_digits].
    rewrite hex_char_digit by (apply Z.mod_pos_bound; lia).
    rewrite Nat2Z.inj_succ, Z.pow_succ_r by lia.
    rewrite Z.rem_mul_r by lia. f_equal. ring.
Qed.

(** What follows a number is no digit of it. *)
Definition ends_number (base : Z) (rest : string) : Prop :=
  forall c s, rest = String c s -> digit base c = None.

Lemma hex_padded_fits n v : 0 <= v -> v < 16 ^ Z.of_nat (Nat.max n (Z.to_nat (Z.log2 v / 4 + 1))).
Proof.
  intros Hv. destruct (Z.eq_dec v 0) as [->|Hne]; [apply Z.pow_pos_nonneg; lia|].
  pose proof (Z.log2_spec v) as [_ Hl]; [lia|]. pose proof (Z.log2_nonneg v).
  pose proof (Z.div_mod (Z.log2 v) 4). pose proof (Z.mod_pos_bound (Z.log2 v) 4).
  change 16 with (2 ^ 4). rewrite <- Z.pow_mul_r by lia.
  eapply Z.lt_le_trans; [exact Hl|]. apply Z.pow_le_mono_r; [lia|].
  rewrite Nat2Z.inj_max, Z2Nat.id by lia. lia.
Qed.

Lemma scan_hex_padded n v rest :
  0 <= v -> ends_number 16 rest -> scan_nat 16 (hex_padded n v +:+ rest) = Some (v, rest).
Proof.
  intros Hv Hr. unfold scan_nat, hex_padded. rewrite hex_digits_scan by done.
  rewrite Z.mul_0_l, Z.add_0_l, Z.mod_small by (split; [done|by apply hex_padded_fits]).
  pose proof (Z.div_pos (Z.log2 v) 4 (Z.log2_nonneg v) ltac:(lia)).
  destruct (Nat.max _ _ + 0)%nat eqn:E; [lia|].
  destruct rest as [|c s]; cbn [scan_digits]; [done|]. by rewrite (Hr c s).
Qed.

(** A padded number is scanned whole, whatever blanks come first, and wrapped to its width. *)
Lemma hex_digits_head n v : 0 <= v -> (2 <= n)%nat ->
  exists d e t, 0 <= d < 16 /\ 0 <= e < 16 /\
    hex_digits n v = String (hex_char d) (String (hex_char e) t).
Proof.
  intros Hv Hn. revert v Hv. induction Hn as [|n Hn IH]; intros v Hv.
  - exists ((v / 16) mod 16), (v mod 16), "". pose proof (Z.mod_pos_bound (v / 16) 16).
    pose proof (Z.mod_pos_bound v 16). by repeat split; try lia.
  - destruct (IH (v / 16)) as (d & e & t & Hd & He & E); [apply Z.div_pos; lia|].
    cbn [hex_digits]. rewrite E, !append_cons. by exists d, e, (t +:+ String (hex_char (v mod 16)) "").
Qed.

Lemma scan_x_padded w n v rest :
  (2 <= n)%nat -> 0 <= v < 2 ^ w -> ends_number 16 rest ->
  scan_x w (hex_padded n v +:+ rest) = Some (v, rest).
Proof.
  intros Hn Hv Hr. pose proof (scan_hex_padded n v rest ltac:(lia) Hr) as E.
  destruct (hex_digits_head (Nat.max n (Z.to_nat (Z.log2 v / 4 + 1))) v)
    as (d & e & t & Hd & He & Hx); [lia|lia|].
  unfold hex_padded in *. rewrite Hx in *. rewrite !append_cons in *. unfold scan_x.
  destruct (hex_char_plain d Hd) as (Hsign & _ & H0 & Hs & _).
  destruct (hex_char_plain e He) as (_ & Hx' & _).
  cbn [skip_space]. rewrite Hs. rewrite Hx', H0.
  unfold scan_signed. rewrite Hsign, E. cbn. by rewrite wrap_small by lia.
Qed.
Lemma scan_x_blank w s : scan_x w (String " " s) = scan_x w s.
Proof. done. Qed.

(** ** Facts: one line *)

Lemma skip_blanks pad s : starts_dark s = true -> skip_space (" " +:+ blanks pad +:+ s) = s.
Proof.
  intros Hs. rewrite append_cons, append_nil. cbn [skip_space is_space].
  change (is_space " ") with true. cbn iota.
  induction pad as [|pad IH]; cbn [blanks].
  - rewrite append_nil. destruct s as [|c s]; [done|]. cbn in Hs |- *.
    apply negb_true_iff in Hs. by rewrite Hs.
  - rewrite append_cons. exact IH.
Qed.

Lemma scan_u_to_string w n rest :
  0 <= n < Z.min (2 ^ w) (10 ^ 20) -> ends_number 10 rest ->
  scan_u w (" " +:+ to_string n +:+ rest) = Some (n, rest).
Proof.
  intros Hn Hr. pose proof (scan_nat_to_string n rest ltac:(lia) Hr) as E.
  destruct (to_string_head n) as (d & t & Hd & Ht); [lia|]. rewrite Ht in *.
  destruct (digit_not_sign d Hd) as (_ & Hc & Hs). unfold scan_u, scan_d.
  rewrite !append_cons, append_nil in *. cbn [skip_space]. change (is_space " ") with true.
  cbn iota. rewrite Hs. unfold scan_signed. rewrite Hc, E. cbn. by rewrite wrap_small by lia.
Qed.

Lemma scan_lit_char c s : scan_lit (String c "") (String c "" +:+ s) = Some s.
Proof. rewrite append_cons, append_nil. cbn. rewrite Ascii.eqb_refl. by destruct s. Qed.

Lemma scan_flags (r w x p : bool) s :
  let flags := ((if r then "r" else "-") +:+ (if w then "w" else "-") +:+
                (if x then "x" else "-") +:+ (if p then "p" else "s"))%string in
  scan_word 4 (" " +:+ (if r then "r" else "-") +:+ (if w then "w" else "-") +:+
               (if x then "x" else "-") +:+ (if p then "p" else "s") +:+ " " +:+ s)
    = Some (flags, " " +:+ s) /\
  Ascii.eqb (str_nth 0 flags) "r" = r /\ Ascii.eqb (str_nth 1 flags) "w" = w /\
  Ascii.eqb (str_nth 2 flags) "x" = x /\ Ascii.eqb (str_nth 3 flags) "p" = p.
Proof. destruct r, w, x, p; by repeat split. Qed.

Lemma ends_at base c s : digit base c = None -> ends_number base (String c "" +:+ s).
Proof. intros H c' s' E. rewrite append_cons, append_nil in E. by injection E as <- <-. Qed.

Lemma parse_print_mapping w pad m :
  mapping_ok w m -> parse_maps_line w (print_mapping pad m) = Some m.
Proof.
  intros [Hs He Ho Hd Hi [_ Hp]].
  pose proof (major_bound _ (proj1 Hd)) as Hj. pose proof (minor_bound _ (proj1 Hd)) as Hn. unfold parse_maps_line, print_mapping.
  rewrite scan_x_padded by (done || lia || by apply ends_at).
  rewrite scan_lit_char. rewrite scan_x_padded by (done || lia || by apply ends_at).
  destruct (scan_flags (m_read m) (m_write m) (m_exec m) (m_private m)
    (hex_padded 8 (m_offset m) +:+ " " +:+ hex_padded 2 (major (m_dev m)) +:+ ":" +:+
     hex_padded 2 (minor (m_dev m)) +:+ " " +:+ to_string (m_inode m) +:+ " " +:+ blanks pad +:+
     m_path m)) as (E & Er & Ew & Ex & Ep).
  rewrite E, Er, Ew, Ex, Ep. clear E Er Ew Ex Ep.
  rewrite (append_cons " " "" (hex_padded 8 _ +:+ _)), append_nil, scan_x_blank.
  rewrite scan_x_padded by (done || lia || by apply ends_at).
  rewrite (append_cons " " "" (hex_padded 2 _ +:+ _)), append_nil, scan_x_blank.
  rewrite scan_x_padded by (done || lia || by apply ends_at).
  rewrite scan_lit_char. rewrite scan_x_padded by (done || lia || by apply ends_at).
  rewrite scan_u_to_string by (done || by apply ends_at).
  rewrite skip_blanks, makedev_major_minor by done. by destruct m.
Qed.

(** ** Facts: the file *)

Lemma lacks_app c a b : lacks c (a +:+ b) = lacks c a && lacks c b.
Proof.
  induction a as [|x a IH]; [done|]. rewrite append_cons. cbn. by rewrite IH, andb_assoc.
Qed.
Lemma lacks_hex n v : 0 <= v -> lacks newline (hex_digits n v) = true.
Proof.
  revert v. induction n as [|n IH]; intros v Hv; [done|]. cbn [hex_digits].
  rewrite lacks_app, IH by (apply Z.div_pos; lia). cbn [lacks andb].
  destruct (hex_char_plain (v mod 16)) as (_ & _ & _ & _ & ->); [|done].
  apply Z.mod_pos_bound. lia.
Qed.
Lemma lacks_digits fuel n acc :
  0 <= n -> lacks newline acc = true -> lacks newline (digits_fuel fuel n acc) = true.
Proof.
  revert n acc. induction fuel as [|fuel IH]; intros n acc Hn Ha; [done|]. cbn [digits_fuel].
  assert (lacks newline (String (ascii_of_N (48 + Z.to_N (n mod 10))) acc) = true) as H.
  { cbn [lacks]. rewrite Ha, andb_true_r. pose proof (Z.mod_pos_bound n 10 ltac:(lia)) as Hd.
    revert Hd. generalize (n mod 10). intros d Hd.
    assert (d = 0 \/ d = 1 \/ d = 2 \/ d = 3 \/ d = 4 \/ d = 5 \/ d = 6 \/ d = 7
      \/ d = 8 \/ d = 9) as Hc by lia.
    repeat (destruct Hc as [-> | Hc]; [reflexivity|]). by subst. }
  destruct (n <? 10); [done|]. apply IH; [apply Z.div_pos; lia|done].
Qed.
Lemma lacks_blanks n : lacks newline (blanks n) = true.
Proof. by induction n. Qed.
Lemma lacks_mapping w pad m : mapping_ok w m -> lacks newline (print_mapping pad m) = true.
Proof.
  intros [Hs He Ho Hd Hi [Hp _]].
  pose proof (major_bound _ (proj1 Hd)) as Hj. pose proof (minor_bound _ (proj1 Hd)) as Hn. unfold print_mapping, hex_padded, to_string.
  destruct (Z.ltb_spec (m_inode m) 0); [lia|].
  rewrite !lacks_app, !lacks_hex, lacks_digits, lacks_blanks, Hp by (done || lia).
  by destruct (m_read m), (m_write m), (m_exec m), (m_private m).
Qed.

Lemma lines_from_line cur l s :
  lacks newline l = true -> lines_from cur (l +:+ String newline s) = (cur +:+ l) :: lines_from "" s.
Proof.
  revert cur. induction l as [|c l IH]; intros cur Hl.
  - rewrite append_nil, append_empty_r. cbn [lines_from]. by rewrite Ascii.eqb_refl.
  - rewrite append_cons. cbn [lines_from]. cbn [lacks] in Hl. apply andb_prop in Hl as [Hc Hl].
    apply negb_true_iff in Hc. rewrite Hc, IH by done. by rewrite append_assoc_cons.
Qed.

Lemma parse_print_mappings w pad ms :
  Forall (mapping_ok w) ms -> parse_maps w (print_mappings pad ms) = ms.
Proof.
  unfold parse_maps, getlines. induction 1 as [|m ms Hm _ IH]; [done|]. cbn [print_mappings].
  rewrite lines_from_line by by eapply lacks_mapping. rewrite append_nil. cbn [flat_map].
  by rewrite parse_print_mapping, IH.
Qed.

(** C22: the tracer sees a process's memory as the kernel has it. Whatever mappings the process
    has, scanning the text the kernel prints for them gives exactly those mappings, in order:
    addresses, permissions, offset, device, inode and name, however the columns are padded. *)
Theorem maps_roundtrip w pid pad ms :
  Forall (mapping_ok w) ms ->
  exec (Scan_maps w pid)
    [Ev (ReadFile ("/proc/" +:+ pid +:+ "/maps")) (Some (print_mappings pad ms))] (Val ms).
Proof.
  intros H. exists (Some (print_mappings pad ms)), []. split; [done|]. split; [done|].
  by rewrite parse_print_mappings.
Qed.

Definition sample_mappings : list MapInfo :=
  [{| m_start := 0x7f0012345000; m_end := 0x7f0012346000; m_read := true; m_write := false;
      m_exec := true; m_private := true; m_offset := 0x1000; m_dev := makedev 64 254 1; m_inode := 1713;
      m_path := "/system/lib64/libc.so" |};
   {| m_start := 0x7fff0000; m_end := 0x80000000; m_read := true; m_write := true;
      m_exec := false; m_private := false; m_offset := 0; m_dev := 0; m_inode := 0;
      m_path := "" |}].
Example sample_text : map (print_mapping 2) sample_mappings =
  ["7f0012345000-7f0012346000 r-xp 00001000 fe:01 1713   /system/lib64/libc.so";
   "7fff0000-80000000 rw-s 00000000 00:00 0   "].
Proof. vm_compute. reflexivity. Qed.

Lemma maps_roundtrip_witness :
  exec (Scan_maps 64 "1")
    [Ev (ReadFile "/proc/1/maps") (Some (print_mappings (fun _ => 5%nat) sample_mappings))]
    (Val sample_mappings).
Proof.
  apply (maps_roundtrip 64 "1" (fun _ => 5%nat) sample_mappings).
  repeat constructor; cbn; lia || done.
Defined.
