(* ===== verification/Remote.v ===== *)
(** * Calling into a stopped tracee

    ptracer/utils.cpp: reading and writing its memory, [wait_for_trace], and [remote_call],
    which runs one function in it under the C calling convention of each architecture. *)
From Stdlib Require Import ZArith Lia List String Ascii Bool.
From stdpp Require Import base list strings.
From S2P Require Import Prelude.
From S2P Require Import Scan.
From S2P Require Import Sys.
Open Scope string_scope.
Open Scope list_scope.
Open Scope Z_scope.

(** ** Little-endian words *)

Fixpoint le_bytes (n : nat) (z : Z) : list Z :=
  match n with
  | O => []
  | S n => z mod 256 :: le_bytes n (z / 256)
  end.
Fixpoint le_value (bs : list Z) : Z :=
  match bs with
  | [] => 0
  | b :: bs => b + 256 * le_value bs
  end.

Definition pointer_width (a : arch) : Z :=
  match a with X86_64 | AARCH64 => 64 | I386 | ARM => 32 end.
Definition word_size (a : arch) : Z := pointer_width a / 8.
Definition word_bytes (a : arch) (z : Z) : list Z := le_bytes (Z.to_nat (word_size a)) z.

Definition string_bytes (s : string) : list Z := map code (list_ascii_of_string s).

(** ** Memory *)

Definition write_proc (pid addr : Z) (bytes : list Z) : prog sys Z :=
  call (WriteVm pid addr bytes).
Definition read_proc (pid addr len : Z) : prog sys (Z * list Z) :=
  call (ReadVm pid addr len).

(** ** Registers *)

(** A 32-bit arm kernel may know only the older requests. *)
Definition get_regs (a : arch) (pid : Z) : prog sys (option regs) :=
  match a with
  | X86_64 | I386 => call (GetRegs pid)
  | AARCH64 => call (GetRegSet pid)
  | ARM =>
      got <- call (GetRegSet pid) ;;
      match got with Some rs => Ret (Some rs) | None => call (GetRegs pid) end
  end.
Definition set_regs (a : arch) (pid : Z) (rs : regs) : prog sys bool :=
  match a with
  | X86_64 | I386 => call (SetRegs pid rs)
  | AARCH64 => call (SetRegSet pid rs)
  | ARM =>
      ok <- call (SetRegSet pid rs) ;;
      if ok : bool then Ret true else call (SetRegs pid rs)
  end.

(** ** Waiting *)

Definition tracee_skip_syscall (a : arch) (pid : Z) : prog sys unit :=
  got <- get_regs a pid ;;
  match got with
  | None => Halt (Exited 1)
  | Some rs =>
      ok <- set_regs a pid (set a SYSNR (wrap (pointer_width a) (-1)) rs) ;;
      if ok : bool then
        match a with
        | AARCH64 | ARM => _ <- call (Ptrace PTRACE_SKIP_SYSCALL pid) ;; Ret tt
        | _ => Ret tt
        end
      else Halt (Exited 1)
  end.

Definition seccomp_stop (status : Z) : bool :=
  Z.shiftr status 8 =? Z.lor SIGTRAP (Z.shiftl PTRACE_EVENT_SECCOMP 8).

Fixpoint wait_for_trace (fuel : nat) (a : arch) (pid flags : Z) : prog sys Z :=
  match fuel with
  | O => Halt NoFuel
  | S fuel =>
      let* (ret, status) := call (Waitpid pid flags) in
      if ret =? -1 then
        errno <- call Errno ;;
        if errno =? EINTR then wait_for_trace fuel a pid flags else Halt (Exited 1)
      else if seccomp_stop status then
        tracee_skip_syscall a pid ;;;
        _ <- call (Ptrace (PTRACE_CONT 0) pid) ;;
        wait_for_trace fuel a pid flags
      else if negb (WIFSTOPPED status) then Halt (Exited 1)
      else Ret status
  end.

(** ** The stack *)

Definition align_stack (a : arch) (rs : regs) (preserve : Z) : regs :=
  let w := pointer_width a in
  set a SP (Z.land (wrap w (get a rs SP - preserve)) (2 ^ w - 16)) rs.

Definition sub_sp (a : arch) (rs : regs) (n : Z) : regs :=
  set a SP (wrap (pointer_width a) (get a rs SP - n)) rs.

Definition push_string (a : arch) (pid : Z) (rs : regs) (str : string) :
    prog sys (regs * Z) :=
  let len := Z.of_nat (String.length str) + 1 in
  let rs := align_stack a (sub_sp a rs len) 0 in
  let remote_addr := get a rs SP in
  n <- write_proc pid remote_addr (string_bytes str ++ [0]) ;;
  Ret (rs, if n =? len then remote_addr else 0).

(** ** One remote call *)

(** How many arguments travel in registers. *)
Definition reg_args (a : arch) : nat :=
  match a with X86_64 => 6 | I386 => 0 | AARCH64 => 8 | ARM => 4 end.

Fixpoint set_arg_regs (a : arch) (i : nat) (args : list Z) (rs : regs) : regs :=
  match args with
  | [] => rs
  | v :: args => set_arg_regs a (S i) args (set a (ARG i) v rs)
  end.

Definition CPSR_T_MASK : Z := 0x20.

(** The arguments past the register ones go to the stack in one block. *)
Definition spill_args (a : arch) (pid : Z) (rs : regs) (stack_args : list Z) :
    prog sys (regs * bool) :=
  let size := Z.of_nat (List.length stack_args) * word_size a in
  match stack_args with
  | [] => Ret (rs, true)
  | _ =>
      let rs := sub_sp a rs size in
      n <- write_proc pid (get a rs SP) (flat_map (word_bytes a) stack_args) ;;
      Ret (rs, n =? size)
  end.

(** The registers once the return address is in place. *)
Definition finish_call (a : arch) (pid : Z) (rs : regs) (func_addr return_addr : Z) :
    prog sys (regs * bool) :=
  match a with
  | X86_64 | I386 =>
      let rs := sub_sp a rs (word_size a) in
      n <- write_proc pid (get a rs SP) (word_bytes a return_addr) ;;
      Ret (if n =? word_size a then (set a IP func_addr rs, true) else (rs, false))
  | AARCH64 => Ret (set a IP func_addr (set a LINK return_addr rs), true)
  | ARM =>
      let rs := set a LINK return_addr rs in
      if Z.testbit func_addr 0 then
        Ret (set a PSTATE (Z.lor (get a rs PSTATE) CPSR_T_MASK)
               (set a IP (Z.land func_addr (2 ^ 32 - 2)) rs), true)
      else
        Ret (set a PSTATE (Z.land (get a rs PSTATE) (2 ^ 32 - 1 - CPSR_T_MASK))
               (set a IP func_addr rs), true)
  end.

(** The registers a call starts with, and whether the stack could be written. *)
Definition prepare_call (a : arch) (pid : Z) (rs : regs) (func_addr return_addr : Z)
    (args : list Z) : prog sys (regs * bool) :=
  let rs := set_arg_regs a 0 (firstn (reg_args a) args) rs in
  let* (rs, pushed) := spill_args a pid rs (skipn (reg_args a) args) in
  if negb pushed then Ret (rs, false) else finish_call a pid rs func_addr return_addr.

(** The tracee's registers after the call, the value returned (0 on failure), and [ok]. *)
Definition remote_call (fuel : nat) (a : arch) (pid : Z) (rs : regs)
    (func_addr return_addr : Z) (args : list Z) : prog sys (regs * Z * bool) :=
  let rs := align_stack a rs 0 in
  let* (rs, prepared) := prepare_call a pid rs func_addr return_addr args in
  if negb prepared then Ret (rs, 0, false)
  else
    ok <- set_regs a pid rs ;;
    if negb ok then Ret (rs, 0, false)
    else
      _ <- call (Ptrace (PTRACE_CONT 0) pid) ;;
      status <- wait_for_trace fuel a pid WALL ;;
      got <- get_regs a pid ;;
      match got with
      | None => Ret (rs, 0, false)
      | Some rs =>
          if WIFSTOPPED status && (get a rs IP =? return_addr)
          then Ret (rs, get a rs RET, true)
          else Ret (rs, 0, false)
      end.

(** ** Facts: words and the stack *)

Lemma le_value_bytes n z : le_value (le_bytes n z) = z mod 256 ^ Z.of_nat n.
Proof.
  revert z. induction n as [|n IH]; intros z.
  - cbn. by rewrite Z.mod_1_r.
  - cbn [le_bytes le_value]. rewrite IH, Nat2Z.inj_succ, Z.pow_succ_r by lia.
    rewrite Z.rem_mul_r by lia. lia.
Qed.

Lemma le_value_range bs : Forall (fun b => 0 <= b < 256) bs -> 0 <= le_value bs < 256 ^ Z.of_nat (List.length bs).
Proof.
  induction 1 as [|b bs Hb _ IH]; [cbn; lia|].
  cbn [le_value List.length]. rewrite Nat2Z.inj_succ, Z.pow_succ_r by lia. lia.
Qed.

Lemma land_ldiff_r x y z : Z.land x (Z.ldiff y z) = Z.ldiff (Z.land x y) z.
Proof.
  apply Z.bits_inj'. intros n _. rewrite Z.land_spec, !Z.ldiff_spec, Z.land_spec.
  apply andb_assoc.
Qed.

Lemma align_stack_spec a rs preserve :
  let sp := wrap (pointer_width a) (get a rs SP - preserve) in
  get a (align_stack a rs preserve) SP = sp - sp mod 16.
Proof.
  cbn. unfold align_stack. rewrite get_set_eq.
  set (sp := wrap (pointer_width a) (get a rs SP - preserve)).
  assert (0 <= sp < 2 ^ pointer_width a) as Hsp.
  { apply wrap_bound. destruct a; cbn; lia. }
  replace (2 ^ pointer_width a - 16) with (Z.ldiff (Z.ones (pointer_width a)) (Z.ones 4)).
  2: { destruct a; reflexivity. }
  rewrite land_ldiff_r, Z.land_ones by (destruct a; cbn; lia).
  rewrite Z.mod_small by done.
  rewrite Z.ldiff_ones_r by lia. rewrite Z.shiftr_div_pow2, Z.shiftl_mul_pow2 by lia.
  change (2 ^ 4) with 16. pose proof (Z.div_mod sp 16). lia.
Qed.

Lemma align_stack_aligned a rs preserve : get a (align_stack a rs preserve) SP mod 16 = 0.
Proof.
  pose proof (align_stack_spec a rs preserve) as H. cbn in H. rewrite H.
  set (sp := wrap _ _). rewrite Zminus_mod_idemp_r, Z.sub_diag. done.
Qed.

Lemma set_arg_regs_other a i args rs r :
  (forall j, slot a r <> ARG j) -> get a (set_arg_regs a i args rs) r = get a rs r.
Proof.
  intros Hr. revert i rs. induction args as [|v args IH]; intros i rs; [done|].
  cbn [set_arg_regs]. rewrite IH. apply get_set_ne. destruct a; cbn in *; congruence.
Qed.

Lemma set_arg_regs_low a i j args rs :
  (j < i)%nat -> get a (set_arg_regs a i args rs) (ARG j) = get a rs (ARG j).
Proof.
  revert i rs. induction args as [|v args IH]; intros i rs Hj; [done|].
  cbn [set_arg_regs]. rewrite IH by lia. apply get_set_ne. destruct a; cbn; intros [=]; lia.
Qed.

Lemma set_arg_regs_get a i j args rs v :
  nth_error args j = Some v -> get a (set_arg_regs a i args rs) (ARG (i + j)) = v.
Proof.
  revert i j rs. induction args as [|x args IH]; intros i [|j] rs H; try done.
  - cbn in H. injection H as ->. cbn [set_arg_regs]. rewrite Nat.add_0_r.
    rewrite set_arg_regs_low by lia. apply get_set_eq.
  - cbn [set_arg_regs]. replace (i + S j)%nat with (S i + j)%nat by lia. by apply IH.
Qed.

(** ** Facts: waiting *)

(** What [wait_for_trace] hands back: a stop that is not the seccomp event it swallows. *)
Definition plain_stop (status : Z) : bool := WIFSTOPPED status && negb (seccomp_stop status).

Lemma wait_for_trace_stops fuel a pid flags :
  every_run (wait_for_trace fuel a pid flags) (on_return (fun _ status => plain_stop status = true)).
Proof.
  induction fuel as [|fuel IH]; [done|]. cbn [wait_for_trace].
  apply every_run_suffix; [done|]. intros [ret status].
  destruct (ret =? -1).
  { apply every_run_suffix; [done|]. intros errno. by destruct (errno =? EINTR). }
  destruct (seccomp_stop status) eqn:Es.
  - apply every_run_suffix; [done|]. intros _. by apply every_run_suffix.
  - destruct (WIFSTOPPED status) eqn:Ew; [|done]. cbn. unfold plain_stop. by rewrite Es, Ew.
Qed.

(** ** Facts: one remote call *)

(** A call that reports success read the registers back last: stopped at the return address,
    with the function's result. Anything else is reported as a failure with result 0. *)
Lemma remote_call_result fuel a pid rs func ret args :
  every_run (remote_call fuel a pid rs func ret args)
    (on_return (fun _ '(rs', v, ok) =>
       if ok : bool then get a rs' IP = ret /\ v = get a rs' RET else v = 0)).
Proof.
  apply every_run_suffix; [by intros ? ? [[? ?] []]|]. intros [rs1 [|]]; [|done]. cbn [negb].
  apply every_run_suffix; [by intros ? ? [[? ?] []]|]. intros [|]; [|done]. cbn [negb].
  do 3 (apply every_run_suffix; [by intros ? ? [[? ?] []]|]; intros ?).
  case_match; [|done].
  destruct (WIFSTOPPED _); [|done]. cbn [andb].
  destruct (get a _ IP =? ret) eqn:E; [|done]. apply Z.eqb_eq in E. done.
Qed.

(** The registers the first [SETREGS] of a run gives the tracee. *)
Fixpoint first_set (pid : Z) (tr : list (event sys)) : option regs :=
  match tr with
  | [] => None
  | ev :: tr => match set_regs_of pid ev with Some rs => Some rs | None => first_set pid tr end
  end.

Lemma first_set_app pid tr tr' :
  first_set pid tr = None -> first_set pid (tr ++ tr') = first_set pid tr'.
Proof. induction tr as [|ev tr IH]; cbn; [done|]. by destruct (set_regs_of pid ev). Qed.

(** What the return address takes on the stack, and what the arguments do. *)
Definition return_slot (a : arch) : Z :=
  match a with X86_64 | I386 => word_size a | AARCH64 | ARM => 0 end.
Definition spilled_bytes (a : arch) (args : list Z) : Z :=
  Z.of_nat (List.length (skipn (reg_args a) args)) * word_size a.

(** The moment the tracee is about to run [func] on [args]: the instruction pointer (with the
    Thumb bit moved into CPSR), the register arguments, the spilled arguments, the return
    address where the architecture expects it, and the stack, aligned above all of them. *)
Record call_ready (a : arch) (pid : Z) (tr : list (event sys)) (rs : regs)
    (func ret : Z) (args : list Z) : Prop := {
  ready_ip : get a rs IP = match a with ARM => Z.ldiff func 1 | _ => func end;
  ready_thumb : a = ARM -> Z.testbit (get a rs PSTATE) 5 = Z.testbit func 0;
  ready_args i v : (i < reg_args a)%nat -> nth_error args i = Some v -> get a rs (ARG i) = v;
  ready_return :
    match a with
    | X86_64 | I386 =>
        In (Ev (WriteVm pid (get a rs SP) (word_bytes a ret)) (word_size a)) tr
    | AARCH64 | ARM => get a rs LINK = ret
    end;
  ready_spill : skipn (reg_args a) args <> [] ->
    let spilled := match a with
                   | X86_64 | I386 => wrap (pointer_width a) (get a rs SP + word_size a)
                   | AARCH64 | ARM => get a rs SP
                   end in
    In (Ev (WriteVm pid spilled (flat_map (word_bytes a) (skipn (reg_args a) args)))
           (Z.of_nat (List.length (skipn (reg_args a) args)) * word_size a)) tr;
  ready_align : (get a rs SP + return_slot a + spilled_bytes a args) mod 16 = 0 }.

Lemma call_ready_app a pid tr tr' rs func ret args :
  call_ready a pid tr rs func ret args -> call_ready a pid (tr ++ tr') rs func ret args.
Proof.
  intros [? ? ? Hr Hsp ?]. split; [done..| | |done].
  - destruct a; [apply in_or_app; by left..| |]; done.
  - intros H. apply in_or_app. left. by apply Hsp.
Qed.

Ltac regs_simpl := repeat first [rewrite get_set_eq | rewrite get_set_ne by (cbn; congruence)].

Lemma land_even_mask f : 0 <= f < 2 ^ 32 -> Z.land f (2 ^ 32 - 2) = Z.ldiff f 1.
Proof.
  intros H. replace (2 ^ 32 - 2) with (Z.ldiff (Z.ones 32) 1) by reflexivity.
  rewrite land_ldiff_r, Z.land_ones, Z.mod_small by lia. done.
Qed.

Lemma ldiff_even f : Z.testbit f 0 = false -> Z.ldiff f 1 = f.
Proof.
  intros H. apply Z.bits_inj'. intros n Hn. rewrite Z.ldiff_spec.
  destruct (Z.eq_dec n 0) as [->|]; [by rewrite H|].
  replace (Z.testbit 1 n) with false; [by rewrite andb_true_r|].
  change 1 with (Z.ones 1). symmetry. apply Z.ones_spec_high. lia.
Qed.

Lemma finish_call_spec a pid rs func ret :
  0 <= func < 2 ^ pointer_width a ->
  every_run (finish_call a pid rs func ret) (fun tr r =>
    first_set pid tr = None /\
    on_return (fun tr '(rs', ok) => ok = true ->
      get a rs' IP = match a with ARM => Z.ldiff func 1 | _ => func end /\
      (a = ARM -> Z.testbit (get a rs' PSTATE) 5 = Z.testbit func 0) /\
      (forall i, get a rs' (ARG i) = get a rs (ARG i)) /\
      match a with
      | X86_64 | I386 =>
          get a rs' SP = wrap (pointer_width a) (get a rs SP - word_size a) /\
          In (Ev (WriteVm pid (get a rs' SP) (word_bytes a ret)) (word_size a)) tr
      | AARCH64 | ARM => get a rs' SP = get a rs SP /\ get a rs' LINK = ret
      end) tr r).
Proof.
  intros Hf. destruct a; cbn [finish_call].
  1: intros n; split; [done|]; cbn [on_return];
    destruct (Z.eqb_spec n (word_size X86_64)) as [->|]; [|done];
    intros _; unfold sub_sp; repeat split; intros; regs_simpl; try done; by left.
  1: intros n; split; [done|]; cbn [on_return];
    destruct (Z.eqb_spec n (word_size I386)) as [->|]; [|done]; intros _; unfold sub_sp; repeat split; intros; regs_simpl; try done; by left.
  - split; [done|]. intros _. repeat split; intros; regs_simpl; done.
  - destruct (Z.testbit func 0) eqn:Et; (split; [done|]); intros _; repeat split; intros;
      regs_simpl; auto using land_even_mask.
    + by rewrite Z.lor_spec, orb_true_r.
    + by rewrite ldiff_even.
    + by rewrite Z.land_spec, andb_false_r.
Qed.

Lemma spill_args_spec a pid rs stack :
  every_run (spill_args a pid rs stack) (fun tr r =>
    first_set pid tr = None /\
    on_return (fun tr '(rs', ok) => ok = true ->
      (forall i, get a rs' (ARG i) = get a rs (ARG i)) /\
      (stack <> [] ->
        get a rs' SP = wrap (pointer_width a) (get a rs SP - Z.of_nat (List.length stack) * word_size a) /\
        In (Ev (WriteVm pid (get a rs' SP) (flat_map (word_bytes a) stack))
               (Z.of_nat (List.length stack) * word_size a)) tr) /\
      (stack = [] -> get a rs' SP = get a rs SP)) tr r).
Proof.
  unfold spill_args. destruct stack as [|x stack]; [done|].
  set (size := Z.of_nat _ * _). intros n. split; [done|]. cbn [on_return].
  destruct (Z.eqb_spec n size) as [->|]; [|done]. intros _. split; [|split; [|done]].
  - intros i. unfold sub_sp. apply get_set_ne. destruct a; cbn; congruence.
  - intros _. unfold sub_sp. rewrite get_set_eq. split; [done|by left].
Qed.

Lemma nth_error_firstn_lt {A} (l : list A) n i :
  (i < n)%nat -> nth_error (firstn n l) i = nth_error l i.
Proof.
  revert n i. induction l as [|x l IH]; intros [|n] [|i] H; try done; try lia.
  cbn. apply IH. lia.
Qed.

Lemma wrap_mod_16 a z : wrap (pointer_width a) z mod 16 = z mod 16.
Proof.
  unfold wrap. destruct a; apply Z.mod_mod_divide; (by exists (2 ^ 60)) || by exists (2 ^ 28).
Qed.

Lemma mod_shift x y c : x mod 16 = (y - c) mod 16 -> (x + c) mod 16 = y mod 16.
Proof. intros H. by rewrite <- Zplus_mod_idemp_l, H, Zplus_mod_idemp_l, Z.sub_add. Qed.

Lemma prepare_call_spec a pid rs func ret args :
  0 <= func < 2 ^ pointer_width a -> get a rs SP mod 16 = 0 ->
  every_run (prepare_call a pid rs func ret args) (fun tr r =>
    first_set pid tr = None /\
    on_return (fun tr '(rs', ok) => ok = true -> call_ready a pid tr rs' func ret args) tr r).
Proof.
  intros Hf Hal. unfold prepare_call.
  eapply every_run_seq; [apply spill_args_spec|done|].
  intros tr [rs1 [|]] [Hn Hs]; cbn [negb on_return] in *; [|cbn; by rewrite app_nil_r].
  destruct (Hs eq_refl) as (Harg & Hstack & Hkeep).
  eapply every_run_mono; [|by apply finish_call_spec].
  intros tr' [[rs2 ok]|h] [Hn' Hc]; (split; [by rewrite first_set_app|]); [|done].
  cbn [on_return] in *. intros ->. destruct (Hc eq_refl) as (Hip & Ht & Harg' & Hret).
  split; [done|done| | | |].
  - intros i v Hi Hv. rewrite Harg', Harg.
    rewrite <- (set_arg_regs_get a 0 i (firstn (reg_args a) args) rs v); [done|].
    by rewrite nth_error_firstn_lt.
  - destruct a; [apply in_or_app; right; tauto..|tauto|tauto].
  - intros Hne. destruct (Hstack Hne) as [Hw Hin]. cbn zeta.
    replace (match a with X86_64 | I386 => _ | _ => _ end) with (get a rs1 SP).
    { apply in_or_app. by left. }
    destruct a; try (symmetry; tauto).
    all: destruct Hret as [-> _]; unfold wrap; rewrite Zplus_mod_idemp_l, Z.sub_add, Hw;
      unfold wrap; by rewrite Zmod_mod.
  - assert (get a rs1 SP mod 16 = (get a rs SP - spilled_bytes a args) mod 16) as H1.
    { unfold spilled_bytes. destruct (skipn (reg_args a) args) as [|v vs] eqn:Es.
      - rewrite (Hkeep eq_refl), set_arg_regs_other by (by destruct a). by rewrite Z.sub_0_r.
      - destruct (Hstack ltac:(done)) as [-> _].
        by rewrite set_arg_regs_other, wrap_mod_16 by (by destruct a). }
    assert (get a rs2 SP mod 16 = (get a rs1 SP - return_slot a) mod 16) as H2.
    { destruct a; cbn [return_slot]; destruct Hret as [-> _]; by rewrite ?wrap_mod_16, ?Z.sub_0_r. }
    by rewrite (mod_shift _ _ _ (eq_trans (mod_shift _ _ _ H2) H1)).
Qed.

Lemma first_set_found pid tr tr' rs :
  first_set pid tr = Some rs -> first_set pid (tr ++ tr') = Some rs.
Proof. induction tr as [|ev tr IH]; cbn; [done|]. by destruct (set_regs_of pid ev). Qed.

Lemma set_regs_first a pid rs :
  every_run (set_regs a pid rs) (fun tr _ => first_set pid tr = Some rs).
Proof. destruct a; try (intros ok; cbn; by rewrite Z.eqb_refl). intros [|]; cbn; by rewrite Z.eqb_refl. Qed.

(** The rule of the conventions: at the call the stack is aligned to 16 bytes, below which lies
    only the return address. *)
Definition abi_aligned (a : arch) (rs : regs) : Prop := (get a rs SP + return_slot a) mod 16 = 0.

Lemma spilled_alignment a pid tr rs func ret args :
  call_ready a pid tr rs func ret args ->
  (abi_aligned a rs <-> spilled_bytes a args mod 16 = 0).
Proof.
  intros H. pose proof (ready_align _ _ _ _ _ _ _ H) as Ha. unfold abi_aligned.
  rewrite Z.add_mod in Ha by lia. split; intros H0; rewrite H0 in Ha.
  - by rewrite Z.add_0_l, Zmod_mod in Ha.
  - by rewrite Z.add_0_r, Zmod_mod in Ha.
Qed.

(** So no call with one to three arguments is aligned on i386, where all are spilled: those of
    [dlopen], [dlsym] and [strlen] are not. *)
Lemma i386_calls_misaligned pid tr rs func ret args :
  call_ready I386 pid tr rs func ret args -> (0 < List.length args < 4)%nat -> ~ abi_aligned I386 rs.
Proof.
  intros H Hl Ha. apply (spilled_alignment _ _ _ _ _ _ _ H) in Ha. unfold spilled_bytes in Ha.
  change (skipn (reg_args I386) args) with args in Ha. change (word_size I386) with 4 in Ha.
  assert (List.length args = 1 \/ List.length args = 2 \/ List.length args = 3)%nat as Hc by lia.
  destruct Hc as [E|[E|E]]; rewrite E in Ha; discriminate Ha.
Qed.

(** C6: what it runs is the call it was asked for. Whatever the tracee and the kernel answer, in
    the first registers a remote call installs the instruction pointer is [func], the arguments
    are in the registers and on the stack where the architecture's C calling convention has
    them, [ret] is the return address, and the stack was aligned to 16 bytes before the spilled
    arguments and the return address were pushed. That is the alignment the convention asks for
    exactly when the spilled arguments take a multiple of 16 bytes, so always when none is
    spilled, and for no call of one to three arguments on i386 ([i386_calls_misaligned]). *)
Theorem remote_call_convention fuel a pid rs func ret args :
  0 <= func < 2 ^ pointer_width a ->
  every_run (remote_call fuel a pid rs func ret args) (fun tr _ =>
    forall rs0, first_set pid tr = Some rs0 ->
      call_ready a pid tr rs0 func ret args /\
      (abi_aligned a rs0 <-> spilled_bytes a args mod 16 = 0)).
Proof.
  intros Hf. eapply every_run_mono with (Q := fun tr _ => forall rs0,
    first_set pid tr = Some rs0 -> call_ready a pid tr rs0 func ret args).
  { intros tr r H rs0 Hrs. specialize (H rs0 Hrs). split; [done|]. by eapply spilled_alignment. }
  unfold remote_call.
  eapply every_run_seq; [apply prepare_call_spec; [done|apply align_stack_aligned]| |].
  { intros tr h [Hn _] rs0. by rewrite Hn. }
  intros tr [rs1 [|]] [Hn Hs]; cbn [negb on_return] in *.
  2: { cbn. intros rs0. by rewrite app_nil_r, Hn. }
  eapply every_run_seq; [apply (set_regs_first a pid rs1)| |].
  { intros tr' h H rs0. rewrite first_set_app, H by done. intros [= <-]. by apply call_ready_app, Hs. }
  intros tr' ok H. apply every_run_trivial. intros tr2 r rs0.
  rewrite first_set_app, (first_set_found pid tr' tr2 rs1) by done. intros [= <-].
  by apply call_ready_app, Hs.
Qed.

(** A wait the tracer retries: interrupted, or stopped by the seccomp event it swallows. *)
Definition transient_wait (ev : event sys) : bool :=
  match ev with
  | Ev e x =>
      (match e in sys X return X -> bool with
       | Waitpid _ _ => fun '(ret, status) => (ret =? -1) || seccomp_stop status
       | _ => fun _ => false
       end) x
  end.

Lemma tracee_skip_syscall_waits a pid :
  every_run (tracee_skip_syscall a pid) (fun tr r =>
    count transient_wait tr = O /\ match r with Stop h => h = Exited 1 | Val _ => True end).
Proof.
  unfold tracee_skip_syscall, get_regs, set_regs. destruct a; sym; by split.
Qed.

(** C18: the fuel of [wait_for_trace] is only a bound on retries: a run that exhausts it has
    seen that many waits that were each interrupted or stopped by the seccomp event; every
    other wait ends it, and a status it returns is a stop other than that event. *)
Theorem wait_for_trace_total fuel a pid flags :
  every_run (wait_for_trace fuel a pid flags) (fun tr r =>
    match r with
    | Val status => plain_stop status = true /\ (count transient_wait tr < fuel)%nat
    | Stop NoFuel => count transient_wait tr = fuel
    | Stop h => h = Exited 1
    end).
Proof.
  induction fuel as [|fuel IH]; [done|]. cbn [wait_for_trace].
  step. intros [ret status]. destruct (ret =? -1) eqn:Er.
  - step. intros errno. destruct (errno =? EINTR); [|done].
    eapply every_run_mono; [|exact IH]. intros tr r. rewrite !count_cons. cbn. rewrite Er. cbn.
    destruct r as [st|[]]; try done; try lia. intros []; split; [done|lia].
  - destruct (seccomp_stop status) eqn:Es.
    + eapply every_run_seq; [apply tracee_skip_syscall_waits| |].
      * cbn. intros tr h [_ ->]. done.
      * intros tr _ [Hn _]. step. intros x. eapply every_run_mono; [|exact IH]. intros tr' r.
        rewrite !count_cons, count_app, count_cons, Hn. cbn [transient_wait].
        rewrite Er, Es. cbn [orb]. intros Hr.
        destruct r as [st|[]]; try done; try lia. destruct Hr; split; [done|lia].
    + destruct (WIFSTOPPED status) eqn:Ew; [|done]. cbn [negb every_run].
      unfold plain_stop. rewrite Es, Ew. split; [done|]. rewrite count_cons, count_nil. cbn.
      rewrite Er, Es. cbn. lia.
Qed.

Lemma remote_call_convention_witness :
  0 <= 0x9040 < 2 ^ pointer_width AARCH64 /\
  every_run (remote_call 4 AARCH64 42 (fun _ => 0x7000) 0x9040 0x8000 [5; 2]) (fun tr _ =>
    forall rs0, first_set 42 tr = Some rs0 ->
      call_ready AARCH64 42 tr rs0 0x9040 0x8000 [5; 2] /\
      (abi_aligned AARCH64 rs0 <-> spilled_bytes AARCH64 [5; 2] mod 16 = 0)).
Proof.
  split; [cbn; lia|]. apply remote_call_convention. cbn; lia.
Defined.
