(* ===== verification/Inject.v ===== *)
(** * Injecting the library

    ptracer/ptracer.cpp: the remote [dlopen], [dlsym] and [entry] calls, the early path that
    traps a fresh zygote at its entry point, the late path that borrows a running thread, and
    the two attach strategies around them. *)
From Stdlib Require Import ZArith Lia List String Ascii Bool.
From stdpp Require Import base list strings.
From S2P Require Import Prelude.
From S2P Require Import Scan.
From S2P Require Import Sys.
From S2P Require Import ProcFs.
From S2P Require Import Remote.
Open Scope string_scope.
Open Scope list_scope.
Open Scope Z_scope.

(** trace.hpp. *)
Inductive TraceMode := UNKNOWN | SPAWN | STANDALONE | SYSTEM_SERVER.
#[export] Instance TraceMode_eq_dec : EqDecision TraceMode.
Proof. solve_decision. Defined.

Definition mode_value (m : TraceMode) : Z :=
  match m with UNKNOWN => 0 | SPAWN => 1 | STANDALONE => 2 | SYSTEM_SERVER => 3 end.
Definition mode_name (m : TraceMode) : string :=
  match m with
  | SPAWN => "spawn" | STANDALONE => "standalone" | SYSTEM_SERVER => "system_server"
  | UNKNOWN => "unknown"
  end.
Definition process_started (m : TraceMode) : bool :=
  match m with STANDALONE | SYSTEM_SERVER => true | _ => false end.

Definition RTLD_NOW : Z := 2.
Definition AT_NULL : Z := 0.
Definition AT_ENTRY : Z := 9.

(** What a build and one run of the tracer fix: the architecture, the work directory, and
    bounds on the loops that have none of their own. *)
Record config := {
  c_arch : arch;
  c_work : string;           (* zygiskd::GetTmpPath() *)
  c_wait_fuel : nat;         (* waits in one remote call *)
  c_scan_fuel : nat;         (* words of the kernel argument block *)
  c_stop_fuel : nat }.       (* stops before the entry trap *)

Section Tracer.
Variable cfg : config.
Let a := c_arch cfg.
Let w := pointer_width a.

(** The address range of the injected library: found by name once, then collected by device
    and inode. *)
Definition library_key (map : list MapInfo) : option (Z * Z) :=
  match List.find (fun m => negb (m_inode m =? 0) && contains (m_path m) "libzygisk.so") map with
  | Some m => Some (m_dev m, m_inode m)
  | None => None
  end.

Definition same_file (dev inode : Z) (m : MapInfo) : bool :=
  (m_dev m =? dev) && (m_inode m =? inode).

Definition library_range (map : list MapInfo) : Z * Z :=
  match library_key map with
  | None => (0, 0)
  | Some (dev, inode) =>
      fold_left (fun '(start, size) m =>
        if same_file dev inode m
        then (if start =? 0 then m_start m else start, wrap w (size + (m_end m - m_start m)))
        else (start, size)) map (0, 0)
  end.

Definition do_call (pid : Z) (rs : regs) (func ret : Z) (args : list Z) :=
  remote_call (c_wait_fuel cfg) a pid rs func ret args.

(** Whether it worked, and what entry() reported about hooks. *)
Definition execute_remote_injection (pid : Z) (rs : regs) (lib_path : string)
    (mode : TraceMode) (hooked : bool) : prog sys (bool * bool) :=
  let rs := match a with
            | AARCH64 => set a PSTATE (Z.ldiff (get a rs PSTATE) (Z.shiftl 3 10)) rs
            | _ => rs
            end in
  map <- Scan_maps w (to_string pid) ;;
  local_map <- Scan_maps w "self" ;;
  let libc_return_addr := find_module_return_addr map "libc.so" in
  dlopen_addr <- find_func_addr w local_map map "libdl.so" "dlopen" ;;
  if dlopen_addr =? 0 then Ret (false, hooked)
  else
    let* (rs, remote_lib_path) := push_string a pid rs lib_path in
    let* (rs, remote_handle, _) :=
      do_call pid rs dlopen_addr libc_return_addr [remote_lib_path; RTLD_NOW] in
    if remote_handle =? 0 then
      dlerror_addr <- find_func_addr w local_map map "libdl.so" "dlerror" ;;
      if dlerror_addr =? 0 then Ret (false, hooked)
      else
        let* (rs, dlerror_str_addr, _) := do_call pid rs dlerror_addr libc_return_addr [] in
        if dlerror_str_addr =? 0 then Ret (false, hooked)
        else
          strlen_addr <- find_func_addr w local_map map "libc.so" "strlen" ;;
          if strlen_addr =? 0 then Ret (false, hooked)
          else
            let* (_, dlerror_len, _) :=
              do_call pid rs strlen_addr libc_return_addr [dlerror_str_addr] in
            if dlerror_len =? 0 then Ret (false, hooked)
            else
              _ <- read_proc pid dlerror_str_addr dlerror_len ;;
              Ret (false, hooked)
    else
      dlsym_addr <- find_func_addr w local_map map "libdl.so" "dlsym" ;;
      if dlsym_addr =? 0 then Ret (false, hooked)
      else
        let* (rs, remote_entry_str) := push_string a pid rs "entry" in
        let* (rs, injector_entry, _) :=
          do_call pid rs dlsym_addr libc_return_addr [remote_handle; remote_entry_str] in
        if injector_entry =? 0 then Ret (false, hooked)
        else
          map <- Scan_maps w (to_string pid) ;;
          let '(start_addr, block_size) := library_range map in
          let* (rs, remote_tmp_path) := push_string a pid rs (c_work cfg) in
          let* (_, reported, entry_returned) :=
            do_call pid rs injector_entry libc_return_addr
              [start_addr; block_size; remote_tmp_path; mode_value mode] in
          if negb entry_returned then Ret (false, hooked)
          else Ret (true, negb (u32 reported =? 0)).

(** ** The early path *)

Definition read_word (pid addr : Z) : prog sys Z :=
  let* (_, bytes) := read_proc pid addr (w / 8) in
  Ret (wrap w (le_value bytes)).

(** Past the environment: the address of its terminating null pointer. *)
Fixpoint skip_envp (fuel : nat) (pid p : Z) : prog sys Z :=
  match fuel with
  | O => Halt NoFuel
  | S fuel =>
      val <- read_word pid p ;;
      if val =? 0 then Ret p else skip_envp fuel pid (p + w / 8)
  end.

(** The value of AT_ENTRY and where the vector stores it, zeros when it has none. *)
Fixpoint find_entry (fuel : nat) (pid v : Z) : prog sys (Z * Z) :=
  match fuel with
  | O => Halt NoFuel
  | S fuel =>
      let* (_, bytes) := read_proc pid v (2 * (w / 8)) in
      let a_type := wrap w (le_value (firstn (Z.to_nat (w / 8)) bytes)) in
      let a_val := wrap w (le_value (skipn (Z.to_nat (w / 8)) bytes)) in
      if a_type =? AT_NULL then Ret (0, 0)
      else if a_type =? AT_ENTRY then Ret (a_val, v + w / 8)
      else find_entry fuel pid (v + 2 * (w / 8))
  end.

Definition break_address (entry_addr : Z) : Z :=
  wrap w (Z.lor (Z.land (-0x05ec1cff) (-2)) (Z.land entry_addr 1)).

(** Resume until the trap at the entry point; false for any other end. *)
Fixpoint run_to_trap (fuel : nat) (pid : Z) : prog sys bool :=
  match fuel with
  | O => Halt NoFuel
  | S fuel =>
      r <- call (Ptrace (PTRACE_CONT 0) pid) ;;
      if r =? -1 then Ret false
      else
        status <- wait_for_trace (c_wait_fuel cfg) a pid WALL ;;
        if WIFEXITED status || WIFSIGNALED status then Ret false
        else if WIFSTOPPED status then
          let sig := WSTOPSIG status in
          if sig =? SIGSEGV then Ret true
          else if sig =? SIGSTOP then run_to_trap fuel pid
          else Ret false
        else run_to_trap fuel pid
  end.

Definition inject_before_start (pid : Z) (lib_path : string) (mode : TraceMode)
    (hooked : bool) : prog sys (bool * bool) :=
  _ <- Scan_maps w (to_string pid) ;;
  got <- get_regs a pid ;;
  match got with
  | None => Ret (false, hooked)
  | Some rs =>
      let sp := wrap w (get a rs SP) in
      let* (_, bytes) := read_proc pid sp 4 in
      let argc := s32 (le_value bytes) in
      let argv := sp + w / 8 in
      let envp := argv + (argc + 1) * (w / 8) in
      p <- skip_envp (c_scan_fuel cfg) pid envp ;;
      let* (entry_addr, addr_of_entry_addr) := find_entry (c_scan_fuel cfg) pid (p + w / 8) in
      if entry_addr =? 0 then Ret (false, hooked)
      else
        let break_addr := break_address entry_addr in
        n <- write_proc pid addr_of_entry_addr (word_bytes a break_addr) ;;
        if n =? 0 then Ret (false, hooked)
        else
          trapped <- run_to_trap (c_stop_fuel cfg) pid ;;
          if negb trapped then Ret (false, hooked)
          else
            got <- get_regs a pid ;;
            match got with
            | None => Ret (false, hooked)
            | Some rs =>
                if negb (Z.ldiff (get a rs IP) 1 =? Z.ldiff break_addr 1)
                then Ret (false, hooked)
                else
                  n <- write_proc pid addr_of_entry_addr (word_bytes a entry_addr) ;;
                  if n =? 0 then Ret (false, hooked)
                  else
                    let backup := rs in
                    let* (ok, hooked) := execute_remote_injection pid rs lib_path mode hooked in
                    if negb ok then Ret (false, hooked)
                    else
                      restored <- set_regs a pid (set a IP entry_addr backup) ;;
                      Ret (restored, hooked)
            end
  end.

(** ** The late path *)

(** The working registers with the interrupted syscall cleared out of them. *)
Definition clear_syscall (rs : regs) : regs :=
  match a with
  | X86_64 | I386 => set a RET 0 (set a SYSNR (wrap w (-1)) rs)
  | ARM => set a (ARG 0) 0 (set a ORIG (wrap w (-1)) rs)
  | AARCH64 => set a (ARG 0) 0 rs
  end.

Definition inject_after_start (pid : Z) (lib_path : string) (mode : TraceMode)
    (hooked : bool) : prog sys (bool * bool) :=
  got <- get_regs a pid ;;
  match got with
  | None => Ret (false, hooked)
  | Some backup =>
      let* (success, hooked) :=
        execute_remote_injection pid (clear_syscall backup) lib_path mode hooked in
      restored <- set_regs a pid backup ;;
      if negb restored then Ret (false, hooked) else Ret (success, hooked)
  end.

(** ** Attaching *)

Definition lib_path : string :=
  c_work cfg +:+ "/lib" +:+ (if w =? 64 then "64" else "") +:+ "/libzygisk.so".

Definition perform_injection (pid : Z) (mode : TraceMode) (hooked : bool) :
    prog sys (bool * bool) :=
  if process_started mode then inject_after_start pid lib_path mode hooked
  else inject_before_start pid lib_path mode hooked.

(** [STOPPED_WITH] in ptracer.cpp. *)
Definition STOPPED_WITH (status sig event : Z) : bool :=
  WIFSTOPPED status && (WSTOPSIG status =? sig) && (Z.shiftr status 16 =? event).

Definition wait_for_process (pid : Z) : prog sys (option Z) :=
  let* (ret, status) := call (Waitpid pid WALL) in
  Ret (if ret <? 0 then None else Some status).

(** misc.cpp: whether a kernel release is older than 5.3. *)
Definition before_5_3 (release : string) : bool :=
  match scan_d release with
  | Some (major, rest) =>
      match scan_lit "." rest with
      | Some rest =>
          match scan_d rest with
          | Some (minor, _) => (major <? 5) || ((major =? 5) && (minor <? 3))
          | None => false
          end
      | None => false
      end
  | None => false
  end.

Definition kernel_keeps_ptrace_message : prog sys bool :=
  release <- call Uname ;;
  Ret (match release with Some r => before_5_3 r | None => false end).

Definition arm_seccomp_events (pid options : Z) : prog sys unit :=
  keeps <- kernel_keeps_ptrace_message ;;
  if keeps : bool then
    _ <- call (Ptrace (PTRACE_SETOPTIONS (Z.lor options PTRACE_O_TRACESECCOMP)) pid) ;; Ret tt
  else Ret tt.

Definition detach (pid sig : Z) : prog sys Z := call (Ptrace (PTRACE_DETACH sig) pid).

Definition detach_with_gki_workaround (pid detach_signal : Z) : prog sys bool :=
  r <- call (Ptrace PTRACE_SYSCALL pid) ;;
  if r =? -1 then _ <- detach pid detach_signal ;; Ret false
  else
    st <- wait_for_process pid ;;
    match st with
    | None => _ <- detach pid detach_signal ;; Ret false
    | Some _ =>
        r <- detach pid detach_signal ;;
        Ret (negb (r =? -1))
    end.

(** BAIL_AND_DETACH. *)
Definition bail (pid : Z) (hooked : bool) : prog sys (bool * bool) :=
  _ <- detach pid 0 ;; Ret (false, hooked).

(** SIGCONT delivered through the seized tracee, then the detach. *)
Definition continue_and_detach (pid : Z) (hooked : bool) : prog sys (bool * bool) :=
  r <- call (Kill pid SIGCONT) ;;
  if r =? -1 then bail pid hooked
  else
    r <- call (Ptrace (PTRACE_CONT 0) pid) ;;
    if r =? -1 then bail pid hooked
    else
      st <- wait_for_process pid ;;
      match st with
      | None => Ret (false, hooked)
      | Some status =>
          if STOPPED_WITH status SIGTRAP PTRACE_EVENT_STOP then
            r <- call (Ptrace (PTRACE_CONT 0) pid) ;;
            if r =? -1 then bail pid hooked
            else
              st <- wait_for_process pid ;;
              match st with
              | None => Ret (false, hooked)
              | Some status =>
                  if STOPPED_WITH status SIGCONT 0 then
                    ok <- detach_with_gki_workaround pid SIGCONT ;; Ret (ok, hooked)
                  else bail pid hooked
              end
          else bail pid hooked
      end.

Definition trace_with_seize (pid : Z) (mode : TraceMode) (hooked : bool) :
    prog sys (bool * bool) :=
  let started := process_started mode in
  let options := if started then 0 else PTRACE_O_EXITKILL in
  r <- call (Ptrace (PTRACE_SEIZE options) pid) ;;
  if r =? -1 then Ret (false, hooked)
  else
    interrupted <-
      (if started then
         r <- call (Ptrace PTRACE_INTERRUPT pid) ;;
         if r =? -1 then _ <- detach pid 0 ;; Ret false else Ret true
       else Ret true) ;;
    if negb interrupted then Ret (false, hooked)
    else
      st <- wait_for_process pid ;;
      match st with
      | None => Ret (false, hooked)
      | Some status =>
          let valid_stop :=
            if started then STOPPED_WITH status SIGTRAP PTRACE_EVENT_STOP
            else STOPPED_WITH status SIGSTOP PTRACE_EVENT_STOP in
          if valid_stop then
            arm_seccomp_events pid options ;;;
            let* (ok, hooked) := perform_injection pid mode hooked in
            if negb ok then bail pid hooked
            else if started then
              _ <- detach pid 0 ;; Ret (true, hooked)
            else continue_and_detach pid hooked
          else bail pid hooked
      end.

Definition trace_with_attach (pid : Z) (mode : TraceMode) (hooked : bool) :
    prog sys (bool * bool) :=
  r <- call (Ptrace PTRACE_ATTACH pid) ;;
  if r =? -1 then Ret (false, hooked)
  else
    st <- wait_for_process pid ;;
    match st with
    | None => bail pid hooked
    | Some status =>
        if WIFSTOPPED status && (WSTOPSIG status =? SIGSTOP) then
          let options := if decide (mode = SPAWN) then PTRACE_O_EXITKILL else 0 in
          (if options =? 0 then Ret 0 else call (Ptrace (PTRACE_SETOPTIONS options) pid)) ;;;
          arm_seccomp_events pid options ;;;
          let* (ok, hooked) := perform_injection pid mode hooked in
          if negb ok then bail pid hooked
          else
            ok <- detach_with_gki_workaround pid SIGCONT ;; Ret (ok, hooked)
        else bail pid hooked
    end.

(** Whether the target was traced, and the hooked flag. *)
Definition trace_target (pid : Z) (mode : TraceMode) : prog sys (bool * bool) :=
  let* (ok, hooked) := trace_with_seize pid mode false in
  if ok : bool then Ret (true, hooked)
  else
    errno <- call Errno ;;
    if errno =? EIO then trace_with_attach pid mode hooked
    else Ret (false, hooked).

End Tracer.

(** ** Facts: no tracee is left behind *)

Section TracerFacts.
Variable cfg : config.
Let a := c_arch cfg.
Let w := pointer_width a.
Variable pid : Z.
Variable late : bool.

(** How an attempt to trace [pid] may end: detached, or with the attach or the wait having
    failed, when there is nothing to detach from. *)
Definition no_tracee (ev : event sys) : bool :=
  match ev with
  | Ev e x =>
      (match e in sys X return X -> bool with
       | Ptrace (PTRACE_SEIZE _) _ | Ptrace PTRACE_ATTACH _ => fun r => r =? -1
       | Waitpid _ _ => fun '(ret, _) => ret <? 0
       | _ => fun _ => false
       end) x
  end.

(** A detach the kernel carried out. *)
Definition is_detached (ev : event sys) : bool :=
  match ev with
  | Ev e x =>
      (match e in sys X return X -> bool with
       | Ptrace (PTRACE_DETACH _) p => fun r => (p =? pid) && negb (r =? -1)
       | _ => fun _ => false
       end) x
  end.

(** With [late], a success does not depend on the answer to the detach. *)
Definition clean_end (tr : list (event sys)) (r : bool * bool) : Prop :=
  if fst r then last_is (if late then is_detach pid else is_detached) tr = true
  else last_is (is_detach pid) tr || last_is no_tracee tr = true.

Lemma clean_end_app tr tr' r : clean_end tr' r -> clean_end (tr ++ tr') r.
Proof.
  unfold clean_end. destruct (fst r); [by apply last_is_app|].
  rewrite !orb_true_iff. intros [H|H]; [left|right]; by apply last_is_app.
Qed.

Lemma clean_end_bail hooked : every_run (bail pid hooked) (on_return clean_end).
Proof. intros x. cbn. unfold clean_end, last_is. cbn. by rewrite Z.eqb_refl. Qed.

Lemma clean_end_detach sig ok hooked :
  late = true -> every_run (_ <- detach pid sig ;; Ret (ok, hooked)) (on_return clean_end).
Proof.
  intros Hl x. cbn. unfold clean_end, last_is. rewrite Hl. cbn. rewrite Z.eqb_refl. by destruct ok.
Qed.

Lemma clean_end_wait (f : Z -> prog sys (bool * bool)) hooked :
  (forall status, every_run (f status) (on_return clean_end)) ->
  every_run (st <- wait_for_process pid ;;
             match st with None => Ret (false, hooked) | Some status => f status end)
    (on_return clean_end).
Proof.
  intros Hf. apply bind_bind. step. intros [ret status]. cbn [bind].
  destruct (ret <? 0) eqn:E.
  - cbn. unfold clean_end, last_is. cbn. by rewrite E.
  - eapply every_run_mono; [|apply Hf]. intros tr [r|h]; [|done]. apply (clean_end_app [_]).
Qed.

Lemma clean_end_workaround sig hooked :
  every_run (ok <- detach_with_gki_workaround pid sig ;; Ret (ok, hooked)) (on_return clean_end).
Proof.
  apply bind_bind. step. intros r. destruct (r =? -1).
  { apply bind_bind. intros x. cbn. unfold clean_end, last_is. cbn. by rewrite Z.eqb_refl. }
  apply bind_bind, bind_bind. intros [ret status].
  cbn. destruct (ret <? 0); cbn; intros x; unfold clean_end, last_is; cbn; rewrite Z.eqb_refl.
  - done.
  - destruct (x =? -1) eqn:E; [done|]. destruct late; cbn; by rewrite Z.eqb_refl, ?E.
Qed.

Lemma continue_and_detach_clean hooked :
  every_run (continue_and_detach pid hooked) (on_return clean_end).
Proof.
  pose proof clean_end_app.
  apply every_run_suffix; [done|]. intros r. destruct (r =? -1); [apply clean_end_bail|].
  apply every_run_suffix; [done|]. intros r'. destruct (r' =? -1); [apply clean_end_bail|].
  apply clean_end_wait. intros status.
  destruct (STOPPED_WITH _ _ _); [|apply clean_end_bail].
  apply every_run_suffix; [done|]. intros r2. destruct (r2 =? -1); [apply clean_end_bail|].
  apply clean_end_wait. intros status'.
  destruct (STOPPED_WITH _ _ _); [apply clean_end_workaround|apply clean_end_bail].
Qed.
End TracerFacts.

Section Attaching.
Variable cfg : config.
Variable pid : Z.

Section Mode.
Variable late : bool.

Lemma perform_then_detach mode hooked options (k : bool -> prog sys (bool * bool)) :
  (forall h, every_run (k h) (on_return (clean_end pid late))) ->
  every_run (arm_seccomp_events pid options ;;;
             let* (ok, hooked) := perform_injection cfg pid mode hooked in
             if negb ok then bail pid hooked else k hooked) (on_return (clean_end pid late)).
Proof.
  intros Hk. pose proof (clean_end_app pid late).
  apply every_run_suffix; [done|]. intros _.
  apply every_run_suffix; [done|]. intros [[|] h]; [apply Hk|apply clean_end_bail].
Qed.

End Mode.

Lemma trace_with_attach_clean mode hooked :
  every_run (trace_with_attach cfg pid mode hooked) (on_return (clean_end pid (process_started mode))).
Proof.
  pose proof (clean_end_app pid (process_started mode)) as Happ.
  step. intros r. destruct (r =? -1) eqn:Er.
  { cbn. unfold clean_end, last_is. cbn. by rewrite Er, orb_true_r. }
  eapply every_run_mono; [|eapply (every_run_suffix _ _ (clean_end pid (process_started mode)) Happ)].
  { intros tr [x|h]; [|done]. apply (Happ [_]). }
  intros [status|]; [|apply clean_end_bail].
  destruct (WIFSTOPPED status && _); [|apply clean_end_bail].
  apply every_run_suffix; [done|]. intros _.
  apply (perform_then_detach _ mode hooked _
    (fun hooked => ok <- detach_with_gki_workaround pid SIGCONT ;; Ret (ok, hooked))).
  intros h. apply clean_end_workaround.
Qed.

Lemma trace_with_seize_clean mode hooked :
  every_run (trace_with_seize cfg pid mode hooked) (on_return (clean_end pid (process_started mode))).
Proof.
  pose proof (clean_end_app pid (process_started mode)) as Happ.
  set (started := process_started mode) in *.
  assert (every_run (st <- wait_for_process pid ;;
    match st with
    | None => Ret (false, hooked)
    | Some status =>
        if (if started then STOPPED_WITH status SIGTRAP PTRACE_EVENT_STOP
            else STOPPED_WITH status SIGSTOP PTRACE_EVENT_STOP) then
          arm_seccomp_events pid (if started then 0 else PTRACE_O_EXITKILL) ;;;
          let* (ok, hooked) := perform_injection cfg pid mode hooked in
          if negb ok then bail pid hooked
          else if started then _ <- detach pid 0 ;; Ret (true, hooked)
          else continue_and_detach pid hooked
        else bail pid hooked
    end) (on_return (clean_end pid started))) as Hrest.
  { apply clean_end_wait. intros status. case_match; [|apply clean_end_bail].
    apply (perform_then_detach _ mode hooked _
      (fun hooked => if started then _ <- detach pid 0 ;; Ret (true, hooked)
                     else continue_and_detach pid hooked)).
    intros h. clearbody started. destruct started; [by apply clean_end_detach|apply continue_and_detach_clean]. }
  step. intros r. destruct (r =? -1) eqn:Er.
  { cbn. unfold clean_end, last_is. cbn. by rewrite Er, orb_true_r. }
  fold started. revert Happ Hrest. destruct started; intros Happ Hrest.
  - apply bind_bind. step. intros r'. destruct (r' =? -1).
    + apply bind_bind. intros x. cbn. unfold clean_end, last_is. cbn. by rewrite Z.eqb_refl.
    + eapply every_run_mono; [|exact Hrest].
      intros tr [x|h]; [|done]. apply (Happ [_; _]).
  - eapply every_run_mono; [|exact Hrest]. intros tr [x|h]; [|done]. apply (Happ [_]).
Qed.
End Attaching.

(** C1: no tracee is left behind. When [trace_target] returns, its last action on the target was
    to ask for the detach, unless attaching or waiting for it failed. Success means that the
    kernel carried that detach out, except in the modes for a running process, where an answer
    to it is not needed: there a success is reported whether it worked or not. *)
Theorem trace_target_detaches cfg pid mode :
  every_run (trace_target cfg pid mode) (on_return (fun tr '(ok, hooked) =>
    exists tr1 tr2, tr = tr1 ++ tr2 /\ clean_end pid (process_started mode) tr1 (ok, hooked) /\
      (tr2 = [] \/ exists errno, tr2 = [Ev Errno errno] /\ errno <> EIO))).
Proof.
  eapply every_run_seq; [apply trace_with_seize_clean|done|].
  cbn [on_return]. intros tr [[|] h] Hc.
  - exists tr, []. rewrite app_nil_r. split; [done|]. split; [done|by left].
  - step. intros errno. destruct (Z.eqb_spec errno EIO) as [->|Hne].
    + eapply every_run_mono; [|apply trace_with_attach_clean].
      intros tr' [[ok h']|]; [|done]. cbn. intros Hc'.
      exists (tr ++ Ev Errno EIO :: tr'), []. rewrite app_nil_r. split; [done|]. split; [|by left].
      apply clean_end_app. apply (clean_end_app _ _ [_]). exact Hc'.
    + exists tr, [Ev Errno errno]. split; [done|]. split; [done|]. right. by exists errno.
Qed.

(** C7: the late path gives a borrowed thread its registers back. Whatever happens between
    the two, the last thing [inject_after_start] does to the thread is write the very registers
    it read first, and it reports success only if that worked. *)
Theorem inject_after_start_restores cfg pid lib mode hooked :
  every_run (inject_after_start cfg pid lib mode hooked) (on_return (fun tr '(ok, _) =>
    (exec (get_regs (c_arch cfg) pid) tr (Val None) /\ ok = false) \/
    exists backup tr_get tr' tr_set restored,
      tr = tr_get ++ tr' ++ tr_set /\
      exec (get_regs (c_arch cfg) pid) tr_get (Val (Some backup)) /\
      exec (set_regs (c_arch cfg) pid backup) tr_set (Val restored) /\
      (ok = true -> restored = true))).
Proof.
  eapply every_run_seq; [apply every_run_self|done|]. intros tr_get [backup|] Hget.
  2: { left. by rewrite app_nil_r. }
  apply every_run_bind, every_run_trivial. intros tr [[success h]|]; [|done].
  eapply every_run_seq; [apply every_run_self|done|]. intros tr_set restored Hset.
  destruct restored; right; exists backup, tr_get, tr, tr_set; eexists;
    rewrite app_nil_r; by split_and!.
Qed.

(** An event that only looks at the tracee. *)
Definition looks (ev : event sys) : bool :=
  match ev with
  | Ev (ReadFile _) _ | Ev (GetRegs _) _ | Ev (GetRegSet _) _ | Ev (ReadVm _ _ _) _ => true
  | _ => false
  end.
Lemma get_regs_looks a pid : emits looks (get_regs a pid).
Proof. destruct a; cbn [get_regs]; emits_tac. Qed.
Lemma skip_envp_looks cfg fuel pid p : emits looks (skip_envp cfg fuel pid p).
Proof.
  revert p. induction fuel as [|fuel IH]; intros p; cbn [skip_envp]; unfold read_word, read_proc;
    emits_tac; apply IH.
Qed.
Lemma find_entry_looks cfg fuel pid v : emits looks (find_entry cfg fuel pid v).
Proof.
  revert v. induction fuel as [|fuel IH]; intros v; cbn [find_entry]; unfold read_proc;
    emits_tac; apply IH.
Qed.
Lemma emitted {A} f (p : prog sys A) tr r : emits f p -> exec p tr r -> forallb f tr = true.
Proof. intros H Hx. exact (proj1 (every_run_exec _ _) H _ _ Hx). Qed.

(** C13: the early path resumes a zygote where it would have started. A success of
    [inject_before_start] is this sequence: the tracee is only looked at until the entry point
    and its place in the auxiliary vector are found; that place is overwritten with an address
    that traps, and the tracee run until it trapped there; its registers are read; the entry
    point is written back to its place, before any remote call, and only a write of no bytes is
    taken for a failure (an answer of -1 is not); the library is injected with success; and
    last, the registers read at the trap are set again, with the instruction pointer at the
    entry point, which the kernel did. *)
Theorem inject_before_start_resumes cfg pid lib mode hooked :
  let a := c_arch cfg in
  every_run (inject_before_start cfg pid lib mode hooked) (on_return (fun tr '(ok, hooked') =>
    ok = true ->
    exists looked v found addr entry n trap tr_get rs n' injection tr_set,
      tr = looked ++ found ++ Ev (WriteVm pid addr (word_bytes a (break_address cfg entry))) n ::
             trap ++ tr_get ++ Ev (WriteVm pid addr (word_bytes a entry)) n' ::
             injection ++ tr_set /\
      forallb looks looked = true /\
      exec (find_entry cfg (c_scan_fuel cfg) pid v) found (Val (entry, addr)) /\
      forallb looks found = true /\ entry <> 0 /\ n <> 0 /\
      exec (run_to_trap cfg (c_stop_fuel cfg) pid) trap (Val true) /\
      exec (get_regs a pid) tr_get (Val (Some rs)) /\
      Z.ldiff (get a rs IP) 1 = Z.ldiff (break_address cfg entry) 1 /\ n' <> 0 /\
      exec (execute_remote_injection cfg pid rs lib mode hooked) injection (Val (true, hooked')) /\
      exec (set_regs a pid (set a IP entry rs)) tr_set (Val true))).
Proof.
  cbv zeta. apply every_run_exec. intros tr [[ok h]|] Hx; [|done]. cbn [on_return]. intros ->.
  unfold inject_before_start in Hx.
  apply exec_bind_val in Hx as (t1 & map & r1 & -> & H1 & Hx).
  apply exec_bind_val in Hx as (t2 & [rs0|] & r2 & -> & H2 & Hx); [|by destruct Hx].
  apply exec_bind_val in Hx as (t3 & [? bytes] & r3 & -> & H3 & Hx).
  apply exec_bind_val in Hx as (t4 & p & r4 & -> & H4 & Hx).
  apply exec_bind_val in Hx as (t5 & [entry addr] & r5 & -> & H5 & Hx).
  destruct (Z.eqb_spec entry 0) as [|He]; [by destruct Hx|].
  destruct Hx as (n & r6 & -> & Hx). cbn [bind] in Hx.
  destruct (Z.eqb_spec n 0) as [|Hn]; [by destruct Hx|].
  apply exec_bind_val in Hx as (t7 & trapped & r7 & -> & H7 & Hx).
  destruct trapped; [|by destruct Hx]. cbn [negb] in Hx.
  apply exec_bind_val in Hx as (t8 & [rs|] & r8 & -> & H8 & Hx); [|by destruct Hx].
  destruct (Z.eqb_spec (Z.ldiff (get (c_arch cfg) rs IP) 1) (Z.ldiff (break_address cfg entry) 1))
    as [Hip|]; [|by destruct Hx]. cbn [negb] in Hx.
  destruct Hx as (n' & r9 & -> & Hx). cbn [bind] in Hx.
  destruct (Z.eqb_spec n' 0) as [|Hn']; [by destruct Hx|].
  apply exec_bind_val in Hx as (t9 & [[|] h'] & r10 & -> & H9 & Hx); [|by destruct Hx].
  cbn [negb] in Hx. apply exec_bind_val in Hx as (t10 & restored & r11 & -> & H10 & [-> Hr]).
  injection Hr as <- <-. rewrite app_nil_r.
  exists (t1 ++ t2 ++ t3 ++ t4), (p + pointer_width (c_arch cfg) / 8), t5, addr, entry, n, t7, t8,
    rs, n', t9, t10.
  rewrite <- !app_assoc. split_and!; try done.
  - rewrite !forallb_app, (emitted _ _ _ _ (get_regs_looks _ _) H2),
      (emitted _ _ _ _ (skip_envp_looks _ _ _ _) H4).
    assert (emits looks (Scan_maps (pointer_width (c_arch cfg)) (to_string pid))) as Hm
      by (unfold Scan_maps; emits_tac).
    rewrite (emitted _ _ _ _ Hm H1). destruct H3 as (x & ? & -> & -> & _). done.
  - exact (emitted _ _ _ _ (find_entry_looks _ _ _ _) H5).
Qed.

(** A concrete world for an aarch64 zygote: its entry point is 0x1000, libc starts at 0x8000,
    libdl at 0x9000. [dl] is what remote calls return, [restore] whether the write of the real
    entry point succeeds, [local] the local address of [dlerror]. *)
Section World.
Variable dl : Z.
Variable restore : bool.
Variable local : option Z.

Definition world_maps : string :=
  "8000-9000 r--p 00000000 fe:01 11 /system/lib64/libc.so" +:+ String newline
  ("9000-a000 r--p 00000000 fe:01 12 /system/lib64/libdl.so" +:+ String newline
   "a000-b000 r--p 00000000 fe:01 13 /w/lib64/libzygisk.so").

Definition world_cfg : config :=
  {| c_arch := AARCH64; c_work := "/w"; c_wait_fuel := 4; c_scan_fuel := 4; c_stop_fuel := 4 |}.

Definition world_regs (ip : Z) : regs :=
  fun r => match r with IP => ip | SP => 0x7000 | ARG 0 => dl | _ => 0 end.

(** The ninth call reads the registers at the trap; later ones read them after a call. *)
Definition world (n : nat) X (e : sys X) : X :=
  match e in sys X return X with
  | ReadFile _ => Some world_maps
  | DlSym _ f => if String.eqb f "dlerror" then local else Some 0x9040
  | GetRegs _ | GetRegSet _ => Some (world_regs (if Nat.leb n 8 then break_address world_cfg 0x1000 else 0x8000))
  | ReadVm _ _ len => (len, if len =? 16 then [9;0;0;0;0;0;0;0;0;0x10;0;0;0;0;0;0] else [0])
  | WriteVm _ _ bytes =>
      if bool_decide (bytes = word_bytes AARCH64 0x1000) && negb restore then -1
      else Z.of_nat (List.length bytes)
  | Waitpid pid _ => (pid, stop_status SIGSEGV 0)
  | SetRegs _ _ | SetRegSet _ _ => true
  | Ptrace _ _ | Errno | Kill _ _ | Fork | Getppid | ClockSec | OpenRead _ | OpenWrite _
  | OpenCreate _ _ | WriteFd _ _ | SockOpen | SockSend _ _ _ => 0
  | Prctl_PDEATHSIG _ | SetenvIfUnset _ _ | Setsid | Dup2 _ _ | Usleep _ | Sleep _ | Say _ | OnInterrupt _ | CloseFd _ | Daemon_ZygoteRestart => tt
  | Getenv _ | Uname | ReadLink _ _ | RealPath _ => None
  | ListDir _ => None
  | IsDir _ | AccessOk _ _ | WriteFile _ _ | FsOp _ | Chdir _ | SockConnect _ _ | SockBind _ _
  | SockBindAuto _ | SockTimeout _ _ | Execl _ _ | Daemon_RefreshModules _ => false
  | ReadFd _ _ | Mkstemps _ _ => (0, "")
  | SockRecv _ _ | SockPeek _ _ => (0, [])
  | SockRecvFrom _ _ => (0, [], ([], 0))
  | SockAnswer _ _ _ | SigFdOpen | EpollCreate => 0
  | SigFdRead _ => None
  | EpollAdd _ _ => false
  | EpollWait _ => None
  end.
End World.

Definition world_run dl restore local : list (event sys) * res (bool * bool) :=
  run (world dl restore local) 0 (inject_before_start world_cfg 42 "/w/lib64/libzygisk.so" SPAWN false).

(** [write_proc] answers -1 on failure, which [!write_proc(...)] takes for success: the entry
    point stays hijacked in the auxiliary vector and the injection is still reported as done. *)
Lemma entry_restore_failure_unnoticed :
  snd (world_run 5 false None) = Val (true, true) /\
  exists n addr, nth_error (fst (world_run 5 false None)) n
    = Some (Ev (WriteVm 42 addr (word_bytes AARCH64 0x1000)) (-1)).
Proof. split; [vm_compute; reflexivity|]. exists 9%nat, 28704. vm_compute. reflexivity. Qed.

(** A failed remote [dlopen] returns without the registers being put back, unlike the late
    path: the zygote is detached about to run at libc's fake return address. *)
Lemma early_failure_keeps_call_registers :
  snd (world_run 0 true None) = Val (false, false) /\
  option_map (fun rs => (get AARCH64 rs IP, get AARCH64 rs LINK))
    (first_set 42 (rev (fst (world_run 0 true None)))) = Some (0x9040, 0x8000).
Proof. split; vm_compute; reflexivity. Qed.

(** ** The range handed to the library *)

Definition total_size (ms : list MapInfo) : Z :=
  fold_right (fun m n => (m_end m - m_start m) + n) 0 ms.

Lemma library_fold cfg dev inode ms start size :
  Forall (fun m => 0 < m_start m) ms ->
  let owned := List.filter (same_file dev inode) ms in
  fold_left (fun '(start, size) m =>
      if same_file dev inode m
      then (if start =? 0 then m_start m else start,
            wrap (pointer_width (c_arch cfg)) (size + (m_end m - m_start m)))
      else (start, size)) ms (start, wrap (pointer_width (c_arch cfg)) size) =
  (match owned with m :: _ => if start =? 0 then m_start m else start | [] => start end,
   wrap (pointer_width (c_arch cfg)) (size + total_size owned)).
Proof.
  intros Hpos. revert start size. induction Hpos as [|m ms Hm _ IH]; intros start size; cbn.
  - by rewrite Z.add_0_r.
  - cbn in IH, Hm. destruct (same_file dev inode m); [|apply IH]. cbn.
    replace (wrap _ (wrap _ size + _))
      with (wrap (pointer_width (c_arch cfg)) (size + (m_end m - m_start m)))
      by (unfold wrap; by rewrite Zplus_mod_idemp_l).
    rewrite IH. f_equal; [|f_equal; unfold total_size; lia].
    destruct (Z.eqb_spec start 0) as [->|Hs].
    + destruct (Z.eqb_spec (m_start m) 0); [lia|]. by destruct (List.filter _ ms).
    + destruct (Z.eqb_spec start 0); [done|]. by destruct (List.filter _ ms).
Qed.

(** C21: the range the injected library is told to unmap later is its own file's: the start of
    the first mapping with the device and inode of the first mapping whose path names the
    library, and the (wrapped) sum of the sizes of exactly the mappings of that file. Without
    such a mapping it is empty. *)
Theorem library_range_exact cfg ms :
  Forall (fun m => 0 < m_start m) ms ->
  library_range cfg ms =
    match List.find (fun m => negb (m_inode m =? 0) && contains (m_path m) "libzygisk.so") ms with
    | None => (0, 0)
    | Some lib =>
        let owned := List.filter (same_file (m_dev lib) (m_inode lib)) ms in
        (default 0 (option_map m_start (head owned)),
         wrap (pointer_width (c_arch cfg)) (total_size owned))
    end.
Proof.
  intros Hpos. unfold library_range, library_key. destruct (List.find _ ms) as [lib|]; [|done].
  change (0, 0) with (0, wrap (pointer_width (c_arch cfg)) 0).
  rewrite library_fold by done. cbn zeta. rewrite Z.add_0_l. by destruct (List.filter _ ms).
Qed.

Lemma library_range_exact_witness :
  let ms := parse_maps 64 world_maps in
  Forall (fun m => 0 < m_start m) ms /\ library_range world_cfg ms = (0xa000, 0x1000).
Proof.
  assert (Forall (fun m => 0 < m_start m) (parse_maps 64 world_maps)) as H.
  { vm_compute. repeat constructor. }
  split; [exact H|]. rewrite (library_range_exact world_cfg _ H). vm_compute. reflexivity.
Defined.
