(* ===== verification/MonState.v ===== *)
(** * The monitor's state and its status file

    types.hpp, the members of [AppMonitor] and [ZygoteAbiManager], and the operations of
    monitor_impl.cpp that only touch them: the tracing state machine and the rendering of
    module.prop. *)
From Stdlib Require Import ZArith Lia List String Ascii Bool.
From stdpp Require Import base list strings gmap.
From S2P Require Import Prelude.
From S2P Require Import Scan.
From S2P Require Import Files.
From S2P Require Import Sys.
From S2P Require Import ProcFs.
Open Scope string_scope.
Open Scope list_scope.
Open Scope Z_scope.

Inductive TracingState := TRACING | STOPPING | STOPPED | EXITING.
#[export] Instance TracingState_eq_dec : EqDecision TracingState.
Proof. solve_decision. Defined.

Definition tracing_name (s : TracingState) : string :=
  match s with
  | TRACING => "tracing" | STOPPING => "stopping" | STOPPED => "stopped" | EXITING => "exiting"
  end.

Inductive ZygoteState := NotInjected | Injected | NeedsRestart.
#[export] Instance ZygoteState_eq_dec : EqDecision ZygoteState.
Proof. solve_decision. Defined.

Definition zygote_name (s : ZygoteState) : string :=
  match s with
  | Injected => "injected" | NeedsRestart => "needs restart" | NotInjected => "not injected"
  end.

Record Status := {
  supported : bool;
  zygote : ZygoteState;
  daemon_running : bool;
  daemon_pid : Z;
  daemon_info : string;
  daemon_error_info : string }.

Record StartCounter := { last_start_time : Z; start_count : Z }.

Record ZygoteAbiManager := {
  status_ : Status;
  counter : StartCounter;
  hooked_ : gset Z;
  tracer_path_ : string;
  daemon_path_ : string }.

(** [AppMonitor], with its event loop's flag and its ptrace handler's two sets. *)
Record AppMonitor := {
  zygote_ : ZygoteAbiManager;
  tracing_state_ : TracingState;
  monitor_stop_reason_ : string;
  prop_path_ : string;
  metadata_section_ : string;
  description_ : string;
  running_ : bool;
  process_ : gset Z;
  stub_processes_ : gset Z }.

(** ** Assignments *)

Definition set_zygote (z : ZygoteState) (s : Status) : Status :=
  {| supported := supported s; zygote := z; daemon_running := daemon_running s;
     daemon_pid := daemon_pid s; daemon_info := daemon_info s;
     daemon_error_info := daemon_error_info s |}.
Definition set_supported (s : Status) : Status :=
  {| supported := true; zygote := zygote s; daemon_running := daemon_running s;
     daemon_pid := daemon_pid s; daemon_info := daemon_info s;
     daemon_error_info := daemon_error_info s |}.
Definition set_daemon (running : bool) (pid : Z) (s : Status) : Status :=
  {| supported := supported s; zygote := zygote s; daemon_running := running;
     daemon_pid := pid; daemon_info := daemon_info s; daemon_error_info := daemon_error_info s |}.
Definition set_info (info : string) (s : Status) : Status :=
  {| supported := supported s; zygote := zygote s; daemon_running := daemon_running s;
     daemon_pid := daemon_pid s; daemon_info := info; daemon_error_info := daemon_error_info s |}.
Definition set_error (error : string) (s : Status) : Status :=
  {| supported := supported s; zygote := zygote s; daemon_running := daemon_running s;
     daemon_pid := daemon_pid s; daemon_info := daemon_info s; daemon_error_info := error |}.

Definition on_status (f : Status -> Status) (z : ZygoteAbiManager) : ZygoteAbiManager :=
  {| status_ := f (status_ z); counter := counter z; hooked_ := hooked_ z;
     tracer_path_ := tracer_path_ z; daemon_path_ := daemon_path_ z |}.
Definition set_counter (c : StartCounter) (z : ZygoteAbiManager) : ZygoteAbiManager :=
  {| status_ := status_ z; counter := c; hooked_ := hooked_ z;
     tracer_path_ := tracer_path_ z; daemon_path_ := daemon_path_ z |}.
Definition set_hooked (h : gset Z) (z : ZygoteAbiManager) : ZygoteAbiManager :=
  {| status_ := status_ z; counter := counter z; hooked_ := h;
     tracer_path_ := tracer_path_ z; daemon_path_ := daemon_path_ z |}.

Definition on_zygote (f : ZygoteAbiManager -> ZygoteAbiManager) (m : AppMonitor) : AppMonitor :=
  {| zygote_ := f (zygote_ m); tracing_state_ := tracing_state_ m;
     monitor_stop_reason_ := monitor_stop_reason_ m; prop_path_ := prop_path_ m;
     metadata_section_ := metadata_section_ m; description_ := description_ m;
     running_ := running_ m; process_ := process_ m; stub_processes_ := stub_processes_ m |}.
Definition set_tracing_state (s : TracingState) (m : AppMonitor) : AppMonitor :=
  {| zygote_ := zygote_ m; tracing_state_ := s;
     monitor_stop_reason_ := monitor_stop_reason_ m; prop_path_ := prop_path_ m;
     metadata_section_ := metadata_section_ m; description_ := description_ m;
     running_ := running_ m; process_ := process_ m; stub_processes_ := stub_processes_ m |}.
Definition set_reason (r : string) (m : AppMonitor) : AppMonitor :=
  {| zygote_ := zygote_ m; tracing_state_ := tracing_state_ m;
     monitor_stop_reason_ := r; prop_path_ := prop_path_ m;
     metadata_section_ := metadata_section_ m; description_ := description_ m;
     running_ := running_ m; process_ := process_ m; stub_processes_ := stub_processes_ m |}.
Definition set_running (b : bool) (m : AppMonitor) : AppMonitor :=
  {| zygote_ := zygote_ m; tracing_state_ := tracing_state_ m;
     monitor_stop_reason_ := monitor_stop_reason_ m; prop_path_ := prop_path_ m;
     metadata_section_ := metadata_section_ m; description_ := description_ m;
     running_ := b; process_ := process_ m; stub_processes_ := stub_processes_ m |}.
Definition set_sets (ps stubs : gset Z) (m : AppMonitor) : AppMonitor :=
  {| zygote_ := zygote_ m; tracing_state_ := tracing_state_ m;
     monitor_stop_reason_ := monitor_stop_reason_ m; prop_path_ := prop_path_ m;
     metadata_section_ := metadata_section_ m; description_ := description_ m;
     running_ := running_ m; process_ := ps; stub_processes_ := stubs |}.
Definition set_texts (prop meta descr : string) (m : AppMonitor) : AppMonitor :=
  {| zygote_ := zygote_ m; tracing_state_ := tracing_state_ m;
     monitor_stop_reason_ := monitor_stop_reason_ m; prop_path_ := prop;
     metadata_section_ := meta; description_ := descr;
     running_ := running_ m; process_ := process_ m; stub_processes_ := stub_processes_ m |}.

Definition status_of (m : AppMonitor) : Status := status_ (zygote_ m).

(** ** The readout *)

Definition nl : string := String newline "".
Definition tab : string := String (char 9) "".

(** The status lines of this ABI, and the detail block its daemon reported. *)
Definition write_abi_status_section (abi_name : string) (state : TracingState) (s : Status) :
    string * string :=
  if negb (supported s) then ("", "")
  else
    let zygote_text :=
      if negb (bool_decide (state = TRACING)) then "❓ unknown"
      else match zygote s with
           | Injected => "😋 injected"
           | NeedsRestart => "⚠️ needs restart"
           | NotInjected => "❌ not injected"
           end in
    let '(daemon_text, detail) :=
      if daemon_running s then ("😋 running", daemon_info s)
      else ("❌ crashed" +:+ (if is_empty (daemon_error_info s) then ""
                              else " (" +:+ daemon_error_info s +:+ ")"), "") in
    (nl +:+ tab +:+ "zygote" +:+ abi_name +:+ ":" +:+ tab +:+ zygote_text +:+
     nl +:+ tab +:+ "daemon" +:+ abi_name +:+ ":" +:+ tab +:+ daemon_text, detail).

Definition monitor_text (state : TracingState) (reason : string) : string :=
  tab +:+ "monitor: " +:+ tab +:+
  (match state with
   | TRACING => "😋 tracing"
   | STOPPING | STOPPED => "❌ stopped"
   | EXITING => "❌ exited"
   end) +:+
  (if negb (bool_decide (state = TRACING)) && negb (is_empty reason)
   then " (" +:+ reason +:+ ")" else "").

(** Blocks lose their trailing newlines, empty ones drop out, the rest are separated by one
    blank line. *)
Definition trim_newlines : string -> string := trim_trailing (Ascii.eqb newline).
Fixpoint join_blocks (acc : string) (blocks : list string) : string :=
  match blocks with
  | [] => acc
  | b :: blocks =>
      let trimmed := trim_newlines b in
      if is_empty trimmed then join_blocks acc blocks
      else join_blocks (acc +:+ (if is_empty acc then "" else nl +:+ nl) +:+ trimmed) blocks
  end.

Definition render_status (abi_name : string) (m : AppMonitor) : string :=
  let '(section, detail) := write_abi_status_section abi_name (tracing_state_ m) (status_of m) in
  join_blocks "" [metadata_section_ m;
                  monitor_text (tracing_state_ m) (monitor_stop_reason_ m) +:+ section;
                  detail; description_ m] +:+ nl.

Section State.
Variable abi_name : string.
Variable work : string.  (* zygiskd::GetTmpPath() *)

(** The file is left alone when it cannot be opened. *)
Definition update_status (m : AppMonitor) : prog sys unit :=
  _ <- call (WriteFile (prop_path_ m) (render_status abi_name m)) ;; Ret tt.

(** [file_readline] without trimming: lines keep their newline. *)
Fixpoint lines_keep (cur : string) (s : string) : list string :=
  match s with
  | EmptyString => if is_empty cur then [] else [cur]
  | String c s' =>
      if Ascii.eqb c newline then (cur +:+ nl) :: lines_keep "" s'
      else lines_keep (cur +:+ String c "") s'
  end.
Definition file_readline (content : string) : list string := map c_str (lines_keep "" content).

Definition read_prop_line (acc : string * string) (line : string) : string * string :=
  let '(meta, descr) := acc in
  if starts_with line "updateJson=" then acc
  else if starts_with line "description=" then (meta, descr +:+ drop_str 12 line)
  else (meta +:+ tab +:+ line, descr).

Definition prepare_environment (m : AppMonitor) : prog sys (AppMonitor * bool) :=
  let prop := work +:+ "/module.prop" in
  fd <- call (OpenCreate prop 0x1a4) ;;
  _ <- call (CloseFd fd) ;;
  dir <- get_module_dir ;;
  content <- call (ReadFile (dir +:+ "/module.prop")) ;;
  let m := set_texts prop (metadata_section_ m) (description_ m) m in
  match content with
  | None => Ret (m, false)
  | Some c =>
      let '(meta, descr) :=
        fold_left read_prop_line (file_readline c) (metadata_section_ m, description_ m) in
      let m := set_texts prop meta descr m in
      _ <- update_status m ;; Ret (m, true)
  end.

(** ** The tracing state machine *)

Definition request_start (m : AppMonitor) : prog sys AppMonitor :=
  m <- (match tracing_state_ m with
        | STOPPING => Ret (set_tracing_state TRACING m)
        | STOPPED =>
            _ <- call (Ptrace (PTRACE_SEIZE PTRACE_O_TRACEFORK) 1) ;;
            Ret (set_tracing_state TRACING m)
        | _ => Ret m
        end) ;;
  update_status m ;;; Ret m.

Definition request_stop (reason : string) (m : AppMonitor) : prog sys AppMonitor :=
  match tracing_state_ m with
  | TRACING =>
      let m := set_reason reason (set_tracing_state STOPPING m) in
      _ <- call (Ptrace PTRACE_INTERRUPT 1) ;;
      update_status m ;;; Ret m
  | _ => Ret m
  end.

(** The loop stops after the event being handled. *)
Definition request_exit (m : AppMonitor) : prog sys AppMonitor :=
  let m := set_reason "user requested" (set_tracing_state EXITING m) in
  update_status m ;;; Ret (set_running false m).

Definition notify_init_detached (m : AppMonitor) : AppMonitor := set_tracing_state STOPPED m.

End State.

(** ** Facts: the readout's source *)

(** The module's properties are folded as [file_readline] of common/files.cpp gives them to the
    callback, which never stops it. *)
Lemma prepare_reads_every_line fuel fp buf content acc :
  (List.length (lines_keep "" content) < fuel)%nat ->
  exec (Files.read_lines (fun acc line => (read_prop_line acc line, true)) false fuel fp buf acc)
    (line_events fp buf (lines_keep "" content))
    (Val (buf, fold_left read_prop_line (file_readline content) acc)).
Proof.
  intros Hf.
  pose proof (read_lines_folds (fun acc line => (read_prop_line acc line, true)) false fuel fp buf
    (lines_keep "" content) acc (fun _ _ => eq_refl) Hf) as H. revert H.
  unfold file_readline, shown. generalize (lines_keep "" content). intros ls.
  assert (forall acc, fold_left (fun st l => fst (read_prop_line st (c_str l), true)) ls acc =
    fold_left read_prop_line (map c_str ls) acc) as ->; [|done].
  induction ls as [|l ls IH]; intros a; [done|]. apply IH.
Qed.
