(* ===== verification/ZygoteAbi.v ===== *)
(** * One ABI's zygote and daemon

    ptracer/zygote_abi.cpp: crash-loop detection, starting the daemon, and [rearm], which
    attaches to what is already running. The manager is a member of the monitor and calls it
    back, so every operation takes and returns the monitor's state. *)
From Stdlib Require Import ZArith Lia List String Ascii Bool.
From stdpp Require Import base list strings gmap.
From S2P Require Import Prelude.
From S2P Require Import Scan.
From S2P Require Import Sys.
From S2P Require Import ProcFs.
From S2P Require Import MonState.
Open Scope string_scope.
Open Scope list_scope.
Open Scope Z_scope.

(** main.hpp. *)
Inductive RearmResult :=
| Failed | NoZygote | ResInjected | AlreadyHooked | Injecting | ResNeedsRestart.
#[export] Instance RearmResult_eq_dec : EqDecision RearmResult.
Proof. solve_decision. Defined.

Definition result_value (r : RearmResult) : Z :=
  match r with
  | Failed => 0 | NoZygote => 1 | ResInjected => 2 | AlreadyHooked => 3 | Injecting => 4
  | ResNeedsRestart => 5
  end.
Definition result_name (r : RearmResult) : string :=
  match r with
  | NoZygote => "no zygote" | ResInjected => "injected" | AlreadyHooked => "already hooked"
  | Injecting => "injecting" | ResNeedsRestart => "needs restart" | Failed => "failed"
  end.

Definition TRACE_HOOKED : Z := 0.
Definition TRACE_FAILED : Z := 1.
Definition TRACE_MAPPED_ONLY : Z := 2.

Definition CRASH_LOOP_RETRY_COUNT : Z := 5.
Definition CRASH_LOOP_WINDOW_SECONDS : Z := 30.
Definition kAttachTimeoutMs : Z := 20 * 1000.
Definition kStepMs : Z := 50.

Fixpoint drop_nuls (cs : list ascii) : list ascii :=
  match cs with
  | c :: cs' => if Ascii.eqb c nul then drop_nuls cs' else cs
  | [] => []
  end.
Definition without_trailing_nuls (text : string) : string :=
  string_of_list_ascii (rev (drop_nuls (rev (list_ascii_of_string text)))).

(** ** Waiting for an injector *)

(** [n] polls left, [kStepMs] apart: 400 of them for [kAttachTimeoutMs]. *)
Fixpoint wait_polls (n : nat) (pid : Z) : prog sys Z :=
  match n with
  | O => Ret (-1)
  | S n =>
      let* (done, status) := call (Waitpid pid (Z.lor WNOHANG WALL)) in
      if done =? pid then Ret status
      else if done =? -1 then Ret (-1)
      else call (Usleep (kStepMs * 1000)) ;;; wait_polls n pid
  end.
Definition wait_bounded (pid timeout_ms : Z) : prog sys Z :=
  wait_polls (Z.to_nat ((timeout_ms + kStepMs - 1) / kStepMs)) pid.

Definition injection_in_flight (pid : Z) : prog sys bool :=
  tracer <- get_tracer_pid pid ;;
  if 0 <? tracer then Ret true
  else
    state <- get_process_state pid ;;
    Ret (Ascii.eqb state "T" || Ascii.eqb state "t").

(** ** The manager *)

(** [lp64] is the build's ABI and [work] is zygiskd::GetTmpPath(). *)
Section Abi.
Variable lp64 : bool.
Variable work : string.

Definition abi_name : string := if lp64 then "64" else "32".
Definition program_path : string := kZygoteProgram lp64.

Definition initial_status : Status :=
  {| supported := false; zygote := NotInjected; daemon_running := false; daemon_pid := -1;
     daemon_info := ""; daemon_error_info := "" |}.

Definition new_manager : prog sys ZygoteAbiManager :=
  module_dir <- get_module_dir ;;
  Ret {| status_ := initial_status;
         counter := {| last_start_time := 0; start_count := 0 |};
         hooked_ := ∅;
         tracer_path_ := module_dir +:+ "/bin/zygisk-ptrace" +:+ abi_name;
         daemon_path_ := module_dir +:+ "/bin/zygiskd" +:+ abi_name |}.

Definition notify_injected (pid : Z) (m : AppMonitor) : AppMonitor :=
  on_zygote (fun z =>
    on_status (set_zygote Injected)
      (if 0 <? pid then set_hooked ({[ pid ]} ∪ hooked_ z) z else z)) m.
Definition set_daemon_info (info : string) (m : AppMonitor) : AppMonitor :=
  on_zygote (on_status (set_info (without_trailing_nuls info))) m.
Definition set_daemon_crashed (error : string) (m : AppMonitor) : AppMonitor :=
  on_zygote (on_status (fun s =>
    set_error (without_trailing_nuls error) (set_daemon false (daemon_pid s) s))) m.

(** One start at [now]: the new counter. *)
Definition count_start (now : Z) (c : StartCounter) : StartCounter :=
  {| last_start_time := now;
     start_count := if now - last_start_time c <? CRASH_LOOP_WINDOW_SECONDS
                    then start_count c + 1 else 1 |}.

Definition is_in_crash_loop (m : AppMonitor) : prog sys (AppMonitor * bool) :=
  now <- call ClockSec ;;
  let c := count_start now (counter (zygote_ m)) in
  Ret (on_zygote (set_counter c) m, CRASH_LOOP_RETRY_COUNT <=? start_count c).

(** The state, whether a daemon is running, and whether this call forked it. *)
Definition ensure_daemon_created (m : AppMonitor) : prog sys (AppMonitor * bool * bool) :=
  if daemon_pid (status_of m) =? -1 then
    let m := on_zygote (fun z => on_status (set_zygote NotInjected) (set_hooked ∅ z)) m in
    pid <- call Fork ;;
    if pid <? 0 then Ret (m, false, false)
    else if pid =? 0 then
      call (Prctl_PDEATHSIG SIGKILL) ;;;
      ppid <- call Getppid ;;
      if ppid =? 1 then Halt (Exited 1)
      else
        let daemon := daemon_path_ (zygote_ m) in
        execl daemon [daemon; "--workdir"; work] (Halt (Exited 1))
    else
      let m := on_zygote (on_status (fun s => set_daemon true pid (set_supported s))) m in
      Ret (m, true, true)
  else Ret (m, daemon_running (status_of m), false).

(** The tracer to run, or nothing. *)
Definition check_and_prepare_injection (m : AppMonitor) :
    prog sys (AppMonitor * option string) :=
  let* (m, looping) := is_in_crash_loop m in
  if looping : bool then
    m <- request_stop abi_name "zygote crashed" m ;; Ret (m, None)
  else
    let* (m, running, _) := ensure_daemon_created m in
    if negb running then
      m <- request_stop abi_name "daemon not running" m ;; Ret (m, None)
    else Ret (m, Some (tracer_path_ (zygote_ m))).

Definition handle_daemon_exit_if_match (pid process_status : Z) (m : AppMonitor) :
    prog sys (AppMonitor * bool) :=
  let s := status_of m in
  if supported s && (pid =? daemon_pid s) then
    let m := on_zygote (on_status (fun s =>
      let s := set_daemon false (-1) s in
      if is_empty (daemon_error_info s) then set_error (parse_status process_status) s
      else s)) m in
    update_status abi_name m ;;; Ret (m, true)
  else Ret (m, false).

Definition attach_running (pid : Z) (mode_flag : string) (m : AppMonitor) :
    prog sys (AppMonitor * bool) :=
  child <- call Fork ;;
  if child =? -1 then Ret (m, false)
  else if child =? 0 then
    let tracer := tracer_path_ (zygote_ m) in
    execl tracer [basename tracer; "trace"; to_string pid; mode_flag]
      (Halt (Exited TRACE_FAILED))
  else
    status <- wait_bounded child kAttachTimeoutMs ;;
    if status =? -1 then Ret (m, false)
    else if negb (WIFEXITED status) then Ret (m, false)
    else if WEXITSTATUS status =? TRACE_HOOKED then
      Ret (on_zygote (fun z => set_hooked ({[ pid ]} ∪ hooked_ z) z) m, true)
    else Ret (m, false).

(** ** Rearming *)

(** The zygotes, and system_server's pid or -1, among the processes running this program. *)
Fixpoint sort_targets (pids zygote_pids : list Z) (system_server : Z) :
    prog sys (list Z * Z) :=
  match pids with
  | [] => Ret (zygote_pids, system_server)
  | pid :: pids =>
      ppid <- get_ppid pid ;;
      if ppid =? 1 then
        is_zygote <- has_zygote_cmdline pid ;;
        sort_targets pids (if is_zygote : bool then zygote_pids ++ [pid] else zygote_pids)
          system_server
      else
        comm <- get_comm pid ;;
        sort_targets pids zygote_pids
          (if String.eqb comm "system_server" then pid else system_server)
  end.

(** What one pass over the zygotes found. *)
Record sweep := {
  armed_any : bool; hooked_any : bool; injecting_any : bool; zygote_needs_restart : bool }.
Definition no_sweep : sweep :=
  {| armed_any := false; hooked_any := false; injecting_any := false;
     zygote_needs_restart := false |}.
Definition sweep_armed (s : sweep) : sweep :=
  {| armed_any := true; hooked_any := hooked_any s; injecting_any := injecting_any s;
     zygote_needs_restart := zygote_needs_restart s |}.
Definition sweep_hooked (s : sweep) : sweep :=
  {| armed_any := armed_any s; hooked_any := true; injecting_any := injecting_any s;
     zygote_needs_restart := zygote_needs_restart s |}.
Definition sweep_injecting (s : sweep) : sweep :=
  {| armed_any := armed_any s; hooked_any := hooked_any s; injecting_any := true;
     zygote_needs_restart := zygote_needs_restart s |}.
Definition sweep_restart (s : sweep) : sweep :=
  {| armed_any := armed_any s; hooked_any := hooked_any s; injecting_any := injecting_any s;
     zygote_needs_restart := true |}.

Definition width : Z := if lp64 then 64 else 32.

(** The loop's body for one zygote. *)
Definition rearm_zygote (ms : AppMonitor * sweep) (pid : Z) : prog sys (AppMonitor * sweep) :=
  let '(m, s) := ms in
  in_flight <- injection_in_flight pid ;;
  if in_flight : bool then Ret (m, sweep_injecting s)
  else
    mapped <- has_library_mapped width pid "libzygisk.so" ;;
    if negb mapped then
      let* (m, armed) := attach_running pid "--standalone" m in
      Ret (m, if armed : bool then sweep_armed s else sweep_restart s)
    else if bool_decide (pid ∈ hooked_ (zygote_ m)) then Ret (m, sweep_hooked s)
    else Ret (m, sweep_restart s).

Definition swept_state (s : sweep) : ZygoteState :=
  if zygote_needs_restart s then NeedsRestart
  else if armed_any s || hooked_any s then Injected else NotInjected.

(** The verdict, once system_server's turn is over. *)
Definition rearm_verdict (s : sweep) (needs_restart : bool) : RearmResult :=
  if needs_restart then ResNeedsRestart
  else if armed_any s then ResInjected
  else if hooked_any s || negb (injecting_any s) then AlreadyHooked else Injecting.

(** Confirmations are kept only for processes that can still earn one. *)
Definition prune_hooked (system_server : Z) (zygotes : list Z) (h : gset Z) : gset Z :=
  filter (fun p => p = system_server \/ p ∈ zygotes) h.

Definition rearm (ignore_disable : bool) (m : AppMonitor) : prog sys (AppMonitor * RearmResult) :=
  pids <- find_processes_by_exe program_path ;;
  let* (zygote_pids, system_server_pid) := sort_targets pids [] (-1) in
  match zygote_pids with
  | [] => Ret (m, NoZygote)
  | _ =>
      let m := on_zygote (on_status set_supported) m in
      let* (m, running, daemon_started) := ensure_daemon_created m in
      if negb running then Ret (m, Failed)
      else
        (if negb daemon_started || ignore_disable
         then call (Daemon_RefreshModules ignore_disable) else Ret true) ;;;
        let m := on_zygote (fun z =>
          set_hooked (prune_hooked system_server_pid zygote_pids (hooked_ z)) z) m in
        let* (m, s) := fold_prog zygote_pids (m, no_sweep) rearm_zygote in
        let m := on_zygote (on_status (set_zygote (swept_state s))) m in
        let* (m, needs_restart) :=
          (if system_server_pid =? -1 then Ret (m, zygote_needs_restart s)
           else if negb (armed_any s) then Ret (m, zygote_needs_restart s)
           else
             let* (m, attached) := attach_running system_server_pid "--system_server" m in
             Ret (m, if attached : bool then zygote_needs_restart s else true)) in
        update_status abi_name m ;;;
        Ret (m, rearm_verdict s needs_restart)
  end.

End Abi.

(** ** Facts: crash loops *)

(** The counter after starts at the given times, newest first. *)
Definition count_starts (times : list Z) : StartCounter :=
  fold_right count_start {| last_start_time := 0; start_count := 0 |} times.

(** How many of the latest starts form one burst: each less than a window after the one
    before it. *)
Fixpoint burst (times : list Z) : nat :=
  match times with
  | [] => 0
  | t :: older =>
      match older with
      | [] => 1
      | t' :: _ => if t - t' <? CRASH_LOOP_WINDOW_SECONDS then S (burst older) else 1
      end
  end.

Lemma count_starts_burst times : start_count (count_starts times) = Z.of_nat (burst times).
Proof.
  induction times as [|t older IH]; [done|].
  unfold count_starts in *. cbn [fold_right]. unfold count_start at 1. cbn [start_count].
  rewrite IH. destruct older as [|t' older].
  - cbn. by destruct (t - 0 <? _).
  - change (last_start_time (fold_right count_start _ (t' :: older))) with t'.
    cbn [burst]. destruct (t - t' <? _); lia.
Qed.

(** C16: injection is refused exactly in a crash loop. With the counter left by earlier starts
    (newest first), the check made at [now] stops the monitor iff [now] and those starts end in
    a burst of at least five, each less than thirty seconds after the one before it. *)
Theorem is_in_crash_loop_burst m earlier :
  counter (zygote_ m) = count_starts earlier ->
  every_run (is_in_crash_loop m) (fun tr r => exists now,
    tr = [Ev ClockSec now] /\
    r = Val (on_zygote (set_counter (count_starts (now :: earlier))) m,
             Nat.leb 5 (burst (now :: earlier)))).
Proof.
  intros Hc now. exists now. split; [done|]. cbn [bind]. do 2 f_equal.
  - by rewrite Hc.
  - rewrite Hc. change (count_start now (count_starts earlier)) with (count_starts (now :: earlier)).
    rewrite count_starts_burst. unfold CRASH_LOOP_RETRY_COUNT.
    destruct (Nat.leb_spec 5 (burst (now :: earlier))); lia.
Qed.

(** ** Facts: the consistency of the status *)

(** What is said of the daemon: one that runs is supported and has a pid. *)
Definition status_ok (m : AppMonitor) : Prop :=
  (daemon_running (status_of m) = true -> supported (status_of m) = true /\ 0 < daemon_pid (status_of m)) /\
  (daemon_pid (status_of m) = -1 \/ 0 < daemon_pid (status_of m)).

Section AbiFacts.
Variable lp64 : bool.
Variable work : string.

Lemma ensure_daemon_created_spec m :
  every_run (ensure_daemon_created work m) (on_return (fun tr '(m', running, started) =>
    process_ m' = process_ m /\ stub_processes_ m' = stub_processes_ m /\
    tracing_state_ m' = tracing_state_ m /\
    if daemon_pid (status_of m) =? -1
    then hooked_ (zygote_ m') = ∅ /\ zygote (status_of m') = NotInjected /\
         running = started /\
         (started = true -> supported (status_of m') = true /\ 0 < daemon_pid (status_of m') /\
            daemon_running (status_of m') = true) /\
         (started = false -> status_of m' = set_zygote NotInjected (status_of m))
    else m' = m /\ running = daemon_running (status_of m) /\ started = false /\ tr = [])).
Proof.
  unfold ensure_daemon_created.
  destruct (daemon_pid (status_of m) =? -1) eqn:E; [|done].
  step. intros pid. destruct (Z.ltb_spec pid 0); [done|].
  destruct (Z.eqb_spec pid 0) as [->|].
  - intros ? ppid. cbn. destruct (ppid =? 1); [done|]. by intros [].
  - cbn. repeat split; try done. lia.
Qed.

Lemma ensure_daemon_created_ok m :
  returns (fun '(m', _, _) => status_ok m -> status_ok m') (ensure_daemon_created work m).
Proof.
  eapply every_run_mono; [|apply ensure_daemon_created_spec].
  intros tr [[[m' running] started]|]; [|done]. cbn. intros (_ & _ & _ & H) Hok.
  destruct (Z.eqb_spec (daemon_pid (status_of m)) (-1)) as [E|]; [|by destruct H as [-> _]].
  destruct H as (_ & _ & _ & Ht & Hf). destruct started.
  - destruct (Ht eq_refl) as (? & ? & ?). split; [done|by right].
  - unfold status_ok. rewrite (Hf eq_refl). exact Hok.
Qed.
End AbiFacts.

(** ** Facts: waiting for an injector *)

Definition is_wait (ev : event sys) : bool :=
  match ev with Ev (Waitpid _ _) _ => true | _ => false end.

Lemma wait_polls_bound n pid :
  every_run (wait_polls n pid) (fun tr r =>
    (count is_wait tr <= n)%nat /\
    match r with
    | Val status => status = -1 \/ In (Ev (Waitpid pid (Z.lor WNOHANG WALL)) (pid, status)) tr
    | Stop _ => False
    end).
Proof.
  induction n as [|n IH]; [split; [done|by left]|]. cbn [wait_polls].
  step. intros [done_ status]. destruct (Z.eqb_spec done_ pid) as [->|Hne].
  { split; [rewrite count_cons, count_nil; cbn; lia|]. right. by left. }
  destruct (done_ =? -1).
  { split; [rewrite count_cons, count_nil; cbn; lia|by left]. }
  step. intros u. eapply every_run_mono; [|exact IH].
  intros tr r [Hc Hr]. rewrite !count_cons. cbn [is_wait]. split; [lia|].
  destruct r; [|done]. destruct Hr; [by left|]. right. by do 2 right.
Qed.

(** An attach cannot hang the monitor and is believed only on proof. [attach_running] polls
    its injector at most 400 times, and reports success, recording the pid as hooked, only when
    a poll returned that very child's exit status with TRACE_HOOKED; every other outcome leaves
    the state alone. *)
Theorem attach_running_proof pid mode_flag m :
  every_run (attach_running pid mode_flag m) (fun tr r =>
    (count is_wait tr <= 400)%nat /\
    match r with
    | Val (m', true) =>
        hooked_ (zygote_ m') = {[ pid ]} ∪ hooked_ (zygote_ m) /\ status_of m' = status_of m /\
        exists child status,
          In (Ev Fork child) tr /\ child <> 0 /\
          In (Ev (Waitpid child (Z.lor WNOHANG WALL)) (child, status)) tr /\
          WIFEXITED status = true /\ WEXITSTATUS status = TRACE_HOOKED
    | Val (m', false) => m' = m
    | Stop h => (h = Replaced \/ h = Exited TRACE_FAILED) /\ In (Ev Fork 0) tr
    end).
Proof.
  step. intros child. destruct (child =? -1); [split; [cbv; lia|done]|].
  destruct (Z.eqb_spec child 0) as [->|Hc].
  { unfold execl. step. intros [|]; (split; [cbv; lia|]); (split; [auto|by left]). }
  eapply every_run_seq; [apply wait_polls_bound| |].
  { by intros tr h [_ []]. }
  change (Z.to_nat _) with 400%nat. intros tr status [Hn Hw].
  assert (count is_wait (Ev Fork child :: tr ++ []) <= 400)%nat as Hn'.
  { rewrite app_nil_r, count_cons. exact Hn. }
  destruct (Z.eqb_spec status (-1)) as [->|Hs]; [done|].
  destruct (WIFEXITED status) eqn:Ex; [|done]. cbn [negb].
  destruct (Z.eqb_spec (WEXITSTATUS status) TRACE_HOOKED) as [Eh|]; [|done].
  split; [done|]. split; [done|]. split; [done|]. exists child, status.
  split; [by left|]. split; [done|]. split; [|done].
  right. rewrite app_nil_r. by destruct Hw.
Qed.

(** ** Facts: one zygote of a rearm *)

Definition is_fork (ev : event sys) : bool := match ev with Ev Fork _ => true | _ => false end.
Definition is_read (ev : event sys) : bool :=
  match ev with Ev (ReadFile _) _ | Ev (ReadLink _ _) _ | Ev (ListDir _) _ => true | _ => false end.

(** A run that only looked at /proc. *)
Definition only_reads {A} (tr : list (event sys)) (r : res A) : Prop :=
  Forall (fun ev => is_read ev = true) tr /\ exists a, r = Val a.

Lemma only_reads_bind {A B} (p : prog sys A) (f : A -> prog sys B) :
  every_run p only_reads -> (forall a, every_run (f a) only_reads) ->
  every_run (bind p f) only_reads.
Proof.
  intros Hp Hf. eapply every_run_seq; [exact Hp| |].
  - by intros tr h [_ [a ?]].
  - intros tr a [Htr _]. eapply every_run_mono; [|apply Hf].
    intros tr' r [Htr' Hr]. split; [by apply Forall_app|done].
Qed.

Lemma only_reads_ret {A} (a : A) : every_run (Ret a) only_reads.
Proof. split; [constructor|by exists a]. Qed.
Lemma only_reads_file path : every_run (call (ReadFile path)) only_reads.
Proof. intros x. split; [by repeat constructor|by exists x]. Qed.

Lemma injection_in_flight_reads pid : every_run (injection_in_flight pid) only_reads.
Proof.
  apply only_reads_bind.
  { apply only_reads_bind; [apply only_reads_file|intros; apply only_reads_ret]. }
  intros tracer. destruct (0 <? tracer); [apply only_reads_ret|].
  apply only_reads_bind; [|intros; apply only_reads_ret].
  apply only_reads_bind; [apply only_reads_file|intros; apply only_reads_ret].
Qed.

(** The maps of [pid], as read in [tr], show no such library. *)
Definition seen_unmapped (w pid : Z) (tr : list (event sys)) : Prop :=
  exists content,
    In (Ev (ReadFile ("/proc/" +:+ to_string pid +:+ "/maps")) content) tr /\
    existsb (fun m => contains (m_path m) "libzygisk.so")
      (match content with Some c => parse_maps w c | None => [] end) = false.

Lemma count_reads_forks tr : Forall (fun ev => is_read ev = true) tr -> count is_fork tr = O.
Proof.
  induction 1 as [|ev tr Hev _ IH]; [done|]. rewrite count_cons, IH.
  destruct ev as [X e x]. by destruct e.
Qed.

Lemma no_fork_split {P : Prop} (tr before after : list (event sys)) x :
  count is_fork tr = O -> tr = before ++ Ev Fork x :: after -> P.
Proof. intros H ->. rewrite count_app, count_cons in H. cbn in H. lia. Qed.

Lemma first_fork_split (pre tr before after : list (event sys)) y x :
  count is_fork pre = O -> count is_fork tr = O ->
  pre ++ Ev Fork y :: tr = before ++ Ev Fork x :: after -> before = pre.
Proof.
  revert before. induction pre as [|ev pre IH]; intros [|ev' before] Hp Ht H; try done.
  - exfalso. injection H as _ ->. rewrite count_app, count_cons in Ht. cbn in Ht. lia.
  - exfalso. injection H as -> _. by rewrite count_cons in Hp.
  - injection H as -> H. rewrite count_cons in Hp. f_equal. apply (IH before); [lia|done..].
Qed.

Lemma wait_polls_no_fork n pid : every_run (wait_polls n pid) (fun tr _ => count is_fork tr = O).
Proof.
  induction n as [|n IH]; [done|]. cbn [wait_polls]. step. intros [d status].
  destruct (d =? pid); [done|]. destruct (d =? -1); [done|]. step. intros u.
  eapply every_run_mono; [|exact IH]. intros tr r H. by rewrite !count_cons.
Qed.

(** The parent's side of an attach: one fork, first; the state it leaves. *)
Lemma attach_running_shape pid mode_flag m :
  every_run (attach_running pid mode_flag m) (fun tr r =>
    (exists x tr', tr = Ev Fork x :: tr' /\ count is_fork tr' = O) /\
    on_return (fun _ '(m', ok) =>
      if ok : bool
      then m' = on_zygote (fun z => set_hooked ({[ pid ]} ∪ hooked_ z) z) m
      else m' = m) tr r).
Proof.
  step. intros child. destruct (child =? -1); [split; [by eexists _, []|done]|].
  destruct (child =? 0).
  { unfold execl. step. intros [|]; (split; [by eexists _, [_]|done]). }
  eapply every_run_seq; [apply wait_polls_no_fork| |].
  { intros tr h H. split; [by eexists _, tr|done]. }
  intros tr status H.
  assert (exists x tr', Ev Fork child :: tr ++ [] = Ev Fork x :: tr' /\ count is_fork tr' = O).
  { eexists _, _. split; [done|]. by rewrite app_nil_r. }
  destruct (status =? -1); [done|]. destruct (WIFEXITED status); [|done]. cbn [negb].
  by destruct (WEXITSTATUS status =? TRACE_HOOKED).
Qed.

(** A run without a fork, and a run whose one fork comes right after [pre]. *)
Lemma forkless (Q : list (event sys) -> Prop) tr :
  count is_fork tr = O ->
  (forall before after x, tr = before ++ Ev Fork x :: after -> Q before) /\ (count is_fork tr <= 1)%nat.
Proof. intros H. split; [intros before after x; by apply no_fork_split|lia]. Qed.

Lemma one_fork (Q : list (event sys) -> Prop) pre y tr :
  count is_fork pre = O -> count is_fork tr = O -> Q pre ->
  (forall before after x, pre ++ Ev Fork y :: tr = before ++ Ev Fork x :: after -> Q before) /\
  count is_fork (pre ++ Ev Fork y :: tr) = 1%nat.
Proof.
  intros Hp Ht HQ. split; [|by rewrite count_app, count_cons, Hp, Ht].
  intros before after x Heq. by apply first_fork_split in Heq as ->.
Qed.

(** C8: a rearm never injects over a mapping it saw. It forks an injector for a zygote only
    after asking for the maps of that zygote and getting none that list the library - a file
    that cannot be read counts as one that lists nothing - and forks at most once. The verdict
    on the zygote is one of four: left to its own injector, armed (by that one fork) and recorded
    as hooked, hooked already, or in need of a restart; only arming changes the state. *)
Theorem rearm_zygote_never_reinjects lp64 m s pid :
  every_run (rearm_zygote lp64 (m, s) pid) (fun tr r =>
    (forall before after x, tr = before ++ Ev Fork x :: after ->
       seen_unmapped (width lp64) pid before) /\
    (count is_fork tr <= 1)%nat /\
    match r with
    | Val (m', s') =>
        m' = m /\ (s' = sweep_injecting s \/ s' = sweep_restart s \/
                   s' = sweep_hooked s /\ pid ∈ hooked_ (zygote_ m)) \/
        m' = on_zygote (fun z => set_hooked ({[ pid ]} ∪ hooked_ z) z) m /\ s' = sweep_armed s /\
        count is_fork tr = 1%nat
    | Stop _ => True
    end).
Proof.
  cbn [rearm_zygote].
  eapply every_run_seq; [apply injection_in_flight_reads| |].
  { by intros tr h [_ [a ?]]. }
  intros tr1 in_flight [Htr1 _]. apply count_reads_forks in Htr1. destruct in_flight.
  { cbn [every_run]. rewrite app_nil_r. destruct (forkless (seen_unmapped (width lp64) pid) tr1); tauto. }
  apply bind_bind. step. intros content. cbn [bind].
  destruct (existsb _ _) eqn:Em; cbn [negb].
  - pose (tr2 := tr1 ++ [Ev (ReadFile ("/proc/" +:+ to_string pid +:+ "/maps")) content]).
    destruct (forkless (seen_unmapped (width lp64) pid) tr2) as [H1 H2].
    { unfold tr2. by rewrite count_app, Htr1. }
    case_bool_decide; cbn; tauto.
  - assert (forall y tr, count is_fork tr = O ->
      let all := tr1 ++ Ev (ReadFile ("/proc/" +:+ to_string pid +:+ "/maps")) content ::
                 Ev Fork y :: tr in
      (forall before after x, all = before ++ Ev Fork x :: after ->
         seen_unmapped (width lp64) pid before) /\ count is_fork all = 1%nat) as Hone.
    { intros y tr Hf. cbv zeta. change (?a :: ?b :: ?l) with ([a] ++ b :: l). rewrite app_assoc.
      apply one_fork; [by rewrite count_app, Htr1|done|]. exists content. split; [|done].
      apply in_or_app. right. by left. }
    eapply every_run_seq; [apply attach_running_shape| |].
    + intros tr h [(y & tr' & -> & Hf) _]. destruct (Hone y tr' Hf) as [H1 H2].
      rewrite H2. by split.
    + intros tr [m' ok] [(y & tr' & -> & Hf) Hm]. cbn [on_return every_run] in *.
      rewrite app_nil_r. destruct (Hone y tr' Hf) as [H1 H2]. rewrite H2.
      destruct ok; subst m'; auto 7.
Qed.

(** ** Facts: a whole rearm *)

(** What holds of the monitor and the sweep while the loop runs over [zygotes]. *)
Record sweep_inv (zygotes : list Z) (ss : Z) (m0 : AppMonitor) (ms : AppMonitor * sweep) : Prop := {
  inv_status : status_of (fst ms) = status_of m0;
  inv_live p : p ∈ hooked_ (zygote_ (fst ms)) -> p = ss \/ p ∈ zygotes;
  inv_armed : armed_any (snd ms) || hooked_any (snd ms) = true ->
    exists z, z ∈ zygotes /\ z ∈ hooked_ (zygote_ (fst ms)) }.

Definition flagged (s : sweep) : bool :=
  armed_any s || hooked_any s || injecting_any s || zygote_needs_restart s.

Lemma attach_running_live pid mode_flag zygotes ss m0 m s :
  (pid = ss \/ pid ∈ zygotes) -> sweep_inv zygotes ss m0 (m, s) ->
  every_run (attach_running pid mode_flag m) (on_return (fun _ '(m', ok) =>
    sweep_inv zygotes ss m0 (m', s) /\ (ok = true -> pid ∈ hooked_ (zygote_ m')))).
Proof.
  intros Hp [Hs Hl Ha]. eapply every_run_mono; [|apply attach_running_shape].
  intros tr [[m' ok]|]; [|done]. intros [_ Hm]. cbn in Hm. destruct ok; subst m'; [|done].
  split; [|cbn; set_solver]. split; cbn in *.
  - done.
  - intros p Hin. apply elem_of_union in Hin as [->%elem_of_singleton|]; auto.
  - intros Hf. destruct (Ha Hf) as (z & ? & ?). exists z. set_solver.
Qed.

Lemma rearm_zygote_inv lp64 zygotes ss m0 pid ms :
  pid ∈ zygotes -> sweep_inv zygotes ss m0 ms ->
  every_run (rearm_zygote lp64 ms pid) (on_return (fun _ ms' =>
    sweep_inv zygotes ss m0 ms' /\ flagged (snd ms') = true)).
Proof.
  intros Hp Hinv. destruct ms as [m s]. cbn [rearm_zygote].
  apply every_run_suffix; [done|]. intros [|].
  { cbn. destruct Hinv as [Hs Hl Ha]. split; [by split|].
    unfold flagged. cbn. by rewrite orb_true_r. }
  apply every_run_suffix; [done|]. intros [|]; cbn [negb].
  - case_bool_decide as Hh; cbn; destruct Hinv as [Hs Hl Ha].
    + split; [split; [done..|]|unfold flagged; cbn; by rewrite orb_true_r].
      intros _. by exists pid.
    + split; [by split|unfold flagged; cbn; by rewrite orb_true_r].
  - eapply every_run_seq; [by eapply attach_running_live; [right|]|done|].
    intros tr [m' ok] [[Hs Hl Ha] Hok]. destruct ok; cbn.
    + split; [split; [done..|]|done]. intros _. exists pid. auto.
    + split; [by split|unfold flagged; cbn; by rewrite orb_true_r].
Qed.

Lemma rearm_sweep_inv lp64 zygotes ss m0 ms :
  zygotes <> [] -> sweep_inv zygotes ss m0 ms ->
  every_run (fold_prog zygotes ms (rearm_zygote lp64)) (on_return (fun _ ms' =>
    sweep_inv zygotes ss m0 ms' /\ flagged (snd ms') = true)).
Proof.
  intros Hne Hinv. destruct zygotes as [|z zs] eqn:Hz; [done|]. rewrite <- Hz in Hinv |- *.
  rewrite Hz at 1. cbn [fold_prog].
  eapply every_run_seq; [apply (rearm_zygote_inv lp64 zygotes ss m0 z); [set_solver|done]|done|].
  intros tr ms1 Hms1.
  eapply every_run_mono; [|eapply (fold_prog_inv zs ms1 _
    (fun _ ms' => sweep_inv zygotes ss m0 ms' /\ flagged (snd ms') = true) (fun _ => True))].
  - by intros tr' [ms'|].
  - done.
  - intros tr' ms' x Hx [Hi Hf].
    eapply every_run_mono; [|apply (rearm_zygote_inv lp64 zygotes ss m0 x); [|done]].
    + by intros tr2 [|].
    + rewrite Hz. apply list_elem_of_further, list_elem_of_In, Hx.
Qed.

(** The answer of [ensure_daemon_created] is what the status says. *)
Lemma ensure_daemon_answer work m :
  status_ok m -> supported (status_of m) = true ->
  every_run (ensure_daemon_created work m) (on_return (fun _ '(m', running, _) =>
    status_ok m' /\
    if running : bool then daemon_running (status_of m') = true /\ supported (status_of m') = true
    else daemon_running (status_of m') = false)).
Proof.
  intros Hok Hsup. eapply every_run_mono;
    [|apply every_run_and; [apply (ensure_daemon_created_spec work m)|apply ensure_daemon_created_ok]].
  intros tr [[[m2 running] started]|]; [|done]. cbn. intros [Hspec Hok2]. specialize (Hok2 Hok).
  split; [done|]. destruct Hspec as (_ & _ & _ & Hspec).
  destruct (Z.eqb_spec (daemon_pid (status_of m)) (-1)) as [E|].
  - destruct Hspec as (_ & _ & -> & Ht & Hf). destruct started.
    + by destruct (Ht eq_refl) as (? & ? & ?).
    + rewrite (Hf eq_refl). cbn. apply not_true_is_false. intros Hr. destruct Hok as [Hr1 _].
      specialize (Hr1 Hr). lia.
  - destruct Hspec as (-> & -> & _). by destruct (daemon_running (status_of m)).
Qed.

(** The processes a rearm is about: the zygotes running this program, and system_server. *)
Definition find_targets (lp64 : bool) : prog sys (list Z * Z) :=
  pids <- find_processes_by_exe (program_path lp64) ;; sort_targets pids [] (-1).

(** What the state left says when the verdict is one on the processes found. *)
Definition backed (zygotes : list Z) (ss : Z) (m : AppMonitor) (r : RearmResult) : Prop :=
  daemon_running (status_of m) = true /\ supported (status_of m) = true /\
  (forall p, p ∈ hooked_ (zygote_ m) -> p = ss \/ p ∈ zygotes) /\
  (r = ResInjected \/ r = AlreadyHooked ->
     zygote (status_of m) = Injected /\ exists z, z ∈ zygotes /\ z ∈ hooked_ (zygote_ m)) /\
  (r = Injecting -> zygote (status_of m) = NotInjected) /\
  (zygote (status_of m) = NeedsRestart -> r = ResNeedsRestart).

(** C9: the verdict of a rearm is backed by the processes it found and the state it leaves.
    "No zygote" means that none was found, and changes nothing. Beyond that and "failed", a
    daemon runs, and confirmations are held only for the zygotes this rearm found and the
    system_server it found; "injected" and "already hooked" mean that one of those zygotes is
    among the confirmed ones and the status says injected; a status of needs-restart always
    comes with that verdict. *)
Theorem rearm_verdict_sound lp64 work ignore_disable m :
  status_ok m ->
  every_run (rearm lp64 work ignore_disable m) (on_return (fun tr '(m', r) =>
    status_ok m' /\
    exists zygotes ss tr1 tr2, tr = tr1 ++ tr2 /\
      exec (find_targets lp64) tr1 (Val (zygotes, ss)) /\
      match r with
      | NoZygote => zygotes = [] /\ tr2 = [] /\ m' = m
      | Failed => zygotes <> [] /\ daemon_running (status_of m') = false
      | _ => zygotes <> [] /\ backed zygotes ss m' r
      end)).
Proof.
  intros Hok. apply (bind_bind _ (fun pids => sort_targets pids [] (-1))).
  eapply every_run_seq; [apply (every_run_self (find_targets lp64))|done|].
  intros tr1 [zygotes ss] Hx. destruct zygotes as [|z0 zs] eqn:Hz.
  { split; [done|]. exists [], ss, tr1, []. rewrite app_nil_r. auto. }
  rewrite <- Hz in *. assert (zygotes <> []) as Hne by (by rewrite Hz).
  eapply (every_run_mono _ (on_return (fun _ '(m', r) => status_ok m' /\
    match r with
    | NoZygote => False
    | Failed => daemon_running (status_of m') = false
    | _ => backed zygotes ss m' r
    end))).
  { intros tr2 [[m' r]|h]; [|done]. intros [Hok' Hr]. split; [done|].
    exists zygotes, ss, tr1, tr2. by destruct r. }
  set (m1 := on_zygote _ m).
  assert (status_ok m1) as Hok1.
  { destruct Hok as [Hr Hd]. split; [|exact Hd]. intros Hrun. split; [done|]. by apply Hr. }
  eapply every_run_seq; [by apply (ensure_daemon_answer work m1)|done|].
  intros tr [[m2 running] started] [Hok2 Hrun].
  destruct running; cbn [negb]; [destruct Hrun as [Hrun Hsup]|by split].
  apply every_run_bind, every_run_trivial. intros tr2 [_u|]; [|done].
  eapply every_run_seq.
  { apply (rearm_sweep_inv lp64 zygotes ss m2).
    - by rewrite Hz.
    - split; cbn [fst snd]; [done| |done].
      intros p Hp. cbn in Hp. unfold prune_hooked in Hp. apply elem_of_filter in Hp. tauto. }
  { done. }
  intros tr3 [m3 s] [Hinv Hfl]. cbn [fst snd] in *.
  set (m4 := on_zygote (on_status (set_zygote (swept_state s))) m3).
  eapply every_run_seq with (S := on_return (fun _ '(m5, needs) =>
    sweep_inv zygotes ss m4 (m5, s) /\ (zygote_needs_restart s = true -> needs = true))).
  { assert (sweep_inv zygotes ss m4 (m4, s)) as Hinv4.
    { destruct Hinv as [H1 H2 H3]. split; [done|exact H2|exact H3]. }
    destruct (ss =? -1); [done|]. destruct (armed_any s); [|done]. cbn [negb].
    eapply every_run_seq; [by eapply attach_running_live; [left|]|done|].
    intros tr4 [m5 ok] [Hm5 _]. cbn. destruct ok; auto. }
  { done. }
  intros tr5 [m5 needs] [[Hs5 Hl5 Ha5] Hneeds]. step. intros u. cbn [fst snd] in *.
  assert (status_of m5 = set_zygote (swept_state s) (status_of m2)) as Hst.
  { rewrite Hs5. destruct Hinv as [Hs _ _]. cbn in Hs. unfold m4. cbn. by rewrite <- Hs. }
  assert (status_ok m5) as Hok5.
  { unfold status_ok. rewrite Hst. exact Hok2. }
  cbn [bind every_run on_return]. split; [done|].
  unfold backed, rearm_verdict, flagged, swept_state in *. rewrite Hst. cbn.
  destruct needs; [|destruct (armed_any s), (hooked_any s), (injecting_any s), (zygote_needs_restart s); cbn in *; try done; try (by specialize (Hneeds eq_refl))].
  all: split_and!; try done; intros H; try (destruct H; done); auto.
  all: try (by destruct (zygote_needs_restart s), (armed_any s || hooked_any s)).
Qed.

(** ** Facts: the frame

    An operation of the manager changes nothing else of the monitor; it traces no one. *)

Definition frame (m m' : AppMonitor) : Prop := exists z, m' = on_zygote (fun _ => z) m.

Lemma frame_refl m : frame m m.
Proof. exists (zygote_ m). by destruct m. Qed.
Lemma frame_on_zygote f m m' : frame m m' -> frame m (on_zygote f m').
Proof. intros [z ->]. by eexists. Qed.
Lemma frame_trans m1 m2 m3 : frame m1 m2 -> frame m2 m3 -> frame m1 m3.
Proof. intros [z ->] [z' ->]. by exists z'. Qed.

(** Not a ptrace request. *)
Definition untraced (ev : event sys) : bool :=
  match ev with Ev (Ptrace _ _) _ => false | _ => true end.

Lemma find_processes_in_untraced exe names : emits untraced (find_processes_in exe names).
Proof.
  induction names as [|name names IH]; [apply emits_ret|]. cbn [find_processes_in].
  destruct (strtol_positive name); [|done]. emits_tac.
Qed.
Lemma wait_polls_untraced n pid : emits untraced (wait_polls n pid).
Proof.
  induction n as [|n IH]; [apply emits_ret|]. cbn [wait_polls]. emits_tac.
Qed.
#[export] Hint Resolve find_processes_in_untraced wait_polls_untraced : neo.

Section Frame.
Variable lp64 : bool.
Variable work : string.

Lemma attach_running_frame pid flag m :
  returns (fun '(m', _) => frame m m') (attach_running pid flag m).
Proof.
  eapply every_run_mono; [|apply attach_running_shape].
  intros tr [[m' ok]|]; [|done]. intros [_ Hm]. cbn in *.
  destruct ok; subst; auto using frame_refl, frame_on_zygote.
Qed.

Lemma ensure_daemon_created_frame m :
  returns (fun '(m', _, _) => frame m m') (ensure_daemon_created work m).
Proof.
  unfold ensure_daemon_created. destruct (_ =? -1); [|apply frame_refl].
  apply returns_skip. intros pid. destruct (pid <? 0); [apply frame_on_zygote, frame_refl|].
  destruct (pid =? 0).
  - do 2 (apply returns_skip; intros ?). destruct (_ =? 1); [done|].
    unfold execl. apply returns_skip. by intros [].
  - apply frame_on_zygote, frame_on_zygote, frame_refl.
Qed.

Lemma rearm_zygote_frame m0 ms pid :
  frame m0 (fst ms) -> returns (fun ms' => frame m0 (fst ms')) (rearm_zygote lp64 ms pid).
Proof.
  destruct ms as [m s]. intros H. cbn [rearm_zygote].
  apply returns_skip. intros [|]; [done|]. apply returns_skip. intros [|]; cbn [negb].
  - by case_bool_decide.
  - eapply returns_bind; [apply attach_running_frame|]. intros [m' ok] Hm'.
    apply returns_ret. cbn in *. by eapply frame_trans.
Qed.

Lemma rearm_frame ignore m : returns (fun '(m', _) => frame m m') (rearm lp64 work ignore m).
Proof.
  apply returns_skip. intros pids. apply returns_skip. intros [[|z zs] ss].
  { apply frame_refl. }
  eapply returns_bind; [apply ensure_daemon_created_frame|]. intros [[m1 running] st] H1.
  apply (frame_trans m) in H1; [|apply frame_on_zygote, frame_refl].
  destruct running; [|done]. cbn [negb]. apply returns_skip. intros _.
  eapply returns_bind.
  { apply (returns_fold_prog (fun ms => frame m (fst ms))); [by apply frame_on_zygote|].
    intros ms x _. apply rearm_zygote_frame. }
  intros [m2 s] H2. cbn [fst] in H2.
  eapply (returns_bind (fun '(m', _) => frame m m')).
  { destruct (ss =? -1); [by apply frame_on_zygote|].
    destruct (armed_any s); [|by apply frame_on_zygote]. cbn [negb].
    eapply returns_bind; [apply attach_running_frame|]. intros [m3 ok] H3.
    apply returns_ret. eapply frame_trans; [|exact H3]. by apply frame_on_zygote. }
  intros [m3 needs] H3. by apply returns_skip.
Qed.

Lemma attach_running_status pid flag m :
  returns (fun '(m', _) => status_of m' = status_of m) (attach_running pid flag m).
Proof.
  eapply every_run_mono; [|apply attach_running_shape].
  intros tr [[m' ok]|]; [|done]. intros [_ Hm]. cbn in *. by destruct ok; subst.
Qed.

Lemma rearm_zygote_status m0 ms pid :
  status_of (fst ms) = status_of m0 ->
  returns (fun ms' => status_of (fst ms') = status_of m0) (rearm_zygote lp64 ms pid).
Proof.
  destruct ms as [m s]. intros H. cbn [rearm_zygote].
  apply returns_skip. intros [|]; [done|]. apply returns_skip. intros [|]; cbn [negb].
  - by case_bool_decide.
  - eapply returns_bind; [apply attach_running_status|]. intros [m' ok] Hm'.
    apply returns_ret. cbn in *. congruence.
Qed.

(** Rearming keeps what is said of the daemon consistent. *)
Lemma rearm_status_ok ignore m :
  returns (fun '(m', _) => status_ok m -> status_ok m') (rearm lp64 work ignore m).
Proof.
  apply returns_skip. intros pids. apply returns_skip. intros [[|z zs] ss]; [by apply returns_ret|].
  set (m0 := on_zygote _ m).
  eapply returns_bind; [apply ensure_daemon_created_ok|]. intros [[m1 running] st] H1.
  assert (status_ok m -> status_ok m1) as Hok1.
  { intros Hok. apply H1. destruct Hok as [Hr Hd]. split; [|exact Hd].
    intros Hrun. split; [done|]. by apply Hr. }
  destruct running; [|by apply returns_ret]. cbn [negb]. apply returns_skip. intros _.
  eapply returns_bind.
  { apply (returns_fold_prog (fun ms => status_of (fst ms) = status_of m1)); [done|].
    intros ms x _. apply rearm_zygote_status. }
  intros [m2 s] H2. cbn [fst] in H2.
  eapply (returns_bind (fun '(m', _) => exists z, status_of m' = set_zygote z (status_of m1))).
  { rewrite <- H2. assert (forall m', m' = on_zygote (on_status (set_zygote (swept_state s))) m2 ->
      exists z, status_of m' = set_zygote z (status_of m2)) as Hx by (intros m' ->; by eexists).
    destruct (ss =? -1); [by apply returns_ret, Hx|].
    destruct (armed_any s); cbn [negb]; [|by apply returns_ret, Hx].
    eapply returns_bind; [apply attach_running_status|]. intros [m3 ok] H3.
    apply returns_ret. rewrite H3. by apply Hx. }
  intros [m3 needs] [z' H3]. apply returns_skip. intros _. apply returns_ret.
  intros Hok. unfold status_ok. rewrite H3. exact (Hok1 Hok).
Qed.

Lemma attach_running_untraced pid flag m : emits untraced (attach_running pid flag m).
Proof. unfold attach_running, execl, wait_bounded. emits_tac. Qed.

Lemma ensure_daemon_created_untraced m : emits untraced (ensure_daemon_created work m).
Proof. unfold ensure_daemon_created, execl. emits_tac. Qed.

Lemma rearm_zygote_untraced ms pid : emits untraced (rearm_zygote lp64 ms pid).
Proof.
  destruct ms as [m s]. cbn [rearm_zygote].
  unfold injection_in_flight, get_tracer_pid, status_int, get_process_state, has_library_mapped,
    Scan_maps.
  pose proof attach_running_untraced. emits_tac; auto.
Qed.

Lemma sort_targets_untraced pids zs ss : emits untraced (sort_targets pids zs ss).
Proof.
  revert zs ss. induction pids as [|pid pids IH]; intros zs ss; [apply emits_ret|].
  cbn [sort_targets]. unfold get_ppid, status_int, has_zygote_cmdline, read_cmdline, get_comm.
  emits_tac; apply IH.
Qed.

Lemma rearm_untraced ignore m : emits untraced (rearm lp64 work ignore m).
Proof.
  unfold rearm, find_processes_by_exe, update_status.
  pose proof attach_running_untraced. pose proof ensure_daemon_created_untraced.
  pose proof sort_targets_untraced. pose proof rearm_zygote_untraced.
  pose proof @emits_fold_prog sys.
  emits_tac; auto.
Qed.
End Frame.

(** ** Witnesses *)

Definition idle_manager : ZygoteAbiManager :=
  {| status_ := initial_status; counter := count_starts [58; 40; 25; 12]; hooked_ := ∅;
     tracer_path_ := "/m/bin/zygisk-ptrace64"; daemon_path_ := "/m/bin/zygiskd64" |}.
Definition idle_monitor : AppMonitor :=
  {| zygote_ := idle_manager; tracing_state_ := TRACING; monitor_stop_reason_ := "";
     prop_path_ := "/w/module.prop"; metadata_section_ := ""; description_ := "";
     running_ := true; process_ := ∅; stub_processes_ := ∅ |}.

Lemma is_in_crash_loop_burst_witness :
  every_run (is_in_crash_loop idle_monitor) (fun tr r => exists now,
    tr = [Ev ClockSec now] /\
    r = Val (on_zygote (set_counter (count_starts (now :: [58; 40; 25; 12]))) idle_monitor,
             Nat.leb 5 (burst (now :: [58; 40; 25; 12])))) /\
  Nat.leb 5 (burst (70 :: [58; 40; 25; 12])) = true /\
  Nat.leb 5 (burst (90 :: [58; 40; 25; 12])) = false.
Proof.
  split; [apply is_in_crash_loop_burst; reflexivity|]. split; reflexivity.
Defined.

Lemma rearm_verdict_sound_witness :
  status_ok idle_monitor /\
  every_run (rearm true "/w" false idle_monitor) (on_return (fun _ '(m', r) =>
    r = Failed -> daemon_running (status_of m') = false)).
Proof.
  assert (status_ok idle_monitor) as H by (split; [discriminate|by left]).
  split; [exact H|]. eapply every_run_mono; [|exact (rearm_verdict_sound true "/w" false idle_monitor H)].
  intros tr [[m' r]|h]; [|done]. cbn.
  intros (_ & zygotes & ss & tr1 & tr2 & _ & _ & Hr) ->. exact (proj2 Hr).
Defined.
