(* ===== verification/Monitor.v ===== *)
(** * The monitor

    ptracer/monitor_impl.cpp and event_loop.cpp: the control socket, the SIGCHLD handler that
    follows init, stub zygotes and every process they fork until it execs, and the loop that
    dispatches to both. *)
From Stdlib Require Import ZArith Lia List String Ascii Bool.
From stdpp Require Import base list strings gmap relations.
From S2P Require Import Prelude.
From S2P Require Import Scan.
From S2P Require Import Sys.
From S2P Require Import ProcFs.
From S2P Require Import Remote.
From S2P Require Import MonState.
From S2P Require Import ZygoteAbi.
Open Scope string_scope.
Open Scope list_scope.
Open Scope Z_scope.

(** utils.cpp: the parent gets the first child's pid, the daemon (its child) gets 0. *)
Definition fork_dont_care : prog sys Z :=
  pid <- call Fork ;;
  if pid <? 0 then Ret (-1)
  else if 0 <? pid then call (Waitpid pid WALL) ;;; Ret pid
  else
    grandchild_pid <- call Fork ;;
    if grandchild_pid <? 0 then Halt (Exited 1)
    else if 0 <? grandchild_pid then Halt (Exited 0)
    else Ret 0.

Section Monitor.
Variable lp64 : bool.
Variable work : string.
Let abi := abi_name lp64.

Definition new_monitor : prog sys AppMonitor :=
  z <- new_manager lp64 ;;
  Ret {| zygote_ := z; tracing_state_ := TRACING; monitor_stop_reason_ := ""; prop_path_ := "";
         metadata_section_ := ""; description_ := ""; running_ := false;
         process_ := ∅; stub_processes_ := ∅ |}.

Definition request_rearm (ignore_disable : bool) (m : AppMonitor) :
    prog sys (AppMonitor * RearmResult) :=
  m <- (if bool_decide (tracing_state_ m = TRACING) then Ret m else request_start abi m) ;;
  let* (m, result) := rearm lp64 work ignore_disable m in
  if bool_decide (result = Failed) then
    m <- request_stop abi "rearm failed" m ;; Ret (m, result)
  else update_status abi m ;;; Ret (m, result).

(** ** The control socket *)

Inductive Command :=
| START | STOP | EXIT | ZYGOTE_INJECTED | DAEMON_SET_INFO | DAEMON_SET_ERROR_INFO
| SYSTEM_SERVER_STARTED | REARM.
#[export] Instance Command_eq_dec : EqDecision Command.
Proof. solve_decision. Defined.

Definition command_value (c : Command) : Z :=
  match c with
  | START => 1 | STOP => 2 | EXIT => 3 | ZYGOTE_INJECTED => 4 | DAEMON_SET_INFO => 5
  | DAEMON_SET_ERROR_INFO => 6 | SYSTEM_SERVER_STARTED => 7 | REARM => 8
  end.
Definition commands : list Command :=
  [START; STOP; EXIT; ZYGOTE_INJECTED; DAEMON_SET_INFO; DAEMON_SET_ERROR_INFO;
   SYSTEM_SERVER_STARTED; REARM].
(** Values off the socket may be none of them. *)
Definition command_of (z : Z) : option Command :=
  List.find (fun c => command_value c =? z) commands.
Definition command_name (c : option Command) : string :=
  match c with
  | Some START => "start" | Some STOP => "stop" | Some EXIT => "exit"
  | Some ZYGOTE_INJECTED => "zygote_injected" | Some DAEMON_SET_INFO => "daemon_set_info"
  | Some DAEMON_SET_ERROR_INFO => "daemon_set_error_info"
  | Some SYSTEM_SERVER_STARTED => "system_server_started" | Some REARM => "rearm"
  | None => "unknown"
  end.

(** Only these carry a payload; the others are the bare enum value. *)
Definition carries_payload (c : option Command) : bool :=
  match c with
  | Some (REARM | ZYGOTE_INJECTED | DAEMON_SET_INFO | DAEMON_SET_ERROR_INFO) => true
  | _ => false
  end.

Definition sizeof_Command : Z := 4.
Definition sizeof_CtlMessage : Z := 8.

(** [CtlMessage] over the bytes of the buffer. *)
Definition msg_cmd (buf : list Z) : option Command :=
  command_of (s32 (le_value (firstn 4 buf))).
Definition msg_length (buf : list Z) : Z := s32 (le_value (firstn 4 (skipn 4 buf))).
Definition msg_data (buf : list Z) : list Z := skipn 8 buf.

(** [std::vector::resize], and a read over the front of a buffer. *)
Definition resize (n : nat) (buf : list Z) : list Z := firstn n (buf ++ repeat 0 n).
Definition overwrite (bytes buf : list Z) : list Z := bytes ++ skipn (List.length bytes) buf.

(** The size of the message to read, or nothing when the datagram is to be dropped: a sum of
    size_t's, read as an ssize_t. *)
Definition message_size (nread : Z) (buf : list Z) : option Z :=
  if carries_payload (msg_cmd buf) then
    if nread <? sizeof_CtlMessage then None
    else Some (signed (width lp64) (sizeof_CtlMessage + msg_length buf))
  else if negb (nread =? sizeof_Command) then None else Some sizeof_Command.

Definition bytes_string (bs : list Z) : string := string_of_list_ascii (map char bs).

(** A [string_view] of [length] bytes of payload: a negative length becomes a huge size_t and
    runs off the buffer. *)
Definition payload_view (length : Z) (data : list Z) : prog sys string :=
  if length <? 0 then Halt (Undefined "string_view past the buffer")
  else Ret (bytes_string (firstn (Z.to_nat length) data)).

(** An unbound sender has no address to answer at. *)
Definition answer (fd : Z) (peer : list Z * Z) (result : RearmResult) : prog sys unit :=
  if snd peer <=? 2 then Ret tt
  else call (SockAnswer fd (fst peer) (result_value result)) ;;; Ret tt.

Definition dispatch (fd : Z) (peer : list Z * Z) (buf : list Z) (m : AppMonitor) :
    prog sys AppMonitor :=
  match msg_cmd buf with
  | Some START => request_start abi m
  | Some STOP => request_stop abi "user requested" m
  | Some EXIT => request_exit abi m
  | Some REARM =>
      let ignore_disable := (msg_length buf =? 1) && negb (nth 0 (msg_data buf) 0 =? 0) in
      let* (m, result) := request_rearm ignore_disable m in
      answer fd peer result ;;; Ret m
  | Some ZYGOTE_INJECTED =>
      let injected := if msg_length buf =? 4 then s32 (le_value (firstn 4 (msg_data buf))) else -1 in
      let m := notify_injected injected m in
      update_status abi m ;;; Ret m
  | Some DAEMON_SET_INFO =>
      info <- payload_view (msg_length buf) (msg_data buf) ;;
      let m := set_daemon_info info m in
      update_status abi m ;;; Ret m
  | Some DAEMON_SET_ERROR_INFO =>
      error <- payload_view (msg_length buf) (msg_data buf) ;;
      let m := set_daemon_crashed error m in
      update_status abi m ;;; Ret m
  | Some SYSTEM_SERVER_STARTED | None => Ret m
  end.

(** One round of the socket's loop: the buffer, the state, and whether to go on. The bytes
    past the end of a shrunk buffer are still the ones the peek left there. *)
Definition socket_round (fd : Z) (bm : list Z * AppMonitor) :
    prog sys (list Z * AppMonitor * bool) :=
  let '(buf, m) := bm in
  let buf := resize 8 buf in
  let* (nread, bytes) := call (SockPeek fd sizeof_CtlMessage) in
  let buf := overwrite (firstn 8 bytes) buf in
  if nread =? -1 then
    errno <- call Errno ;; Ret (buf, m, negb (errno =? EAGAIN))
  else
    match message_size nread buf with
    | None =>
        let* (_, bytes) := call (SockRecv fd 8) in
        Ret (overwrite (firstn 8 bytes) buf, m, true)
    | Some real_size =>
        if real_size <? 0 then Halt (Undefined "vector::resize past max_size")
        else
          let* (nread, bytes, peer) := call (SockRecvFrom fd real_size) in
          let buf := overwrite (firstn (Z.to_nat real_size) bytes)
                       (resize (Nat.max 8 (Z.to_nat real_size)) buf) in
          if nread =? -1 then Ret (buf, m, true)
          else if negb (nread =? real_size) then Ret (buf, m, true)
          else m <- dispatch fd peer buf m ;; Ret (buf, m, true)
    end.

(** SocketHandler::HandleEvent, for as many datagrams as the fuel allows. *)
Fixpoint socket_events (fuel : nat) (fd : Z) (bm : list Z * AppMonitor) :
    prog sys (list Z * AppMonitor) :=
  match fuel with
  | O => Halt NoFuel
  | S fuel =>
      let* (buf, m, more) := socket_round fd bm in
      if more : bool then socket_events fuel fd (buf, m) else Ret (buf, m)
  end.

(** The descriptor the handler then holds, and whether it is usable. *)
Definition SocketHandler_Init : prog sys (Z * bool) :=
  fd <- call SockOpen ;;
  if fd =? -1 then Ret (fd, false)
  else
    let path := work +:+ "/init_monitor" in
    _ <- call (FsOp (Unlink path)) ;;
    bound <- call (SockBind fd path) ;;
    Ret (fd, bound).

(** ** Processes *)

Definition SigChldHandler_Init : prog sys (Z * bool) :=
  fd <- call SigFdOpen ;;
  if fd =? -1 then Ret (fd, false)
  else
    r <- call (Ptrace (PTRACE_SEIZE PTRACE_O_TRACEFORK) 1) ;;
    Ret (fd, negb (r =? -1)).

Definition insert_process (pid : Z) (m : AppMonitor) : AppMonitor :=
  set_sets ({[ pid ]} ∪ process_ m) (stub_processes_ m) m.
Definition erase_process (pid : Z) (m : AppMonitor) : AppMonitor :=
  set_sets (process_ m ∖ {[ pid ]}) (stub_processes_ m) m.
Definition insert_stub (pid : Z) (m : AppMonitor) : AppMonitor :=
  set_sets (process_ m) ({[ pid ]} ∪ stub_processes_ m) m.
Definition erase_stub (pid : Z) (m : AppMonitor) : AppMonitor :=
  set_sets (process_ m) (stub_processes_ m ∖ {[ pid ]}) m.

Definition job_control (sig : Z) : bool :=
  (sig =? SIGSTOP) || (sig =? SIGTSTP) || (sig =? SIGTTIN) || (sig =? SIGTTOU).

(** Case 4: the signal a stopped parent is resumed with. *)
Definition parent_signal (pid status : Z) : Z :=
  if WPTEVENT status =? 0 then
    let sig := WSTOPSIG status in
    if job_control sig then 0
    else if negb (pid =? 1) && (sig =? SIGCHLD) then 0
    else sig
  else 0.
Definition resume_parent (pid status : Z) (m : AppMonitor) : prog sys AppMonitor :=
  if WIFSTOPPED status then
    call (Ptrace (PTRACE_CONT (parent_signal pid status)) pid) ;;; Ret m
  else Ret m.

Definition handleParentEvent (pid status : Z) (m : AppMonitor) : prog sys AppMonitor :=
  if stopped_with status SIGTRAP PTRACE_EVENT_FORK then
    call (Ptrace PTRACE_GETEVENTMSG pid) ;;; resume_parent pid status m
  else if (pid =? 1) && stopped_with status SIGTRAP PTRACE_EVENT_STOP &&
          bool_decide (tracing_state_ m = STOPPING) then
    call (Ptrace (PTRACE_DETACH 0) 1) ;;; Ret (notify_init_detached m)
  else if negb (pid =? 1) && (WIFEXITED status || WIFSIGNALED status) then
    Ret (erase_stub pid m)
  else resume_parent pid status m.

Definition handleNewProcess (pid : Z) (m : AppMonitor) : prog sys AppMonitor :=
  let m := insert_process pid m in
  call (Ptrace (PTRACE_SETOPTIONS PTRACE_O_TRACEEXEC) pid) ;;;
  call (Ptrace (PTRACE_CONT 0) pid) ;;;
  Ret m.

(** The hand-over of a zygote caught at exec: the status read back, and whether it was
    handed over. The target stays in SIGSTOP for the injector. *)
Definition hand_over (pid : Z) (tracer : string) : prog sys (Z * bool) :=
  call (Kill pid SIGSTOP) ;;;
  call (Ptrace (PTRACE_CONT 0) pid) ;;;
  let* (_, status) := call (Waitpid pid WALL) in
  if stopped_with status SIGSTOP 0 then
    call (Ptrace (PTRACE_DETACH SIGSTOP) pid) ;;;
    p <- fork_dont_care ;;
    if p =? 0 then
      execl tracer [basename tracer; "trace"; to_string pid; "--spawn"]
        (call (Kill pid SIGCONT) ;;; Halt (Exited 1))
    else
      (if p =? -1 then call (Kill pid SIGCONT) ;;; Ret tt else Ret tt) ;;;
      Ret (status, true)
  else Ret (status, false).

(** The status after it (the hand-over's wait overwrites it), and whether it was handled. *)
Definition handleExecEvent (pid status : Z) (m : AppMonitor) :
    prog sys (AppMonitor * Z * bool) :=
  program <- get_program pid ;;
  let* (m, status, handled) :=
    (if contains program "stub_zygote" then
       let m := insert_stub pid m in
       call (Ptrace (PTRACE_SETOPTIONS (Z.lor PTRACE_O_TRACEFORK PTRACE_O_TRACEEXEC)) pid) ;;;
       call (Ptrace (PTRACE_CONT 0) pid) ;;;
       Ret (m, status, true)
     else if negb (bool_decide (tracing_state_ m = TRACING)) then Ret (m, status, false)
     else if negb (String.eqb program (program_path lp64)) then Ret (m, status, false)
     else
       let* (m, tracer) := check_and_prepare_injection lp64 work m in
       match tracer with
       | None => Ret (m, status, false)
       | Some tracer =>
           let* (status, handled) := hand_over pid tracer in Ret (m, status, handled)
       end) in
  update_status abi m ;;; Ret (m, status, handled).

Definition handleTracedProcess (pid status : Z) (m : AppMonitor) : prog sys AppMonitor :=
  let* (m, status, keep_attached) :=
    (if stopped_with status SIGTRAP PTRACE_EVENT_EXEC then handleExecEvent pid status m
     else if stopped_with status SIGTRAP PTRACE_EVENT_STOP then
       call (Ptrace (PTRACE_SETOPTIONS PTRACE_O_TRACEEXEC) pid) ;;;
       call (Ptrace (PTRACE_CONT 0) pid) ;;;
       Ret (m, status, true)
     else Ret (m, status, false)) in
  if keep_attached : bool then
    Ret (if stopped_with status SIGTRAP PTRACE_EVENT_EXEC then erase_process pid m else m)
  else
    let m := erase_process pid m in
    if WIFSTOPPED status then call (Ptrace (PTRACE_DETACH 0) pid) ;;; Ret m else Ret m.

Definition handleChildEvent (pid status : Z) (m : AppMonitor) : prog sys AppMonitor :=
  if (pid =? 1) || bool_decide (pid ∈ stub_processes_ m) then handleParentEvent pid status m
  else
    let* (m, matched) := handle_daemon_exit_if_match lp64 pid status m in
    if matched : bool then Ret m
    else if bool_decide (pid ∈ process_ m) then handleTracedProcess pid status m
    else handleNewProcess pid m.

(** Every child with news, until there is none. *)
Fixpoint reap (fuel : nat) (m : AppMonitor) : prog sys AppMonitor :=
  match fuel with
  | O => Halt NoFuel
  | S fuel =>
      let* (pid, status) := call (Waitpid (-1) (Z.lor WALL WNOHANG)) in
      if 0 <? pid then m <- handleChildEvent pid status m ;; reap fuel m
      else if pid =? -1 then call Errno ;;; Ret m
      else Ret m
  end.

(** SigChldHandler::HandleEvent. *)
Fixpoint signal_events (fuel : nat) (fd : Z) (m : AppMonitor) : prog sys AppMonitor :=
  match fuel with
  | O => Halt NoFuel
  | S fuel =>
      got <- call (SigFdRead fd) ;;
      match got with
      | None =>
          errno <- call Errno ;;
          if errno =? EAGAIN then Ret m else signal_events fuel fd m
      | Some false => signal_events fuel fd m
      | Some true => m <- reap fuel m ;; signal_events fuel fd m
      end
  end.

(** ** The loop *)

(** What one [epoll_wait] reports is handled in order until a handler stops the loop. *)
Fixpoint handle_ready (fuel : nat) (sig_fd sock_fd : Z) (fds : list Z)
    (bm : list Z * AppMonitor) : prog sys (list Z * AppMonitor) :=
  match fds with
  | [] => Ret bm
  | fd :: fds =>
      let '(buf, m) := bm in
      let* (buf, m) :=
        (if fd =? sig_fd then m <- signal_events fuel sig_fd m ;; Ret (buf, m)
         else socket_events fuel sock_fd (buf, m)) in
      if running_ m then handle_ready fuel sig_fd sock_fd fds (buf, m) else Ret (buf, m)
  end.

Fixpoint Loop_rounds (fuel : nat) (epfd sig_fd sock_fd : Z) (bm : list Z * AppMonitor) :
    prog sys (list Z * AppMonitor) :=
  match fuel with
  | O => Halt NoFuel
  | S fuel' =>
      if running_ (snd bm) then
        ready <- call (EpollWait epfd) ;;
        match ready with
        | None => call Errno ;;; Loop_rounds fuel' epfd sig_fd sock_fd bm
        | Some fds =>
            bm <- handle_ready fuel sig_fd sock_fd (firstn 2 fds) bm ;;
            Loop_rounds fuel' epfd sig_fd sock_fd bm
        end
      else Ret bm
  end.

Definition Loop (fuel : nat) (epfd sig_fd sock_fd : Z) (m : AppMonitor) :
    prog sys (list Z * AppMonitor) :=
  Loop_rounds fuel epfd sig_fd sock_fd ([], set_running true m).

Definition EventLoop_Init : prog sys Z := call EpollCreate.
Definition RegisterHandler (epfd fd : Z) : prog sys bool := call (EpollAdd epfd fd).

(** The descriptors the monitor's members hold, -1 for none. *)
Record descriptors := { epoll_fd_ : Z; sock_fd_ : Z; signal_fd_ : Z }.

(** AppMonitor::run: the handler that can lose goes first. *)
Definition run_monitor (fuel : nat) (m : AppMonitor) : prog sys (descriptors * AppMonitor) :=
  epfd <- EventLoop_Init ;;
  let* (sig_fd, tracing) := SigChldHandler_Init in
  if negb tracing then
    Ret ({| epoll_fd_ := epfd; sock_fd_ := -1; signal_fd_ := sig_fd |}, m)
  else
    _ <- RegisterHandler epfd sig_fd ;;
    let* (sock_fd, listening) := SocketHandler_Init in
    let fds := {| epoll_fd_ := epfd; sock_fd_ := sock_fd; signal_fd_ := sig_fd |} in
    if negb listening then Ret (fds, m)
    else
      _ <- RegisterHandler epfd sock_fd ;;
      let* (_, m) := Loop fuel epfd sig_fd sock_fd m in Ret (fds, m).

(** The members' destructors, the last declared first. *)
Definition close_held (fd : Z) : prog sys unit :=
  if 0 <=? fd then call (CloseFd fd) else Ret tt.
Definition destroy_monitor (fds : descriptors) : prog sys unit :=
  close_held (signal_fd_ fds) ;;; close_held (sock_fd_ fds) ;;; close_held (epoll_fd_ fds).

End Monitor.

(** ** Facts: the monitor's invariant *)

Definition sets_ok (m : AppMonitor) : Prop :=
  1 ∉ process_ m /\ 1 ∉ stub_processes_ m /\ process_ m ## stub_processes_ m.

(** Whether the monitor has asked for an attachment to init it has not asked to end. *)
Definition ask_event (b : bool) (ev : event sys) : bool :=
  match ev with
  | Ev (Ptrace req pid) _ =>
      match req with
      | PTRACE_SEIZE _ => if pid =? 1 then true else b
      | PTRACE_DETACH _ => if pid =? 1 then false else b
      | _ => b
      end
  | _ => b
  end.
Definition asked (b : bool) (tr : list (event sys)) : bool := fold_left ask_event tr b.

Definition attachment_ok (b : bool) (m : AppMonitor) : Prop :=
  match tracing_state_ m with
  | TRACING | STOPPING => b = true
  | STOPPED => b = false
  | EXITING => True
  end.

Definition quiet (ev : event sys) : bool :=
  match ev with
  | Ev (Ptrace (PTRACE_SEIZE _ | PTRACE_DETACH _) pid) _ => negb (pid =? 1)
  | _ => true
  end.

Lemma asked_quiet b tr : forallb quiet tr = true -> asked b tr = b.
Proof.
  revert b. induction tr as [|ev tr IH]; intros b; [done|]. cbn. intros [H1 H2]%andb_prop.
  replace (ask_event b ev) with b; [by apply IH|].
  destruct ev as [X e x]. destruct e; try done. cbn in *.
  destruct req; try done; by destruct (pid =? 1).
Qed.
(** Whether the kernel did what was asked for, and whether the monitor is attached to init then. *)
Definition refused (ev : event sys) : bool :=
  match ev with
  | Ev e x =>
      (match e in sys X return X -> bool with
       | Ptrace (PTRACE_SEIZE _ | PTRACE_DETACH _) pid => fun r => (pid =? 1) && (r =? -1)
       | _ => fun _ => false
       end) x
  end.
Definition attached (b : bool) (tr : list (event sys)) : bool :=
  fold_left (fun b ev => if refused ev then b else ask_event b ev) tr b.
Lemma attached_asked b tr : existsb refused tr = false -> attached b tr = asked b tr.
Proof.
  revert b. induction tr as [|ev tr IH]; intros b; [done|]. cbn. intros [-> H]%orb_false_elim.
  by apply IH.
Qed.

Lemma asked_app b tr tr' : asked b (tr ++ tr') = asked (asked b tr) tr'.
Proof. apply fold_left_app. Qed.

Lemma untraced_quiet ev : untraced ev = true -> quiet ev = true.
Proof. destruct ev as [X e x]. by destruct e. Qed.

(** A run that leaves init's attachment alone and moves the state at most from tracing to
    stopping keeps [attachment_ok]. *)
Definition calm (m m' : AppMonitor) : Prop :=
  tracing_state_ m' = tracing_state_ m \/
  tracing_state_ m = TRACING /\ tracing_state_ m' = STOPPING.

Lemma attachment_ok_calm b m m' : calm m m' -> attachment_ok b m -> attachment_ok b m'.
Proof. unfold attachment_ok. by intros [->|[-> ->]]. Qed.
Lemma calm_trans m1 m2 m3 : calm m1 m2 -> calm m2 m3 -> calm m1 m3.
Proof. unfold calm. intros [->|[-> ->]] [->|[? ->]]; auto; congruence. Qed.
Lemma frame_calm m m' : frame m m' -> calm m m'.
Proof. intros [z ->]. by left. Qed.

Lemma request_stop_spec abi reason m :
  returns (fun m' => calm m m' /\ zygote_ m' = zygote_ m /\ process_ m' = process_ m /\
                     stub_processes_ m' = stub_processes_ m) (request_stop abi reason m).
Proof.
  unfold request_stop. destruct (tracing_state_ m) eqn:E; try (cbn; by split; [left|]).
  apply returns_skip. intros _. apply returns_skip. intros _. cbn. split; [by right|done].
Qed.
Lemma request_stop_quiet abi reason m : emits quiet (request_stop abi reason m).
Proof. unfold request_stop, update_status. emits_tac. Qed.
#[export] Hint Resolve request_stop_quiet : neo.

Section MonitorFacts.
Variable lp64 : bool.
Variable work : string.

Lemma check_and_prepare_spec m :
  returns (fun '(m', _) => calm m m' /\ process_ m' = process_ m /\
                           stub_processes_ m' = stub_processes_ m /\ (status_ok m -> status_ok m'))
    (check_and_prepare_injection lp64 work m).
Proof.
  unfold check_and_prepare_injection, is_in_crash_loop.
  eapply returns_bind with (P := fun '(m', _) => frame m m' /\ status_of m' = status_of m).
  { intros now. split; [apply frame_on_zygote, frame_refl|done]. }
  intros [m1 looping] [H1 Hs1].
  assert (status_ok m -> status_ok m1) as Hok1 by (unfold status_ok; by rewrite Hs1).
  assert (forall reason m2, frame m m2 -> (status_ok m -> status_ok m2) ->
    returns (fun '(m', _) => calm m m' /\ process_ m' = process_ m /\
               stub_processes_ m' = stub_processes_ m /\ (status_ok m -> status_ok m'))
      (m <- request_stop (abi_name lp64) reason m2 ;; Ret (m, @None string))) as Hstop.
  { intros reason m2 H2 Hok2. eapply returns_bind; [apply request_stop_spec|].
    intros m3 (Hc & Hz & Hp & Hst). apply returns_ret. destruct H2 as [z ->]. split_and!; try done.
    intros Hok. specialize (Hok2 Hok). unfold status_ok, status_of. by rewrite Hz. }
  destruct looping; [by apply Hstop|].
  assert (returns (fun '(m', _, _) => frame m m' /\ (status_ok m -> status_ok m'))
            (ensure_daemon_created work m1)) as He.
  { eapply every_run_mono; [|apply every_run_and;
      [apply (ensure_daemon_created_frame work m1)|apply (ensure_daemon_created_ok work m1)]].
    intros tr [[[m2 running] st]|]; [|done]. intros [H2 Hok2]. cbn in *.
    split; [by eapply frame_trans|auto]. }
  eapply returns_bind; [exact He|]. intros [[m2 running] st] [H2 Hok2].
  destruct running; cbn [negb]; [|by apply Hstop].
  apply returns_ret. destruct H2 as [z ->]. split_and!; try done. by left.
Qed.

Lemma check_and_prepare_quiet m : emits quiet (check_and_prepare_injection lp64 work m).
Proof.
  unfold check_and_prepare_injection, is_in_crash_loop, ensure_daemon_created, execl.
  emits_tac.
Qed.

Lemma hand_over_quiet pid tracer : pid <> 1 -> emits quiet (hand_over pid tracer).
Proof.
  intros Hp. apply Z.eqb_neq in Hp.
  assert (forall sig, emits quiet (call (Ptrace (PTRACE_DETACH sig) pid))).
  { intros sig. apply emits_call. cbn. by rewrite Hp. }
  unfold hand_over, fork_dont_care, execl. emits_tac.
Qed.

Lemma handleExecEvent_quiet pid status m :
  pid <> 1 -> emits quiet (handleExecEvent lp64 work pid status m).
Proof.
  intros Hp. pose proof (check_and_prepare_quiet m). pose proof (hand_over_quiet pid).
  unfold handleExecEvent, get_program, update_status. emits_tac; auto.
Qed.

(** Nothing but a promotion touches the sets at exec, and it leaves the status alone. *)
Definition exec_post (pid status : Z) (m : AppMonitor) (r : AppMonitor * Z * bool) : Prop :=
  let '(m', status', handled) := r in
  calm m m' /\ (status_ok m -> status_ok m') /\ process_ m' = process_ m /\
  (stub_processes_ m' = stub_processes_ m \/
   stub_processes_ m' = {[ pid ]} ∪ stub_processes_ m /\ status' = status /\ handled = true).

Lemma handleExecEvent_spec pid status m :
  returns (exec_post pid status m) (handleExecEvent lp64 work pid status m).
Proof.
  apply returns_skip. intros program.
  eapply (returns_bind (exec_post pid status m)).
  2: { intros [[m' status'] handled] H. apply returns_skip. intros _. exact H. }
  destruct (contains program _).
  { do 2 (apply returns_skip; intros _). apply returns_ret. split_and!; auto. by left. }
  assert (exec_post pid status m (m, status, false)) by (split_and!; auto; by left).
  case_bool_decide; cbn [negb]; [|by apply returns_ret].
  destruct (String.eqb _ _); cbn [negb]; [|by apply returns_ret].
  eapply returns_bind; [apply check_and_prepare_spec|].
  intros [m1 [tracer|]] (H1 & H2 & H3 & H4); [|apply returns_ret; split_and!; auto].
  apply returns_skip. intros [status' handled]. apply returns_ret. split_and!; auto.
Qed.

Lemma handleTracedProcess_spec pid status m :
  pid ∉ stub_processes_ m -> pid <> 1 -> sets_ok m ->
  returns (fun m' => calm m m' /\ (status_ok m -> status_ok m') /\ sets_ok m')
    (handleTracedProcess lp64 work pid status m).
Proof.
  intros Hns Hp (Hp1 & Hs1 & Hd). unfold handleTracedProcess.
  destruct (stopped_with status SIGTRAP PTRACE_EVENT_EXEC) eqn:Ee.
  - eapply returns_bind; [apply handleExecEvent_spec|].
    intros [[m1 status1] kept] (Hc & Hok & Hpr & Hst). destruct kept.
    + apply returns_ret. destruct Hst as [Hst|(Hst & -> & _)].
      * destruct (stopped_with status1 _ _); (split_and!; [done|done|..]); cbn; rewrite ?Hpr, ?Hst;
          unfold sets_ok; cbn; rewrite ?Hpr, ?Hst; set_solver.
      * rewrite Ee. split_and!; [done|done|]. unfold sets_ok. cbn. rewrite Hpr, Hst. set_solver.
    + assert (sets_ok (erase_process pid m1)).
      { destruct Hst as [Hst|(_ & _ & ?)]; [|done]. unfold sets_ok. cbn. rewrite Hpr, Hst. set_solver. }
      destruct (WIFSTOPPED status1); [apply returns_skip; intros _|]; by apply returns_ret.
  - destruct (stopped_with status SIGTRAP PTRACE_EVENT_STOP).
    + apply bind_bind, returns_skip. intros _. apply bind_bind, returns_skip. intros _.
      cbn [bind]. rewrite Ee. apply returns_ret. split_and!; [by left|done|done].
    + cbn [bind]. assert (sets_ok (erase_process pid m)) by (unfold sets_ok; cbn; set_solver).
      destruct (WIFSTOPPED status); [apply returns_skip; intros _|];
        apply returns_ret; (split_and!; [by left|done|done]).
Qed.

Lemma handleTracedProcess_quiet pid status m :
  pid <> 1 -> emits quiet (handleTracedProcess lp64 work pid status m).
Proof.
  intros Hp. pose proof (handleExecEvent_quiet pid status m Hp). apply Z.eqb_neq in Hp.
  assert (forall sig, emits quiet (call (Ptrace (PTRACE_DETACH sig) pid))).
  { intros sig. apply emits_call. cbn. by rewrite Hp. }
  unfold handleTracedProcess. emits_tac.
Qed.
End MonitorFacts.

(** ** Facts: what one event keeps *)

(** The invariant of a monitor whose attachment to init is [b]. *)
Definition invariant (b : bool) (m : AppMonitor) : Prop :=
  sets_ok m /\ status_ok m /\ attachment_ok b m.

(** A run that keeps the invariant, whatever the attachment it starts from. *)
Definition keeps (m : AppMonitor) (p : prog sys AppMonitor) : Prop :=
  forall b, invariant b m ->
    every_run p (on_return (fun tr m' => invariant (asked b tr) m')).

Lemma keeps_calm m p :
  emits quiet p ->
  (sets_ok m -> returns (fun m' => calm m m' /\ (status_ok m -> status_ok m') /\ sets_ok m') p) ->
  keeps m p.
Proof.
  intros Hq Hr b (Hs & Ho & Hz). eapply every_run_mono; [|apply every_run_and; [exact Hq|exact (Hr Hs)]].
  intros tr [m'|]; [|done]. cbn. intros [Hqt (Hc & Hok & Hs')].
  split_and!; [done|auto|]. rewrite asked_quiet by done. by eapply attachment_ok_calm.
Qed.

Lemma keeps_bind m (p : prog sys AppMonitor) f :
  keeps m p -> (forall m', keeps m' (f m')) -> keeps m (bind p f).
Proof.
  intros Hp Hf b Hb. eapply every_run_seq; [apply (Hp b Hb)|done|].
  intros tr m' Hm'. eapply every_run_mono; [|apply (Hf m' _ Hm')].
  intros tr' [m2|]; [|done]. cbn. by rewrite asked_app.
Qed.

Lemma keeps_request_start abi m : keeps m (request_start abi m).
Proof.
  intros b (Hs & Ho & Hz). unfold request_start, attachment_ok in *.
  destruct (tracing_state_ m) eqn:E; cbn; intros; unfold invariant, attachment_ok; cbn;
    rewrite ?E; auto.
Qed.

Lemma keeps_request_stop abi reason m : keeps m (request_stop abi reason m).
Proof.
  apply keeps_calm; [apply request_stop_quiet|]. intros Hs.
  eapply returns_mono; [|apply request_stop_spec]. cbn. intros m' (Hc & Hz & Hp & Hst).
  split_and!; [done| |].
  - unfold status_ok, status_of. by rewrite Hz.
  - unfold sets_ok. by rewrite Hp, Hst.
Qed.

Section Keeps.
Variable lp64 : bool.
Variable work : string.

Lemma status_ok_set_crashed error m : status_ok m -> status_ok (set_daemon_crashed error m).
Proof. by intros [_ H]. Qed.

Lemma handle_daemon_exit_spec pid status m :
  every_run (handle_daemon_exit_if_match lp64 pid status m) (fun tr r =>
    forallb quiet tr = true /\
    on_return (fun _ '(m', matched) => frame m m' /\ (status_ok m -> status_ok m') /\
      (matched = false -> m' = m) /\
      matched = supported (status_of m) && (pid =? daemon_pid (status_of m))) tr r).
Proof.
  unfold handle_daemon_exit_if_match. destruct (supported _ && _) eqn:E.
  - intros u. cbn. split; [done|]. split_and!; [apply frame_on_zygote, frame_refl| |done|done].
    intros _. unfold status_ok, status_of. cbn. destruct (is_empty _); cbn; split; auto; done.
  - cbn. split; [done|]. split_and!; [apply frame_refl|done..].
Qed.

Lemma keeps_handleParentEvent pid status m : keeps m (handleParentEvent pid status m).
Proof.
  assert (forall b, invariant b m -> every_run (resume_parent pid status m)
            (on_return (fun tr m' => invariant (asked b tr) m'))) as Hres.
  { intros b Hb. unfold resume_parent.
    destruct (WIFSTOPPED status); [intros u|]; exact Hb. }
  intros b Hb. unfold handleParentEvent.
  destruct (stopped_with status SIGTRAP PTRACE_EVENT_FORK); [intros r; apply (Hres b Hb)|].
  destruct ((pid =? 1) && _ && _) eqn:Ec.
  - apply andb_prop in Ec as [_ Ec]. apply bool_decide_eq_true in Ec.
    intros r. destruct Hb as (Hs & Ho & Hz). cbn. split_and!; [done|done|]. done.
  - destruct (negb (pid =? 1) && _); [|by apply Hres].
    destruct Hb as ((H1 & H2 & H3) & Ho & Hz). cbn. split_and!; [|done|done].
    unfold sets_ok. cbn. set_solver.
Qed.

Lemma keeps_handleChildEvent pid status m :
  keeps m (handleChildEvent lp64 work pid status m).
Proof.
  intros b Hb. unfold handleChildEvent.
  destruct ((pid =? 1) || _) eqn:Er; [by apply keeps_handleParentEvent|].
  apply orb_false_elim in Er as [Hp Hns]. apply Z.eqb_neq in Hp.
  apply bool_decide_eq_false in Hns.
  eapply every_run_seq; [apply handle_daemon_exit_spec| |].
  { by intros tr h [_ _]. }
  intros tr [m1 matched] [Hq (Hf & Hok & Hm & _)]. cbn [on_return] in *.
  destruct matched.
  - cbn. rewrite app_nil_r. rewrite asked_quiet by done. destruct Hb as (Hs & Ho & Hz).
    split_and!; [|auto|by eapply attachment_ok_calm; [apply frame_calm|]].
    destruct Hf as [z ->]. exact Hs.
  - specialize (Hm eq_refl) as ->.
    assert (keeps m (if bool_decide (pid ∈ process_ m)
                     then handleTracedProcess lp64 work pid status m
                     else handleNewProcess pid m)) as Hk.
    { apply keeps_calm.
      - destruct (bool_decide _); [by apply handleTracedProcess_quiet|].
        unfold handleNewProcess. emits_tac.
      - intros Hs. destruct (bool_decide _); [by apply handleTracedProcess_spec|].
        intros r r'. cbn. split_and!; [by left|done|]. unfold sets_ok in *. cbn. set_solver. }
    eapply every_run_mono; [|apply (Hk b Hb)]. intros tr' [m'|]; [|done].
    cbn. rewrite asked_app. by rewrite (asked_quiet b tr).
Qed.

Lemma keeps_request_rearm ignore m :
  forall b, invariant b m -> every_run (request_rearm lp64 work ignore m)
    (on_return (fun tr r => invariant (asked b tr) (fst r))).
Proof.
  intros b Hb. unfold request_rearm.
  eapply every_run_seq with (S := on_return (fun tr m' => invariant (asked b tr) m')).
  { destruct (bool_decide _); [exact Hb|by apply keeps_request_start]. }
  { done. }
  intros tr m1 H1. cbn [on_return] in H1.
  eapply every_run_seq.
  { apply every_run_and; [apply (rearm_untraced lp64 work ignore m1)|].
    apply every_run_and; [apply (rearm_frame lp64 work ignore m1)|].
    apply (rearm_status_ok lp64 work ignore m1). }
  { done. }
  intros tr2 [m2 result] (Hu & Hf & Hok). cbn [on_return] in *.
  assert (invariant (asked b (tr ++ tr2)) m2) as H2.
  { rewrite asked_app, (asked_quiet _ tr2).
    - destruct H1 as (Hs & Ho & Hz). split_and!; [|auto|].
      + destruct Hf as [z ->]. exact Hs.
      + by eapply attachment_ok_calm; [apply frame_calm|].
    - revert Hu. clear. induction tr2 as [|ev tr2 IH]; [done|]. cbn.
      intros [H ?]%andb_prop. rewrite untraced_quiet by done. auto. }
  case_bool_decide.
  - eapply every_run_seq; [apply (keeps_request_stop _ _ _ _ H2)|done|].
    intros tr3 m3 H3. cbn in *. rewrite app_nil_r, app_assoc, asked_app. exact H3.
  - intros u. cbn. rewrite app_assoc, asked_app. exact H2.
Qed.

Lemma keeps_pure m (f : AppMonitor -> AppMonitor) abi :
  (forall b, invariant b m -> invariant b (f m)) ->
  keeps m (update_status abi (f m) ;;; Ret (f m)).
Proof. intros Hf b Hb u. cbn. auto. Qed.

Lemma keeps_dispatch fd peer buf m : keeps m (dispatch lp64 work fd peer buf m).
Proof.
  unfold dispatch. destruct (msg_cmd buf) as [[]|].
  - apply keeps_request_start.
  - apply keeps_request_stop.
  - intros b (Hs & Ho & Hz) u. cbn. by split_and!.
  - apply (keeps_pure m (notify_injected _)).
    intros b Hb. unfold invariant, sets_ok, status_ok, notify_injected in *. cbn in *.
    destruct (0 <? _); exact Hb.
  - intros b Hb. unfold payload_view. destruct (_ <? 0); [done|].
    apply (keeps_pure m (set_daemon_info _)); [|done]. intros b' Hb'. exact Hb'.
  - intros b Hb. unfold payload_view. destruct (_ <? 0); [done|].
    apply (keeps_pure m (set_daemon_crashed _)); [|done].
    intros b' (Hs & Ho & Hz). split_and!; [done|by apply status_ok_set_crashed|done].
  - by intros b Hb.
  - intros b Hb. eapply every_run_seq; [by apply keeps_request_rearm|done|].
    intros tr [m' result] Hm'. unfold answer. cbn in Hm'. destruct (snd peer <=? 2).
    + cbn. by rewrite app_nil_r.
    + intros r. cbn. by rewrite asked_app.
  - by intros b Hb.
Qed.

(** One thing the monitor reacts to: news of a child, or a whole message. *)
Inductive mon_step : AppMonitor -> list (event sys) -> AppMonitor -> Prop :=
| step_child pid status m tr m' :
    exec (handleChildEvent lp64 work pid status m) tr (Val m') -> mon_step m tr m'
| step_message fd peer buf m tr m' :
    exec (dispatch lp64 work fd peer buf m) tr (Val m') -> mon_step m tr m'.

(** What it can get to from a state, with everything it did on the way. *)
Inductive reaches (m0 : AppMonitor) : list (event sys) -> AppMonitor -> Prop :=
| reach_start : reaches m0 [] m0
| reach_step tr m tr' m' : reaches m0 tr m -> mon_step m tr' m' -> reaches m0 (tr ++ tr') m'.
End Keeps.

(** C5: the monitor's invariant. From a fresh monitor seized on init, after any sequence of
    child events and control messages with any answers of the system: init is in neither set
    and no process is both a candidate and a stub; a daemon said to run is supported and has a
    pid; and unless the monitor is exiting, its last request about init was to attach exactly
    while it is tracing or stopping, and to detach exactly while it is stopped. So it is
    attached to init exactly while it is tracing or stopping, as long as the kernel refused none
    of these requests: a refusal goes unnoticed ([refused_seize_unnoticed]). *)
Theorem monitor_invariant lp64 work m0 tr m :
  sets_ok m0 -> status_ok m0 -> tracing_state_ m0 = TRACING ->
  reaches lp64 work m0 tr m ->
  sets_ok m /\ status_ok m /\ attachment_ok (asked true tr) m /\
  (existsb refused tr = false -> attachment_ok (attached true tr) m).
Proof.
  intros Hs Ho Ht Hr. assert (invariant (asked true tr) m) as (H1 & H2 & H3).
  { induction Hr as [|tr m tr' m' _ IH Hstep];
      [split_and!; [done..|by unfold attachment_ok; rewrite Ht]|].
    rewrite asked_app. set (b := asked true tr) in *.
    destruct Hstep as [pid status m tr' m' Hx|fd peer buf m tr' m' Hx].
    - exact (proj1 (every_run_exec _ _) (keeps_handleChildEvent lp64 work pid status m b IH) _ _ Hx).
    - exact (proj1 (every_run_exec _ _) (keeps_dispatch lp64 work fd peer buf m b IH) _ _ Hx). }
  split_and!; [done..|]. intros Hr'. by rewrite attached_asked.
Qed.

(** A monitor as [new_monitor] makes it. *)
Definition fresh_monitor : AppMonitor :=
  {| zygote_ := {| status_ := initial_status; counter := {| last_start_time := 0; start_count := 0 |};
                   hooked_ := ∅; tracer_path_ := "/m/bin/zygisk-ptrace64";
                   daemon_path_ := "/m/bin/zygiskd64" |};
     tracing_state_ := TRACING; monitor_stop_reason_ := ""; prop_path_ := "/w/module.prop";
     metadata_section_ := ""; description_ := ""; running_ := true;
     process_ := ∅; stub_processes_ := ∅ |}.

Lemma monitor_invariant_witness :
  exists tr m, reaches true "/w" fresh_monitor tr m /\ process_ m = {[ 42 ]} /\
    sets_ok m /\ status_ok m /\ attachment_ok (asked true tr) m /\
    (existsb refused tr = false -> attachment_ok (attached true tr) m).
Proof.
  assert (reaches true "/w" fresh_monitor
    ([] ++ [Ev (Ptrace (PTRACE_SETOPTIONS PTRACE_O_TRACEEXEC) 42) 0; Ev (Ptrace (PTRACE_CONT 0) 42) 0])
    (insert_process 42 fresh_monitor)) as Hr.
  { eapply reach_step; [apply reach_start|]. apply (step_child _ _ 42 (stop_status SIGSTOP 0)).
    vm_compute. eauto 10. }
  eexists _, _. split; [exact Hr|]. split; [vm_compute; reflexivity|].
  apply (monitor_invariant true "/w" fresh_monitor _ _); [| |reflexivity|exact Hr].
  - unfold sets_ok. cbn. set_solver.
  - split; [discriminate|by left].
Defined.

(** [request_start] does not look at what PTRACE_SEIZE answers: refused, init is not traced while
    the monitor says it is. *)
Lemma refused_seize_unnoticed abi m :
  tracing_state_ m = STOPPED ->
  exists tr m', exec (request_start abi m) tr (Val m') /\ tracing_state_ m' = TRACING /\
    attached false tr = false.
Proof.
  intros Hm. unfold request_start. rewrite Hm. eexists _, (set_tracing_state TRACING m). split.
  - eexists (-1), _. split; [reflexivity|]. eexists true, _. split; [reflexivity|done].
  - done.
Qed.

(** ** Facts: no stopped child is forgotten *)

Section Resumes.
Variable lp64 : bool.
Variable work : string.
Variable pid : Z.

(** A run that resumed or detached [pid] at least once. *)
Definition resumed (tr : list (event sys)) : Prop := existsb (is_resume pid) tr = true.

Lemma resumed_l tr tr' : resumed tr -> resumed (tr ++ tr').
Proof. unfold resumed. intros H. by rewrite existsb_app, H. Qed.
Lemma resumed_r tr tr' : resumed tr' -> resumed (tr ++ tr').
Proof. unfold resumed. intros H. by rewrite existsb_app, H, orb_true_r. Qed.

Lemma resumed_cont sig x tr : resumed (Ev (Ptrace (PTRACE_CONT sig) pid) x :: tr).
Proof. unfold resumed. cbn. by rewrite Z.eqb_refl. Qed.
Lemma resumed_detach sig x tr : resumed (Ev (Ptrace (PTRACE_DETACH sig) pid) x :: tr).
Proof. unfold resumed. cbn. by rewrite Z.eqb_refl. Qed.

Lemma hand_over_resumes tracer :
  every_run (hand_over pid tracer) (on_return (fun tr _ => resumed tr)).
Proof.
  step. intros k. step. intros c. apply every_run_trivial. intros tr [r|]; [|done].
  cbn. change (?a :: ?b :: ?l) with ([a] ++ (b :: l)). apply resumed_r, resumed_cont.
Qed.

(** At exec, either the process was resumed or it is still in the stop it was seen in. *)
Lemma handleExecEvent_resumes status m :
  every_run (handleExecEvent lp64 work pid status m) (on_return (fun tr '(m', status', handled) =>
    resumed tr \/ handled = false /\ status' = status)).
Proof.
  apply every_run_suffix.
  { intros tr tr' [[m' status'] handled] [H|H]; [left; by apply resumed_r|by right]. }
  intros program.
  assert (forall m' : AppMonitor, every_run (Ret (m', status, false)) (on_return
    (fun (tr : list (event sys)) '(m', status', handled) =>
       resumed tr \/ handled = false /\ status' = status))) as Hret by (by right).
  eapply every_run_seq with (S := on_return (fun tr '(m', status', handled) =>
    resumed tr \/ handled = false /\ status' = status)).
  - destruct (contains program _).
    { step. intros r. step. intros c. left. change (?a :: ?l) with ([a] ++ l).
      apply resumed_r, resumed_cont. }
    destruct (negb (bool_decide _)); [apply Hret|].
    destruct (negb (String.eqb _ _)); [apply Hret|].
    apply every_run_suffix.
    { intros tr tr' [[m' status'] handled] [H|H]; [left; by apply resumed_r|by right]. }
    intros [m1 [tracer|]]; [|apply Hret].
    eapply every_run_seq; [apply hand_over_resumes|done|].
    intros tr [status' handled] Hr. left. cbn. by apply resumed_l.
  - done.
  - intros tr [[m' status'] handled] H. intros u. cbn in *.
    destruct H as [H|H]; [left; by apply resumed_l|by right].
Qed.
End Resumes.

(** No stopped child is forgotten. Whatever a child event finds, a process reported
    stopped has been resumed or detached by the time the handler returns; only the daemon,
    which the monitor does not trace, is left alone. *)
Lemma handleChildEvent_resumes lp64 work pid status m :
  WIFSTOPPED status = true ->
  supported (status_of m) && (pid =? daemon_pid (status_of m)) = false ->
  every_run (handleChildEvent lp64 work pid status m) (on_return (fun tr _ =>
    existsb (is_resume pid) tr = true)).
Proof.
  intros Hst Hd. change (every_run (handleChildEvent lp64 work pid status m)
                           (on_return (fun tr _ => resumed pid tr))).
  assert (forall tr tr' (b : AppMonitor), resumed pid tr' -> resumed pid (tr ++ tr')) as Hsuf
    by (intros; by apply resumed_r).
  unfold handleChildEvent. destruct ((pid =? 1) || _) eqn:Er.
  - assert (every_run (resume_parent pid status m) (on_return (fun tr _ => resumed pid tr))) as Hres.
    { unfold resume_parent. rewrite Hst. intros x. apply resumed_cont. }
    unfold handleParentEvent. destruct (stopped_with status SIGTRAP PTRACE_EVENT_FORK).
    { by apply every_run_suffix. }
    destruct ((pid =? 1) && _ && _) eqn:Ec.
    { apply andb_prop in Ec as [[Ec _]%andb_prop _]. apply Z.eqb_eq in Ec as ->.
      intros x. apply resumed_detach. }
    rewrite stopped_not_ended by done.
    by rewrite andb_false_r.
  - eapply every_run_seq; [apply handle_daemon_exit_spec| |].
    { by intros tr h [_ _]. }
    intros tr [m1 matched] (_ & _ & _ & Hm & Hm'). cbn in Hm'. rewrite Hd in Hm'. subst matched.
    specialize (Hm eq_refl) as ->.
    eapply every_run_mono; [|instantiate (1 := on_return (fun tr _ => resumed pid tr))].
    { intros tr' [x|]; [|done]. cbn. apply resumed_r. }
    destruct (bool_decide (pid ∈ process_ m)).
    2: { apply every_run_suffix; [done|]. intros _. intros x. apply resumed_cont. }
    eapply every_run_seq with (S := on_return (fun tr '(m', status', handled) =>
      resumed pid tr \/ handled = false /\ status' = status)).
    + destruct (stopped_with status SIGTRAP PTRACE_EVENT_EXEC); [apply handleExecEvent_resumes|].
      destruct (stopped_with status SIGTRAP PTRACE_EVENT_STOP); [|by right].
      step. intros r. step. intros c. left. apply (resumed_r pid [_]), resumed_cont.
    + done.
    + intros tr2 [[m2 status2] kept] [Hr|[-> ->]]; cbn [on_return] in *.
      * apply every_run_trivial. intros tr3 [x|]; [|done]. by apply resumed_l.
      * rewrite Hst. intros x. apply resumed_r, resumed_detach.
Qed.

Lemma handleChildEvent_resumes_witness :
  WIFSTOPPED (stop_status SIGSTOP 0) = true /\
  every_run (handleChildEvent true "/w" 42 (stop_status SIGSTOP 0) fresh_monitor)
    (on_return (fun tr _ => existsb (is_resume 42) tr = true)).
Proof. split; [reflexivity|]. apply handleChildEvent_resumes; reflexivity. Defined.

(** C14: what reaches a parent. For init and for stubs, every stop is answered at once, by one
    resumption. That delivers the stop's signal when it is a signal stop, except that job-control
    stops are suppressed for both and SIGCHLD is kept from stubs; a ptrace event is resumed
    without a signal, and for a fork the child's pid is asked for before. None of these changes
    the monitor's state. The one exception is the stop that init was interrupted for when
    tracing is to stop: init is detached, and the state is stopped. *)
Theorem handleParentEvent_signals pid sig ev m :
  0 <= sig < 256 -> 0 <= ev ->
  every_run (handleParentEvent pid (stop_status sig ev) m) (fun tr r =>
    if decide (pid = 1 /\ tracing_state_ m = STOPPING /\ sig = SIGTRAP /\ ev = PTRACE_EVENT_STOP)
    then r = Val (set_tracing_state STOPPED m) /\ exists x, tr = [Ev (Ptrace (PTRACE_DETACH 0) 1) x]
    else r = Val m /\ exists before x,
      tr = before ++ [Ev (Ptrace (PTRACE_CONT
             (if (ev =? 0) && negb (job_control sig) && ((pid =? 1) || negb (sig =? SIGCHLD))
              then sig else 0)) pid) x] /\
      if decide (sig = SIGTRAP /\ ev = PTRACE_EVENT_FORK)
      then exists child, before = [Ev (Ptrace PTRACE_GETEVENTMSG pid) child] else before = []).
Proof.
  intros Hs He.
  unfold handleParentEvent, resume_parent. rewrite stop_status_stopped.
  rewrite stopped_not_ended by apply stop_status_stopped. rewrite andb_false_r.
  rewrite !stopped_with_stop_status by (unfold SIGTRAP, PTRACE_EVENT_FORK, PTRACE_EVENT_STOP; lia).
  assert (parent_signal pid (stop_status sig ev) =
            if (ev =? 0) && negb (job_control sig) && ((pid =? 1) || negb (sig =? SIGCHLD))
            then sig else 0) as ->.
  { unfold parent_signal. rewrite wptevent_stop_status, wstopsig_stop_status by done.
    destruct (ev =? 0), (job_control sig), (pid =? 1), (sig =? SIGCHLD); done. }
  destruct (decide (sig = SIGTRAP /\ ev = PTRACE_EVENT_FORK)) as [[-> ->]|Hf]; cbn [andb Z.eqb].
  { intros child x. cbn [bind every_run app]. rewrite decide_False by (cbv; lia).
    split; [done|]. by exists [Ev (Ptrace PTRACE_GETEVENTMSG pid) child], x; eauto. }
  replace ((sig =? SIGTRAP) && (ev =? PTRACE_EVENT_FORK)) with false by lia.
  destruct (Z.eqb_spec sig SIGTRAP), (Z.eqb_spec ev PTRACE_EVENT_STOP), (Z.eqb_spec pid 1),
    (decide (tracing_state_ m = STOPPING)) as [Et|Et]; cbn [andb];
    rewrite ?(bool_decide_eq_true_2 _ Et), ?(bool_decide_eq_false_2 _ Et); intros x;
    cbn [bind every_run app]; try rewrite decide_True by tauto; try rewrite decide_False by tauto;
    (split; [done|]); first [by exists x | by exists [], x].
Qed.

Lemma handleParentEvent_signals_witness :
  every_run (handleParentEvent 7 (stop_status SIGCHLD 0) fresh_monitor) (fun tr r =>
    r = Val fresh_monitor /\ exists before x, tr = before ++ [Ev (Ptrace (PTRACE_CONT 0) 7) x] /\
      before = []).
Proof.
  apply (handleParentEvent_signals 7 SIGCHLD 0 fresh_monitor); cbv; easy.
Defined.

(** ** Facts: what a hand-over leaves behind *)

Definition is_handover (pid : Z) (ev : event sys) : bool :=
  match ev with
  | Ev (Ptrace (PTRACE_DETACH sig) p) _ => (p =? pid) && (sig =? SIGSTOP)
  | _ => false
  end.
Definition not_handover (pid : Z) (ev : event sys) : bool := negb (is_handover pid ev).

Lemma not_handover_none pid tr :
  forallb (not_handover pid) tr = true -> existsb (is_handover pid) tr = false.
Proof.
  induction tr as [|ev tr IH]; [done|]. cbn. unfold not_handover at 1.
  intros [H1 H2]%andb_prop. apply negb_true_iff in H1. by rewrite H1, IH.
Qed.

Section Handover.
Variable lp64 : bool.
Variable work : string.
Variable pid : Z.

Definition handed_over (tr : list (event sys)) (r : AppMonitor * Z * bool) : Prop :=
  existsb (is_handover pid) tr = true ->
  snd r = true /\ stopped_with (snd (fst r)) SIGTRAP PTRACE_EVENT_EXEC = false.

Lemma hand_over_status tracer :
  every_run (hand_over pid tracer) (on_return (fun tr '(status, handled) =>
    existsb (is_handover pid) tr = true ->
    handled = true /\ stopped_with status SIGTRAP PTRACE_EVENT_EXEC = false)).
Proof.
  step. intros k. step. intros c. step. intros [p status].
  destruct (stopped_with status SIGSTOP 0) eqn:Es; [|done].
  step. intros d. apply every_run_bind, every_run_trivial. intros tr [p'|]; [|done].
  destruct (p' =? 0).
  { unfold execl. step. intros [|]; [done|]. step. by intros r. }
  apply every_run_bind, every_run_trivial. intros tr' [u|]; [|done]. cbn. intros _.
  split; [done|]. unfold stopped_with in *. apply andb_prop in Es as [-> Es].
  apply Z.eqb_eq in Es. by rewrite Es.
Qed.

Lemma handleExecEvent_handover status m :
  every_run (handleExecEvent lp64 work pid status m) (on_return handed_over).
Proof.
  eapply every_run_seq with (S := fun tr _ => existsb (is_handover pid) tr = false).
  { eapply every_run_mono; [intros tr r; apply not_handover_none|].
    unfold get_program. change (emits (not_handover pid) (link <- call (ReadLink (proc_path pid "exe") 256) ;;
      Ret (match link with Some s => c_str s | None => "" end))). emits_tac. }
  { done. }
  intros tr1 program H1.
  eapply every_run_seq with (S := on_return handed_over).
  - assert (forall m', every_run (Ret (m', status, false)) (on_return handed_over)) as Hret.
    { intros m'. unfold on_return, handed_over. cbn. discriminate. }
    destruct (contains program _); [intros r c; discriminate|].
    destruct (negb (bool_decide _)); [apply Hret|].
    destruct (negb (String.eqb _ _)); [apply Hret|].
    eapply every_run_seq with (S := fun tr _ => existsb (is_handover pid) tr = false).
    { eapply every_run_mono; [intros tr r; apply not_handover_none|].
      change (emits (not_handover pid) (check_and_prepare_injection lp64 work m)).
      unfold check_and_prepare_injection, is_in_crash_loop, ensure_daemon_created, execl,
        request_stop, update_status. emits_tac. }
    { done. }
    intros tr [m1 [tracer|]] Hn; [|intros H; rewrite app_nil_r, Hn in H; done].
    eapply every_run_seq; [apply hand_over_status|done|].
    intros tr' [status' handled] Hh H. rewrite app_nil_r, existsb_app, Hn in H. exact (Hh H).
  - done.
  - intros tr2 r H2. destruct r as [[m' status'] handled]. intros u. cbn.
    unfold handed_over in *. cbn [on_return fst snd] in *. intros H. apply H2.
    rewrite !existsb_app, H1 in H. cbn in H. by rewrite orb_false_r in H.
Qed.
End Handover.

(** A zygote handed to its injector stays in the candidate set. The hand-over's own wait
    overwrites the status [handleTracedProcess] tests before erasing, so in every run that
    detaches the zygote in SIGSTOP its pid is still a candidate afterwards. *)
Lemma handover_keeps_candidate lp64 work pid status m :
  pid ∈ process_ m ->
  every_run (handleTracedProcess lp64 work pid status m) (on_return (fun tr m' =>
    existsb (is_handover pid) tr = true -> pid ∈ process_ m')).
Proof.
  intros Hin. unfold handleTracedProcess.
  destruct (stopped_with status SIGTRAP PTRACE_EVENT_EXEC) eqn:Ee.
  - eapply every_run_seq.
    { apply every_run_and; [apply handleExecEvent_handover|apply handleExecEvent_spec]. }
    { done. }
    intros tr [[m1 status1] kept] [Hh (_ & _ & Hp & _)]. cbn [on_return] in *.
    destruct kept.
    + cbn. rewrite app_nil_r. intros H. destruct (Hh H) as [_ Hs]. cbn in Hs. rewrite Hs. by rewrite Hp.
    + assert (existsb (is_handover pid) tr = false) as Hno.
      { apply not_true_is_false. intros H. by destruct (Hh H). }
      destruct (WIFSTOPPED status1); cbn; intros; exfalso;
        match goal with H : existsb _ (_ ++ _) = true |- _ =>
          rewrite existsb_app, Hno in H; cbn in H; rewrite ?andb_false_r in H; done end.
  - destruct (stopped_with status SIGTRAP PTRACE_EVENT_STOP); [by intros r c|]. cbn.
    destruct (WIFSTOPPED status); cbn; intros; [|done]. 
    match goal with H : _ || _ = true |- _ => rewrite andb_false_r in H; done end.
Qed.

Lemma handover_keeps_candidate_witness :
  every_run (handleTracedProcess true "/w" 42 (stop_status SIGTRAP PTRACE_EVENT_EXEC)
               (insert_process 42 fresh_monitor))
    (on_return (fun tr m' => existsb (is_handover 42) tr = true -> 42 ∈ process_ m')).
Proof. apply handover_keeps_candidate. cbn. set_solver. Defined.

(** ** A length the socket handler trusts *)

(** A header announcing a negative payload passes every size check (8 + length bytes do
    arrive) and the payload view then runs off the buffer: one datagram takes the monitor
    down. *)
Lemma negative_length_accepted lp64 work fd peer buf nread m :
  msg_cmd buf = Some DAEMON_SET_INFO -> -8 <= msg_length buf < 0 -> 8 <= nread ->
  message_size lp64 nread buf = Some (8 + msg_length buf) /\ 0 <= 8 + msg_length buf < 8 /\
  every_run (dispatch lp64 work fd peer buf m) (fun _ r =>
    r = Stop (Undefined "string_view past the buffer")).
Proof.
  intros Hc Hl Hn. unfold message_size, dispatch, payload_view. rewrite Hc. cbn [carries_payload].
  change sizeof_CtlMessage with 8. destruct (Z.ltb_spec nread 8); [lia|].
  rewrite (signed_small (width lp64)) by (destruct lp64; cbn; lia).
  destruct (Z.ltb_spec (msg_length buf) 0); [|lia]. split_and!; [done|lia|lia|done].
Qed.

Lemma negative_length_accepted_witness :
  let buf := le_bytes 4 5 ++ le_bytes 4 (-4) in
  message_size true 12 buf = Some 4 /\
  every_run (dispatch true "/w" 3 ([], 0) buf fresh_monitor) (fun _ r =>
    r = Stop (Undefined "string_view past the buffer")).
Proof.
  destruct (negative_length_accepted true "/w" 3 ([], 0) (le_bytes 4 5 ++ le_bytes 4 (-4)) 12
    fresh_monitor) as (H1 & _ & H2); [reflexivity|vm_compute; intuition congruence|lia|].
  split; [exact H1|exact H2].
Defined.
