(* ===== verification/Reap.v ===== *)
(** * No child is left stopped

    What SigChldHandler and EventLoop (monitor_impl.cpp and event_loop.cpp) promise together:
    the kernel keeps a traced child stopped until the monitor resumes or detaches it, so a child
    whose stop was taken off the wait queue and then forgotten would hang for good. The theorem
    at the end says when every such child has been set going, and that the handlers come back.
    The lemmas carry one predicate, [lively], through every operation of the monitor. *)
From Stdlib Require Import ZArith Lia List String Ascii Bool.
From stdpp Require Import base list strings gmap.
From S2P Require Import Prelude.
From S2P Require Import Scan.
From S2P Require Import Sys.
From S2P Require Import ProcFs.
From S2P Require Import MonState.
From S2P Require Import ZygoteAbi.
From S2P Require Import Monitor.
Open Scope string_scope.
Open Scope list_scope.
Open Scope Z_scope.

Local Notation trace := (list (event sys)).

(** ** What is asked of a run *)

(** News of a child taken off the wait queue: who, and with what status. *)
Definition news (ev : event sys) : option (Z * Z) :=
  match ev with
  | Ev e x =>
      match e in sys X return X -> option (Z * Z) with
      | Waitpid p _ => fun r => if (p =? -1) && (0 <? fst r) then Some r else None
      | _ => fun _ => None
      end x
  end.

Definition forked (pid : Z) (tr : trace) : Prop := In (Ev Fork pid) tr.

(** Children the monitor made, or has as its daemon: it does not trace them. *)
Definition own (D : list Z) (tr : trace) (pid : Z) : Prop := In pid D \/ forked pid tr.

(** Every stop reported for a child that is not the monitor's own is answered later. *)
Definition served (D : list Z) (tr : trace) : Prop :=
  forall before ev after pid status,
    tr = before ++ ev :: after -> news ev = Some (pid, status) ->
    WIFSTOPPED status = true -> ~ own D before pid ->
    existsb (is_resume pid) after = true.

(** Whether a signal was taken after which the wait queue has not been emptied yet. *)
Definition owe (b : bool) (ev : event sys) : bool :=
  match ev with
  | Ev e x =>
      match e in sys X return X -> bool with
      | SigFdRead _ => fun r => match r with Some true => true | _ => b end
      | Waitpid p _ => fun r => if (p =? -1) && (fst r <=? 0) then false else b
      | _ => fun _ => b
      end x
  end.
Definition owing (b : bool) (tr : trace) : bool := fold_left owe tr b.

(** Everything reported is answered, and every signal taken has been looked into; [b] says
    whether one was taken before. *)
Definition at_rest (b : bool) (D : list Z) (tr : trace) : Prop :=
  served D tr /\ owing b tr = false.

(** The monitor is at rest whenever it goes to sleep. *)
Definition sleeps_at_rest (b : bool) (D : list Z) (tr : trace) : Prop :=
  forall before epfd ready after,
    tr = before ++ Ev (EpollWait epfd) ready :: after -> at_rest b D before.

(** The calls that bound how long a run can be. *)
Definition busy (ev : event sys) : bool :=
  match ev with
  | Ev (EpollWait _) _ | Ev (SigFdRead _) _ | Ev (SockPeek _ _) _ => true
  | _ => match news ev with Some _ => true | None => false end
  end.

(** The daemon afterwards: the one before, none, or a process forked meanwhile. *)
Definition daemon_of (D : list Z) (tr : trace) (d : Z) : Prop :=
  own D tr d \/ d = -1.

(** A run over which the monitor serves its children: it returns at rest, and otherwise ended
    for want of fuel after at least [n] of its waits, as a forked child that did not come back,
    or where the code has no defined behaviour. *)
Definition ends_well {A} (n : nat) (b : bool) (D : list Z) (f : A -> Z) (tr : trace)
    (r : res A) : Prop :=
  match r with
  | Val a => at_rest b D tr /\ daemon_of D tr (f a)
  | Stop h =>
      h = NoFuel /\ (n <= count busy tr)%nat \/ forked 0 tr \/ (exists what, h = Undefined what)
  end.
Definition lively {A} (n : nat) (b : bool) (D : list Z) (f : A -> Z) (p : prog sys A) : Prop :=
  every_run p (fun tr r => sleeps_at_rest b D tr /\ ends_well n b D f tr r).

(** A call that is none of the monitor's waits. *)
Definition aside (ev : event sys) : bool :=
  match ev with
  | Ev (EpollWait _) _ | Ev (SigFdRead _) _ | Ev (SockPeek _ _) _ => false
  | Ev (Waitpid p _) _ => negb (p =? -1)
  | _ => true
  end.

(** ** How it composes *)

Lemma split_app (tr tr' before after : trace) ev :
  tr ++ tr' = before ++ ev :: after ->
  (exists mid, tr = before ++ ev :: mid /\ after = mid ++ tr') \/
  (exists mid, before = tr ++ mid /\ tr' = mid ++ ev :: after).
Proof.
  revert before. induction tr as [|e tr IH]; intros before H.
  - right. by exists before.
  - destruct before as [|x before]; cbn in H; injection H as -> H.
    + left. exists tr. by rewrite H.
    + destruct (IH before H) as [(mid & -> & ->)|(mid & -> & ->)]; [left|right]; by exists mid.
Qed.

Lemma news_positive ev pid status : news ev = Some (pid, status) -> 0 < pid.
Proof.
  destruct ev as [X e x]. destruct e; try done. cbn.
  destruct (pid0 =? -1), (Z.ltb_spec 0 (fst x)); try done. intros [= ->]. done.
Qed.

Lemma owing_app b tr tr' : owing b (tr ++ tr') = owing (owing b tr) tr'.
Proof. apply fold_left_app. Qed.

(** [D'] after [tr] holds nothing that was not the monitor's own by then. *)
Definition links (D : list Z) (tr : trace) (D' : list Z) : Prop :=
  forall pid, In pid D' -> own D tr pid \/ pid = -1.

Lemma links_own D tr D' tr' pid :
  links D tr D' -> own D' tr' pid -> own D (tr ++ tr') pid \/ pid = -1.
Proof.
  unfold links, own, forked. rewrite in_app_iff. intros H [Hp|Hp]; [|auto].
  specialize (H pid Hp). intuition.
Qed.
Lemma links_daemon D tr d : daemon_of D tr d -> links D tr [d].
Proof. intros H pid [<-|[]]. exact H. Qed.
Lemma links_refl D tr : links D tr D.
Proof. intros pid H. left. by left. Qed.
#[local] Hint Resolve links_daemon links_refl : neo.

Lemma at_rest_app b b' D D' tr tr' :
  served D tr -> owing b tr = b' -> links D tr D' -> at_rest b' D' tr' ->
  at_rest b D (tr ++ tr').
Proof.
  intros H <- Hl [H' Hb]. split; [|by rewrite owing_app].
  intros before ev after pid status E Hn Hs Ho.
  apply split_app in E as [(mid & -> & ->)|(mid & -> & ->)].
  - by rewrite existsb_app, (H before ev mid pid status).
  - eapply H'; [done..|]. intros Hown. apply news_positive in Hn.
    apply (links_own D tr) in Hown as [?| ->]; [auto|lia|done].
Qed.

(** The rest of a run, after the events [t]. *)
Lemma lively_after {B} n n' b b' D D' (g : B -> Z) t q :
  served D t -> owing b t = b' -> sleeps_at_rest b D t -> links D t D' ->
  (n' <= n + count busy t)%nat -> lively n b' D' g q ->
  every_run q (fun tr r => sleeps_at_rest b D (t ++ tr) /\ ends_well n' b D g (t ++ tr) r).
Proof.
  intros Hs Hb Hz Hl Hn. apply every_run_mono. intros tr r [Hz' He]. split.
  - intros before epfd ready after E.
    apply split_app in E as [(mid & -> & _)|(mid & -> & E)]; [by eapply Hz|].
    eapply at_rest_app; eauto.
  - destruct r as [a|h]; cbn in *.
    + destruct He as [H Hd]. split; [by eapply at_rest_app|].
      destruct Hd as [Hd|Hd]; [by eapply links_own|by right].
    + unfold forked in *. rewrite count_app, in_app_iff. intuition lia.
Qed.

Lemma lively_bind {A B} n b D (f : A -> Z) (g : B -> Z) (p : prog sys A) (k : A -> prog sys B) :
  lively n b D f p -> (forall a, lively n false [f a] g (k a)) -> lively n b D g (bind p k).
Proof.
  intros Hp Hk. eapply every_run_seq; [exact Hp| |].
  - intros tr h H. exact H.
  - intros tr a [Hs [[Hr Hb] Hd]].
    apply (lively_after n n b false D [f a]); auto with neo. lia.
Qed.

(** ** Runs aside from the waits *)

Lemma aside_facts ev : aside ev = true -> news ev = None /\ (forall b, owe b ev = b).
Proof.
  destruct ev as [X e x]. destruct e; try done; cbn; intros H.
  apply negb_true_iff in H. by rewrite H.
Qed.
Lemma aside_served D tr : forallb aside tr = true -> served D tr.
Proof.
  intros H before ev after pid status -> Hn. exfalso.
  rewrite forallb_app in H. cbn in H. apply andb_prop in H as [_ [H _]%andb_prop].
  apply aside_facts in H as [H _]. congruence.
Qed.
Lemma aside_owing b tr : forallb aside tr = true -> owing b tr = b.
Proof.
  revert b. induction tr as [|ev tr IH]; intros b; [done|]. cbn.
  intros [H Ht]%andb_prop. apply aside_facts in H as [_ H]. rewrite H. by apply IH.
Qed.
Lemma aside_sleeps b D tr : forallb aside tr = true -> sleeps_at_rest b D tr.
Proof.
  intros H before epfd ready after ->. exfalso.
  rewrite forallb_app in H. cbn in H. by rewrite andb_false_r in H.
Qed.
#[local] Hint Resolve aside_served aside_owing aside_sleeps : neo.

Lemma lively_ret {A} n D (f : A -> Z) a : In (f a) D \/ f a = -1 -> lively n false D f (Ret a).
Proof.
  intros H. split; [by apply aside_sleeps|]. split; [by split; [apply aside_served|]|].
  unfold daemon_of, own. tauto.
Qed.
Lemma lively_undefined {A} n b D (f : A -> Z) what : lively n b D f (Halt (Undefined what)).
Proof. split; [by apply aside_sleeps|]. right. right. by exists what. Qed.

(** Something that cannot matter to the daemon, then the rest. *)
Lemma lively_skip {A B} n b D (g : B -> Z) (p : prog sys A) (k : A -> prog sys B) :
  emits aside p ->
  every_run p (fun tr r => match r with Stop _ => forked 0 tr | Val _ => True end) ->
  (forall a, lively n b D g (k a)) -> lively n b D g (bind p k).
Proof.
  intros Ha Hr Hk. eapply every_run_seq.
  - apply every_run_and; [exact Ha|exact Hr].
  - intros tr h [H Hf]. split; [by apply aside_sleeps|]. by right; left.
  - intros tr a [H _]. apply (lively_after n n b b D D); auto with neo. lia.
Qed.

(** One call. *)
Lemma lively_call {X B} n b D (g : B -> Z) (e : sys X) (k : X -> prog sys B) :
  (forall x, aside (Ev e x) = true) -> (forall x, lively n b D g (k x)) ->
  lively n b D g (Vis e k).
Proof.
  intros He Hk. apply (lively_skip n b D g (call e) k); [|by intros x|exact Hk].
  by apply emits_call.
Qed.

(** After a fork, the child only has to keep to itself and not come back. *)
Lemma lively_fork {B} n b D (g : B -> Z) (k : Z -> prog sys B) :
  emits aside (k 0) -> returns (fun _ => False) (k 0) ->
  (forall pid, pid <> 0 -> lively n b (pid :: D) g (k pid)) -> lively n b D g (Vis Fork k).
Proof.
  intros H0 H0r Hk pid. destruct (Z.eq_dec pid 0) as [->|Hp].
  - eapply every_run_mono; [|apply every_run_and; [exact H0|exact H0r]].
    intros tr [a|h] [H F]; [done|]. split; [by apply aside_sleeps|]. right. left. by left.
  - apply (lively_after n n b b D (pid :: D) g [Ev Fork pid]); auto with neo; [|lia].
    intros q [<-|H]; left; [right; by left|by left].
Qed.

(** ** The operations *)

Definition dpid (m : AppMonitor) : Z := daemon_pid (status_of m).

Ltac aside_call := apply lively_call; [intros; reflexivity|intros].

Lemma request_stop_lively n D abi reason m :
  In (dpid m) D \/ dpid m = -1 -> lively n false D dpid (request_stop abi reason m).
Proof.
  intros H. unfold request_stop. destruct (tracing_state_ m); try by apply lively_ret.
  do 2 aside_call. by apply lively_ret.
Qed.

Lemma ensure_daemon_lively n work m :
  lively n false [dpid m] (fun r => dpid (fst (fst r))) (ensure_daemon_created work m).
Proof.
  unfold ensure_daemon_created. destruct (_ =? -1).
  2: { apply lively_ret. left. by left. }
  apply lively_fork; [unfold execl; emits_tac| |].
  { unfold execl. cbn. intros x ppid. destruct (ppid =? 1); [done|by intros []]. }
  intros pid Hp. destruct (pid <? 0); [apply lively_ret; left; right; by left|].
  destruct (Z.eqb_spec pid 0); [done|]. apply lively_ret. left. by left.
Qed.

Lemma is_in_crash_loop_dpid m : returns (fun '(m', _) => dpid m' = dpid m) (is_in_crash_loop m).
Proof. by intros now. Qed.

Lemma check_and_prepare_lively lp64 work n m :
  lively n false [dpid m] (fun r => dpid (fst r)) (check_and_prepare_injection lp64 work m).
Proof.
  unfold check_and_prepare_injection, is_in_crash_loop.
  apply (lively_bind _ _ _ (fun r => dpid (fst r))).
  { aside_call. apply lively_ret. left. by left. }
  intros [m1 looping]. cbn [fst].
  assert (forall m1 reason, lively n false [dpid m1] (fun r => dpid (fst r))
    (m <- request_stop (abi_name lp64) reason m1 ;; Ret (m, @None string))) as Hstop.
  { intros m2 reason. eapply lively_bind; [apply request_stop_lively; left; by left|].
    intros m3. apply lively_ret. left. by left. }
  destruct looping; [apply Hstop|].
  eapply lively_bind; [apply ensure_daemon_lively|]. intros [[m2 running] started]. cbn [fst].
  destruct running; [apply lively_ret; left; by left|apply Hstop].
Qed.

(** Runs that a forked child never leaves. *)
Definition parts {A} (p : prog sys A) : Prop :=
  every_run p (fun tr r => match r with Stop _ => forked 0 tr | Val _ => True end).

Lemma fork_dont_care_parts : parts fork_dont_care.
Proof.
  intros pid. cbn. destruct (Z.ltb_spec pid 0); [done|]. destruct (Z.ltb_spec 0 pid); [by intros|].
  assert (pid = 0) as -> by lia. intros q. cbn. destruct (q <? 0); [by left|].
  destruct (0 <? q); [by left|done].
Qed.
Lemma fork_dont_care_zero :
  every_run fork_dont_care (on_return (fun tr p => p = 0 -> forked 0 tr)).
Proof.
  intros pid. cbn. destruct (Z.ltb_spec pid 0); [done|]. destruct (Z.ltb_spec 0 pid).
  { intros x. cbn. lia. }
  assert (pid = 0) as -> by lia. intros q. cbn. destruct (q <? 0); [done|].
  destruct (0 <? q); [done|]. intros _. by left.
Qed.
Lemma fork_dont_care_aside : emits aside fork_dont_care.
Proof.
  intros pid. cbn. destruct (pid <? 0); [done|]. destruct (Z.ltb_spec 0 pid).
  { intros x. cbn. assert ((pid =? -1) = false) as -> by (apply Z.eqb_neq; lia). done. }
  intros q. cbn. by destruct (q <? 0), (0 <? q).
Qed.

Lemma hand_over_aside pid tracer : pid <> -1 -> emits aside (hand_over pid tracer).
Proof.
  intros Hp. apply Z.eqb_neq in Hp. pose proof fork_dont_care_aside.
  assert (emits aside (call (Waitpid pid WALL))) by (apply emits_call; cbn; by rewrite Hp).
  unfold hand_over, execl. emits_tac; auto.
Qed.
Lemma hand_over_parts pid tracer : parts (hand_over pid tracer).
Proof.
  step. intros k. step. intros c. step. intros [p status].
  destruct (stopped_with status SIGSTOP 0); [|done].
  step. intros d. eapply every_run_seq.
  { apply every_run_and; [exact fork_dont_care_parts|exact fork_dont_care_zero]. }
  { intros tr h [H _]. cbn. unfold forked in *. cbn. tauto. }
  intros tr p' [_ Hz]. cbn in Hz. destruct (Z.eqb_spec p' 0) as [->|].
  - assert (forall t, forked 0 (tr ++ t)) as F.
    { intros t. apply in_app_iff. left. by apply Hz. }
    intros [|]; [|intros r]; do 4 right; apply F.
  - destruct (p' =? -1); [by intros r|done].
Qed.

Lemma handleExecEvent_lively lp64 work n pid status m :
  pid <> -1 ->
  lively n false [dpid m] (fun r => dpid (fst (fst r))) (handleExecEvent lp64 work pid status m).
Proof.
  intros Hp. unfold handleExecEvent.
  apply lively_skip; [unfold get_program; emits_tac|by intros x|]. intros program.
  apply (lively_bind _ _ _ (fun r => dpid (fst (fst r)))).
  - destruct (contains program _).
    { do 2 aside_call. apply lively_ret. left. by left. }
    destruct (negb (bool_decide _)); [apply lively_ret; left; by left|].
    destruct (negb (String.eqb _ _)); [apply lively_ret; left; by left|].
    eapply lively_bind; [apply check_and_prepare_lively|]. intros [m1 [tracer|]]; cbn [fst].
    2: { apply lively_ret. left. by left. }
    apply lively_skip; [by apply hand_over_aside|apply hand_over_parts|].
    intros [status' handled]. apply lively_ret. left. by left.
  - intros [[m1 status'] handled]. aside_call. apply lively_ret. left. by left.
Qed.

Lemma handleTracedProcess_lively lp64 work n pid status m :
  pid <> -1 -> lively n false [dpid m] dpid (handleTracedProcess lp64 work pid status m).
Proof.
  intros Hp. unfold handleTracedProcess.
  apply (lively_bind _ _ _ (fun r => dpid (fst (fst r)))).
  - destruct (stopped_with status SIGTRAP PTRACE_EVENT_EXEC); [by apply handleExecEvent_lively|].
    destruct (stopped_with _ _ _); [do 2 aside_call|]; apply lively_ret; left; by left.
  - intros [[m1 status'] kept]. cbn [fst]. destruct kept.
    { apply lively_ret. left. left. by destruct (stopped_with _ _ _). }
    destruct (WIFSTOPPED status'); [aside_call|]; apply lively_ret; left; by left.
Qed.

Lemma handleParentEvent_lively n pid status m :
  lively n false [dpid m] dpid (handleParentEvent pid status m).
Proof.
  assert (lively n false [dpid m] dpid (resume_parent pid status m)).
  { unfold resume_parent. destruct (WIFSTOPPED status); [aside_call|]; apply lively_ret; left; by left. }
  unfold handleParentEvent. destruct (stopped_with _ _ _); [by aside_call|].
  destruct (_ && _ && _); [aside_call; apply lively_ret; left; by left|].
  destruct (_ && _); [apply lively_ret; left; by left|done].
Qed.

Lemma handleChildEvent_lively lp64 work n pid status m :
  pid <> -1 -> lively n false [dpid m] dpid (handleChildEvent lp64 work pid status m).
Proof.
  intros Hp. unfold handleChildEvent.
  destruct (_ || _); [apply handleParentEvent_lively|].
  apply (lively_bind _ _ _ (fun r => dpid (fst r))).
  { unfold handle_daemon_exit_if_match. destruct (_ && _).
    - aside_call. apply lively_ret. right. unfold dpid. cbn. by case_match.
    - apply lively_ret. left. by left. }
  intros [m1 matched]. cbn [fst]. destruct matched; [apply lively_ret; left; by left|].
  destruct (bool_decide _); [by apply handleTracedProcess_lively|].
  unfold handleNewProcess. do 2 aside_call. apply lively_ret. left. by left.
Qed.

Lemma request_stop_aside abi reason m : emits aside (request_stop abi reason m).
Proof. unfold request_stop, update_status. emits_tac. Qed.
#[local] Hint Resolve request_stop_aside : neo.

Lemma handleChildEvent_aside lp64 work pid status m :
  pid <> -1 -> emits aside (handleChildEvent lp64 work pid status m).
Proof.
  intros Hp. pose proof (fun t => hand_over_aside pid t Hp).
  unfold handleChildEvent, handleParentEvent, resume_parent, handle_daemon_exit_if_match,
    handleTracedProcess, handleExecEvent, handleNewProcess, get_program, update_status,
    check_and_prepare_injection, is_in_crash_loop, ensure_daemon_created, execl.
  emits_tac; auto.
Qed.

(** ** The handlers *)

Lemma served_news D ev tr pid status :
  forallb aside tr = true -> news ev = Some (pid, status) ->
  (WIFSTOPPED status = true -> ~ In pid D -> existsb (is_resume pid) tr = true) ->
  served D (ev :: tr).
Proof.
  intros Ha Hn Hr before ev' after pid' status' E Hn' Hs Ho.
  destruct before as [|x before]; cbn in E; injection E as -> ->.
  - rewrite Hn in Hn'. injection Hn' as -> ->. apply Hr; [done|]. unfold own in Ho. tauto.
  - exfalso. rewrite forallb_app in Ha. cbn in Ha. apply andb_prop in Ha as [_ [Ha _]%andb_prop].
    apply aside_facts in Ha as [Ha _]. congruence.
Qed.

Lemma aside_not_busy ev : aside ev = true -> busy ev = false.
Proof.
  intros H. destruct (aside_facts ev H) as [Hn _]. destruct ev as [X e x].
  unfold busy. rewrite Hn. by destruct e.
Qed.
Lemma count_busy_aside tr : forallb aside tr = true -> count busy tr = 0%nat.
Proof.
  induction tr as [|ev tr IH]; [done|]. intros [H Ht]%andb_prop.
  rewrite count_cons, aside_not_busy, IH by done. done.
Qed.

(** One child's news, handled; then the rest. *)
Lemma lively_child lp64 work n b m ev pid status (k : AppMonitor -> prog sys AppMonitor) :
  news ev = Some (pid, status) -> busy ev = true -> owe b ev = b ->
  (forall m', lively n b [dpid m'] dpid (k m')) ->
  every_run (bind (handleChildEvent lp64 work pid status m) k) (fun tr r =>
    sleeps_at_rest b [dpid m] (ev :: tr) /\ ends_well (S n) b [dpid m] dpid (ev :: tr) r).
Proof.
  intros Hn Hbusy Hb Hk. pose proof (news_positive ev pid status Hn) as Hp.
  assert (forall tr, forallb aside tr = true -> sleeps_at_rest b [dpid m] (ev :: tr)) as Hz.
  { intros tr Ha before epfd ready after E.
    destruct before as [|x before]; cbn in E; injection E as -> ->; [done|].
    exfalso. rewrite forallb_app in Ha. cbn in Ha. by rewrite andb_false_r in Ha. }
  eapply every_run_seq.
  - apply every_run_and; [apply (handleChildEvent_aside lp64 work pid status m); lia|].
    apply every_run_and; [apply (handleChildEvent_lively lp64 work 1 pid status m); lia|].
    instantiate (1 := on_return (fun tr _ => WIFSTOPPED status = true -> ~ In pid [dpid m] ->
      existsb (is_resume pid) tr = true)).
    destruct (WIFSTOPPED status) eqn:Hs; [|by apply every_run_trivial; intros ? []].
    destruct (Z.eqb_spec pid (dpid m)) as [->|Hd].
    { apply every_run_trivial. intros ? []; [|done]. cbn. intuition. }
    eapply every_run_mono; [|apply (handleChildEvent_resumes lp64 work pid status m Hs)].
    + intros tr []; cbn; auto.
    + apply andb_false_intro2, Z.eqb_neq. exact Hd.
  - intros tr h (Ha & [_ He] & _). split; [by apply Hz|]. cbn in *.
    rewrite count_busy_aside in He by done. unfold forked in *. cbn. destruct He as [[_ ?]|He]; [lia|tauto].
  - intros tr m' (Ha & [_ [_ Hd]] & Hr). cbn [on_return] in Hr.
    apply (lively_after n (S n) b b [dpid m] [dpid m'] dpid (ev :: tr)); auto.
    + by eapply served_news.
    + cbn. rewrite Hb. by apply aside_owing.
    + apply links_daemon. destruct Hd as [[Hd|Hd]|Hd]; [left; by left|left; by right; right|by right].
    + rewrite count_cons, Hbusy. lia.
Qed.

Lemma served_none D ev : news ev = None -> served D [ev].
Proof.
  intros Hn before ev' after pid status E Hn'.
  destruct before as [|x [|]]; cbn in E; [injection E as -> ->; congruence|done..].
Qed.
Lemma sleeps_one b D (ev : event sys) :
  (match ev with Ev (EpollWait _) _ => b = false | _ => True end) -> sleeps_at_rest b D [ev].
Proof.
  intros H before epfd ready after E.
  destruct before as [|x [|]]; cbn in E; [injection E as -> <-|done..].
  split; [|exact H]. intros before. by destruct before.
Qed.

Lemma reap_lively lp64 work fuel b m : lively fuel b [dpid m] dpid (reap lp64 work fuel m).
Proof.
  revert m. induction fuel as [|fuel IH]; intros m.
  { split; [by apply aside_sleeps|]. left. split; [done|lia]. }
  cbn [reap]. apply every_run_step. intros [pid status]. destruct (Z.ltb_spec 0 pid).
  - apply lively_child.
    + cbn. destruct (Z.ltb_spec 0 pid); [done|lia].
    + cbn. destruct (Z.ltb_spec 0 pid); [done|lia].
    + cbn. destruct (Z.leb_spec pid 0); [lia|done].
    + exact IH.
  - assert (lively (S fuel) false [dpid m] dpid
              (if pid =? -1 then call Errno ;;; Ret m else Ret m)) as Hrest.
    { destruct (pid =? -1); [aside_call|]; apply lively_ret; left; by left. }
    assert (news (Ev (Waitpid (-1) (Z.lor WALL WNOHANG)) (pid, status)) = None) as Hn.
    { cbn. destruct (Z.ltb_spec 0 pid); [lia|done]. }
    revert Hrest. apply (lively_after (S fuel) (S fuel) b false [dpid m] [dpid m] dpid [_]).
    + by apply served_none.
    + cbn. destruct (Z.leb_spec pid 0); [done|lia].
    + by apply sleeps_one.
    + apply links_refl.
    + lia.
Qed.

Lemma signal_events_lively lp64 work fuel fd m :
  lively fuel false [dpid m] dpid (signal_events lp64 work fuel fd m).
Proof.
  revert m. induction fuel as [|fuel IH]; intros m.
  { split; [by apply aside_sleeps|]. left. split; [done|lia]. }
  cbn [signal_events]. apply every_run_step. intros got.
  apply (lively_after fuel (S fuel) false (owe false (Ev (SigFdRead fd) got)) [dpid m] [dpid m] dpid [_]).
  - by apply served_none.
  - done.
  - by apply sleeps_one.
  - apply links_refl.
  - rewrite count_cons. cbn. lia.
  - destruct got as [[|]|]; cbn [owe].
    + eapply lively_bind; [apply reap_lively|]. intros m'. apply IH.
    + apply IH.
    + apply lively_call; [done|]. intros errno.
      destruct (errno =? EAGAIN); [apply lively_ret; left; by left|apply IH].
Qed.

(** The other socket: a rearm may start the daemon and wait for injectors of its own. *)
Lemma wait_polls_aside n pid : pid <> -1 -> emits aside (wait_polls n pid).
Proof.
  intros Hp. apply Z.eqb_neq in Hp. induction n as [|n IH]; [apply emits_ret|]. cbn [wait_polls].
  assert (emits aside (call (Waitpid pid (Z.lor WNOHANG WALL)))) by (apply emits_call; cbn; by rewrite Hp).
  emits_tac; auto.
Qed.

Lemma attach_running_lively n pid flag m :
  lively n false [dpid m] (fun r => dpid (fst r)) (attach_running pid flag m).
Proof.
  unfold attach_running. apply lively_fork; [unfold execl; emits_tac|by intros []|].
  intros child Hc. destruct (Z.eqb_spec child (-1)) as [|Hm]; [apply lively_ret; left; right; by left|].
  destruct (Z.eqb_spec child 0); [done|].
  apply lively_skip; [by apply wait_polls_aside| |].
  { eapply every_run_mono; [|apply wait_polls_bound]. by intros tr [a|h] [_ H]. }
  intros status.
  destruct (status =? -1), (negb (WIFEXITED status)), (WEXITSTATUS status =? TRACE_HOOKED);
    apply lively_ret; left; right; by left.
Qed.

Lemma fold_prog_lively {A S} n (f : S -> Z) (l : list A) (body : S -> A -> prog sys S) :
  (forall s x, lively n false [f s] f (body s x)) ->
  forall s, lively n false [f s] f (fold_prog l s body).
Proof.
  intros H. induction l as [|x l IH]; intros s; [apply lively_ret; left; by left|].
  eapply lively_bind; [apply H|apply IH].
Qed.

(** Looking at /proc in between. *)
Lemma only_reads_link path size : every_run (call (ReadLink path size)) only_reads.
Proof. intros x. split; [by repeat constructor|by exists x]. Qed.
Lemma only_reads_dir path : every_run (call (ListDir path)) only_reads.
Proof. intros x. split; [by repeat constructor|by exists x]. Qed.

Ltac reads :=
  repeat first
    [ apply only_reads_ret | apply only_reads_file | apply only_reads_link | apply only_reads_dir
    | solve [auto] | apply only_reads_bind; [|intros]
    | match goal with |- every_run (match ?x with _ => _ end) _ => destruct x end ].

Lemma has_library_mapped_reads w pid lib : every_run (has_library_mapped w pid lib) only_reads.
Proof. unfold has_library_mapped, Scan_maps. reads. Qed.
Lemma find_processes_in_reads exe names : every_run (find_processes_in exe names) only_reads.
Proof.
  induction names as [|name names IH]; [reads|]. cbn [find_processes_in]. reads.
Qed.
Lemma find_processes_by_exe_reads exe : every_run (find_processes_by_exe exe) only_reads.
Proof. pose proof (find_processes_in_reads exe). unfold find_processes_by_exe. reads. Qed.
Lemma sort_targets_reads pids zs ss : every_run (sort_targets pids zs ss) only_reads.
Proof.
  revert zs ss. induction pids as [|pid pids IH]; intros zs ss; [reads|]. cbn [sort_targets].
  unfold get_ppid, status_int, has_zygote_cmdline, read_cmdline, get_comm. reads.
Qed.

Lemma lively_reads {A B} n b D (g : B -> Z) (p : prog sys A) (k : A -> prog sys B) :
  every_run p only_reads -> (forall a, lively n b D g (k a)) -> lively n b D g (bind p k).
Proof.
  intros H. apply lively_skip; revert H; apply every_run_mono.
  - intros tr r [H _]. induction H as [|ev tr H _ IH]; [done|]. cbn. rewrite IH.
    destruct ev as [X e x]. by destruct e.
  - intros tr [a|h] [_ [x H]]; done.
Qed.

Lemma rearm_zygote_lively lp64 n ms pid :
  lively n false [dpid (fst ms)] (fun r => dpid (fst r)) (rearm_zygote lp64 ms pid).
Proof.
  destruct ms as [m s]. cbn [rearm_zygote fst].
  apply lively_reads; [apply injection_in_flight_reads|].
  intros [|]; [apply lively_ret; left; by left|].
  apply lively_reads; [apply has_library_mapped_reads|]. intros [|]; cbn [negb].
  { destruct (bool_decide _); apply lively_ret; left; by left. }
  eapply lively_bind; [apply attach_running_lively|]. intros [m1 armed]. cbn [fst].
  apply lively_ret. left. by left.
Qed.

Lemma rearm_lively lp64 work n ignore m :
  lively n false [dpid m] (fun r => dpid (fst r)) (rearm lp64 work ignore m).
Proof.
  unfold rearm. apply lively_reads; [apply find_processes_by_exe_reads|]. intros pids.
  apply lively_reads; [apply sort_targets_reads|]. intros [[|z zs] ss].
  { apply lively_ret. left. by left. }
  eapply lively_bind; [apply (ensure_daemon_lively n work (on_zygote (on_status set_supported) m))|].
  intros [[m1 running] started]. cbn [fst].
  destruct running; [|apply lively_ret; left; by left].
  apply lively_skip; [emits_tac|by destruct (_ || _); [intros x|]|]. intros _.
  eapply lively_bind; [apply (fold_prog_lively n (fun r => dpid (fst r))), rearm_zygote_lively|].
  intros [m2 s]. cbn [fst]. set (m3 := on_zygote (on_status _) m2). change (dpid m2) with (dpid m3).
  apply (lively_bind _ _ _ (fun r => dpid (fst r))).
  { destruct (ss =? -1); [apply lively_ret; left; by left|].
    destruct (armed_any s); [|apply lively_ret; left; by left].
    eapply lively_bind; [apply attach_running_lively|]. intros [m4 ok].
    apply lively_ret. left. by left. }
  intros [m4 needs]. aside_call. apply lively_ret. left. by left.
Qed.

Lemma request_start_lively n abi m :
  lively n false [dpid m] dpid (request_start abi m).
Proof.
  unfold request_start. apply (lively_bind _ _ _ dpid).
  - destruct (tracing_state_ m); try (aside_call); apply lively_ret; left; by left.
  - intros m1. aside_call. apply lively_ret. left. by left.
Qed.

Lemma payload_lively n D len data (k : string -> prog sys AppMonitor) :
  (forall s, lively n false D dpid (k s)) ->
  lively n false D dpid (bind (payload_view len data) k).
Proof. intros H. unfold payload_view. destruct (len <? 0); [apply lively_undefined|apply H]. Qed.

Lemma dispatch_lively lp64 work n fd peer buf m :
  lively n false [dpid m] dpid (dispatch lp64 work fd peer buf m).
Proof.
  unfold dispatch. destruct (msg_cmd buf) as [[]|].
  - apply request_start_lively.
  - apply request_stop_lively. left. by left.
  - unfold request_exit. aside_call. apply lively_ret. left. by left.
  - aside_call. apply lively_ret. left. left. unfold notify_injected. cbn. by destruct (0 <? _).
  - apply payload_lively. intros s. aside_call. apply lively_ret. left. by left.
  - apply payload_lively. intros s. aside_call. apply lively_ret. left. by left.
  - apply lively_ret. left. by left.
  - apply (lively_bind _ _ _ (fun r => dpid (fst r))).
    2: { intros [m1 result]. unfold answer. destruct (snd peer <=? 2); [|aside_call];
         apply lively_ret; left; by left. }
    unfold request_rearm. apply (lively_bind _ _ _ dpid).
    { destruct (bool_decide _); [apply lively_ret; left; by left|apply request_start_lively]. }
    intros m1. eapply lively_bind; [apply rearm_lively|]. intros [m2 result]. cbn [fst].
    destruct (bool_decide _).
    + eapply lively_bind; [apply request_stop_lively; left; by left|].
      intros m3. apply lively_ret. left. by left.
    + aside_call. apply lively_ret. left. by left.
  - apply lively_ret. left. by left.
Qed.

Lemma lively_le {A} n n' b D (f : A -> Z) (p : prog sys A) :
  (n <= n')%nat -> lively n' b D f p -> lively n b D f p.
Proof.
  intros Hn. apply every_run_mono. intros tr [a|h] [Hs He]; (split; [exact Hs|]); [exact He|].
  cbn in *. intuition lia.
Qed.

(** One wait, which pays for a unit of fuel. *)
Lemma lively_busy {X B} n D (g : B -> Z) (e : sys X) (k : X -> prog sys B) :
  (forall x, news (Ev e x) = None /\ busy (Ev e x) = true /\ owe false (Ev e x) = false) ->
  (forall x, lively n false D g (k x)) -> lively (S n) false D g (Vis e k).
Proof.
  intros He Hk x. destruct (He x) as (Hn & Hb & Ho).
  apply (lively_after n (S n) false false D D g [Ev e x]); auto.
  - by apply served_none.
  - apply sleeps_one. by destruct e.
  - apply links_refl.
  - rewrite count_cons, Hb. cbn. lia.
Qed.

Definition second (bm : list Z * AppMonitor) : Z := dpid (snd bm).

Lemma socket_events_lively lp64 work fuel fd bm :
  lively fuel false [second bm] second (socket_events lp64 work fuel fd bm).
Proof.
  revert bm. induction fuel as [|fuel IH]; intros [buf m].
  { split; [by apply aside_sleeps|]. left. split; [done|lia]. }
  apply lively_busy; [done|]. intros [nread bytes].
  apply (lively_bind _ _ _ (fun r => second (fst r))).
  2: { intros [[buf' m'] [|]]; [apply IH|apply lively_ret; left; by left]. }
  assert (forall buf' go, lively fuel false [second (buf, m)] (fun r => second (fst r))
    (Ret (buf', m, go : bool))) as Hret by (intros; apply lively_ret; left; by left).
  cbn [bind]. destruct (nread =? -1); [aside_call; apply Hret|].
  destruct (message_size lp64 nread (overwrite (firstn 8 bytes) (resize 8 buf))) as [size|]; [|apply lively_call; [done|intros []; apply Hret]].
  destruct (size <? 0); [apply lively_undefined|].
  apply lively_call; [done|]. intros [[nread' bytes'] peer].
  destruct (nread' =? -1); [apply Hret|]. destruct (negb (nread' =? size)); [apply Hret|].
  eapply lively_bind; [apply dispatch_lively|]. intros m'. apply lively_ret. left. by left.
Qed.

Lemma handle_ready_lively lp64 work fuel sig_fd sock_fd fds bm :
  lively fuel false [second bm] second (handle_ready lp64 work fuel sig_fd sock_fd fds bm).
Proof.
  revert bm. induction fds as [|fd fds IH]; intros [buf m]; [apply lively_ret; left; by left|].
  cbn [handle_ready]. apply (lively_bind _ _ _ second).
  - destruct (fd =? sig_fd); [|apply socket_events_lively].
    eapply lively_bind; [apply signal_events_lively|]. intros m'. apply lively_ret. left. by left.
  - intros [buf' m']. destruct (running_ m'); [apply IH|apply lively_ret; left; by left].
Qed.

Lemma Loop_rounds_lively lp64 work fuel epfd sig_fd sock_fd bm :
  lively fuel false [second bm] second (Loop_rounds lp64 work fuel epfd sig_fd sock_fd bm).
Proof.
  revert bm. induction fuel as [|fuel IH]; intros bm.
  { split; [by apply aside_sleeps|]. left. split; [done|lia]. }
  cbn [Loop_rounds]. destruct (running_ (snd bm)); [|apply lively_ret; left; by left].
  apply lively_busy; [done|]. intros [fds|]; [|aside_call; apply IH].
  apply (lively_bind _ _ _ second).
  - apply (lively_le _ (S fuel)); [lia|]. apply handle_ready_lively.
  - apply IH.
Qed.

(** C4: no child is left stopped, and the monitor keeps going. Whatever the kernel, the clients
    and the children answer: each time the loop goes to sleep, and when it returns, every stop
    the wait queue reported for a child has been followed by a call that resumes or detaches
    that child (the processes the monitor forked itself and its daemon, which it does not
    trace, excepted), and no SIGCHLD has been taken without the wait queue having been emptied
    since. A run ends otherwise only in a forked child that does not come back, on a datagram
    the code has no defined behaviour for, or when its fuel is used up, which takes that many
    waits, reads and reaped children. *)
Theorem no_child_left_stopped lp64 work fuel epfd sig_fd sock_fd m :
  every_run (Loop lp64 work fuel epfd sig_fd sock_fd m) (fun tr r =>
    let D := [daemon_pid (status_of m)] in
    (forall before ep ready after, tr = before ++ Ev (EpollWait ep) ready :: after ->
       served D before /\ owing false before = false) /\
    match r with
    | Val _ => served D tr /\ owing false tr = false
    | Stop NoFuel => (fuel <= count busy tr)%nat \/ forked 0 tr
    | Stop (Undefined _) => True
    | Stop _ => forked 0 tr
    end).
Proof.
  eapply every_run_mono; [|apply (Loop_rounds_lively lp64 work fuel epfd sig_fd sock_fd)].
  intros tr r [Hs He]. split; [exact Hs|]. destruct r as [bm|h]; [by destruct He|].
  destruct h; try done; destruct He as [[? ?]|[?|[what ?]]]; auto; done.
Qed.

(** ** Example: one signal, two children *)

(** Two stopped children are waiting when the first signal is read; after that the loop only
    sleeps, until its fuel is used up. *)
Definition nursery (n : nat) (X : Type) (e : sys X) : X :=
  match e in sys X return X with
  | EpollWait _ => if Nat.eqb n 0 then Some [3] else None
  | SigFdRead _ => if Nat.eqb n 1 then Some true else None
  | Errno => EAGAIN
  | Waitpid p _ =>
      if negb (p =? -1) then (p, stop_status SIGSTOP 0)
      else if Nat.eqb n 2 then (42, stop_status SIGSTOP 0)
      else if Nat.eqb n 5 then (43, stop_status SIGTRAP PTRACE_EVENT_STOP)
      else (0, 0)
  | e => idle _ e
  end.
Definition nursery_run : list (event sys) * res (list Z * AppMonitor) :=
  run nursery 0 (Loop true "/w" 6 5 3 4 fresh_monitor).
Example nursery_served :
  omap news nursery_run.1 =
    [(42, stop_status SIGSTOP 0); (43, stop_status SIGTRAP PTRACE_EVENT_STOP)] /\
  count (is_resume 42) nursery_run.1 = 1%nat /\ count (is_resume 43) nursery_run.1 = 1%nat /\
  snd nursery_run = Stop NoFuel.
Proof. vm_compute. auto. Qed.
