(* ===== verification/Control.v ===== *)
(** * Talking to the running monitor

    ptracer/main.cpp: the client's end of the control socket, and the start of a monitor. *)
From Stdlib Require Import ZArith Lia List String Ascii Bool.
From stdpp Require Import base list strings gmap.
From S2P Require Import Prelude.
From S2P Require Import Scan.
From S2P Require Import Sys.
From S2P Require Import ProcFs.
From S2P Require Import Remote.
From S2P Require Import MonState.
From S2P Require Import ZygoteAbi.
From S2P Require Import Monitor.
Open Scope string_scope.
Open Scope list_scope.
Open Scope Z_scope.

Definition kSendRetries : nat := 10.
Definition kSendRetryDelayUs : Z := 200 * 1000.
Definition kAnswerTimeoutSec : Z := 30.

Section Control.
Variable lp64 : bool.
Variable work : string.

Definition control_socket_addr : string := work +:+ "/init_monitor".

Definition monitor_is_running : prog sys bool :=
  sockfd <- call SockOpen ;;
  if sockfd =? -1 then Ret false
  else
    alive <- call (SockConnect sockfd control_socket_addr) ;;
    call (CloseFd sockfd) ;;; Ret alive.

Definition init_monitor (fuel : nat) : prog sys unit :=
  running <- monitor_is_running ;;
  if running : bool then Ret tt
  else
    m <- new_monitor lp64 ;;
    let* (m, ready) := prepare_environment (abi_name lp64) work m in
    if negb ready then Halt (Exited 1)
    else
      let* (fds, _) := run_monitor lp64 work fuel m in
      destroy_monitor fds.

(** [left] attempts remain; every one but the first waits beforehand. *)
Fixpoint send_attempts (tries : nat) (first : bool) (sockfd : Z) (msg : list Z) : prog sys bool :=
  match tries with
  | O => Ret false
  | S tries =>
      (if first then Ret tt else call (Usleep kSendRetryDelayUs)) ;;;
      nsend <- call (SockSend sockfd control_socket_addr msg) ;;
      if nsend =? Z.of_nat (List.length msg) then Ret true
      else if negb (nsend =? -1) then Ret false
      else
        errno <- call Errno ;;
        if negb (errno =? ENOENT) && negb (errno =? ECONNREFUSED) then Ret false
        else send_attempts tries false sockfd msg
  end.
Definition send_to_monitor (sockfd : Z) (msg : list Z) : prog sys bool :=
  send_attempts kSendRetries true sockfd msg.

Definition send_control_command (cmd : Command) : prog sys bool :=
  sockfd <- call SockOpen ;;
  if sockfd =? -1 then Ret false
  else
    sent <- send_to_monitor sockfd (le_bytes 4 (command_value cmd)) ;;
    call (CloseFd sockfd) ;;; Ret sent.

(** One byte of payload, so the monitor applies the flag to this rearm and no other. *)
Definition rearm_message (ignore_disable : bool) : list Z :=
  le_bytes 4 (command_value REARM) ++ le_bytes 4 1 ++ [if ignore_disable then 1 else 0].

Definition results : list RearmResult :=
  [Failed; NoZygote; ResInjected; AlreadyHooked; Injecting; ResNeedsRestart].
Definition result_of (byte : Z) : option RearmResult :=
  List.find (fun r => result_value r =? byte) results.

Definition send_rearm_command (ignore_disable : bool) : prog sys RearmResult :=
  sockfd <- call SockOpen ;;
  if sockfd =? -1 then Ret Failed
  else
    bound <- call (SockBindAuto sockfd) ;;
    result <-
      (if negb bound then Ret Failed
       else
         timed <- call (SockTimeout sockfd kAnswerTimeoutSec) ;;
         if negb timed then Ret Failed
         else
           sent <- send_to_monitor sockfd (rearm_message ignore_disable) ;;
           if negb sent then Ret Failed
           else
             let* (nread, bytes) := call (SockRecv sockfd 1) in
             match nread =? 1, result_of (nth 0 bytes 0) with
             | true, Some result => Ret result
             | _, _ => Ret Failed
             end) ;;
    call (CloseFd sockfd) ;;; Ret result.

End Control.

(** ** Facts *)

Lemma message_rearm lp64 buf ignore_disable :
  let msg := rearm_message ignore_disable in
  message_size lp64 (Z.of_nat (List.length msg)) (overwrite (firstn 8 msg) buf)
    = Some (Z.of_nat (List.length msg)).
Proof. by destruct lp64, ignore_disable. Qed.
Lemma dispatch_rearm lp64 work fd peer buf m ignore_disable :
  dispatch lp64 work fd peer (overwrite (rearm_message ignore_disable) buf) m
    = (let* (m, result) := request_rearm lp64 work ignore_disable m in
       answer fd peer result ;;; Ret m).
Proof. by destruct ignore_disable. Qed.
Lemma known_result_of_value result : result_of (result_value result) = Some result.
Proof. by destruct result. Qed.

(** A message that was sent went out whole. *)
Lemma send_attempts_sent work tries first sockfd msg :
  every_run (send_attempts work tries first sockfd msg) (on_return (fun tr sent => sent = true ->
    In (Ev (SockSend sockfd (control_socket_addr work) msg) (Z.of_nat (List.length msg))) tr)).
Proof.
  revert first. induction tries as [|tries IH]; intros first; [done|]. cbn [send_attempts].
  apply every_run_suffix.
  { intros tr tr' sent H Hs. apply in_or_app. right. by apply H. }
  intros _. step. intros nsend.
  destruct (Z.eqb_spec nsend (Z.of_nat (List.length msg))) as [->|]; [intros _; by left|].
  destruct (negb (nsend =? -1)); [done|]. step. intros errno.
  destruct (_ && _); [done|].
  eapply every_run_mono; [|apply (IH false)]. intros tr [sent|h]; [|done]. intros H Hs.
  right. right. by apply H.
Qed.

(** The client's verdict is the byte it received, for a request it sent. *)
Lemma send_rearm_heard work ignore_disable :
  every_run (send_rearm_command work ignore_disable) (on_return (fun tr result =>
    result <> Failed -> exists sockfd bytes,
      In (Ev (SockSend sockfd (control_socket_addr work) (rearm_message ignore_disable)) 9) tr /\
      In (Ev (SockRecv sockfd 1) (1, bytes)) tr /\ result_of (nth 0 bytes 0) = Some result)).
Proof.
  unfold send_rearm_command. step. intros sockfd. destruct (sockfd =? -1); [by intros []|].
  step. intros bound. apply every_run_bind. destruct bound; cbn [negb]; [|by intros [] []].
  step. intros timed. destruct timed; cbn [negb]; [|by intros [] []].
  eapply every_run_seq; [apply send_attempts_sent|done|]. intros tr sent Hsent.
  destruct sent; cbn [negb]; [|by intros [] []]. step. intros [nread bytes].
  destruct (Z.eqb_spec nread 1) as [->|]; [|by intros [] []].
  destruct (result_of (nth 0 bytes 0)) as [result|] eqn:E; [|by intros [] []].
  intros [] _. exists sockfd, bytes. specialize (Hsent eq_refl).
  replace (Z.of_nat _) with 9 in Hsent by (by destruct ignore_disable).
  split; [|split; [|done]]; do 3 right; apply in_or_app; left; apply in_or_app; [by left|].
  right. by left.
Qed.

(** What the kernel handed over at a datagram's two reads. *)
Definition peeked (ev : event sys) : option (Z * list Z) :=
  match ev with
  | Ev e x => match e in sys X return X -> option (Z * list Z) with
              | SockPeek _ _ => Some | _ => fun _ => None
              end x
  end.
Definition received (ev : event sys) : option (Z * list Z * (list Z * Z)) :=
  match ev with
  | Ev e x => match e in sys X return X -> option (Z * list Z * (list Z * Z)) with
              | SockRecvFrom _ _ => Some | _ => fun _ => None
              end x
  end.

(** A round in which the kernel hands over one whole datagram. *)
Lemma socket_round_delivered lp64 work fd buf m msg peer rest r :
  let size := Z.of_nat (List.length msg) in
  (forall buf, message_size lp64 size (overwrite (firstn 8 msg) buf) = Some size) ->
  exec (socket_round lp64 work fd (buf, m))
    (Ev (SockPeek fd sizeof_CtlMessage) (size, firstn 8 msg) ::
     Ev (SockRecvFrom fd size) (size, msg, peer) :: rest) r ->
  exists buf1, exec (m <- dispatch lp64 work fd peer (overwrite msg buf1) m ;;
                     Ret (overwrite msg buf1, m, true)) rest r.
Proof.
  intros size Hsize (x & tr & E & Hx). pose proof (f_equal tl E) as Et. cbn in Et. subst tr.
  apply (f_equal (hd_error ∘ map peeked)) in E. cbn in E. injection E as <-.
  cbn [bind] in Hx. rewrite firstn_firstn in Hx. change (Nat.min 8 8) with 8%nat in Hx.
  destruct (Z.eqb_spec size (-1)); [lia|]. rewrite Hsize in Hx.
  destruct (Z.ltb_spec size 0); [lia|]. destruct Hx as (x & tr & E & Hx).
  pose proof (f_equal tl E) as Et. cbn in Et. subst tr.
  apply (f_equal (hd_error ∘ map received)) in E. cbn in E. injection E as <-.
  cbn [bind] in Hx. destruct (Z.eqb_spec size (-1)); [lia|]. rewrite Z.eqb_refl in Hx.
  cbn [negb] in Hx. unfold size in Hx. rewrite Nat2Z.id, firstn_all in Hx. eauto.
Qed.

(** The monitor's round with a rearm in it. *)
Lemma monitor_round_rearm lp64 work fd buf m ignore_disable peer rest buf' m' more :
  exec (socket_round lp64 work fd (buf, m))
    (Ev (SockPeek fd sizeof_CtlMessage) (9, firstn 8 (rearm_message ignore_disable)) ::
     Ev (SockRecvFrom fd 9) (9, rearm_message ignore_disable, peer) :: rest)
    (Val (buf', m', more)) ->
  2 < snd peer ->
  exists during verdict sent,
    rest = during ++ [Ev (SockAnswer fd (fst peer) (result_value verdict)) sent] /\
    exec (request_rearm lp64 work ignore_disable m) during (Val (m', verdict)).
Proof.
  intros Hx Hp. replace 9 with (Z.of_nat (List.length (rearm_message ignore_disable))) in Hx
    by (by destruct ignore_disable).
  destruct (socket_round_delivered _ _ _ _ _ _ _ _ _ (fun b => message_rearm _ b _) Hx) as (buf1 & Hd).
  rewrite dispatch_rearm in Hd. apply exec_bind_val in Hd as (tr1 & m1 & tr2 & -> & Hd & Hr).
  destruct Hr as [-> [= -> -> ->]]. rewrite app_nil_r.
  apply exec_bind_val in Hd as (during & [m2 verdict] & tr2 & -> & Hq & Hd).
  unfold answer in Hd. destruct (Z.leb_spec (snd peer) 2); [lia|].
  destruct Hd as (sent & tr & -> & [-> [= ->]]). by exists during, verdict, sent.
Qed.

(** C17: a rearm crosses the control socket. When the client comes back with a verdict, it sent
    one whole message and received one byte; and the monitor, in the round in which the kernel
    hands it that message from a sender with a name, performs exactly the rearm that was asked
    for, flag included, and last of all answers with its verdict; so that if that is the byte
    the client received, the client's verdict is the monitor's. *)
Theorem rearm_end_to_end lp64 work ignore_disable trc result :
  exec (send_rearm_command work ignore_disable) trc (Val result) -> result <> Failed ->
  let msg := rearm_message ignore_disable in
  exists sockfd bytes,
    In (Ev (SockSend sockfd (control_socket_addr work) msg) (Z.of_nat (List.length msg))) trc /\
    In (Ev (SockRecv sockfd 1) (1, bytes)) trc /\
    forall fd peer buf m rest buf' m' more,
      exec (socket_round lp64 work fd (buf, m))
        (Ev (SockPeek fd sizeof_CtlMessage) (9, firstn 8 msg) ::
         Ev (SockRecvFrom fd 9) (9, msg, peer) :: rest) (Val (buf', m', more)) ->
      2 < snd peer ->
      exists during verdict sent,
        rest = during ++ [Ev (SockAnswer fd (fst peer) (result_value verdict)) sent] /\
        exec (request_rearm lp64 work ignore_disable m) during (Val (m', verdict)) /\
        (nth 0 bytes 0 = result_value verdict -> result = verdict).
Proof.
  intros Hc Hr msg. pose proof (send_rearm_heard work ignore_disable) as H.
  rewrite every_run_exec in H. destruct (H _ _ Hc Hr) as (sockfd & bytes & Hs & Hb & Hv).
  exists sockfd, bytes.
  split; [by replace (Z.of_nat _) with 9 by (by destruct ignore_disable)|]. split; [done|].
  intros fd peer buf m rest buf' m' more Hx Hp.
  destruct (monitor_round_rearm _ _ _ _ _ _ _ _ _ _ _ Hx Hp) as (during & verdict & sent & -> & He).
  exists during, verdict, sent. split; [done|]. split; [done|].
  intros Eb. rewrite Eb, known_result_of_value in Hv. by injection Hv.
Qed.

Definition sample_exchange : list (event sys) :=
  [Ev SockOpen 5; Ev (SockBindAuto 5) true; Ev (SockTimeout 5 kAnswerTimeoutSec) true;
   Ev (SockSend 5 "/w/init_monitor" (rearm_message true)) 9;
   Ev (SockRecv 5 1) (1, [result_value ResInjected]); Ev (CloseFd 5) tt].
Lemma rearm_end_to_end_witness :
  exists sockfd bytes,
    In (Ev (SockSend sockfd "/w/init_monitor" (rearm_message true)) 9) sample_exchange /\
    In (Ev (SockRecv sockfd 1) (1, bytes)) sample_exchange.
Proof.
  destruct (rearm_end_to_end true "/w" true sample_exchange ResInjected)
    as (sockfd & bytes & Hs & Hr & _).
  - repeat (eexists; eexists; split; [reflexivity|]). split; reflexivity.
  - discriminate.
  - exists sockfd, bytes. split; [exact Hs|exact Hr].
Defined.

(** The time a run spent asleep, in microseconds. *)
Definition sleep_of (ev : event sys) : Z :=
  match ev with Ev (Usleep us) _ => us | Ev (Sleep s) _ => s * 1000000 | _ => 0 end.
Definition slept (tr : list (event sys)) : Z := fold_right (fun ev n => sleep_of ev + n) 0 tr.

Lemma slept_app tr tr' : slept (tr ++ tr') = slept tr + slept tr'.
Proof. unfold slept. induction tr as [|ev tr IH]; [done|]. cbn. rewrite IH. lia. Qed.

Definition sleeps_at_most {A} (n : Z) (p : prog sys A) : Prop :=
  every_run p (fun tr _ => 0 <= slept tr <= n).

Lemma sleeps_bind {A B} n n' (p : prog sys A) (f : A -> prog sys B) :
  0 <= n' -> sleeps_at_most n p -> (forall a, sleeps_at_most n' (f a)) ->
  sleeps_at_most (n + n') (bind p f).
Proof.
  intros Hn Hp Hf. eapply every_run_seq; [exact Hp| |].
  - cbn. intros. lia.
  - intros tr a Htr. eapply every_run_mono; [|apply Hf].
    intros tr' r Htr'. cbn beta in *. rewrite slept_app. lia.
Qed.
Lemma sleeps_bind0 {A B} n (p : prog sys A) (f : A -> prog sys B) :
  0 <= n -> sleeps_at_most 0 p -> (forall a, sleeps_at_most n (f a)) -> sleeps_at_most n (bind p f).
Proof. intros. replace n with (0 + n) by lia. by apply sleeps_bind. Qed.
Lemma sleeps_ret {A} n (a : A) : 0 <= n -> sleeps_at_most n (Ret a).
Proof. intros. cbn. lia. Qed.
Lemma sleeps_halt {A} n h : 0 <= n -> sleeps_at_most (A := A) n (Halt h).
Proof. intros. cbn. lia. Qed.
Lemma sleeps_call {X} n (e : sys X) :
  (forall x, sleep_of (Ev e x) = 0) -> 0 <= n -> sleeps_at_most n (call e).
Proof. intros He Hn x. cbn -[sleep_of]. rewrite He. lia. Qed.
Lemma sleeps_mono {A} n n' (p : prog sys A) : n <= n' -> sleeps_at_most n p -> sleeps_at_most n' p.
Proof. intros H. apply every_run_mono. intros. lia. Qed.

(** A program that never sleeps. *)
Ltac awake :=
  repeat first
    [ apply sleeps_ret; lia | apply sleeps_halt; lia
    | apply sleeps_call; [reflexivity|lia]
    | solve [eauto with neo]
    | apply sleeps_bind0; [lia| |intros]
    | match goal with
      | |- sleeps_at_most _ (if ?b then _ else _) => destruct b
      | |- sleeps_at_most _ (match ?x with _ => _ end) => destruct x
      end ].

Lemma send_attempts_sleeps work (tries : nat) (first : bool) sockfd msg :
  sleeps_at_most (Z.of_nat (if first then pred tries else tries) * kSendRetryDelayUs)
    (send_attempts work tries first sockfd msg).
Proof.
  revert first. induction tries as [|tries IH]; intros first.
  - apply sleeps_ret. unfold kSendRetryDelayUs. lia.
  - cbn [send_attempts].
    replace (Z.of_nat (if first then pred (S tries) else S tries) * kSendRetryDelayUs)
      with ((if first then 0 else kSendRetryDelayUs) + Z.of_nat tries * kSendRetryDelayUs)
      by (unfold kSendRetryDelayUs; destruct first; lia).
    apply sleeps_bind; [unfold kSendRetryDelayUs; lia| |].
    + destruct first; cbn; unfold kSendRetryDelayUs; lia.
    + intros _. assert (0 <= Z.of_nat tries * kSendRetryDelayUs) by (unfold kSendRetryDelayUs; lia).
      pose proof (IH false). awake.
Qed.
