(* ===== verification/Stage.v ===== *)
(** * The boot stages

    ptracer/stage.cpp: what each of the module's shell entry points comes down to. The lines a
    stage prints about itself are left out; what it does to the system is all here. *)
From Stdlib Require Import ZArith Lia List String Ascii Bool.
From stdpp Require Import base list strings gmap.
From S2P Require Import Prelude.
From S2P Require Import Scan.
From S2P Require Import Sys.
From S2P Require Import ProcFs.
From S2P Require Import Remote.
From S2P Require Import MonState.
From S2P Require Import ZygoteAbi.
From S2P Require Import Monitor.
From S2P Require Import Control.
Open Scope string_scope.
Open Scope list_scope.
Open Scope Z_scope.

Inductive Stage := PostFsData | Service | HotInstall | LateLoad.
#[export] Instance Stage_eq_dec : EqDecision Stage.
Proof. solve_decision. Defined.

Record StageOptions := { ignore_disable : bool; permissive : bool; stop : bool }.

Definition AID_SYSTEM : Z := 1000.
Definition kFileContext : string := "u:object_r:system_file:s0".
Definition kSocketContext : string := "u:object_r:zygisk_file:s0".
Definition kEnforcePath : string := "/sys/fs/selinux/enforce".
Definition kContextPath : string := "/sys/fs/selinux/context".

Definition stage_name (s : Stage) : string :=
  match s with
  | PostFsData => "post-fs-data" | Service => "service" | HotInstall => "hotinstall"
  | LateLoad => "late-load"
  end.

Definition parse_stage (name : string) : option Stage :=
  if String.eqb name "post-fs-data" then Some PostFsData
  else if String.eqb name "service" then Some Service
  else if String.eqb name "hotinstall" then Some HotInstall
  else if String.eqb name "late-load" then Some LateLoad
  else None.

(** ** The situation *)

(** [rest.find(':')]: the part before the first colon, and what follows it, if any. *)
Fixpoint split_colon (s : string) : string * option string :=
  match s with
  | EmptyString => ("", None)
  | String c s' =>
      if Ascii.eqb c ":" then ("", Some s')
      else let '(d, r) := split_colon s' in (String c d, r)
  end.

Fixpoint search_path (fuel : nat) (rest name : string) : prog sys bool :=
  match fuel with
  | O => Halt NoFuel
  | S fuel =>
      let '(dir, rest') := split_colon rest in
      found <- (if is_empty dir then Ret false
                else call (AccessOk (dir +:+ "/" +:+ name) true)) ;;
      if found : bool then Ret true
      else match rest' with None => Ret false | Some rest' => search_path fuel rest' name end
  end.

Definition on_path (name : string) : prog sys bool :=
  env <- call (Getenv "PATH") ;;
  let path := match env with Some p => p | None => "/system/bin:/system/xbin" end in
  search_path (S (String.length path)) path name.

Definition caller_fans_out : prog sys bool :=
  ksu <- call (Getenv "KSU") ;;
  match ksu with
  | Some _ => Ret true
  | None =>
      apatch <- call (Getenv "APATCH") ;;
      Ret (match apatch with Some _ => true | None => false end)
  end.

Definition exists_path (path : string) : prog sys bool := call (AccessOk path false).

Definition module_disabled : prog sys bool :=
  dir <- get_module_dir ;; exists_path (dir +:+ "/disable").

(** ** SELinux *)

Definition selinux_enforcing : prog sys bool :=
  fd <- call (OpenRead kEnforcePath) ;;
  if fd =? -1 then Ret false
  else
    let* (n, bytes) := call (ReadFd fd 1) in
    call (CloseFd fd) ;;;
    Ret ((n =? 1) && match bytes with String c _ => Ascii.eqb c "1" | EmptyString => false end).

Definition selinux_knows (context : string) : prog sys bool :=
  fd <- call (OpenWrite kContextPath) ;;
  if fd =? -1 then Ret false
  else
    n <- call (WriteFd fd context) ;;
    call (CloseFd fd) ;;;
    Ret (0 <=? n).

Definition set_permissive : prog sys bool :=
  fd <- call (OpenWrite kEnforcePath) ;;
  if fd =? -1 then Ret false
  else
    n <- call (WriteFd fd "0") ;;
    call (CloseFd fd) ;;;
    Ret (n =? 1).

(** Whether arming is worth attempting at all. *)
Definition check_selinux (permissive : bool) : prog sys bool :=
  enforcing <- selinux_enforcing ;;
  if negb enforcing then Ret true
  else
    trusted <- selinux_knows kFileContext ;;
    if negb trusted then Ret true
    else
      known <- selinux_knows kSocketContext ;;
      if known : bool then Ret true
      else if permissive then set_permissive
      else Ret false.

(** ** The work directory *)

Definition set_sys_perm (path : string) (mode : Z) : prog sys bool :=
  ok <- call (FsOp (Chmod path mode)) ;;
  if negb ok then Ret false
  else
    ok <- call (FsOp (Label path kFileContext)) ;;
    if negb ok then Ret false
    else call (FsOp (Chown path AID_SYSTEM AID_SYSTEM)).

Definition make_sys_dir (path : string) : prog sys bool :=
  ok <- call (FsOp (Mkdir path 0x168)) ;;   (* 0550 *)
  errno <- (if ok : bool then Ret EEXIST else call Errno) ;;
  if negb (errno =? EEXIST) then Ret false else set_sys_perm path 0x168.

(** What is left of one chunk, written piece by piece. *)
Fixpoint write_chunk (fuel : nat) (out : Z) (data : string) : prog sys bool :=
  match fuel with
  | O => Halt NoFuel
  | S fuel =>
      if is_empty data then Ret true
      else
        nwrite <- call (WriteFd out data) ;;
        if nwrite <=? 0 then Ret false
        else write_chunk fuel out (drop_str (Z.to_nat nwrite) data)
  end.

(** Chunks of 64 KiB until the end of the file; [fuel] bounds their number. *)
Fixpoint copy_chunks (fuel : nat) (inp out : Z) : prog sys bool :=
  match fuel with
  | O => Halt NoFuel
  | S fuel =>
      let* (nread, bytes) := call (ReadFd inp 65536) in
      if 0 <? nread then
        let data := String.substring 0 (Z.to_nat nread) bytes in
        ok <- write_chunk (S (String.length data)) out data ;;
        if ok : bool then copy_chunks fuel inp out else Ret false
      else Ret (0 <=? nread)
  end.

(** [copy_to_temp] of ptracer.cpp, which nothing calls: chunks of 4 KiB, each written at once, and
    a failed read taken for the end of the file. *)
Fixpoint copy_whole_chunks (fuel : nat) (inp out : Z) : prog sys bool :=
  match fuel with
  | O => Halt NoFuel
  | S fuel =>
      let* (nread, bytes) := call (ReadFd inp 4096) in
      if 0 <? nread then
        nwrite <- call (WriteFd out (String.substring 0 (Z.to_nat nread) bytes)) ;;
        if negb (nwrite =? nread) then Ret false else copy_whole_chunks fuel inp out
      else Ret true
  end.
Definition copy_to_temp (fuel : nat) (src : string) : prog sys string :=
  let* (out, tmp) := call (Mkstemps "/data/local/tmp/zygisk_XXXXXX.so" 3) in
  if out <? 0 then Ret ""
  else
    inp <- call (OpenRead src) ;;
    if inp <? 0 then
      call (CloseFd out) ;;; call (FsOp (Unlink tmp)) ;;; Ret ""
    else
      copied <- copy_whole_chunks fuel inp out ;;
      call (CloseFd inp) ;;; call (CloseFd out) ;;;
      if negb copied then call (FsOp (Unlink tmp)) ;;; Ret ""
      else call (FsOp (Chmod tmp 0x1ed)) ;;; Ret tmp.   (* 0755 *)

Section Stages.
Variable lp64 : bool.
Variable work : string.
Variable copy_fuel : nat.       (* 64 KiB chunks of the library *)
Variable zygisk_debug : bool.   (* ZYGISK_DEBUG *)

Definition zygote_has_library : prog sys bool :=
  zygotes <- find_zygotes lp64 ;;
  (fix any (pids : list Z) : prog sys bool :=
     match pids with
     | [] => Ret false
     | pid :: pids =>
         mapped <- has_library_mapped (width lp64) pid "libzygisk.so" ;;
         if mapped : bool then Ret true else any pids
     end) zygotes.

Definition copy_file (src dst : string) : prog sys bool :=
  inp <- call (OpenRead src) ;;
  if inp =? -1 then Ret false
  else
    out <- call (OpenCreate dst 0x180) ;;   (* 0600 *)
    if out =? -1 then call (CloseFd inp) ;;; Ret false
    else
      ok <- copy_chunks copy_fuel inp out ;;
      call (CloseFd inp) ;;; call (CloseFd out) ;;; Ret ok.

(** The new inode is complete and labelled before the rename publishes it. *)
Definition install_lib (src dst : string) : prog sys bool :=
  present <- exists_path src ;;
  if negb present then Ret true
  else
    dir_ok <-
      (match last_slash 0 dst None with
       | None => Ret false
       | Some n => make_sys_dir (String.substring 0 n dst)
       end) ;;
    if negb dir_ok then Ret false
    else
      let staged := dst +:+ ".new" in
      copied <- copy_file src staged ;;
      if negb copied then Ret false
      else
        perm <- set_sys_perm staged 0x1a4 ;;   (* 0644 *)
        if negb perm then Ret false else call (FsOp (Rename staged dst)).

Definition stage_work_directory : prog sys bool :=
  made <- make_sys_dir work ;;
  if negb made then Ret false
  else
    m <- get_module_dir ;;
    ok <- install_lib (m +:+ "/lib64/libzygisk.so") (work +:+ "/lib64/libzygisk.so") ;;
    ok' <- install_lib (m +:+ "/lib/libzygisk.so") (work +:+ "/lib/libzygisk.so") ;;
    Ret (ok' && ok).

(** ** Actions *)

Definition detach_stdio : prog sys unit :=
  call Setsid ;;;
  null <- call (OpenWrite "/dev/null") ;;
  if null =? -1 then Ret tt
  else
    call (Dup2 null 0) ;;; call (Dup2 null 1) ;;; call (Dup2 null 2) ;;;
    if 2 <? null then call (CloseFd null) else Ret tt.

Definition run_wait (path name : string) : prog sys Z :=
  pid <- call Fork ;;
  if pid <? 0 then Ret (-1)
  else if pid =? 0 then execl path [name] (Halt (Exited 1))
  else
    let* (_, status) := call (Waitpid pid WALL) in Ret status.

Definition start_monitor : prog sys bool :=
  exe <- call (ReadLink "/proc/self/exe" 4095) ;;
  match exe with
  | None => Ret false
  | Some exe =>
      let exe := c_str exe in
      child <- fork_dont_care ;;
      if child =? -1 then Ret false
      else if child =? 0 then
        detach_stdio ;;;
        (if zygisk_debug then call (SetenvIfUnset "RUST_BACKTRACE" "1") else Ret tt) ;;;
        execl exe [basename exe; "monitor"] (Halt (Exited 1))
      else Ret true
  end.

Fixpoint await_untraced (attempts : nat) : prog sys bool :=
  match attempts with
  | O => Ret false
  | S attempts =>
      tracer <- get_tracer_pid 1 ;;
      if tracer <=? 0 then Ret true
      else call (Usleep (200 * 1000)) ;;; await_untraced attempts
  end.

Definition stop_monitor : prog sys bool :=
  running <- monitor_is_running work ;;
  if negb running then Ret true
  else
    sent <- send_control_command work EXIT ;;
    if negb sent then Ret false else await_untraced 50.

Definition restart_zygote : prog sys unit :=
  p <- fork_dont_care ;;
  if p =? 0 then
    detach_stdio ;;;
    run_wait "/system/bin/stop" "stop" ;;;
    execl "/system/bin/start" ["start"] (Halt (Exited 1))
  else Ret tt.

(** One entry of the modules directory. *)
Definition fan_out_one (modules script : string) (async ignore_disable : bool)
    (name : string) : prog sys unit :=
  if starts_with name "." then Ret tt
  else
    let module := modules +:+ "/" +:+ name in
    zygisk <- call (IsDir (module +:+ "/zygisk")) ;;
    if negb zygisk then Ret tt
    else
      disabled <- (if ignore_disable then Ret false else exists_path (module +:+ "/disable")) ;;
      if disabled : bool then Ret tt
      else
        let path := module +:+ "/" +:+ script in
        present <- exists_path path ;;
        if negb present then Ret tt
        else
          child <- (if async then fork_dont_care else call Fork) ;;
          if child =? -1 then Ret tt
          else if child =? 0 then
            _ <- call (Chdir module) ;;
            execl "/system/bin/sh" ["sh"; path] (Halt (Exited 1))
          else if async then Ret tt
          else call (Waitpid child WALL) ;;; Ret tt.

Definition fan_out (script : string) (async ignore_disable : bool) : prog sys unit :=
  dir <- get_module_dir ;;
  resolved <- call (RealPath (dir +:+ "/..")) ;;
  match resolved with
  | None => Ret tt
  | Some modules =>
      entries <- call (ListDir modules) ;;
      match entries with
      | None => Ret tt
      | Some names => for_each names (fan_out_one modules script async ignore_disable)
      end
  end.

(** ** The stages *)

Definition install : prog sys bool :=
  staged <- stage_work_directory ;;
  if staged : bool then start_monitor else Ret false.

Fixpoint await_monitor (attempts : nat) : prog sys bool :=
  match attempts with
  | O => Ret false
  | S attempts =>
      running <- monitor_is_running work ;;
      if running : bool then Ret true
      else call (Usleep (200 * 1000)) ;;; await_monitor attempts
  end.
Definition wait_for_monitor : prog sys bool := await_monitor 50.

Definition exit_of (ok : bool) : Z := if ok then EXIT_SUCCESS else EXIT_FAILURE.

Definition post_fs_data (options : StageOptions) : prog sys Z :=
  handled <- caller_fans_out ;;
  (if handled : bool then Ret tt else fan_out "post-fs-data.sh" false (ignore_disable options)) ;;;
  ok <- install ;; Ret (exit_of ok).

Definition arm (ignore : bool) : prog sys RearmResult := send_rearm_command work ignore.

Definition arm_running_system (options : StageOptions) : prog sys Z :=
  zygotes <- find_zygotes lp64 ;;
  match zygotes with
  | [] => Ret EXIT_SUCCESS
  | _ =>
      result <- arm (ignore_disable options) ;;
      match result with
      | ResInjected | AlreadyHooked | Injecting | NoZygote => Ret EXIT_SUCCESS
      | ResNeedsRestart => restart_zygote ;;; Ret EXIT_SUCCESS
      | Failed => Ret EXIT_FAILURE
      end
  end.

Definition service (options : StageOptions) : prog sys Z :=
  handled <- caller_fans_out ;;
  (if handled : bool then Ret tt else fan_out "service.sh" true (ignore_disable options)) ;;;
  arm_running_system options.

Definition hot_install : prog sys Z :=
  disabled <- module_disabled ;;
  if disabled : bool then Ret EXIT_SUCCESS
  else
    stop_monitor ;;;
    installed <- install ;;
    if negb installed then Ret EXIT_FAILURE
    else
      up <- wait_for_monitor ;;
      if negb up then Ret EXIT_FAILURE
      else (if zygisk_debug then restart_zygote else Ret tt) ;;; Ret EXIT_SUCCESS.

Definition disarm : prog sys Z :=
  mapped <- zygote_has_library ;;
  stop_monitor ;;;
  if negb mapped then Ret EXIT_SUCCESS else restart_zygote ;;; Ret EXIT_SUCCESS.

Definition print_status : prog sys Z :=
  content <- call (ReadFile (work +:+ "/module.prop")) ;;
  match content with
  | None => Ret EXIT_FAILURE
  | Some text =>
      call (Say "Status of NeoZygisk") ;;; call (Say text) ;;;
      mmrl <- call (Getenv "MMRL") ;;
      match mmrl with
      | Some _ => Ret EXIT_SUCCESS
      | None =>
          fans_out <- caller_fans_out ;;
          (if fans_out : bool then call (Sleep 5) else Ret tt) ;;; Ret EXIT_SUCCESS
      end
  end.

Definition late_load (options : StageOptions) : prog sys Z :=
  if stop options then disarm
  else
    allowed <- check_selinux (permissive options) ;;
    if negb allowed then Ret EXIT_FAILURE
    else
      module_disabled ;;;
      installed <- install ;;
      if negb installed then Ret EXIT_FAILURE
      else
        handled <- caller_fans_out ;;
        if handled : bool then Ret EXIT_SUCCESS
        else
          fan_out "post-mount.sh" false (ignore_disable options) ;;;
          rc <- service options ;;
          print_status ;;; Ret rc.

Definition run_stage (stage : Stage) (options : StageOptions) : prog sys Z :=
  enabled <- call (Getenv "ZYGISK_ENABLED") ;;
  magisk <- (match enabled with Some _ => on_path "magisk" | None => Ret false end) ;;
  if magisk : bool then Ret EXIT_SUCCESS
  else
    match stage with
    | PostFsData => post_fs_data options
    | Service => service options
    | HotInstall => hot_install
    | LateLoad => late_load options
    end.

End Stages.

(** ** Facts: copying the library *)

(** What a run read from one descriptor, and what another accepted. *)
Fixpoint bytes_read (fd : Z) (tr : list (event sys)) : string :=
  match tr with
  | [] => ""
  | Ev e x :: tr =>
      (match e in sys X return X -> string with
       | ReadFd f _ => fun '(n, bytes) =>
           if (f =? fd) && (0 <? n) then String.substring 0 (Z.to_nat n) bytes else ""
       | _ => fun _ => ""
       end) x +:+ bytes_read fd tr
  end.
Fixpoint bytes_written (fd : Z) (tr : list (event sys)) : string :=
  match tr with
  | [] => ""
  | Ev e x :: tr =>
      (match e in sys X return X -> string with
       | WriteFd f data => fun n =>
           if (f =? fd) && (0 <? n) then String.substring 0 (Z.to_nat n) data else ""
       | _ => fun _ => ""
       end) x +:+ bytes_written fd tr
  end.

Lemma append_assoc (a b c : string) : (a +:+ b) +:+ c = a +:+ (b +:+ c).
Proof. induction a as [|x a IH]; [done|]. by rewrite !append_cons, IH. Qed.

Lemma bytes_read_app fd tr tr' : bytes_read fd (tr ++ tr') = bytes_read fd tr +:+ bytes_read fd tr'.
Proof. induction tr as [|[X e x] tr IH]; [done|]. cbn [app bytes_read]. by rewrite IH, append_assoc. Qed.
Lemma bytes_written_app fd tr tr' :
  bytes_written fd (tr ++ tr') = bytes_written fd tr +:+ bytes_written fd tr'.
Proof. induction tr as [|[X e x] tr IH]; [done|]. cbn [app bytes_written]. by rewrite IH, append_assoc. Qed.

Lemma substring_all s : String.substring 0 (String.length s) s = s.
Proof. induction s as [|c s IH]; [done|]. cbn. by rewrite IH. Qed.
Lemma substring_split n s : String.substring 0 n s +:+ drop_str n s = s.
Proof.
  unfold drop_str. revert n. induction s as [|c s IH]; intros [|n]; [done|done| |].
  - cbn [String.substring String.length Nat.sub]. rewrite append_nil. f_equal. apply substring_all.
  - cbn [String.substring String.length Nat.sub]. by rewrite append_cons, IH.
Qed.

Lemma write_chunk_spec fuel inp out data :
  every_run (write_chunk fuel out data) (fun tr r =>
    bytes_read inp tr = "" /\ (r = Val true -> bytes_written out tr = data)).
Proof.
  revert data. induction fuel as [|fuel IH]; intros data; [done|]. cbn [write_chunk].
  destruct data as [|c data'] eqn:Ed; [done|]. rewrite <- Ed. cbn [is_empty]. rewrite Ed at 1.
  cbn [is_empty]. step. intros n. destruct (Z.leb_spec n 0); [done|].
  eapply every_run_mono; [|apply IH]. intros tr r [Hr Hw]. cbn [bytes_read bytes_written].
  split; [done|]. intros Ht. rewrite Z.eqb_refl. destruct (Z.ltb_spec 0 n); [|lia]. cbn [andb].
  rewrite (Hw Ht). apply substring_split.
Qed.

(** A published library is the library. When [copy_file]'s loop reports success, what the
    new file accepted is byte for byte what was read from the source, however the system split
    the reads and cut the writes short. *)
Theorem copy_chunks_faithful fuel inp out :
  every_run (copy_chunks fuel inp out) (fun tr r =>
    r = Val true -> bytes_written out tr = bytes_read inp tr).
Proof.
  induction fuel as [|fuel IH]; [done|]. cbn [copy_chunks]. step. intros [n bytes].
  destruct (Z.ltb_spec 0 n).
  - eapply every_run_seq; [apply (write_chunk_spec _ inp)|done|].
    intros tr [|] [Hr Hw]; [|done]. eapply every_run_mono; [|exact IH].
    intros tr' r Hc Ht. cbn [bytes_read bytes_written]. rewrite bytes_written_app, bytes_read_app.
    rewrite (Hw eq_refl), Hr, (Hc Ht), Z.eqb_refl, !append_nil.
    by destruct (Z.ltb_spec 0 n); [|lia].
  - intros _. cbn [bytes_read bytes_written]. destruct (Z.ltb_spec 0 n); [lia|].
    by rewrite andb_false_r.
Qed.

(** Each of the two descriptors is closed on every path that opened it, the source's first, and a
    name it does not return is unlinked last. *)
Lemma copy_to_temp_ends fuel src :
  every_run (copy_to_temp fuel src) (on_return (fun tr name =>
    exists out tmp, head tr = Some (Ev (Mkstemps "/data/local/tmp/zygisk_XXXXXX.so" 3) (out, tmp)) /\
    ((name = "" /\ out < 0) \/
     (name = "" /\ exists pre unlinked, tr = pre ++ [Ev (CloseFd out) tt; Ev (FsOp (Unlink tmp)) unlinked]) \/
     (name = tmp /\ exists pre inp moded,
        tr = pre ++ [Ev (CloseFd inp) tt; Ev (CloseFd out) tt; Ev (FsOp (Chmod tmp 0x1ed)) moded])))).
Proof.
  unfold copy_to_temp. step. intros [out tmp]. destruct (Z.ltb_spec out 0).
  { exists out, tmp. split; [done|by left]. }
  step. intros inp. destruct (inp <? 0).
  { intros [] unlinked. exists out, tmp. split; [done|right; left]. split; [done|].
    by exists [Ev (Mkstemps "/data/local/tmp/zygisk_XXXXXX.so" 3) (out, tmp); Ev (OpenRead src) inp], unlinked. }
  apply every_run_bind, every_run_trivial. intros tr [copied|h]; [|done]. intros [] [].
  destruct copied; cbn [negb].
  - intros moded. exists out, tmp. split; [done|right; right]. split; [done|].
    exists (Ev (Mkstemps "/data/local/tmp/zygisk_XXXXXX.so" 3) (out, tmp) :: Ev (OpenRead src) inp :: tr), inp, moded.
    done.
  - intros unlinked. exists out, tmp. split; [done|right; left]. split; [done|].
    exists (Ev (Mkstemps "/data/local/tmp/zygisk_XXXXXX.so" 3) (out, tmp) :: Ev (OpenRead src) inp :: tr ++ [Ev (CloseFd inp) tt]), unlinked.
    cbn. by rewrite <- !app_assoc.
Qed.

(** A read that fails is taken for the end: the copy that is returned holds what came before. *)
Lemma copy_to_temp_cut_short :
  let answers n X (e : sys X) : X :=
    match e in sys X return X with
    | Mkstemps _ _ => (4, "/t.so") | OpenRead _ => 3
    | ReadFd _ _ => if Nat.eqb n 2 then (2, "ab") else (-1, "")
    | WriteFd _ d => Z.of_nat (String.length d)
    | e => idle _ e
    end in
  snd (run answers 0 (copy_to_temp 4 "/lib.so")) = Val "/t.so" /\
  bytes_written 4 (fst (run answers 0 (copy_to_temp 4 "/lib.so"))) = "ab".
Proof. split; vm_compute; reflexivity. Qed.

(** ** Facts: the verdict decides *)

Definition unforked (ev : event sys) : bool := negb (is_fork ev).

Lemma unforked_count tr : forallb unforked tr = true -> count is_fork tr = O.
Proof.
  induction tr as [|ev tr IH]; [done|]. cbn [forallb]. intros [H1 H2]%andb_prop.
  unfold unforked in H1. apply negb_true_iff in H1. rewrite count_cons, H1. by apply IH.
Qed.

Lemma send_attempts_unforked work tries first sockfd msg :
  emits unforked (send_attempts work tries first sockfd msg).
Proof.
  revert first. induction tries as [|tries IH]; intros first; [done|].
  cbn [send_attempts]. emits_tac.
Qed.
Lemma filter_zygotes_unforked pids : emits unforked (filter_zygotes pids).
Proof.
  induction pids as [|pid pids IH]; [done|]. cbn [filter_zygotes].
  unfold get_ppid, status_int, has_zygote_cmdline, read_cmdline. emits_tac.
Qed.
Lemma find_processes_in_unforked exe names : emits unforked (find_processes_in exe names).
Proof.
  induction names as [|name names IH]; [done|]. cbn [find_processes_in].
  destruct (strtol_positive name); [|done]. emits_tac.
Qed.
#[export] Hint Resolve send_attempts_unforked filter_zygotes_unforked find_processes_in_unforked : neo.

Lemma find_zygotes_unforked lp64 : emits unforked (find_zygotes lp64).
Proof. unfold find_zygotes, find_processes_by_exe. emits_tac. Qed.

Lemma result_of_value b r : result_of b = Some r -> b = result_value r.
Proof.
  unfold result_of. intros H. apply find_some in H as [_ H]. by apply Z.eqb_eq in H.
Qed.

Lemma send_rearm_command_spec work ignore :
  every_run (send_rearm_command work ignore) (fun tr r =>
    forallb unforked tr = true /\
    on_return (fun tr result => result <> Failed ->
      exists fd bytes, In (Ev (SockRecv fd 1) (1, bytes)) tr /\
                       nth 0 bytes 0 = result_value result) tr r).
Proof.
  apply every_run_and.
  - change (emits unforked (send_rearm_command work ignore)).
    unfold send_rearm_command, send_to_monitor. emits_tac.
  - unfold send_rearm_command. step. intros sockfd. destruct (sockfd =? -1); [by intros []|].
    step. intros bound.
    eapply every_run_seq with (S := on_return (fun tr result => result <> Failed ->
      exists fd bytes, In (Ev (SockRecv fd 1) (1, bytes)) tr /\ nth 0 bytes 0 = result_value result)).
    + destruct bound; [|by intros []]. cbn [negb]. step. intros timed. destruct timed; [|by intros []].
      cbn [negb]. apply every_run_bind, every_run_trivial. intros tr [[|]|]; [|by intros []|done].
      cbn [negb]. step. intros [nread bytes].
      destruct (Z.eqb_spec nread 1) as [->|]; [|by intros []].
      destruct (result_of (nth 0 bytes 0)) as [result|] eqn:E; [|by intros []].
      intros _. exists sockfd, bytes. split; [|by apply result_of_value].
      right. apply in_or_app. right. by left.
    + done.
    + intros tr result H. intros u. cbn. intros Hne. destruct (H Hne) as (fd & bytes & Hin & Hb).
      exists fd, bytes. split; [|done]. do 2 right. apply in_or_app. by left.
Qed.

(** C20: arming a running system restarts zygote only on the monitor's word. In a run of
    [arm_running_system] - the stage that arms, and no other: disarming, and a debug build's hot
    install, restart zygote without asking - a restart is forked only after the monitor answered
    the rearm with the needs-restart byte, and a run that exits with failure forked nothing. *)
Theorem arm_restarts_on_verdict lp64 work options :
  every_run (arm_running_system lp64 work options) (fun tr r =>
    (count is_fork tr <> O ->
       exists fd bytes, In (Ev (SockRecv fd 1) (1, bytes)) tr /\
                        nth 0 bytes 0 = result_value ResNeedsRestart) /\
    (r = Val EXIT_FAILURE -> count is_fork tr = O)).
Proof.
  eapply every_run_seq; [apply find_zygotes_unforked| |].
  { intros tr h Hu. cbn beta in *. by rewrite unforked_count. }
  intros tr zygotes Hu. apply unforked_count in Hu.
  destruct zygotes as [|z zs].
  { cbn. rewrite app_nil_r, Hu. done. }
  eapply every_run_seq; [apply send_rearm_command_spec| |].
  { intros tr' h [Hu' _]. apply unforked_count in Hu'. by rewrite count_app, Hu, Hu'. }
  intros tr' result [Hu' Hr]. apply unforked_count in Hu'. cbn [on_return] in Hr.
  assert (forall c, every_run (Ret c) (fun tr'' r =>
    (count is_fork (tr ++ tr' ++ tr'') <> O ->
       exists fd bytes, In (Ev (SockRecv fd 1) (1, bytes)) (tr ++ tr' ++ tr'') /\
                        nth 0 bytes 0 = result_value ResNeedsRestart) /\
    (r = Val EXIT_FAILURE -> count is_fork (tr ++ tr' ++ tr'') = O))) as Hret.
  { intros c. cbn. by rewrite app_nil_r, count_app, Hu, Hu'. }
  destruct result; try apply Hret.
  apply every_run_bind, every_run_trivial. intros tr3 [u|h]; cbn; (split; [|done]); intros _.
  all: destruct (Hr ltac:(done)) as (fd & bytes & Hin & Hb); exists fd, bytes; split; [|done];
    apply in_or_app; right; apply in_or_app; by left.
Qed.

(** ** Facts: how long a hot install takes *)

Lemma fork_dont_care_awake : sleeps_at_most 0 fork_dont_care.
Proof. unfold fork_dont_care. awake. Qed.
#[export] Hint Resolve fork_dont_care_awake : neo.

Lemma monitor_is_running_awake work : sleeps_at_most 0 (monitor_is_running work).
Proof. unfold monitor_is_running. awake. Qed.
#[export] Hint Resolve monitor_is_running_awake : neo.

Lemma poll_sleeps (poll : prog sys bool) (again : prog sys bool) n :
  0 <= n -> sleeps_at_most 0 poll -> sleeps_at_most n again ->
  sleeps_at_most (200 * 1000 + n)
    (done_ <- poll ;; if done_ : bool then Ret true else call (Usleep (200 * 1000)) ;;; again).
Proof.
  intros Hn Hp Ha. apply sleeps_bind0; [lia|done|]. intros [|]; [apply sleeps_ret; lia|].
  apply sleeps_bind; [lia| |done]. intros u. cbn. lia.
Qed.

Lemma await_monitor_sleeps work n :
  sleeps_at_most (Z.of_nat n * 200000) (await_monitor work n).
Proof.
  induction n as [|n IH]; [apply sleeps_ret; lia|].
  replace (Z.of_nat (S n) * 200000) with (200 * 1000 + Z.of_nat n * 200000) by lia.
  apply poll_sleeps; [lia|apply monitor_is_running_awake|done].
Qed.
Lemma await_untraced_sleeps n : sleeps_at_most (Z.of_nat n * 200000) (await_untraced n).
Proof.
  induction n as [|n IH]; [apply sleeps_ret; lia|].
  replace (Z.of_nat (S n) * 200000) with (200 * 1000 + Z.of_nat n * 200000) by lia.
  cbn [await_untraced]. unfold get_tracer_pid, status_int.
  apply sleeps_bind0; [lia|awake|]. intros tracer. destruct (tracer <=? 0); [apply sleeps_ret; lia|].
  apply sleeps_bind; [lia| |done]. intros u. cbn. lia.
Qed.

Lemma stop_monitor_sleeps work : sleeps_at_most 11800000 (stop_monitor work).
Proof.
  unfold stop_monitor. apply sleeps_bind0; [lia|apply monitor_is_running_awake|].
  intros [|]; cbn [negb]; [|apply sleeps_ret; lia].
  replace 11800000 with (1800000 + 10000000) by lia.
  apply sleeps_bind; [lia| |].
  - unfold send_control_command, send_to_monitor.
    apply sleeps_bind0; [lia|awake|]. intros fd. destruct (fd =? -1); [apply sleeps_ret; lia|].
    replace 1800000 with (1800000 + 0) by lia.
    apply sleeps_bind; [lia|apply (send_attempts_sleeps work 10 true)|]. intros sent. awake.
  - intros [|]; cbn [negb]; [|apply sleeps_ret; lia]. apply (await_untraced_sleeps 50).
Qed.

Lemma write_chunk_awake fuel out data : sleeps_at_most 0 (write_chunk fuel out data).
Proof.
  revert data. induction fuel as [|fuel IH]; intros data; [apply sleeps_halt; lia|].
  cbn [write_chunk]. awake; apply IH.
Qed.
Lemma copy_chunks_awake fuel inp out : sleeps_at_most 0 (copy_chunks fuel inp out).
Proof.
  induction fuel as [|fuel IH]; [apply sleeps_halt; lia|]. cbn [copy_chunks].
  pose proof write_chunk_awake. awake; auto.
Qed.
Lemma make_sys_dir_awake path : sleeps_at_most 0 (make_sys_dir path).
Proof. unfold make_sys_dir, set_sys_perm. awake. Qed.
#[export] Hint Resolve copy_chunks_awake make_sys_dir_awake : neo.
Lemma install_lib_awake copy_fuel src dst : sleeps_at_most 0 (install_lib copy_fuel src dst).
Proof. unfold install_lib, exists_path, copy_file, set_sys_perm. awake. Qed.
#[export] Hint Resolve install_lib_awake : neo.
Lemma install_awake work copy_fuel zygisk_debug :
  sleeps_at_most 0 (install work copy_fuel zygisk_debug).
Proof.
  unfold install, stage_work_directory, get_module_dir, start_monitor, detach_stdio, execl.
  destruct zygisk_debug; awake.
Qed.
Lemma restart_zygote_awake : sleeps_at_most 0 restart_zygote.
Proof. unfold restart_zygote, detach_stdio, run_wait, execl. awake. Qed.

(** C23: a hot install fits its deadline. All the waiting it does -- for the old monitor to be
    reachable, to let go of init, and for the new one to take the socket -- sums to at most
    21.8 seconds on every run, inside the thirty ksud allows it. *)
Theorem hot_install_sleeps work copy_fuel zygisk_debug :
  every_run (hot_install work copy_fuel zygisk_debug) (fun tr _ =>
    0 <= slept tr <= 21800000 /\ 21800000 < 30 * 1000000).
Proof.
  eapply every_run_mono with (Q := fun tr _ => 0 <= slept tr <= 21800000); [by intros; lia|].
  change (sleeps_at_most 21800000 (hot_install work copy_fuel zygisk_debug)).
  unfold hot_install. apply sleeps_bind0; [lia| |].
  { unfold module_disabled, get_module_dir, exists_path. awake. }
  intros [|]; [apply sleeps_ret; lia|].
  replace 21800000 with (11800000 + 10000000) by lia.
  apply sleeps_bind; [lia|apply stop_monitor_sleeps|]. intros _.
  apply sleeps_bind0; [lia|apply install_awake|]. intros [|]; cbn [negb]; [|apply sleeps_ret; lia].
  replace 10000000 with (10000000 + 0) by lia.
  apply sleeps_bind; [lia|apply (await_monitor_sleeps work 50)|].
  intros [|]; cbn [negb]; [|apply sleeps_ret; lia].
  pose proof restart_zygote_awake. awake.
Qed.

(** ** Facts: standing down for Magisk *)

(** A search of PATH, and everything else. *)
Definition not_search (ev : event sys) : bool :=
  match ev with Ev (AccessOk _ true) _ => false | _ => true end.
Definition is_query (ev : event sys) : bool :=
  match ev with Ev (AccessOk _ _) _ | Ev (Getenv _) _ => true | _ => false end.

Definition is_found (ev : event sys) : bool :=
  match ev with
  | Ev e x =>
      (match e in sys X return X -> bool with
       | AccessOk _ true => fun found => found
       | _ => fun _ => false
       end) x
  end.
Definition found_on_path (tr : list (event sys)) : bool := existsb is_found tr.

Lemma not_search_not_found tr : forallb not_search tr = true -> found_on_path tr = false.
Proof.
  unfold found_on_path. induction tr as [|[X e x] tr IH]; [done|]. cbn.
  intros [H1 H2]%andb_prop. rewrite IH by done. rewrite orb_false_r. destruct e; try done. by destruct exec.
Qed.

(** The search ends, looks only at executables, and answers whether it saw one. *)
Lemma search_path_spec fuel rest name :
  (String.length rest < fuel)%nat ->
  every_run (search_path fuel rest name) (fun tr r =>
    forallb is_query tr = true /\
    r = Val (found_on_path tr)).
Proof.
  revert rest. induction fuel as [|fuel IH]; intros rest Hf; [lia|]. cbn [search_path].
  assert (forall d r, split_colon rest = (d, Some r) -> (String.length r < fuel)%nat) as Hlen.
  { intros d r Hs. cut (String.length r < String.length rest)%nat; [lia|]. clear -Hs. revert d Hs.
    induction rest as [|c rest IH]; intros d Hs; [done|]. cbn in *.
    destruct (Ascii.eqb c ":"); [injection Hs as _ ->; lia|].
    destruct (split_colon rest) as [d' r']. injection Hs as _ ->. specialize (IH d' eq_refl). lia. }
  destruct (split_colon rest) as [dir rest'] eqn:Es.
  destruct (is_empty dir).
  - cbn [bind]. destruct rest' as [r|]; [by eapply IH, Hlen|done].
  - step. intros found. destruct found; [done|].
    destruct rest' as [r|]; [|done].
    eapply every_run_mono; [|by eapply IH, Hlen].
    intros tr res [Hq ->]. done.
Qed.

Section NotSearch.
Variable lp64 : bool.
Variable work : string.
Variable copy_fuel : nat.
Variable zygisk_debug : bool.

Lemma write_chunk_ns fuel out data : emits not_search (write_chunk fuel out data).
Proof.
  revert data. induction fuel as [|fuel IH]; intros data; [done|]. cbn [write_chunk].
  emits_tac; apply IH.
Qed.
Lemma copy_chunks_ns fuel inp out : emits not_search (copy_chunks fuel inp out).
Proof.
  induction fuel as [|fuel IH]; [done|]. cbn [copy_chunks]. pose proof write_chunk_ns.
  emits_tac; auto.
Qed.
Lemma send_attempts_ns tries first sockfd msg : emits not_search (send_attempts work tries first sockfd msg).
Proof.
  revert first. induction tries as [|tries IH]; intros first; [done|].
  cbn [send_attempts]. emits_tac.
Qed.
Lemma filter_zygotes_ns pids : emits not_search (filter_zygotes pids).
Proof.
  induction pids as [|pid pids IH]; [done|]. cbn [filter_zygotes].
  unfold get_ppid, status_int, has_zygote_cmdline, read_cmdline. emits_tac.
Qed.
Lemma find_processes_in_ns exe names : emits not_search (find_processes_in exe names).
Proof.
  induction names as [|name names IH]; [done|]. cbn [find_processes_in].
  destruct (strtol_positive name); [|done]. emits_tac.
Qed.
Lemma find_zygotes_ns : emits not_search (find_zygotes lp64).
Proof.
  pose proof find_processes_in_ns. pose proof filter_zygotes_ns.
  unfold find_zygotes, find_processes_by_exe. emits_tac; auto.
Qed.
Lemma await_monitor_ns n : emits not_search (await_monitor work n).
Proof. induction n as [|n IH]; [done|]. cbn [await_monitor]. unfold monitor_is_running. emits_tac. Qed.
Lemma await_untraced_ns n : emits not_search (await_untraced n).
Proof.
  induction n as [|n IH]; [done|]. cbn [await_untraced]. unfold get_tracer_pid, status_int. emits_tac.
Qed.
Lemma stop_monitor_ns : emits not_search (stop_monitor work).
Proof.
  pose proof send_attempts_ns. pose proof await_untraced_ns.
  unfold stop_monitor, monitor_is_running, send_control_command, send_to_monitor. emits_tac; auto.
Qed.
Lemma restart_zygote_ns : emits not_search restart_zygote.
Proof. unfold restart_zygote, fork_dont_care, detach_stdio, run_wait, execl. emits_tac. Qed.

Lemma install_ns : emits not_search (install work copy_fuel zygisk_debug).
Proof.
  pose proof copy_chunks_ns.
  assert (forall src dst, emits not_search (install_lib copy_fuel src dst)).
  { intros src dst. unfold install_lib, exists_path, copy_file, make_sys_dir, set_sys_perm.
    emits_tac; auto. }
  unfold install, stage_work_directory, make_sys_dir, set_sys_perm, get_module_dir,
    start_monitor, fork_dont_care, detach_stdio, execl. emits_tac; auto.
Qed.
Lemma fan_out_ns script async ignore : emits not_search (fan_out script async ignore).
Proof.
  assert (forall modules name, emits not_search (fan_out_one modules script async ignore name)).
  { intros modules name. unfold fan_out_one, exists_path, fork_dont_care, execl. emits_tac. }
  unfold fan_out, get_module_dir. pose proof @emits_for_each. emits_tac; auto.
Qed.
Lemma zygote_has_library_ns : emits not_search (zygote_has_library lp64).
Proof.
  apply emits_bind; [apply find_zygotes_ns|]. intros pids.
  induction pids as [|pid pids IH]; [done|]. unfold has_library_mapped, Scan_maps. emits_tac.
Qed.
Lemma service_ns options : emits not_search (service lp64 work options).
Proof.
  pose proof fan_out_ns. pose proof restart_zygote_ns. pose proof send_attempts_ns.
  pose proof find_zygotes_ns.
  unfold service, caller_fans_out, arm_running_system, arm, send_rearm_command, send_to_monitor.
  emits_tac; auto.
Qed.
End NotSearch.

(** Standing down leaves no trace. A stage that runs with ZYGISK_ENABLED set and finds
    magisk on PATH returns success having done nothing but read its environment and look for
    that file; no other stage run finds an executable that way. *)
Theorem run_stage_stands_down lp64 work copy_fuel zygisk_debug stage options :
  every_run (run_stage lp64 work copy_fuel zygisk_debug stage options) (fun tr r =>
    found_on_path tr = true -> r = Val EXIT_SUCCESS /\ forallb is_query tr = true).
Proof.
  assert (emits not_search
    (match stage with
     | PostFsData => post_fs_data work copy_fuel zygisk_debug options
     | Service => service lp64 work options
     | HotInstall => hot_install work copy_fuel zygisk_debug
     | LateLoad => late_load lp64 work copy_fuel zygisk_debug options
     end)) as Hrest.
  { pose proof install_ns. pose proof fan_out_ns. pose proof stop_monitor_ns.
    pose proof restart_zygote_ns. pose proof await_monitor_ns. pose proof service_ns.
    pose proof zygote_has_library_ns.
    unfold post_fs_data, hot_install, late_load, caller_fans_out, module_disabled, get_module_dir,
      exists_path, wait_for_monitor, disarm, check_selinux, selinux_enforcing, selinux_knows,
      set_permissive, print_status.
    emits_tac; auto; unfold caller_fans_out; emits_tac. }
  unfold run_stage. step. intros enabled.
  destruct enabled as [v|].
  - apply bind_bind. step. intros env.
    eapply every_run_seq; [apply search_path_spec; lia| |].
    { by intros tr h [_ [=]]. }
    intros tr magisk [Hq [= ->]]. destruct (found_on_path tr) eqn:Ef.
    + intros _. rewrite app_nil_r. done.
    + eapply every_run_mono; [|exact Hrest]. intros tr' r Htr' Hfound.
      apply not_search_not_found in Htr'. unfold found_on_path in *. cbn in Hfound.
      rewrite existsb_app, Ef, Htr' in Hfound. done.
  - eapply every_run_mono; [|exact Hrest]. intros tr r Htr Hfound.
    apply not_search_not_found in Htr. unfold found_on_path in *. cbn in Hfound. congruence.
Qed.
