(* ===== verification/Cli.v ===== *)
(** * The command line

    ptracer/main.cpp: argument parsing and the commands of the tracer executable. Usage and
    progress lines are left out; exit statuses and effects are not. *)
From Stdlib Require Import ZArith Lia List String Ascii Bool.
From stdpp Require Import base list strings gmap.
From S2P Require Import Prelude.
From S2P Require Import Scan.
From S2P Require Import Sys.
From S2P Require Import ProcFs.
From S2P Require Import Remote.
From S2P Require Import Inject.
From S2P Require Import MonState.
From S2P Require Import ZygoteAbi.
From S2P Require Import Monitor.
From S2P Require Import Control.
From S2P Require Import Stage.
Open Scope string_scope.
Open Scope list_scope.
Open Scope Z_scope.

(** What the build and one run fix: the tracer's configuration (with the work directory), the
    ABI, the monitor's fuel, the copy's, and the debug flag. *)
Record cli := {
  cli_tracer : config;
  cli_lp64 : bool;
  cli_loop_fuel : nat;
  cli_copy_fuel : nat;
  cli_debug : bool }.

(** [--spawn] and the like. *)
Definition parse_mode (flag : string) : option TraceMode :=
  if String.eqb flag "--spawn" then Some SPAWN
  else if String.eqb flag "--standalone" then Some STANDALONE
  else if String.eqb flag "--system_server" then Some SYSTEM_SERVER
  else None.

(** [handle_ctl]'s options after the action. *)
Definition rearm_flag (flag : string) : bool :=
  String.eqb flag "-i" || String.eqb flag "--ignore-disable".
Fixpoint parse_rearm_flags (flags : list string) (ignore : bool) : option bool :=
  match flags with
  | [] => Some ignore
  | f :: flags => if rearm_flag f then parse_rearm_flags flags true else None
  end.

(** [handle_stage]'s loop: the options, an early exit status, or a rejection. *)
Inductive stage_args := Options (o : StageOptions) | ExitWith (status : Z).
Fixpoint parse_stage_flags (flags : list string) (o : StageOptions) : stage_args :=
  match flags with
  | [] => Options o
  | f :: flags =>
      if String.eqb f "-i" || String.eqb f "--ignore-disable" then
        parse_stage_flags flags
          {| ignore_disable := true; permissive := permissive o; stop := stop o |}
      else if String.eqb f "-p" || String.eqb f "--permissive" then
        parse_stage_flags flags
          {| ignore_disable := ignore_disable o; permissive := true; stop := stop o |}
      else if String.eqb f "-s" || String.eqb f "--stop" then
        parse_stage_flags flags
          {| ignore_disable := ignore_disable o; permissive := permissive o; stop := true |}
      else if String.eqb f "-h" || String.eqb f "--help" then ExitWith EXIT_SUCCESS
      else ExitWith EXIT_FAILURE
  end.
Definition no_options : StageOptions := {| ignore_disable := false; permissive := false; stop := false |}.

Section Cli.
Variable c : cli.
Let cfg := cli_tracer c.
Let work := c_work cfg.
Let lp64 := cli_lp64 c.

Definition handle_monitor : prog sys Z :=
  init_monitor lp64 work (cli_loop_fuel c) ;;; Ret EXIT_SUCCESS.

(** The signal handler: detach the target it was armed for, and go. *)
Definition handle_interrupt (g_traced_pid : Z) : prog sys Z :=
  (if 0 <? g_traced_pid then call (Ptrace (PTRACE_DETACH SIGCONT) g_traced_pid) else Ret 0) ;;;
  Halt (Exited EXIT_FAILURE).

Definition trace_pid (pid : Z) (mode : TraceMode) : prog sys Z :=
  call (OnInterrupt pid) ;;;
  (if decide (mode = SPAWN) then call Daemon_ZygoteRestart else Ret tt) ;;;
  let* (ok, hooked) := trace_target cfg pid mode in
  if negb ok then
    call (Ptrace (PTRACE_DETACH SIGCONT) pid) ;;;
    call (Kill pid SIGCONT) ;;;
    Ret TRACE_FAILED
  else
    call (OnInterrupt 0) ;;;
    if negb hooked then Ret TRACE_MAPPED_ONLY else Ret TRACE_HOOKED.

(** [args] is argv from index 2 on. *)
Definition handle_trace (args : list string) : prog sys Z :=
  match args with
  | [] => Ret EXIT_FAILURE
  | pid_arg :: rest =>
      match strtol_positive pid_arg with
      | None => Ret EXIT_FAILURE
      | Some value =>
          let pid := s32 value in
          match rest with
          | [] => trace_pid pid UNKNOWN
          | flag :: _ =>
              match parse_mode flag with
              | None => Ret EXIT_FAILURE
              | Some mode => trace_pid pid mode
              end
          end
      end
  end.

Definition ctl_command (action : string) : option Command :=
  if String.eqb action "start" then Some START
  else if String.eqb action "stop" then Some STOP
  else if String.eqb action "exit" then Some EXIT
  else None.

Definition handle_ctl (args : list string) : prog sys Z :=
  match args with
  | [] => Ret EXIT_FAILURE
  | action :: flags =>
      if String.eqb action "rearm" then
        match parse_rearm_flags flags false with
        | None => Ret EXIT_FAILURE
        | Some ignore =>
            result <- send_rearm_command work ignore ;;
            if bool_decide (result = Failed) then Ret EXIT_FAILURE
            else call (Say ("rearm done: " +:+ result_name result)) ;;; Ret EXIT_SUCCESS
        end
      else
        match ctl_command action with
        | None => Ret EXIT_FAILURE
        | Some cmd =>
            sent <- send_control_command work cmd ;;
            Ret (exit_of sent)
        end
  end.

Definition handle_stage (args : list string) : prog sys Z :=
  match args with
  | [] => Ret EXIT_FAILURE
  | name :: flags =>
      match parse_stage name with
      | None => Ret EXIT_FAILURE
      | Some stage =>
          match parse_stage_flags flags no_options with
          | ExitWith status => Ret status
          | Options o =>
              if (permissive o || stop o) && negb (bool_decide (stage = LateLoad))
              then Ret EXIT_FAILURE
              else run_stage lp64 work (cli_copy_fuel c) (cli_debug c) stage o
          end
      end
  end.

(** [argv] without the program's name. *)
Definition main (argv : list string) : prog sys Z :=
  match argv with
  | [] => Ret EXIT_FAILURE
  | command :: args =>
      if String.eqb command "monitor" then handle_monitor
      else if String.eqb command "trace" then handle_trace args
      else if String.eqb command "ctl" then handle_ctl args
      else if String.eqb command "stage" then handle_stage args
      else if String.eqb command "status" then print_status work
      else if String.eqb command "help" || String.eqb command "-h" || String.eqb command "--help"
      then Ret EXIT_SUCCESS
      else if String.eqb command "version" then Ret EXIT_SUCCESS
      else Ret EXIT_FAILURE
  end.

End Cli.

(** ** Facts *)

(** The flags of the monitor's injectors are the ones [trace] takes, mode by mode. *)
Lemma parse_mode_name m : m <> UNKNOWN -> parse_mode ("--" +:+ mode_name m) = Some m.
Proof. by destruct m. Qed.

(** C19: the exit status tells the monitor what [trace_target] did. A run that returns made one
    attempt; TRACE_HOOKED and TRACE_MAPPED_ONLY mean it succeeded, with and without hooks, and
    TRACE_FAILED that it failed, in which case the last two things done are to detach the target
    with SIGCONT and to send it SIGCONT. The signal handler is armed for the target before the
    attempt, and disarmed after it exactly when the target was let go. A run that does not return was
    ended inside the attempt, as [wait_for_trace] does with exit(1), and nothing follows that. *)
Theorem trace_pid_reports c pid mode :
  every_run (trace_pid c pid mode) (fun tr r => exists pre mid outcome,
    (mode <> SPAWN -> pre = []) /\ exec (trace_target (cli_tracer c) pid mode) mid outcome /\
    match outcome with
    | Val (true, hooked) =>
        r = Val (if hooked : bool then TRACE_HOOKED else TRACE_MAPPED_ONLY) /\
        tr = Ev (OnInterrupt pid) tt :: pre ++ mid ++ [Ev (OnInterrupt 0) tt]
    | Val (false, _) =>
        r = Val TRACE_FAILED /\ exists a b,
        tr = Ev (OnInterrupt pid) tt :: pre ++ mid ++
               [Ev (Ptrace (PTRACE_DETACH SIGCONT) pid) a; Ev (Kill pid SIGCONT) b]
    | Stop h => r = Stop h /\ tr = Ev (OnInterrupt pid) tt :: pre ++ mid
    end).
Proof.
  unfold trace_pid. step. intros [].
  assert (every_run (if decide (mode = SPAWN) then call Daemon_ZygoteRestart else Ret tt)
            (fun pre r => r = Val tt /\ (mode <> SPAWN -> pre = []))) as Hr.
  { destruct (decide _); [intros []|]; done. }
  eapply every_run_seq; [exact Hr|by intros ? ? [? _]|]. intros pre [] [_ Hpre].
  eapply every_run_seq; [apply every_run_self| |].
  { intros mid h Hx. by exists pre, mid, (Stop h). }
  intros mid [[|] hooked] Hx; cbn [negb].
  - step. intros []. destruct hooked; cbn; exists pre, mid; eexists (Val (true, _));
      (split; [done|]; split; [exact Hx|]; by split).
  - intros a b. exists pre, mid, (Val (false, hooked)). cbn. eauto 8.
Qed.
