(* ===== verification/Elf.v ===== *)
(** * Symbols of a loaded library

    common/elf_parser.cpp and include/elf_parser.hpp: the file of a loaded library is mapped,
    its section headers locate the symbol and hash tables, and a symbol is looked up through
    the GNU hash table, the System V one, or a scan of .symtab. A pointer into the mapping is
    an offset into its bytes; reading outside it, or dividing by an empty table's size, is
    undefined behaviour and ends the model. *)
From Stdlib Require Import ZArith Lia List String Ascii Bool.
From stdpp Require Import base list strings gmap.
From S2P Require Import Prelude.
From S2P Require Import Scan.
From S2P Require Import Sys.
From S2P Require Import Remote.
Open Scope string_scope.
Open Scope list_scope.
Open Scope Z_scope.

(** ** Results *)

Definition rbind {A B} (m : res A) (f : A -> res B) : res B :=
  match m with Val a => f a | Stop h => Stop h end.
Notation "x <~ m ; k" := (rbind m (fun x => k))
  (at level 100, m at next level, right associativity).
Definition outside {A} : res A := Stop (Undefined "read outside the mapping").

Lemma rbind_val {A B} (m : res A) (f : A -> res B) b :
  rbind m f = Val b <-> exists a, m = Val a /\ f a = Val b.
Proof.
  destruct m as [a|h]; cbn.
  - split; [intros H; by exists a|by intros (a' & [= ->] & H)].
  - split; [done|by intros (a' & ? & _)].
Qed.

(** ** Hashes, on 32-bit words *)

Definition sysv_step (h c : Z) : Z :=
  let h := u32 (Z.shiftl h 4 + c) in
  let g := Z.land h 0xf0000000 in
  let h := if g =? 0 then h else Z.lxor h (Z.shiftr g 24) in
  Z.ldiff h g.
Definition calculateSysvHash (name : string) : Z :=
  fold_left sysv_step (string_bytes name) 0.

Definition gnu_step (h c : Z) : Z := u32 (u32 (Z.shiftl h 5) + h + c).
Definition calculateGnuHash (name : string) : Z :=
  fold_left gnu_step (string_bytes name) 5381.

(** ** The image *)

Record ElfImage := {
  base_address_ : Z;
  bias_ : Z;
  dynsym_ : option Z; dynstr_ : option Z;
  symtab_ : option Z; strtab_ : option Z; symtab_count_ : Z;
  nbucket_ : Z; bucket_ : option Z; chain_ : Z;
  gnu_nbucket_ : Z; gnu_symindx_ : Z; gnu_bloom_size_ : Z; gnu_shift2_ : Z;
  gnu_bloom_filter_ : option Z; gnu_bucket_ : Z; gnu_chain_ : Z }.

Record Sym := { st_name : Z; st_value : Z; st_size : Z; st_info : Z }.

Definition PT_LOAD : Z := 1.
Definition SHT_SYMTAB : Z := 2.
Definition SHT_STRTAB : Z := 3.
Definition SHT_HASH : Z := 5.
Definition SHT_DYNSYM : Z := 11.
Definition SHT_GNU_HASH : Z := 0x6ffffff6.
Definition STT_OBJECT : Z := 1.
Definition STT_FUNC : Z := 2.

(** [lp64] is the class of the build, [bytes] the mapping. *)
Section Elf.
Variable lp64 : bool.
Variable bytes : list Z.

Definition addr_size : Z := if lp64 then 8 else 4.
Definition addr_bits : Z := addr_size * 8.

Definition rd (n off : Z) : res Z :=
  if (0 <=? off) && (off + n <=? Z.of_nat (List.length bytes))
  then Val (le_value (firstn (Z.to_nat n) (skipn (Z.to_nat off) bytes)))
  else outside.
Definition rd_addr (off : Z) : res Z := rd addr_size off.

(** The C string at an offset. *)
Fixpoint take_cstr (bs : list Z) : res string :=
  match bs with
  | [] => outside
  | b :: bs => if b =? 0 then Val "" else (s <~ take_cstr bs; Val (String (char b) s))
  end.
Definition cstr_at (off : Z) : res string :=
  if (0 <=? off) && (off <? Z.of_nat (List.length bytes))
  then take_cstr (skipn (Z.to_nat off) bytes) else outside.

(** ElfW(Sym), ElfW(Phdr) and ElfW(Shdr), as elf.h lays them out. *)
Definition sym_size : Z := if lp64 then 24 else 16.
Definition sym_at (table : option Z) (i : Z) : res Sym :=
  match table with
  | None => Stop (Undefined "null symbol table")
  | Some table =>
      let p := table + i * sym_size in
      name <~ rd 4 p;
      value <~ rd_addr (p + if lp64 then 8 else 4);
      size <~ rd_addr (p + if lp64 then 16 else 8);
      info <~ rd 1 (p + if lp64 then 4 else 12);
      Val {| st_name := name; st_value := value; st_size := size; st_info := info |}
  end.
Definition name_at (table : option Z) (s : Sym) : res string :=
  match table with
  | None => Stop (Undefined "null string table")
  | Some table => cstr_at (table + st_name s)
  end.

Definition phdr_size : Z := if lp64 then 56 else 32.
Definition shdr_size : Z := if lp64 then 64 else 40.

(** The first PT_LOAD of the program headers from [i] on. *)
Fixpoint find_bias (n : nat) (phdr : Z) : res Z :=
  match n with
  | O => Val (-1)
  | S n =>
      p_type <~ rd 4 phdr;
      if p_type =? PT_LOAD then
        p_offset <~ rd_addr (phdr + if lp64 then 8 else 4);
        p_vaddr <~ rd_addr (phdr + if lp64 then 16 else 8);
        Val (signed addr_bits (p_vaddr - p_offset))
      else find_bias n (phdr + phdr_size)
  end.

Definition empty_image (base bias : Z) : ElfImage :=
  {| base_address_ := base; bias_ := bias; dynsym_ := None; dynstr_ := None;
     symtab_ := None; strtab_ := None; symtab_count_ := 0;
     nbucket_ := 0; bucket_ := None; chain_ := 0;
     gnu_nbucket_ := 0; gnu_symindx_ := 0; gnu_bloom_size_ := 0; gnu_shift2_ := 0;
     gnu_bloom_filter_ := None; gnu_bucket_ := 0; gnu_chain_ := 0 |}.

Definition with_tables (i : ElfImage) (ds dstr st str : option Z) (count : Z) : ElfImage :=
  {| base_address_ := base_address_ i; bias_ := bias_ i; dynsym_ := ds; dynstr_ := dstr;
     symtab_ := st; strtab_ := str; symtab_count_ := count;
     nbucket_ := nbucket_ i; bucket_ := bucket_ i; chain_ := chain_ i;
     gnu_nbucket_ := gnu_nbucket_ i; gnu_symindx_ := gnu_symindx_ i;
     gnu_bloom_size_ := gnu_bloom_size_ i; gnu_shift2_ := gnu_shift2_ i;
     gnu_bloom_filter_ := gnu_bloom_filter_ i; gnu_bucket_ := gnu_bucket_ i;
     gnu_chain_ := gnu_chain_ i |}.
Definition with_hash (i : ElfImage) (n : Z) (bucket : option Z) (chain : Z) : ElfImage :=
  {| base_address_ := base_address_ i; bias_ := bias_ i; dynsym_ := dynsym_ i;
     dynstr_ := dynstr_ i; symtab_ := symtab_ i; strtab_ := strtab_ i;
     symtab_count_ := symtab_count_ i; nbucket_ := n; bucket_ := bucket; chain_ := chain;
     gnu_nbucket_ := gnu_nbucket_ i; gnu_symindx_ := gnu_symindx_ i;
     gnu_bloom_size_ := gnu_bloom_size_ i; gnu_shift2_ := gnu_shift2_ i;
     gnu_bloom_filter_ := gnu_bloom_filter_ i; gnu_bucket_ := gnu_bucket_ i;
     gnu_chain_ := gnu_chain_ i |}.
Definition with_gnu (i : ElfImage) (n symindx bloom shift : Z) (filter : option Z)
    (bucket chain : Z) : ElfImage :=
  {| base_address_ := base_address_ i; bias_ := bias_ i; dynsym_ := dynsym_ i;
     dynstr_ := dynstr_ i; symtab_ := symtab_ i; strtab_ := strtab_ i;
     symtab_count_ := symtab_count_ i; nbucket_ := nbucket_ i; bucket_ := bucket_ i;
     chain_ := chain_ i; gnu_nbucket_ := n; gnu_symindx_ := symindx; gnu_bloom_size_ := bloom;
     gnu_shift2_ := shift; gnu_bloom_filter_ := filter; gnu_bucket_ := bucket;
     gnu_chain_ := chain |}.

(** One section header: what the switch on its type records. *)
Definition read_section (shstrtab shdr : Z) (i : ElfImage) : res ElfImage :=
  sh_name <~ rd 4 shdr;
  sh_type <~ rd 4 (shdr + 4);
  sh_offset <~ rd_addr (shdr + if lp64 then 24 else 16);
  if sh_type =? SHT_DYNSYM then
    Val (with_tables i (Some sh_offset) (dynstr_ i) (symtab_ i) (strtab_ i) (symtab_count_ i))
  else if sh_type =? SHT_SYMTAB then
    sh_size <~ rd_addr (shdr + if lp64 then 32 else 20);
    sh_entsize <~ rd_addr (shdr + if lp64 then 56 else 36);
    if sh_entsize =? 0 then Stop (Undefined "division by zero")
    else Val (with_tables i (dynsym_ i) (dynstr_ i) (Some sh_offset) (strtab_ i)
                (sh_size / sh_entsize))
  else if sh_type =? SHT_STRTAB then
    name <~ cstr_at (shstrtab + sh_name);
    if String.eqb name ".strtab" then
      Val (with_tables i (dynsym_ i) (dynstr_ i) (symtab_ i) (Some sh_offset) (symtab_count_ i))
    else if String.eqb name ".dynstr" then
      Val (with_tables i (dynsym_ i) (Some sh_offset) (symtab_ i) (strtab_ i) (symtab_count_ i))
    else Val i
  else if sh_type =? SHT_HASH then
    n <~ rd 4 sh_offset;
    let bucket := sh_offset + 8 in
    Val (with_hash i n (Some bucket) (bucket + n * 4))
  else if sh_type =? SHT_GNU_HASH then
    n <~ rd 4 sh_offset;
    symindx <~ rd 4 (sh_offset + 4);
    bloom <~ rd 4 (sh_offset + 8);
    shift <~ rd 4 (sh_offset + 12);
    let filter := sh_offset + 16 in
    let bucket := filter + bloom * addr_size in
    Val (with_gnu i n symindx bloom shift (Some filter) bucket (bucket + n * 4))
  else Val i.

Fixpoint read_sections (n : nat) (shstrtab shdr : Z) (i : ElfImage) : res ElfImage :=
  match n with
  | O => Val i
  | S n => i <~ read_section shstrtab shdr i; read_sections n shstrtab (shdr + shdr_size) i
  end.

(** The constructor, once the file is mapped; [base] is where the library is loaded. *)
Definition parse_image (base : Z) : res ElfImage :=
  e_phoff <~ rd_addr (if lp64 then 32 else 28);
  e_shoff <~ rd_addr (if lp64 then 40 else 32);
  e_phnum <~ rd 2 (if lp64 then 56 else 44);
  bias <~ find_bias (Z.to_nat e_phnum) e_phoff;
  e_shstrndx <~ rd 2 (if lp64 then 62 else 50);
  shstrtab <~ rd_addr (e_shoff + e_shstrndx * shdr_size + if lp64 then 24 else 16);
  e_shnum <~ rd 2 (if lp64 then 60 else 48);
  read_sections (Z.to_nat e_shnum) shstrtab e_shoff (empty_image base bias).

(** ** Lookups *)

Section Lookup.
Variable img : ElfImage.

(** The chain from symbol [sym_index] on; [fuel] bounds its length. *)
Fixpoint walk_chain (fuel : nat) (sym_index : Z) (gnu_hash : Z) (symbol_name : string) : res Z :=
  match fuel with
  | O => Stop NoFuel
  | S fuel =>
      link <~ rd 4 (gnu_chain_ img + (sym_index - gnu_symindx_ img) * 4);
      found <~
        (if Z.shiftr (Z.lxor link gnu_hash) 1 =? 0 then
           sym <~ sym_at (dynsym_ img) sym_index;
           name <~ name_at (dynstr_ img) sym;
           Val (if String.eqb symbol_name name then Some (st_value sym) else None)
         else Val None);
      match found with
      | Some value => Val value
      | None =>
          if Z.land link 1 =? 0 then walk_chain fuel (u32 (sym_index + 1)) gnu_hash symbol_name
          else Val 0
      end
  end.

Definition chain_fuel : nat := S (List.length bytes).

Definition bloom_mask (gnu_hash shift2 : Z) : Z :=
  Z.lor (Z.shiftl 1 (gnu_hash mod addr_bits))
        (Z.shiftl 1 (Z.shiftr gnu_hash shift2 mod addr_bits)).

Definition findSymbolByGnuHash (symbol_name : string) (gnu_hash : Z) : res Z :=
  match gnu_bloom_filter_ img with
  | None => Val 0
  | Some filter =>
      if gnu_bloom_size_ img =? 0 then Stop (Undefined "division by zero")
      else
        bloom_word <~ rd_addr
          (filter + (gnu_hash / addr_bits) mod gnu_bloom_size_ img * addr_size);
        if 32 <=? gnu_shift2_ img then Stop (Undefined "shift by the width or more") else
        let mask := bloom_mask gnu_hash (gnu_shift2_ img) in
        if negb (Z.land bloom_word mask =? mask) then Val 0
        else if gnu_nbucket_ img =? 0 then Stop (Undefined "division by zero")
        else
          sym_index <~ rd 4 (gnu_bucket_ img + gnu_hash mod gnu_nbucket_ img * 4);
          if sym_index <? gnu_symindx_ img then Val 0
          else walk_chain chain_fuel sym_index gnu_hash symbol_name
  end.

Fixpoint walk_sysv (fuel : nat) (n : Z) (symbol_name : string) : res Z :=
  match fuel with
  | O => Stop NoFuel
  | S fuel =>
      if n =? 0 then Val 0
      else
        sym <~ sym_at (dynsym_ img) n;
        name <~ name_at (dynstr_ img) sym;
        if String.eqb symbol_name name then Val (st_value sym)
        else n <~ rd 4 (chain_ img + n * 4); walk_sysv fuel n symbol_name
  end.

Definition findSymbolBySysvHash (symbol_name : string) (sysv_hash : Z) : res Z :=
  match bucket_ img with
  | None => Val 0
  | Some bucket =>
      if nbucket_ img =? 0 then Stop (Undefined "division by zero")
      else
        n <~ rd 4 (bucket + sysv_hash mod nbucket_ img * 4);
        walk_sysv chain_fuel n symbol_name
  end.

(** The cached symbols, in .symtab order: functions and objects with a size. *)
Definition cacheable (s : Sym) : bool :=
  let type := Z.land (st_info s) 0xf in
  ((type =? STT_FUNC) || (type =? STT_OBJECT)) && (0 <? st_size s).

Fixpoint cache_from (n : nat) (i : Z) : res (list (string * Sym)) :=
  match n with
  | O => Val []
  | S n =>
      sym <~ sym_at (symtab_ img) i;
      if cacheable sym then
        name <~ name_at (strtab_ img) sym;
        rest <~ cache_from n (i + 1);
        Val ((name, sym) :: rest)
      else cache_from n (i + 1)
  end.
Definition buildSymbolCache : res (list (string * Sym)) :=
  match symtab_ img, strtab_ img with
  | Some _, Some _ => cache_from (Z.to_nat (symtab_count_ img)) 0
  | _, _ => Val []
  end.

(** [emplace] keeps the first symbol of a name. *)
Definition cache_find (name : string) (cache : list (string * Sym)) : option Sym :=
  option_map snd (List.find (fun p => String.eqb (fst p) name) cache).

Definition findSymbolByLinearScan (symbol_name : string) : res Z :=
  cache <~ buildSymbolCache;
  Val (match cache_find symbol_name cache with Some s => st_value s | None => 0 end).

(** [order] is the order in which the hash map happens to list its entries. *)
Definition findSymbolNameByPrefix (order : list (string * Sym) -> list (string * Sym))
    (prefix : string) : res string :=
  cache <~ buildSymbolCache;
  Val (match List.find (fun p => starts_with (fst p) prefix) (order cache) with
       | Some p => fst p
       | None => ""
       end).

Definition findSymbolOffset (symbol_name : string) (gnu_hash sysv_hash : Z) : res Z :=
  offset <~ findSymbolByGnuHash symbol_name gnu_hash;
  if 0 <? offset then Val offset
  else
    offset <~ findSymbolBySysvHash symbol_name sysv_hash;
    if 0 <? offset then Val offset
    else
      offset <~ findSymbolByLinearScan symbol_name;
      if 0 <? offset then Val offset else Val 0.

Definition findSymbolAddress (symbol_name : string) : res Z :=
  offset <~ findSymbolOffset symbol_name (calculateGnuHash symbol_name)
              (calculateSysvHash symbol_name);
  Val (if (0 <? offset) && negb (base_address_ img =? 0)
       then wrap addr_bits (base_address_ img + offset - bias_ img) else 0).

End Lookup.
End Elf.

(** The first loaded library whose path contains the name, as [dl_iterate_phdr] lists them. *)
Definition findLoadedLibraryInfo (loaded : list (option string * Z)) (library_name : string) :
    option (string * Z) :=
  match List.find (fun l => match fst l with Some n => contains n library_name | None => false end)
          loaded with
  | Some (Some path, base) => Some (path, base)
  | _ => None
  end.

(** ** The interface to the scrubbers

    What the code that looks into libc and the linker uses of an image: the address of a symbol,
    0 when there is none, and the first name with a prefix. *)
Class Symbols (I : Type) := {
  symbol_address : I -> string -> res Z;
  symbol_by_prefix : I -> string -> res string }.

(** A parsed image, with the file behind it. *)
Record LoadedImage := {
  li_lp64 : bool; li_bytes : list Z; li_image : ElfImage;
  li_order : list (string * Sym) -> list (string * Sym) }.
#[export] Instance elf_symbols : Symbols LoadedImage := {
  symbol_address i name := findSymbolAddress (li_lp64 i) (li_bytes i) (li_image i) name;
  symbol_by_prefix i prefix :=
    findSymbolNameByPrefix (li_lp64 i) (li_bytes i) (li_image i) (li_order i) prefix }.

(** ** Facts: the hashes *)

Lemma bits_bounded k n :
  0 <= k -> 0 <= n -> (forall l, k <= l -> Z.testbit n l = false) -> n < 2 ^ k.
Proof.
  intros Hk Hn Hb. destruct (Z.eq_dec n 0) as [->|]; [by apply Z.pow_pos_nonneg|].
  destruct (Z.lt_ge_cases n (2 ^ k)) as [|Hge]; [done|exfalso].
  assert (k <= Z.log2 n) by (apply Z.log2_le_pow2; lia).
  pose proof (Z.bit_log2 n ltac:(lia)) as Hbit. by rewrite Hb in Hbit.
Qed.

Lemma bounded_bits k n l : 0 <= n < 2 ^ k -> k <= l -> Z.testbit n l = false.
Proof.
  intros Hn Hl. destruct (Z.eq_dec n 0) as [->|]; [apply Z.bits_0|].
  apply Z.bits_above_log2; [lia|]. apply Z.log2_lt_pow2; [lia|].
  apply (Z.lt_le_trans _ (2 ^ k)); [lia|]. apply Z.pow_le_mono_r; lia.
Qed.

Lemma sysv_step_bound h c : 0 <= sysv_step h c < 2 ^ 28.
Proof.
  unfold sysv_step. set (h' := u32 _). assert (0 <= h' < 2 ^ 32) as Hh by (by apply wrap_bound).
  set (g := Z.land h' 0xf0000000).
  assert (0 <= g) as Hg by (apply Z.land_nonneg; lia).
  set (h2 := if g =? 0 then h' else Z.lxor h' (Z.shiftr g 24)).
  assert (0 <= h2) as Hh2.
  { unfold h2. destruct (g =? 0); [lia|]. apply Z.lxor_nonneg. rewrite Z.shiftr_nonneg. lia. }
  assert (0 <= Z.ldiff h2 g) as Hr by (apply Z.ldiff_nonneg; lia).
  split; [done|]. apply bits_bounded; [lia|done|]. intros l Hl.
  assert (Z.testbit h2 l = Z.testbit h' l) as E.
  { unfold h2. destruct (g =? 0); [done|]. rewrite Z.lxor_spec, Z.shiftr_spec by lia.
    unfold g. rewrite Z.land_spec, (bounded_bits 32 h' (l + 24)) by lia. apply xorb_false_r. }
  rewrite Z.ldiff_spec, E. unfold g. rewrite Z.land_spec.
  destruct (Z.le_gt_cases 32 l); [by rewrite (bounded_bits 32 h') by lia|].
  assert (l = 28 \/ l = 29 \/ l = 30 \/ l = 31) as Hcase by lia.
  destruct (Z.testbit h' l); [|done].
  by destruct Hcase as [->|[->|[->| ->]]].
Qed.

Lemma fold_left_inv {A B} (P : A -> Prop) (f : A -> B -> A) l a :
  P a -> (forall a b, P a -> P (f a b)) -> P (fold_left f l a).
Proof. intros Ha Hf. revert a Ha. induction l as [|b l IH]; intros a Ha; cbn; auto. Qed.

(** The hashes fit their words: a GNU hash is a 32-bit value and a System V hash keeps its
    top nibble clear, whatever the name. *)
Theorem hash_bounds name :
  0 <= calculateGnuHash name < 2 ^ 32 /\ 0 <= calculateSysvHash name < 2 ^ 28.
Proof.
  split.
  - apply (fold_left_inv (fun h => 0 <= h < 2 ^ 32)); [lia|]. intros h c _. by apply wrap_bound.
  - apply (fold_left_inv (fun h => 0 <= h < 2 ^ 28)); [lia|]. intros. apply sysv_step_bound.
Qed.

Example hashes_of_printf :
  calculateGnuHash "printf" = 0x156b2bb8 /\ calculateSysvHash "printf" = 0x077905a6.
Proof. split; vm_compute; reflexivity. Qed.

(** ** Facts: a found symbol *)

Section Found.
Variable lp64 : bool.
Variable bytes : list Z.
Variable img : ElfImage.

(** Symbol [i] of a table has this name and value. *)
Definition has_symbol (syms strs : option Z) (i : Z) (name : string) (value : Z) : Prop :=
  exists sym, sym_at lp64 bytes syms i = Val sym /\ name_at bytes strs sym = Val name /\
              st_value sym = value.

Lemma walk_chain_sound fuel i h name v :
  walk_chain lp64 bytes img fuel i h name = Val v ->
  v = 0 \/ exists j, has_symbol (dynsym_ img) (dynstr_ img) j name v.
Proof.
  revert i. induction fuel as [|fuel IH]; intros i; [done|]. cbn [walk_chain].
  intros (link & _ & H)%rbind_val. apply rbind_val in H as (found & Hf & H).
  destruct found as [value|].
  - injection H as ->. destruct (_ =? 0) in Hf; [|done].
    apply rbind_val in Hf as (sym & Hs & Hf). apply rbind_val in Hf as (nm & Hn & Hf).
    destruct (String.eqb_spec name nm) as [->|]; [|done]. injection Hf as <-.
    right. by exists i, sym.
  - destruct (Z.land link 1 =? 0); [by eapply IH|]. injection H as <-. by left.
Qed.

Lemma walk_sysv_sound fuel n name v :
  walk_sysv lp64 bytes img fuel n name = Val v ->
  v = 0 \/ exists j, has_symbol (dynsym_ img) (dynstr_ img) j name v.
Proof.
  revert n. induction fuel as [|fuel IH]; intros n; [done|]. cbn [walk_sysv].
  destruct (n =? 0); [intros [= <-]; by left|].
  intros (sym & Hs & H)%rbind_val. apply rbind_val in H as (nm & Hn & H).
  destruct (String.eqb_spec name nm) as [->|].
  - injection H as <-. right. by exists n, sym.
  - apply rbind_val in H as (n' & _ & H). by eapply IH.
Qed.

Lemma cache_from_sound n i cache name sym :
  cache_from lp64 bytes img n i = Val cache -> In (name, sym) cache ->
  cacheable sym = true /\
  exists j, sym_at lp64 bytes (symtab_ img) j = Val sym /\ name_at bytes (strtab_ img) sym = Val name.
Proof.
  revert i cache. induction n as [|n IH]; intros i cache; [by intros [= <-]|]. cbn [cache_from].
  intros (s & Hs & H)%rbind_val. destruct (cacheable s) eqn:Ec; [|by eapply IH].
  apply rbind_val in H as (nm & Hn & H). apply rbind_val in H as (rest & Hr & [= <-]).
  intros [[= <- <-]|Hin]; [|by eapply IH]. split; [done|]. by exists i.
Qed.

Lemma buildSymbolCache_sound cache name sym :
  buildSymbolCache lp64 bytes img = Val cache -> In (name, sym) cache ->
  cacheable sym = true /\ exists j, has_symbol (symtab_ img) (strtab_ img) j name (st_value sym).
Proof.
  unfold buildSymbolCache. intros Hc Hin.
  assert (exists n i, cache_from lp64 bytes img n i = Val cache) as (n & i & H).
  { destruct (symtab_ img), (strtab_ img); try (by injection Hc as <-). by do 2 eexists. }
  destruct (cache_from_sound n i cache name sym H Hin) as (Hk & j & Hs & Hn).
  split; [done|]. by exists j, sym.
Qed.

Lemma linear_scan_sound name v :
  findSymbolByLinearScan lp64 bytes img name = Val v ->
  v = 0 \/ exists j, has_symbol (symtab_ img) (strtab_ img) j name v.
Proof.
  intros (cache & Hc & [= <-])%rbind_val. unfold cache_find.
  destruct (List.find _ cache) as [[nm sym]|] eqn:E; [|by left].
  apply find_some in E as [Hin Hn]. cbn in Hn. apply String.eqb_eq in Hn as ->.
  right. by apply (buildSymbolCache_sound cache).
Qed.
End Found.

(** Where the linker put a symbol of this value: the base [dl_iterate_phdr] reports is the load
    bias already, what is to be added to every address in the file. *)
Definition load_address (lp64 : bool) (img : ElfImage) (value : Z) : Z :=
  wrap (addr_bits lp64) (base_address_ img + value).

Lemma off_by_bias lp64 base value bias :
  wrap (addr_bits lp64) (base + value - bias) = wrap (addr_bits lp64) (base + value) <->
  wrap (addr_bits lp64) bias = 0.
Proof.
  assert (0 < 2 ^ addr_bits lp64) as Hp by (by destruct lp64).
  unfold wrap. revert Hp. generalize (2 ^ addr_bits lp64). intros n Hn. split; intros H.
  - replace bias with (base + value - (base + value - bias)) by lia.
    by rewrite Zminus_mod, H, Z.sub_diag, Zmod_0_l.
  - by rewrite Zminus_mod, H, Z.sub_0_r, Zmod_mod.
Qed.

(** C37: a found symbol is the one asked for. Whatever bytes are mapped, an address that
    [findSymbolAddress] returns is the library's base plus the value of a symbol of exactly
    that name, in .dynsym or .symtab, less the bias of its first segment. So it is the address
    the linker loaded that symbol at exactly when that bias is zero; from a library linked at
    another address it is off by the bias ([biased_symbol_misplaced]). *)
Theorem findSymbolAddress_sound lp64 bytes img name addr :
  findSymbolAddress lp64 bytes img name = Val addr -> addr <> 0 ->
  exists j value,
    (has_symbol lp64 bytes (dynsym_ img) (dynstr_ img) j name value \/
     has_symbol lp64 bytes (symtab_ img) (strtab_ img) j name value) /\
    0 < value /\
    addr = wrap (addr_bits lp64) (base_address_ img + value - bias_ img) /\
    (addr = load_address lp64 img value <-> wrap (addr_bits lp64) (bias_ img) = 0).
Proof.
  intros (offset & Ho & [= <-])%rbind_val Hne. unfold load_address.
  destruct (Z.ltb_spec 0 offset) as [Hpos|]; [|done].
  destruct (base_address_ img =? 0); [done|]. cbn [andb negb] in *.
  unfold findSymbolOffset in Ho. apply rbind_val in Ho as (o1 & H1 & Ho).
  destruct (Z.ltb_spec 0 o1).
  - injection Ho as ->. unfold findSymbolByGnuHash in H1.
    destruct (gnu_bloom_filter_ img); [|by injection H1; lia].
    destruct (_ =? 0) in H1; [done|]. apply rbind_val in H1 as (word & _ & H1).
    destruct (32 <=? _) in H1; [done|].
    destruct (negb _) in H1; [by injection H1; lia|].
    destruct (_ =? 0) in H1; [done|]. apply rbind_val in H1 as (idx & _ & H1).
    destruct (idx <? _); [by injection H1; lia|].
    apply walk_chain_sound in H1 as [?|[j Hj]]; [lia|]. exists j, offset. auto using off_by_bias.
  - apply rbind_val in Ho as (o2 & H2 & Ho). destruct (Z.ltb_spec 0 o2).
    + injection Ho as ->. unfold findSymbolBySysvHash in H2.
      destruct (bucket_ img); [|by injection H2; lia].
      destruct (_ =? 0) in H2; [done|]. apply rbind_val in H2 as (n & _ & H2).
      apply walk_sysv_sound in H2 as [?|[j Hj]]; [lia|]. exists j, offset. auto using off_by_bias.
    + apply rbind_val in Ho as (o3 & H3 & Ho). destruct (Z.ltb_spec 0 o3); [|by injection Ho; lia].
      injection Ho as ->. apply linear_scan_sound in H3 as [?|[j Hj]]; [lia|].
      exists j, offset. auto using off_by_bias.
Qed.

(** ** Facts: nothing is missed *)

Section Complete.
Variable lp64 : bool.
Variable bytes : list Z.
Variable img : ElfImage.

Definition chain_link (j link : Z) : Prop :=
  rd bytes 4 (gnu_chain_ img + (j - gnu_symindx_ img) * 4) = Val link.

(** How the linker files a symbol under .gnu.hash: its bits are in the Bloom filter, its
    bucket's chain reaches it before ending, and no symbol of the same name comes earlier. *)
Record gnu_filed (name : string) (h i value : Z) : Prop := {
  filed_bloom : exists filter word,
    gnu_bloom_filter_ img = Some filter /\ gnu_bloom_size_ img <> 0 /\ gnu_shift2_ img < 32 /\
    rd_addr lp64 bytes (filter + (h / addr_bits lp64) mod gnu_bloom_size_ img * addr_size lp64)
      = Val word /\
    Z.land word (bloom_mask lp64 h (gnu_shift2_ img)) = bloom_mask lp64 h (gnu_shift2_ img);
  filed_bucket : exists b,
    gnu_nbucket_ img <> 0 /\ rd bytes 4 (gnu_bucket_ img + h mod gnu_nbucket_ img * 4) = Val b /\
    0 <= gnu_symindx_ img <= b /\ b <= i < 2 ^ 32 /\
    forall j, b <= j < i -> exists link, chain_link j link /\ Z.land link 1 = 0 /\
      (Z.shiftr (Z.lxor link h) 1 = 0 -> exists sym other,
         sym_at lp64 bytes (dynsym_ img) j = Val sym /\
         name_at bytes (dynstr_ img) sym = Val other /\ name <> other);
  filed_here : exists link,
    chain_link i link /\ Z.shiftr (Z.lxor link h) 1 = 0 /\
    has_symbol lp64 bytes (dynsym_ img) (dynstr_ img) i name value }.

Lemma rd_bounds n off v :
  rd bytes n off = Val v -> 0 <= off /\ off + n <= Z.of_nat (List.length bytes).
Proof.
  unfold rd. destruct (Z.leb_spec 0 off), (Z.leb_spec (off + n) (Z.of_nat (List.length bytes)));
    cbn; try done.
Qed.

Lemma walk_chain_complete name h i value k fuel :
  (exists link, chain_link i link /\ Z.shiftr (Z.lxor link h) 1 = 0 /\
    has_symbol lp64 bytes (dynsym_ img) (dynstr_ img) i name value) ->
  (forall j, i - Z.of_nat k <= j < i -> exists link, chain_link j link /\ Z.land link 1 = 0 /\
      (Z.shiftr (Z.lxor link h) 1 = 0 -> exists sym other,
         sym_at lp64 bytes (dynsym_ img) j = Val sym /\
         name_at bytes (dynstr_ img) sym = Val other /\ name <> other)) ->
  (k < fuel)%nat -> 0 <= i - Z.of_nat k -> i < 2 ^ 32 ->
  walk_chain lp64 bytes img fuel (i - Z.of_nat k) h name = Val value.
Proof.
  intros (last & Hlast & Hmatch & sym & Hsym & Hname & Hval) Hbefore Hk Hpos Hi.
  revert fuel Hk Hbefore Hpos. induction k as [|k IH]; intros [|fuel] Hk Hbefore Hpos; try lia.
  - rewrite Z.sub_0_r. cbn [walk_chain]. unfold chain_link in Hlast. rewrite Hlast. cbn [rbind].
    rewrite Hmatch, Hsym. cbn [rbind Z.eqb]. rewrite Hname. cbn [rbind].
    by rewrite String.eqb_refl, Hval.
  - cbn [walk_chain]. destruct (Hbefore (i - Z.of_nat (S k))) as (link & Hl & Hlsb & Hother); [lia|].
    unfold chain_link in Hl. rewrite Hl. cbn [rbind].
    destruct (Z.eqb_spec (Z.shiftr (Z.lxor link h) 1) 0) as [E|].
    + destruct (Hother E) as (s & o & Hs & Ho & Hne). rewrite Hs. cbn [rbind]. rewrite Ho. cbn [rbind].
      destruct (String.eqb_spec name o); [done|]. rewrite Hlsb. cbn [Z.eqb].
      unfold u32. rewrite wrap_small by lia.
      replace (i - Z.of_nat (S k) + 1) with (i - Z.of_nat k) by lia.
      apply IH; [lia| |lia]. intros j Hj. apply Hbefore. lia.
    + cbn [rbind]. rewrite Hlsb. cbn [Z.eqb]. unfold u32. rewrite wrap_small by lia.
      replace (i - Z.of_nat (S k) + 1) with (i - Z.of_nat k) by lia.
      apply IH; [lia| |lia]. intros j Hj. apply Hbefore. lia.
Qed.
End Complete.

(** C36: the GNU table misses nothing. A symbol the linker filed in .gnu.hash is found, with its
    value, by the Bloom filter, the bucket and the walk of its chain; the walk's fuel is enough
    for any chain that fits the mapping. *)
Theorem findSymbolByGnuHash_complete lp64 bytes img name h i value :
  gnu_filed lp64 bytes img name h i value ->
  findSymbolByGnuHash lp64 bytes img name h = Val value.
Proof.
  intros [(filter & word & Hf & Hsz & Hsh & Hw & Hm) (b & Hn & Hb & Hsi & Hbi & Hbefore) Hhere].
  unfold findSymbolByGnuHash. rewrite Hf. destruct (Z.eqb_spec (gnu_bloom_size_ img) 0); [done|].
  rewrite Hw. cbn [rbind]. destruct (Z.leb_spec 32 (gnu_shift2_ img)); [lia|]. rewrite Hm, Z.eqb_refl. cbn [negb].
  destruct (Z.eqb_spec (gnu_nbucket_ img) 0); [done|]. rewrite Hb. cbn [rbind].
  destruct (Z.ltb_spec b (gnu_symindx_ img)); [lia|].
  replace b with (i - Z.of_nat (Z.to_nat (i - b))) by lia.
  apply walk_chain_complete; [done| | |lia|lia].
  - intros j Hj. apply Hbefore. lia.
  - destruct Hhere as (link & Hl & _). unfold chain_link in Hl. apply rd_bounds in Hl as [_ Hl].
    destruct (Z.eq_dec b i) as [->|]; [unfold chain_fuel; lia|].
    destruct (Hbefore b) as (first & Hb1 & _); [lia|]. unfold chain_link in Hb1.
    apply rd_bounds in Hb1 as [Hb1 _]. unfold chain_fuel. lia.
Qed.

(** ** A small library *)

(** One exported symbol, foo, at 0x2340, filed in .gnu.hash; linked at [vaddr]. *)
Definition tiny_section (name type offset : Z) : list Z :=
  le_bytes 4 name ++ le_bytes 4 type ++ le_bytes 16 0 ++ le_bytes 8 offset ++ le_bytes 32 0.
Definition tiny_at (vaddr : Z) : list Z :=
  le_bytes 32 0 ++ le_bytes 8 64 ++ le_bytes 8 224 ++ le_bytes 8 0 ++ le_bytes 2 1
    ++ le_bytes 2 0 ++ le_bytes 2 5 ++ le_bytes 2 4
  ++ le_bytes 4 PT_LOAD ++ le_bytes 4 0 ++ le_bytes 8 0 ++ le_bytes 8 vaddr ++ le_bytes 32 0
  ++ le_bytes 24 0 ++ le_bytes 4 1 ++ le_bytes 1 0x12 ++ le_bytes 3 0 ++ le_bytes 8 0x2340
    ++ le_bytes 8 8
  ++ 0 :: string_bytes "foo" ++ le_bytes 4 0
  ++ le_bytes 4 1 ++ le_bytes 4 1 ++ le_bytes 4 1 ++ le_bytes 4 6 ++ le_bytes 8 (-1)
    ++ le_bytes 4 1 ++ le_bytes 4 (Z.lor (calculateGnuHash "foo") 1)
  ++ 0 :: string_bytes ".dynstr" ++ le_bytes 8 0
  ++ tiny_section 0 0 0 ++ tiny_section 0 SHT_DYNSYM 120 ++ tiny_section 1 SHT_STRTAB 168
  ++ tiny_section 0 SHT_GNU_HASH 176 ++ tiny_section 0 SHT_STRTAB 208.

Definition tiny_elf : list Z := tiny_at 0.

Definition tiny_image : ElfImage :=
  Eval vm_compute in
    match parse_image true tiny_elf 0x70000 with Val i => i | Stop _ => empty_image 0 0 end.

Example tiny_parsed : parse_image true tiny_elf 0x70000 = Val tiny_image.
Proof. vm_compute. reflexivity. Qed.

Lemma findSymbolAddress_sound_witness :
  findSymbolAddress true tiny_elf tiny_image "foo" = Val 0x72340 /\
  exists j value,
    (has_symbol true tiny_elf (dynsym_ tiny_image) (dynstr_ tiny_image) j "foo" value \/
     has_symbol true tiny_elf (symtab_ tiny_image) (strtab_ tiny_image) j "foo" value) /\
    0 < value /\ 0x72340 = load_address true tiny_image value.
Proof.
  assert (findSymbolAddress true tiny_elf tiny_image "foo" = Val 0x72340) as H by (vm_compute; reflexivity).
  split; [exact H|].
  destruct (findSymbolAddress_sound true tiny_elf tiny_image "foo" _ H) as (j & value & Hs & Hv & _ & Hb);
    [lia|].
  exists j, value. split; [exact Hs|]. split; [exact Hv|]. apply Hb. reflexivity.
Defined.

(** The same library linked at 0x1000: the linker has foo at 0x72340 all the same, and the
    answer lies a page below. *)
Lemma biased_symbol_misplaced :
  exists img, parse_image true (tiny_at 0x1000) 0x70000 = Val img /\
    findSymbolAddress true (tiny_at 0x1000) img "foo" = Val 0x71340 /\
    has_symbol true (tiny_at 0x1000) (dynsym_ img) (dynstr_ img) 1 "foo" 0x2340 /\
    load_address true img 0x2340 = 0x72340.
Proof.
  eexists. split; [vm_compute; reflexivity|]. split; [vm_compute; reflexivity|]. split; [|reflexivity].
  eexists. split; [vm_compute; reflexivity|]. split; vm_compute; reflexivity.
Qed.

Lemma findSymbolByGnuHash_complete_witness :
  gnu_filed true tiny_elf tiny_image "foo" (calculateGnuHash "foo") 1 0x2340 /\
  findSymbolByGnuHash true tiny_elf tiny_image "foo" (calculateGnuHash "foo") = Val 0x2340.
Proof.
  assert (gnu_filed true tiny_elf tiny_image "foo" (calculateGnuHash "foo") 1 0x2340) as H.
  { split.
    - exists 192, (2 ^ 64 - 1). repeat split; vm_compute; congruence.
    - exists 1. split; [vm_compute; congruence|]. split; [vm_compute; reflexivity|].
      split; [vm_compute; intuition congruence|]. split; [lia|]. intros j Hj. lia.
    - exists (Z.lor (calculateGnuHash "foo") 1). split; [vm_compute; reflexivity|].
      split; [vm_compute; reflexivity|].
      eexists. split; [vm_compute; reflexivity|]. split; vm_compute; reflexivity. }
  split; [exact H|]. by apply findSymbolByGnuHash_complete with (i := 1).
Defined.
