(* ===== verification/ElfFile.v ===== *)
(** * Opening the file of a loaded library

    The constructor and destructor of [ElfImage] (common/elf_parser.cpp): the library is looked
    for among the loaded ones, its file is opened, measured, mapped and closed again, and the
    tables are located in the mapping (Elf.v); the mapping goes with the object. *)
From Stdlib Require Import ZArith Lia List String Ascii Bool.
From stdpp Require Import base list strings.
From S2P Require Import Prelude.
From S2P Require Import Elf.
Open Scope string_scope.
Open Scope list_scope.
Open Scope Z_scope.

Inductive elfio : Type -> Type :=
| DlIteratePhdr : elfio (list (option string * Z))   (* names and load addresses *)
| Open (path : string) : elfio Z
| Fstat (fd : Z) : elfio (option Z)                  (* the size *)
| Mmap (fd size : Z) : elfio (option (Z * list Z))   (* where, and the bytes behind *)
| Close (fd : Z) : elfio unit
| Munmap (addr size : Z) : elfio unit.

(** An object of the class: what it mapped, and the members the tables are kept in. *)
Record image_file := {
  library_path_ : string; load_address : Z;
  map_base_ : option (Z * list Z); map_size_ : Z;
  tables : ElfImage }.
Definition no_image : image_file :=
  {| library_path_ := ""; load_address := 0; map_base_ := None; map_size_ := 0;
     tables := empty_image 0 (-1) |}.
Definition found_image (path : string) (base : Z) (map : option (Z * list Z)) (size : Z)
    (t : ElfImage) : image_file :=
  {| library_path_ := path; load_address := base; map_base_ := map; map_size_ := size;
     tables := t |}.

Section File.
Context (lp64 : bool).

Definition ElfImage_new (library_name : string) : prog elfio image_file :=
  loaded <- call DlIteratePhdr ;;
  match findLoadedLibraryInfo loaded library_name with
  | None => Ret no_image
  | Some (path, base) =>
      let image := found_image path base in
      fd <- call (Open path) ;;
      if fd <? 0 then Ret (image None 0 (empty_image base (-1)))
      else
        file_stat <- call (Fstat fd) ;;
        match file_stat with
        | None => call (Close fd) ;;; Ret (image None 0 (empty_image base (-1)))
        | Some size =>
            map <- call (Mmap fd size) ;;
            call (Close fd) ;;;
            match map with
            | None => Ret (image None size (empty_image base (-1)))
            | Some (addr, bytes) =>
                t <- ofres (parse_image lp64 bytes base) ;;
                Ret (image (Some (addr, bytes)) size t)
            end
        end
  end.

(** [header_] is null exactly when nothing is mapped. *)
Definition isValid (i : image_file) : bool :=
  negb (load_address i =? 0) && match map_base_ i with Some _ => true | None => false end.
Definition ElfImage_destroy (i : image_file) : prog elfio unit :=
  match map_base_ i with Some (addr, _) => call (Munmap addr (map_size_ i)) | None => Ret tt end.

(** What a caller that tests [isValid] looks symbols up in; the hash map's order is [order]. *)
Definition usable_image (order : list (string * Sym) -> list (string * Sym)) (i : image_file) :
    option LoadedImage :=
  match map_base_ i with
  | Some (_, bytes) =>
      if isValid i
      then Some {| li_lp64 := lp64; li_bytes := bytes; li_image := tables i; li_order := order |}
      else None
  | None => None
  end.

(** ** Facts *)

Definition opened (ev : event elfio) : option Z :=
  match ev with
  | Ev e x =>
      match e in elfio X return X -> option Z with
      | Open _ => fun fd => if 0 <=? fd then Some fd else None
      | _ => fun _ => None
      end x
  end.
Definition closed (ev : event elfio) : option Z :=
  match ev with Ev (Close fd) _ => Some fd | _ => None end.
Definition mapped (ev : event elfio) : option (Z * Z) :=
  match ev with
  | Ev e x =>
      match e in elfio X return X -> option (Z * Z) with
      | Mmap _ size => fun r => option_map (fun m => (fst m, size)) r
      | _ => fun _ => None
      end x
  end.
Definition unmapped (ev : event elfio) : option (Z * Z) :=
  match ev with Ev (Munmap addr size) _ => Some (addr, size) | _ => None end.

(** What the object holds after its construction, and what it says. *)
Definition constructed (library_name : string) (tr : list (event elfio)) (i : image_file) : Prop :=
  omap opened tr = omap closed tr /\ omap unmapped tr = [] /\
  omap mapped tr = match map_base_ i with Some (addr, _) => [(addr, map_size_ i)] | None => [] end /\
  (isValid i = true -> exists loaded addr bytes,
     In (Ev DlIteratePhdr loaded) tr /\
     findLoadedLibraryInfo loaded library_name = Some (library_path_ i, load_address i) /\
     map_base_ i = Some (addr, bytes) /\
     parse_image lp64 bytes (load_address i) = Val (tables i)).

Lemma unmapped_image_spec library_name tr path base size :
  omap opened tr = omap closed tr -> omap unmapped tr = [] -> omap mapped tr = [] ->
  constructed library_name tr (found_image path base None size (empty_image base (-1))).
Proof.
  intros Ho Hu Hm. split; [done|]. split; [done|]. split; [done|].
  unfold isValid. cbn. by rewrite andb_false_r.
Qed.

Lemma ElfImage_new_spec library_name :
  every_run (ElfImage_new library_name) (on_return (constructed library_name)).
Proof.
  step. intros loaded.
  destruct (findLoadedLibraryInfo loaded library_name) as [[path base]|] eqn:Ef; [|done].
  step. intros fd. destruct (Z.ltb_spec fd 0) as [Hfd|Hfd].
  { apply unmapped_image_spec; [|done|done]. cbn. by destruct (Z.leb_spec 0 fd); [lia|]. }
  assert ((0 <=? fd) = true) as Hopen by (by apply Z.leb_le).
  step. intros [size|].
  2: { step. intros u. apply unmapped_image_spec; [|done|done]. cbn. by rewrite Hopen. }
  step. intros [[addr bytes]|]; step; intros u.
  2: { apply unmapped_image_spec; [|done|done]. cbn. by rewrite Hopen. }
  destruct (parse_image lp64 bytes base) as [t|h] eqn:Ep; [|done].
  cbn. split; [cbn; by rewrite Hopen|]. split; [done|]. split; [done|].
  intros _. exists loaded, addr, bytes. split; [by left|]. by split_and!.
Qed.

(** An image used and given up: every descriptor it opened is closed, what it mapped is unmapped
    once and last, and its user only ever saw a parsed image of the first loaded library of the
    name. *)
Lemma image_given_back {A} order library_name (body : option LoadedImage -> prog elfio A) :
  (forall i, every_run (body i) (fun tr _ => tr = [])) ->
  every_run (i <- ElfImage_new library_name ;; a <- body (usable_image order i) ;;
             ElfImage_destroy i ;;; Ret a)
    (on_return (fun tr _ =>
       omap opened tr = omap closed tr /\ omap mapped tr = omap unmapped tr)).
Proof.
  intros Hb. eapply every_run_seq; [apply ElfImage_new_spec|done|].
  intros tr i (Ho & Hu & Hm & _). eapply every_run_seq; [apply Hb|done|].
  intros tr' a ->. unfold ElfImage_destroy.
  destruct (map_base_ i) as [[addr bytes]|]; [intros u|]; cbn; rewrite ?app_nil_r, ?omap_app, ?Ho, ?Hm, ?Hu;
    done.
Qed.
End File.

(** ** A small library on a small disk *)

Definition tiny_disk (X : Type) (e : elfio X) : X :=
  match e with
  | DlIteratePhdr => [(None, 1); (Some "/lib/libfoo.so", 0x70000); (Some "/x/libfoo.so", 5)]
  | Open path => if String.eqb path "/lib/libfoo.so" then 3 else -1
  | Fstat _ => Some (Z.of_nat (List.length tiny_elf))
  | Mmap _ _ => Some (0x9000, tiny_elf)
  | Close _ | Munmap _ _ => tt
  end.
Example tiny_opened :
  match run (fun _ => tiny_disk) 0 (ElfImage_new true "libfoo.so") with
  | (tr, Val i) =>
      List.length tr = 5%nat /\ isValid i = true /\
      option_map (fun l => symbol_address l "foo") (usable_image true id i) = Some (Val 0x72340)
  | _ => False
  end.
Proof. vm_compute. by split_and!. Qed.
