(* ===== verification/Fossil.v ===== *)
(** * The mount fossil on the zygote's stack

    injector/fossil.cpp and the part of injector/clean.cpp that uses it: recognising the
    argument vector of a mount command in a block of memory, and overwriting it with one built
    from a clean entry of mountinfo. The memory searched is the list of its bytes; pointers are
    offsets into it and [limit] is where the search ends. *)
From Stdlib Require Import ZArith Lia List String Ascii Bool.
From stdpp Require Import base list strings.
From S2P Require Import Prelude.
From S2P Require Import Scan.
From S2P Require Import ProcFs.
From S2P Require Import Remote.
Open Scope string_scope.
Open Scope list_scope.
Open Scope nat_scope.

Record MountInfoEntry := {
  source : string; target : string; filesystem_type : string; mount_options : string;
  is_suspicious : bool }.

(** A valid [MountArgv]. *)
Record MountArgv := {
  m_start_address : nat;
  m_source : string; m_target : string; m_filesystem_type : string; m_mount_options : string;
  m_base_flags : Z;
  m_fossil_size : nat;
  m_remnant_size : nat }.

(** ** Parsing *)

Fixpoint strnlen (n : nat) (bs : list ascii) : nat :=
  match n, bs with
  | S n, c :: bs => if Ascii.eqb c nul then 0 else S (strnlen n bs)
  | _, _ => 0
  end.

Definition parse_and_copy_string_field (mem : list ascii) (ptr limit : nat) :
    option (string * nat) :=
  let len := strnlen (limit - ptr) (skipn ptr mem) in
  if Nat.eqb len (limit - ptr) then None
  else Some (string_of_list_ascii (firstn len (skipn ptr mem)), ptr + len + 1).

(** The offset of the first of two consecutive NULs below the limit. *)
Fixpoint find_double_null (fuel : nat) (mem : list ascii) (p limit : nat) : option nat :=
  match fuel with
  | O => None
  | S fuel =>
      if Nat.ltb (p + 1) limit then
        if Ascii.eqb (nth p mem nul) nul && Ascii.eqb (nth (p + 1) mem nul) nul then Some p
        else find_double_null fuel mem (p + 1) limit
      else None
  end.

Definition flags_at (mem : list ascii) (ptr : nat) : Z :=
  le_value (map code (firstn 4 (skipn ptr mem))).

(** [parseFromMemory]: nothing stands for an object that is not valid. *)
Definition parseFromMemory (mem : list ascii) (start limit : nat) : option MountArgv :=
  if Nat.leb limit start then None
  else
    match parse_and_copy_string_field mem start limit with
    | None => None
    | Some (src, p) =>
        match parse_and_copy_string_field mem p limit with
        | None => None
        | Some (tgt, p) =>
            match parse_and_copy_string_field mem p limit with
            | None => None
            | Some (fst, p) =>
                match parse_and_copy_string_field mem p limit with
                | None => None
                | Some (opts, p) =>
                    if Nat.ltb limit (p + 4) then None
                    else
                      let end_of_fossil := p + 4 in
                      Some {| m_start_address := start; m_source := src; m_target := tgt;
                              m_filesystem_type := fst; m_mount_options := opts;
                              m_base_flags := flags_at mem p;
                              m_fossil_size := end_of_fossil - start;
                              m_remnant_size :=
                                match find_double_null limit mem end_of_fossil limit with
                                | Some e => e - end_of_fossil
                                | None => 0
                                end |}
                end
            end
        end
    end.

Definition passesHeuristics (m : MountArgv) : bool :=
  negb (is_empty (m_target m)) && negb (is_empty (m_source m)) &&
  negb (is_empty (m_filesystem_type m)) &&
  Ascii.eqb (str_nth 0 (m_target m)) "/" &&
  Nat.leb (String.length (m_filesystem_type m)) 10 &&
  Nat.leb 2 (String.length (m_filesystem_type m)) &&
  contains (m_mount_options m) "seclabel".

(** The first address whose fossil is valid and convincing, among [n] of them from [p]. *)
Fixpoint find_from (n : nat) (mem : list ascii) (p limit : nat) : option MountArgv :=
  match n with
  | O => None
  | S n =>
      match parseFromMemory mem p limit with
      | Some m => if passesHeuristics m then Some m else find_from n mem (S p) limit
      | None => find_from n mem (S p) limit
      end
  end.
Definition find (mem : list ascii) (limit : nat) : option MountArgv :=
  find_from limit mem 0 limit.

(** ** Writing *)

(** A [memcpy] to offset [off]; past the end of the memory it is undefined. *)
Definition patch (mem : list ascii) (off : nat) (bs : list ascii) : res (list ascii) :=
  if Nat.leb (off + List.length bs) (List.length mem)
  then Val (firstn off mem ++ bs ++ skipn (off + List.length bs) mem)
  else Stop (Undefined "write past the memory").

Definition c_bytes (s : string) : list ascii := list_ascii_of_string s ++ [nul].
Definition flag_bytes (flags : Z) : list ascii := map char (le_bytes 4 flags).

(** What [writeToMemory]'s copies lay out one after the other. *)
Definition fossil_bytes (m : MountArgv) : list ascii :=
  c_bytes (m_source m) ++ c_bytes (m_target m) ++ c_bytes (m_filesystem_type m) ++
  c_bytes (m_mount_options m) ++ flag_bytes (m_base_flags m).
Definition writeToMemory (m : MountArgv) (mem : list ascii) : res (list ascii) :=
  patch mem (m_start_address m) (fossil_bytes m).

Definition cleanMemory (m : MountArgv) (mem : list ascii) : res (list ascii) :=
  patch mem (m_start_address m) (repeat nul (m_fossil_size m + m_remnant_size m)).

(** The second constructor: a fossil to write, built from an entry of mountinfo. *)
Definition from_entry (e : MountInfoEntry) (start : nat) (flags : Z) : MountArgv :=
  {| m_start_address := start; m_source := source e; m_target := target e;
     m_filesystem_type := filesystem_type e; m_mount_options := mount_options e;
     m_base_flags := flags;
     m_fossil_size := (String.length (source e) + 1) + (String.length (target e) + 1) +
                      (String.length (filesystem_type e) + 1) +
                      (String.length (mount_options e) + 1) + 4;
     m_remnant_size := 0 |}.

(** ** mountinfo *)

(** [stream >> token]: an empty token and an exhausted stream when there is none. *)
Definition take_token (s : string) : string * string :=
  match next_token s with Some (t, r) => (t, r) | None => ("", "") end.

Definition parseMountInfoLine (line : string) : MountInfoEntry :=
  match str_find " - " line with
  | None => {| source := ""; target := ""; filesystem_type := ""; mount_options := "";
               is_suspicious := false |}
  | Some sep =>
      let before := String.substring 0 sep line in
      let after := drop_str (sep + 3) line in
      let '(_, b) := take_token before in
      let '(_, b) := take_token b in
      let '(_, b) := take_token b in
      let '(_, b) := take_token b in
      let '(tgt, _) := take_token b in
      let '(fstype, a) := take_token after in
      let '(src, a) := take_token a in
      {| source := src; target := tgt; filesystem_type := fstype;
         mount_options := skip_space a; is_suspicious := false |}
  end.

Definition keywords : list string :=
  ["KSU"; "/debug_ramdisk"; "APATCH"; "/data/adb"; "/adb/modules"; "/dev/block/loop"].

Definition parse_entry (line : string) : MountInfoEntry :=
  let e := parseMountInfoLine line in
  {| source := source e; target := target e; filesystem_type := filesystem_type e;
     mount_options := mount_options e;
     is_suspicious := existsb (contains line) keywords |}.

(** The file's content, or nothing when it cannot be opened. *)
Definition parseMountInfo (content : option string) : list MountInfoEntry :=
  match content with None => [] | Some c => map parse_entry (getlines c) end.

(** ** Spoofing *)

(** The first of the anchor's entries that has a suspicious one right behind it. *)
Fixpoint find_template (entries : list MountInfoEntry) (anchor : string) : option MountInfoEntry :=
  match entries with
  | e :: (e' :: _) as rest =>
      if contains (target e) anchor && is_suspicious e' then Some e
      else find_template rest anchor
  | _ => None
  end.

Definition spoof_zygote_fossil (mem : list ascii) (limit : nat) (anchor : string)
    (mountinfo : option string) : res (list ascii) :=
  match find mem limit with
  | None => Val mem
  | Some suspicious =>
      if contains (m_target suspicious) anchor then Val mem
      else
        match find_template (parseMountInfo mountinfo) anchor with
        | None => Val mem
        | Some e =>
            let clean := from_entry e (m_start_address suspicious) (m_base_flags suspicious) in
            match cleanMemory suspicious mem with
            | Val mem => writeToMemory clean mem
            | Stop h => Stop h
            end
        end
  end.

(** ** Facts: parsing what was written *)

Lemma strnlen_le n bs : strnlen n bs <= n.
Proof.
  revert bs. induction n as [|n IH]; intros [|c bs]; cbn [strnlen]; try lia.
  destruct (Ascii.eqb c nul); [lia|]. specialize (IH bs). lia.
Qed.

Lemma strnlen_at n s rest :
  no_nul s = true -> String.length s < n ->
  strnlen n (list_ascii_of_string s ++ nul :: rest) = String.length s.
Proof.
  revert n. induction s as [|c s IH]; intros [|n] Hs Hn; cbn [strnlen list_ascii_of_string app String.length no_nul] in *; try lia; [done|].
  apply andb_prop in Hs as [Hc Hs]. apply negb_true_iff in Hc. rewrite Hc.
  f_equal. apply IH; [done|lia].
Qed.

Lemma parse_field_at mem ptr limit s rest :
  skipn ptr mem = list_ascii_of_string s ++ nul :: rest -> no_nul s = true ->
  ptr + String.length s < limit ->
  parse_and_copy_string_field mem ptr limit = Some (s, ptr + String.length s + 1) /\
  skipn (ptr + String.length s + 1) mem = rest.
Proof.
  intros Hm Hs Hl. unfold parse_and_copy_string_field. rewrite Hm.
  rewrite strnlen_at by (done || lia).
  destruct (Nat.eqb_spec (String.length s) (limit - ptr)); [lia|]. split.
  - rewrite <- length_list_ascii. rewrite firstn_app, firstn_all, Nat.sub_diag. cbn [firstn].
    by rewrite app_nil_r, string_of_list_ascii_of_string.
  - replace (ptr + String.length s + 1) with ((String.length s + 1) + ptr) by lia.
    rewrite <- skipn_skipn, Hm. rewrite skipn_app, length_list_ascii.
    rewrite skipn_all2 by (rewrite length_list_ascii; lia).
    by replace (String.length s + 1 - String.length s) with 1 by lia.
Qed.

Lemma code_char z : (0 <= z < 256)%Z -> code (char z) = z.
Proof.
  intros H. unfold code, char. rewrite N_ascii_embedding; lia.
Qed.

Lemma le_bytes_range n z : Forall (fun b => (0 <= b < 256)%Z) (le_bytes n z).
Proof.
  revert z. induction n as [|n IH]; intros z; cbn [le_bytes]; constructor; [|apply IH].
  apply Z.mod_pos_bound. lia.
Qed.

Lemma flag_bytes_value flags : le_value (map code (flag_bytes flags)) = (flags mod 2 ^ 32)%Z.
Proof.
  unfold flag_bytes. rewrite map_map. rewrite map_ext_Forall with (g := id).
  - rewrite map_id. exact (le_value_bytes 4 flags).
  - eapply Forall_impl; [apply le_bytes_range|]. intros z Hz. by apply code_char.
Qed.

Lemma length_fossil m :
  List.length (fossil_bytes m) =
    (String.length (m_source m) + 1) + (String.length (m_target m) + 1) +
    (String.length (m_filesystem_type m) + 1) + (String.length (m_mount_options m) + 1) + 4.
Proof.
  unfold fossil_bytes, c_bytes, flag_bytes. rewrite !length_app, !length_list_ascii, !length_map.
  cbn. lia.
Qed.

Lemma skipn_patch mem off bs mem' :
  patch mem off bs = Val mem' -> skipn off mem' = bs ++ skipn (off + List.length bs) mem.
Proof.
  unfold patch. destruct (Nat.leb_spec (off + List.length bs) (List.length mem)); [|done].
  intros [= <-]. rewrite skipn_app. rewrite skipn_all2 by (rewrite length_firstn; lia).
  rewrite length_firstn. by replace (off - Nat.min off (List.length mem)) with 0 by lia.
Qed.

Definition plain_fossil (m : MountArgv) : Prop :=
  no_nul (m_source m) = true /\ no_nul (m_target m) = true /\
  no_nul (m_filesystem_type m) = true /\ no_nul (m_mount_options m) = true.

Lemma written_is_read m mem mem' limit :
  plain_fossil m -> writeToMemory m mem = Val mem' ->
  m_start_address m + List.length (fossil_bytes m) <= limit ->
  exists m', parseFromMemory mem' (m_start_address m) limit = Some m' /\
    m_target m' = m_target m /\ m_source m' = m_source m /\
    m_filesystem_type m' = m_filesystem_type m /\ m_mount_options m' = m_mount_options m /\
    m_start_address m' = m_start_address m /\
    m_base_flags m' = (m_base_flags m mod 2 ^ 32)%Z /\
    m_fossil_size m' = List.length (fossil_bytes m).
Proof.
  intros (H1 & H2 & H3 & H4) Hw Hl. apply skipn_patch in Hw.
  rewrite length_fossil in *. unfold fossil_bytes, c_bytes in Hw. rewrite <- !app_assoc in Hw.
  cbn [app] in Hw. set (start := m_start_address m) in *.
  unfold parseFromMemory. destruct (Nat.leb_spec limit start); [lia|].
  destruct (parse_field_at _ _ limit _ _ Hw H1) as [-> Hw2]; [lia|].
  destruct (parse_field_at _ _ limit _ _ Hw2 H2) as [-> Hw3]; [lia|].
  destruct (parse_field_at _ _ limit _ _ Hw3 H3) as [-> Hw4]; [lia|].
  destruct (parse_field_at _ _ limit _ _ Hw4 H4) as [-> Hw5]; [lia|].
  match goal with |- context [Nat.ltb limit ?x] => destruct (Nat.ltb_spec limit x); [lia|] end.
  eexists. split; [reflexivity|]. cbn. split_and!; try done; [|lia].
  unfold flags_at. rewrite Hw5. rewrite firstn_app.
  replace (4 - List.length (flag_bytes (m_base_flags m))) with 0
    by (unfold flag_bytes; rewrite length_map; reflexivity).
  rewrite firstn_0, app_nil_r, firstn_all2
    by (unfold flag_bytes; rewrite length_map; cbn; lia).
  apply flag_bytes_value.
Qed.

Lemma patch_length mem off bs mem' : patch mem off bs = Val mem' -> List.length mem' = List.length mem.
Proof.
  unfold patch. destruct (Nat.leb_spec (off + List.length bs) (List.length mem)); [|done].
  intros [= <-]. rewrite !length_app, length_firstn, length_skipn. lia.
Qed.

Lemma patch_fits mem off bs mem' : patch mem off bs = Val mem' -> off + List.length bs <= List.length mem.
Proof. unfold patch. by destruct (Nat.leb_spec (off + List.length bs) (List.length mem)). Qed.

Lemma nth_error_skipn_at {A} (l : list A) a n : nth_error (skipn a l) n = nth_error l (a + n).
Proof. revert l. induction a as [|a IH]; intros [|x l]; cbn; auto. by destruct n. Qed.

(** What is written is what is read back. After [writeToMemory] of a fossil whose strings
    hold no NUL, parsing the memory at its address gives a valid fossil with the same four
    strings, the same 32-bit flags and the size written, as long as it lies below the limit. *)
Theorem fossil_roundtrip m mem mem' limit :
  plain_fossil m -> writeToMemory m mem = Val mem' ->
  m_start_address m + List.length (fossil_bytes m) <= limit ->
  exists m', parseFromMemory mem' (m_start_address m) limit = Some m' /\
    m_start_address m' = m_start_address m /\
    m_source m' = m_source m /\ m_target m' = m_target m /\
    m_filesystem_type m' = m_filesystem_type m /\ m_mount_options m' = m_mount_options m /\
    m_base_flags m' = (m_base_flags m mod 2 ^ 32)%Z /\
    m_fossil_size m' = List.length (fossil_bytes m).
Proof.
  intros Hp Hw Hl. destruct (written_is_read m mem mem' limit Hp Hw Hl) as (m' & H). exists m'.
  naive_solver.
Qed.

(** ** Facts: the search *)

Lemma find_from_spec n mem p limit :
  match find_from n mem p limit with
  | Some m => exists q, p <= q < p + n /\ parseFromMemory mem q limit = Some m /\
      passesHeuristics m = true /\
      forall r, p <= r < q -> forall m', parseFromMemory mem r limit = Some m' ->
        passesHeuristics m' = false
  | None => forall r, p <= r < p + n -> forall m', parseFromMemory mem r limit = Some m' ->
        passesHeuristics m' = false
  end.
Proof.
  revert p. induction n as [|n IH]; intros p; [cbn; intros; lia|]. cbn [find_from].
  assert (forall m', parseFromMemory mem p limit = Some m' -> passesHeuristics m' = false ->
    match find_from n mem (S p) limit with
    | Some m => exists q, p <= q < p + S n /\ parseFromMemory mem q limit = Some m /\
        passesHeuristics m = true /\
        forall r, p <= r < q -> forall m', parseFromMemory mem r limit = Some m' ->
          passesHeuristics m' = false
    | None => forall r, p <= r < p + S n -> forall m', parseFromMemory mem r limit = Some m' ->
          passesHeuristics m' = false
    end) as Hnext.
  { intros m0 Hm0 Hh0. specialize (IH (S p)). destruct (find_from n mem (S p) limit) as [m|].
    - destruct IH as (q & Hq & Hp & Hh & Hr). exists q. split; [lia|]. split; [done|]. split; [done|].
      intros r Hr' m' Hm'. destruct (Nat.eq_dec r p) as [->|]; [congruence|]. apply (Hr r); [lia|done].
    - intros r Hr m' Hm'. destruct (Nat.eq_dec r p) as [->|]; [congruence|]. apply (IH r); [lia|done]. }
  destruct (parseFromMemory mem p limit) as [m|] eqn:Ep.
  - destruct (passesHeuristics m) eqn:Eh; [|by apply (Hnext m)].
    exists p. split; [lia|]. split; [done|]. split; [done|]. intros. lia.
  - specialize (IH (S p)). destruct (find_from n mem (S p) limit) as [m|].
    + destruct IH as (q & Hq & Hp & Hh & Hr). exists q. split; [lia|]. split; [done|]. split; [done|].
      intros r Hr' m' Hm'. destruct (Nat.eq_dec r p) as [->|]; [congruence|]. apply (Hr r); [lia|done].
    + intros r Hr m' Hm'. destruct (Nat.eq_dec r p) as [->|]; [congruence|]. apply (IH r); [lia|done].
Qed.

(** The clean template: the first entry of the anchor's with a suspicious one right behind it. *)
Definition marks (anchor : string) (x y : MountInfoEntry) : Prop :=
  contains (target x) anchor = true /\ is_suspicious y = true.
Definition pair_in (l : list MountInfoEntry) (x y : MountInfoEntry) : Prop :=
  exists before after, l = before ++ x :: y :: after.
Definition template (entries : list MountInfoEntry) (anchor : string) (e : MountInfoEntry) : Prop :=
  exists before e' after, entries = before ++ e :: e' :: after /\ marks anchor e e' /\
    forall x y, pair_in (before ++ [e]) x y -> ~ marks anchor x y.

Lemma pair_in_cons l a b x y :
  pair_in (a :: b :: l) x y <-> (x = a /\ y = b) \/ pair_in (b :: l) x y.
Proof.
  split.
  - intros ([|c before] & after & E); cbn [app] in E.
    + injection E as -> -> _. by left.
    + injection E as _ E. right. by exists before, after.
  - intros [[-> ->]|(before & after & E)]; [by exists [], l|].
    exists (a :: before), after. cbn. by rewrite <- E.
Qed.
Lemma pair_in_short l x y : List.length l <= 1 -> ~ pair_in l x y.
Proof. intros Hl (before & after & ->). rewrite length_app in Hl. cbn in Hl. lia. Qed.

Lemma find_template_cons a b rest anchor :
  find_template (a :: b :: rest) anchor =
    if contains (target a) anchor && is_suspicious b then Some a else find_template (b :: rest) anchor.
Proof. done. Qed.

Lemma find_template_spec entries anchor :
  match find_template entries anchor with
  | Some e => template entries anchor e
  | None => forall x y, pair_in entries x y -> ~ marks anchor x y
  end.
Proof.
  induction entries as [|a [|b rest] IH]; [| |rewrite find_template_cons];
    [intros x y H; exfalso; eapply pair_in_short, H; cbn; lia..|].
  assert (contains (target a) anchor && is_suspicious b = true <-> marks anchor a b) as Hm
    by apply andb_true_iff.
  revert Hm. destruct (contains (target a) anchor && is_suspicious b); intros Hm.
  - exists [], b, rest. split; [done|]. split; [by apply Hm|].
    intros x y H. exfalso. eapply pair_in_short, H; cbn; lia.
  - assert (~ marks anchor a b) as Hn by (intros H; discriminate (proj2 Hm H)).
    destruct (find_template (b :: rest) anchor) as [e|].
    + destruct IH as (before & e' & after & E & He & Hb). exists (a :: before), e', after.
      split; [by rewrite E|]. split; [done|]. intros x y. cbn [app].
      destruct before as [|b' before]; simplify_eq/=;
        rewrite pair_in_cons; intros [[-> ->]|H]; eauto.
    + intros x y. rewrite pair_in_cons. intros [[-> ->]|H]; eauto.
Qed.

Lemma parse_start mem p limit m : parseFromMemory mem p limit = Some m -> m_start_address m = p.
Proof.
  unfold parseFromMemory. destruct (Nat.leb limit p); [done|].
  repeat (destruct (parse_and_copy_string_field mem _ limit) as [[? ?]|]; [|done]).
  destruct (Nat.ltb limit _); [done|]. by intros [= <-].
Qed.

(** The first convincing fossil of the range: its address lies below the limit and parses to a
    fossil that passes the heuristics; no address before it does. *)
Definition convincing (mem : list ascii) (limit p : nat) (m : MountArgv) : Prop :=
  parseFromMemory mem p limit = Some m /\ passesHeuristics m = true.
Definition first_convincing (mem : list ascii) (limit : nat) (m : MountArgv) : Prop :=
  m_start_address m < limit /\ convincing mem limit (m_start_address m) m /\
  forall r m', r < m_start_address m -> ~ convincing mem limit r m'.

Lemma find_first mem limit :
  match find mem limit with
  | Some m => first_convincing mem limit m
  | None => forall r m, r < limit -> ~ convincing mem limit r m
  end.
Proof.
  unfold find. pose proof (find_from_spec limit mem 0 limit) as H.
  destruct (find_from limit mem 0 limit) as [m|].
  - destruct H as (q & Hq & Hp & Hh & Hr). unfold first_convincing, convincing.
    rewrite (parse_start _ _ _ _ Hp). split; [lia|]. split; [done|].
    intros r m' Hr' [Hm' Hh']. rewrite (Hr r) in Hh'; [done|lia|done].
  - intros r m Hr [Hm' Hh']. rewrite (H r) in Hh'; [done|lia|done].
Qed.

(** ** Facts: what the spoof leaves behind *)

Lemma skipn_repeated {A} (x : A) k n : skipn k (repeat x n) = repeat x (n - k).
Proof. revert n. induction k as [|k IH]; intros [|n]; cbn; auto. Qed.

Lemma patch_twice mem off n bs mem1 mem2 :
  patch mem off (repeat nul n) = Val mem1 -> patch mem1 off bs = Val mem2 ->
  List.length mem2 = List.length mem /\
  mem2 = firstn off mem ++ bs ++ repeat nul (n - List.length bs) ++
         skipn (off + Nat.max n (List.length bs)) mem.
Proof.
  intros H1 H2. pose proof (skipn_patch _ _ _ _ H1) as Hs1. revert H1 H2. unfold patch.
  rewrite repeat_length in *.
  destruct (Nat.leb_spec (off + n) (List.length mem)); [|done]. intros [= <-].
  set (mem1 := firstn off mem ++ repeat nul n ++ skipn (off + n) mem) in *.
  assert (List.length mem1 = List.length mem) as Hl1.
  { unfold mem1. rewrite !length_app, repeat_length, length_firstn, length_skipn. lia. }
  destruct (Nat.leb_spec (off + List.length bs) (List.length mem1)); [|done]. intros [= <-].
  split. { rewrite !length_app, length_firstn, length_skipn. lia. }
  f_equal.
  - unfold mem1. rewrite firstn_app, firstn_firstn, length_firstn.
    replace (off - Nat.min off (List.length mem)) with 0 by lia.
    rewrite firstn_0, app_nil_r. f_equal. lia.
  - f_equal. rewrite Nat.add_comm, <- skipn_skipn, Hs1, skipn_app, repeat_length.
    rewrite skipn_repeated, skipn_skipn. f_equal. f_equal. lia.
Qed.

(** The bytes the spoof writes, and how many bytes it cleared. *)
Definition spoofed (m : MountArgv) (e : MountInfoEntry) : list ascii :=
  fossil_bytes (from_entry e (m_start_address m) (m_base_flags m)).
Definition cleared (m : MountArgv) : nat := m_fossil_size m + m_remnant_size m.

(** Both writes succeed when the longer of the two fits. *)
Lemma spoof_writes m e mem limit :
  let start := m_start_address m in
  let size := List.length (spoofed m e) in
  let written := match cleanMemory m mem with
                 | Val mem => writeToMemory (from_entry e start (m_base_flags m)) mem
                 | Stop h => Stop h
                 end in
  if decide (start + Nat.max (cleared m) size <= List.length mem) then
    exists mem', written = Val mem' /\ List.length mem' = List.length mem /\
      mem' = firstn start mem ++ spoofed m e ++ repeat nul (cleared m - size) ++
             skipn (start + Nat.max (cleared m) size) mem /\
      (plain_fossil (from_entry e 0 0) -> List.length mem <= limit ->
        exists m', parseFromMemory mem' start limit = Some m' /\
          m_target m' = target e /\ m_source m' = source e /\
          m_filesystem_type m' = filesystem_type e /\ m_mount_options m' = mount_options e)
  else written = Stop (Undefined "write past the memory").
Proof.
  cbv zeta. destruct (cleanMemory m mem) as [mem1|h] eqn:Ec.
  2: { unfold cleanMemory, patch in Ec. rewrite repeat_length in Ec. unfold cleared.
       destruct (Nat.leb_spec (m_start_address m + (m_fossil_size m + m_remnant_size m))
                   (List.length mem)); [done|].
       rewrite decide_False by lia. by injection Ec as <-. }
  pose proof (patch_length _ _ _ _ Ec) as Hl. pose proof (patch_fits _ _ _ _ Ec) as Hfit.
  rewrite repeat_length in Hfit. fold (cleared m) in Hfit.
  destruct (writeToMemory _ mem1) as [mem'|h] eqn:Ew.
  2: { unfold writeToMemory, patch in Ew. cbn [m_start_address from_entry] in Ew.
       fold (spoofed m e) in Ew. destruct (Nat.leb_spec (m_start_address m + List.length (spoofed m e))
                   (List.length mem1)); [done|].
       rewrite decide_False by lia. by injection Ew as <-. }
  pose proof (patch_fits _ _ _ _ Ew) as Hfit'. cbn [m_start_address from_entry] in Hfit'.
  fold (spoofed m e) in Hfit'. rewrite decide_True by lia. exists mem'. split; [done|].
  destruct (patch_twice _ _ _ _ _ _ Ec Ew) as [Hlen Hmem]. split; [done|]. split; [exact Hmem|].
  intros Hplain Hlim.
  destruct (written_is_read (from_entry e (m_start_address m) (m_base_flags m)) mem1 mem' limit)
    as (m' & Hm'); [done|done| |].
  - unfold spoofed in Hfit'. cbn [m_start_address from_entry] in *. lia.
  - exists m'. naive_solver.
Qed.

(** C38: what [spoof_zygote_fossil] does, case by case. It leaves the memory as it was when no
    convincing fossil is in range, when the first one is the anchor's, or when mountinfo has no
    entry of the anchor's right before a suspicious one. Otherwise the memory holds the clean
    fossil, made from the first such entry, at the first convincing fossil's address, followed
    by zeroes up to the end of the old fossil and its remnant if it is shorter than the two; and
    the bytes in front, and those behind both, are what they were. A longer one runs over what
    lies behind the remnant ([spoof_overruns]), and one that does not fit the memory at all is
    written past its end. Reading the fossil back gives the clean entry. *)
Theorem spoof_effect mem limit anchor mountinfo :
  let result := spoof_zygote_fossil mem limit anchor mountinfo in
  (result = Val mem /\
   ((forall r m, r < limit -> ~ convincing mem limit r m) \/
    (exists m, first_convincing mem limit m /\ contains (m_target m) anchor = true) \/
    (forall x y, pair_in (parseMountInfo mountinfo) x y -> ~ marks anchor x y))) \/
  exists m e,
    first_convincing mem limit m /\ contains (m_target m) anchor = false /\
    template (parseMountInfo mountinfo) anchor e /\
    let start := m_start_address m in
    let size := List.length (spoofed m e) in
    if decide (start + Nat.max (cleared m) size <= List.length mem) then
      exists mem', result = Val mem' /\ List.length mem' = List.length mem /\
        mem' = firstn start mem ++ spoofed m e ++ repeat nul (cleared m - size) ++
               skipn (start + Nat.max (cleared m) size) mem /\
        (plain_fossil (from_entry e 0 0) -> List.length mem <= limit ->
          exists m', parseFromMemory mem' start limit = Some m' /\
            m_target m' = target e /\ m_source m' = source e /\
            m_filesystem_type m' = filesystem_type e /\ m_mount_options m' = mount_options e)
    else result = Stop (Undefined "write past the memory").
Proof.
  intros result. unfold result, spoof_zygote_fossil. pose proof (find_first mem limit) as Hf.
  destruct (find mem limit) as [m|]; [|left; split; [done|by left]].
  destruct (contains (m_target m) anchor) eqn:Ea; [left; split; [done|]; right; left; eauto|].
  pose proof (find_template_spec (parseMountInfo mountinfo) anchor) as Ht.
  destruct (find_template (parseMountInfo mountinfo) anchor) as [e|]; [|left; split; [done|by right; right]].
  right. exists m, e. do 3 (split; [done|]). cbv zeta.
  exact (spoof_writes m e mem limit).
Qed.

(** The clean fossil can be longer than the fossil it replaces, and the bytes behind the old
    one's remnant are then overwritten: [spoof_zygote_fossil] never compares the two sizes. *)
Theorem spoof_overruns m e mem limit anchor mountinfo mem' n :
  find mem limit = Some m -> contains (m_target m) anchor = false ->
  find_template (parseMountInfo mountinfo) anchor = Some e ->
  spoof_zygote_fossil mem limit anchor mountinfo = Val mem' ->
  cleared m <= n < List.length (spoofed m e) ->
  nth_error mem' (m_start_address m + n) = nth_error (spoofed m e) n.
Proof.
  intros Hf Ha Ht. unfold spoof_zygote_fossil. rewrite Hf, Ha, Ht.
  destruct (cleanMemory m mem) as [mem1|] eqn:Ec; [|done]. intros Ew [_ Hn].
  apply skipn_patch in Ew. rewrite <- nth_error_skipn_at. cbn in Ew. rewrite Ew.
  by rewrite nth_error_app1.
Qed.

(** ** Witnesses *)

(** A stack with a module's fossil between other data. *)
Definition dirty : MountArgv :=
  {| m_start_address := 3; m_source := "KSU"; m_target := "/s"; m_filesystem_type := "tmpfs";
     m_mount_options := "seclabel"; m_base_flags := 1; m_fossil_size := 26; m_remnant_size := 2 |}.
Definition stack : list ascii :=
  ["001"; "002"; nul]%char ++ fossil_bytes dirty ++ ["x"; "y"; nul; nul]%char ++ repeat "007"%char 40.
Definition anchors : string := "/data/mirror/ref_profiles".
Definition table : string :=
  "1 0 0:1 / " +:+ anchors +:+ " rw - ext4 /dev/block/dm-5 rw,seclabel" +:+ String "010"
  ("2 0 0:2 / /s rw - tmpfs KSU rw,seclabel" +:+ String "010" "").

Example find_on_stack :
  option_map (fun m => (m_target m, m_start_address m)) (find stack (List.length stack)) =
  Some ("/s", 3).
Proof. vm_compute. reflexivity. Qed.

Definition written : list ascii :=
  match writeToMemory dirty (repeat nul 64) with Val mem => mem | Stop _ => [] end.
Definition spoofed_stack : list ascii :=
  match spoof_zygote_fossil stack (List.length stack) "ref_profiles" (Some table) with
  | Val mem => mem
  | Stop _ => []
  end.
Definition clean_entry : MountInfoEntry :=
  {| source := "/dev/block/dm-5"; target := anchors; filesystem_type := "ext4";
     mount_options := "rw,seclabel"; is_suspicious := false |}.
Definition found : MountArgv :=
  match find stack (List.length stack) with Some m => m | None => dirty end.

Lemma fossil_roundtrip_witness :
  exists m', parseFromMemory written 3 64 = Some m' /\ m_target m' = "/s".
Proof.
  destruct (fossil_roundtrip dirty (repeat nul 64) written 64) as (m' & H & _ & _ & Ht & _);
    [by split_and!|reflexivity|vm_compute; lia|].
  exists m'. by split.
Defined.

Lemma spoof_effect_example :
  spoof_zygote_fossil stack (List.length stack) "ref_profiles" (Some table) = Val spoofed_stack /\
  spoofed_stack <> stack /\ List.length spoofed_stack = List.length stack.
Proof. split; [reflexivity|]. split; [discriminate|vm_compute; reflexivity]. Qed.

(** A byte of the stack behind the fossil and its remnant that the spoof overwrites. *)
Lemma spoof_overruns_witness :
  nth_error stack (3 + 40) = Some "007"%char /\
  nth_error spoofed_stack (3 + 40) = nth_error (spoofed found clean_entry) 40 /\
  nth_error spoofed_stack (3 + 40) = Some "s"%char.
Proof.
  split; [reflexivity|]. split; [|vm_compute; reflexivity].
  apply (spoof_overruns found clean_entry stack (List.length stack) "ref_profiles" (Some table)
           spoofed_stack 40); [reflexivity..|vm_compute; lia].
Defined.
