(* ===== verification/Mounts.v ===== *)
(** * The mounts of the root implementation

    injector/unmount.cpp, and [abort_zygote_unmount] of injector/module.cpp: reading mountinfo,
    picking the mounts to take away from zygote, and the order they are taken away in. *)
From Stdlib Require Import ZArith Lia List String Ascii Bool Sorting.
From stdpp Require Import base list strings.
From S2P Require Import Prelude.
From S2P Require Import Scan.
Open Scope string_scope.
Open Scope list_scope.
Open Scope Z_scope.

(** module.hpp: what the daemon says about a process and about the device. *)
Definition PROCESS_GRANTED_ROOT : Z := 0x1.
Definition PROCESS_ON_DENYLIST : Z := 0x2.
Definition PROCESS_IS_MANAGER : Z := Z.shiftl 1 27.
Definition PROCESS_ROOT_IS_APATCH : Z := Z.shiftl 1 28.
Definition PROCESS_ROOT_IS_KSU : Z := Z.shiftl 1 29.
Definition PROCESS_ROOT_IS_MAGISK : Z := Z.shiftl 1 30.
Definition PRIVATE_MASK : Z :=
  Z.lor (Z.lor (Z.lor PROCESS_IS_MANAGER PROCESS_ROOT_IS_APATCH) PROCESS_ROOT_IS_KSU)
        PROCESS_ROOT_IS_MAGISK.
Definition UNMOUNT_MASK : Z := PROCESS_ON_DENYLIST.

(** zygisk.hpp. *)
Record mount_info := {
  id : Z; parent : Z; device : Z; root : string; target : string; vfs_options : string;
  type : string; source : string; fs_options : string; raw_info : string }.

(** ** mountinfo

    The device is given with the 64 bits a [dev_t] has there; a 32-bit loader keeps the lower
    half. Nothing reads it. *)

(** What [getline] left, without its first character when that is a blank; anything else is
    dropped, the field staying empty. *)
Definition remainder (s : string) : string :=
  match s with String " " s' => s' | _ => "" end.

Definition parse_device (s : string) : option (Z * Z) :=
  match scan_u 32 s with None => None | Some (maj, s) =>
  match scan_lit ":" s with None => None | Some s =>
  match scan_u 32 s with None => None | Some (min, _) => Some (maj, min)
  end end end.

(** The body of the loop: nothing for a malformed line. *)
Definition parse_line (line : string) : option mount_info :=
  match str_find " - " line with None => None | Some sep =>
  let part1 := String.substring 0 sep line in
  let part2 := drop_str (sep + 3) line in
  match next_unsigned part1 with None => None | Some (i, s) =>
  match next_unsigned s with None => None | Some (p, s) =>
  match next_token s with None => None | Some (dev, s) =>
  match next_token s with None => None | Some (rt, s) =>
  match next_token s with None => None | Some (tgt, s) =>
  match parse_device dev with None => None | Some (maj, min) =>
  let vfs := remainder s in
  match next_token part2 with None => None | Some (ty, s) =>
  match next_token s with None => None | Some (src, s) =>
    Some {| id := i; parent := p; device := makedev 64 maj min; root := rt; target := tgt;
            vfs_options := vfs; type := ty; source := src; fs_options := remainder s;
            raw_info := line |}
  end end end end end end end end end.

(** The file's content, or nothing when it could not be opened. *)
Definition parse_mount_info (content : option string) : list mount_info :=
  match content with
  | None => []
  | Some c => omap parse_line (getlines c)
  end.

(** ** Picking *)

Definition modules_dir : string := "/data/adb/modules".

(** The name the root implementation mounts under, and whether it is KernelSU. *)
Definition mount_source_name (info_flags : Z) : option (string * bool) :=
  if has_flag info_flags PROCESS_ROOT_IS_APATCH then Some ("APatch", false)
  else if has_flag info_flags PROCESS_ROOT_IS_KSU then Some ("KSU", true)
  else if has_flag info_flags PROCESS_ROOT_IS_MAGISK then Some ("magisk", false)
  else None.

Definition kernel_su_module_source (mounts : list mount_info) : string :=
  match List.find (fun i => String.eqb (target i) modules_dir &&
                            starts_with (source i) "/dev/block/loop") mounts with
  | Some i => source i
  | None => ""
  end.

Definition should_unmount (name loop : string) (i : mount_info) : bool :=
  starts_with (root i) "/adb/modules" || starts_with (target i) modules_dir ||
  String.eqb (source i) name ||
  (negb (is_empty loop) && String.eqb (source i) loop).

(** By descending mount id. Ids are unique in a mount namespace. *)
Definition sort_by_id (l : list mount_info) : list mount_info := sort_desc id l.

Definition check_zygote_traces (info_flags : Z) (content : option string) : list mount_info :=
  let mounts := parse_mount_info content in
  match mounts with
  | [] => []
  | _ =>
      match mount_source_name info_flags with
      | None => []
      | Some (name, is_kernelsu) =>
          let loop := if is_kernelsu then kernel_su_module_source mounts else "" in
          sort_by_id (List.filter (should_unmount name loop) mounts)
      end
  end.

(** The loop of [abort_zygote_unmount] over one trace. *)
Definition prohibited (is_magisk : bool) (trace : mount_info) : bool :=
  starts_with (target trace) "/product" &&
  negb (starts_with (target trace) "/product/bin") &&
  negb (negb is_magisk && negb (String.eqb (target trace) "/product")).

Definition abort_zygote_unmount (traces : list mount_info) (info_flags : Z) : bool :=
  match traces with
  | [] => true
  | _ => existsb (prohibited (has_flag info_flags PROCESS_ROOT_IS_MAGISK)) traces
  end.

(** ** Facts *)

(** *** What the root implementation leaves behind

    Said without the code's functions: the bits of the flags are the daemon's, the names are the
    root implementations' own. *)

Definition begins (prefix s : string) : Prop := exists rest, s = prefix +:+ rest.

(** KernelSU's image of the modules: the first mount on the directory from a loop device. *)
Definition on_modules_loop (i : mount_info) : Prop :=
  target i = "/data/adb/modules" /\ begins "/dev/block/loop" (source i).
Definition modules_image (mounts : list mount_info) (src : string) : Prop :=
  exists before i after, mounts = before ++ i :: after /\
    on_modules_loop i /\ src = source i /\ Forall (fun i' => ~ on_modules_loop i') before.

Inductive root_mount (info_flags : Z) (mounts : list mount_info) (i : mount_info) : Prop :=
| of_module_root : begins "/adb/modules" (root i) -> root_mount info_flags mounts i
| of_module_target : begins "/data/adb/modules" (target i) -> root_mount info_flags mounts i
| of_apatch : Z.testbit info_flags 28 = true -> source i = "APatch" ->
    root_mount info_flags mounts i
| of_kernelsu : Z.testbit info_flags 28 = false -> Z.testbit info_flags 29 = true ->
    source i = "KSU" \/ modules_image mounts (source i) -> root_mount info_flags mounts i
| of_magisk : Z.testbit info_flags 28 = false -> Z.testbit info_flags 29 = false ->
    Z.testbit info_flags 30 = true -> source i = "magisk" -> root_mount info_flags mounts i.

Lemma starts_with_begins s p : starts_with s p = true <-> begins p s.
Proof.
  unfold starts_with, begins. revert s. induction p as [|c p IH]; intros s.
  - split; [by exists s|by destruct s].
  - destruct s as [|c' s]; cbn [String.prefix]; [split; [done|by intros [? [=]]]|].
    destruct (ascii_dec c c') as [->|Hne]; [|split; [done|intros [r E]]].
    + rewrite IH. split; intros [r E]; exists r; [by rewrite append_cons, E|].
      rewrite append_cons in E. by injection E.
    + rewrite append_cons in E. by injection E as <- _.
Qed.

Lemma find_loop mounts :
  match List.find (fun i => String.eqb (target i) modules_dir &&
                            starts_with (source i) "/dev/block/loop") mounts with
  | Some i => exists before after, mounts = before ++ i :: after /\ on_modules_loop i /\
                Forall (fun i' => ~ on_modules_loop i') before
  | None => Forall (fun i' => ~ on_modules_loop i') mounts
  end.
Proof.
  induction mounts as [|i mounts IH]; [by constructor|]. cbn [List.find].
  assert (String.eqb (target i) modules_dir && starts_with (source i) "/dev/block/loop" = true
          <-> on_modules_loop i) as E.
  { unfold on_modules_loop. by rewrite andb_true_iff, String.eqb_eq, starts_with_begins. }
  destruct (_ && _).
  - exists [], mounts. split; [done|]. split; [by apply E|constructor].
  - assert (~ on_modules_loop i) as Hn by (intros H; by apply E in H).
    destruct (List.find _ mounts) as [i'|]; [|by constructor].
    destruct IH as (before & after & -> & Hi & Hb). exists (i :: before), after. eauto.
Qed.

(** The loop device the code finds is the modules' image. *)
Lemma kernel_su_source mounts src :
  negb (is_empty (kernel_su_module_source mounts)) && String.eqb src (kernel_su_module_source mounts)
    = true <-> modules_image mounts src.
Proof.
  unfold kernel_su_module_source. pose proof (find_loop mounts) as H.
  destruct (List.find _ mounts) as [i|].
  - destruct H as (before & after & E & Hi & Hb). assert (is_empty (source i) = false) as ->.
    { destruct Hi as [_ [r ->]]. done. }
    cbn. rewrite String.eqb_eq. split; [intros ->; by exists before, i, after|].
    intros (b' & i' & a' & E' & Hi' & -> & Hb'). f_equal. rewrite E in E'. clear E.
    revert b' Hb' E'. induction Hb as [|x before Hx _ IH]; intros [|y b'] Hb' E'; cbn in E'.
    + by injection E' as ->.
    + injection E' as -> _. by inversion Hb'.
    + by injection E' as -> _.
    + injection E' as -> E'. inversion Hb'; subst. eauto.
  - cbn. split; [done|]. intros (b' & i' & a' & -> & Hi' & _). apply Forall_app in H as [_ H].
    by inversion H.
Qed.

(** The three bits, by the names the code gives them. *)
Lemma mount_source_bits f :
  mount_source_name f =
    if Z.testbit f 28 then Some ("APatch", false)
    else if Z.testbit f 29 then Some ("KSU", true)
    else if Z.testbit f 30 then Some ("magisk", false) else None.
Proof.
  unfold mount_source_name, PROCESS_ROOT_IS_APATCH, PROCESS_ROOT_IS_KSU, PROCESS_ROOT_IS_MAGISK.
  by rewrite !has_flag_bit.
Qed.

Lemma should_unmount_root f mounts name (ksu : bool) i :
  mount_source_name f = Some (name, ksu) ->
  should_unmount name (if ksu then kernel_su_module_source mounts else "") i = true <->
  root_mount f mounts i.
Proof.
  rewrite mount_source_bits. unfold should_unmount.
  rewrite !orb_true_iff, String.eqb_eq, !starts_with_begins. intros Hname.
  assert ((root_mount f mounts i <-> begins "/adb/modules" (root i) \/
            begins "/data/adb/modules" (target i) \/
            Z.testbit f 28 = true /\ source i = "APatch" \/
            Z.testbit f 28 = false /\ Z.testbit f 29 = true /\
              (source i = "KSU" \/ modules_image mounts (source i)) \/
            Z.testbit f 28 = false /\ Z.testbit f 29 = false /\ Z.testbit f 30 = true /\
              source i = "magisk")) as ->.
  { split; [destruct 1; tauto|].
    intros [H|[H|[[? H]|[(? & ? & H)|(? & ? & ? & H)]]]]; eauto using root_mount. }
  unfold modules_dir.
  destruct (Z.testbit f 28), (Z.testbit f 29), (Z.testbit f 30); try done; injection Hname as <- <-;
    rewrite ?kernel_su_source; cbn; intuition congruence.
Qed.

Lemma filter_partition {A} (f : A -> bool) l :
  Permutation l (List.filter f l ++ List.filter (negb ∘ f) l).
Proof.
  induction l as [|x l IH]; [done|]. cbn. destruct (f x); cbn; [by constructor|].
  by apply Permutation_cons_app.
Qed.

(** C30: the mounts taken away from zygote are exactly the root implementation's. When the flags
    name a root implementation, mountinfo's mounts split in two, each as often as mountinfo has
    it: those taken all have a root that begins with /adb/modules, a target that begins with
    /data/adb/modules, or the named implementation's source - "APatch", "KSU" or "magisk", and
    with KernelSU also the loop device first mounted on /data/adb/modules - and those left have
    none of these. They are taken in descending order of their ids. When the flags name none,
    nothing is taken. *)
Theorem check_zygote_traces_exact info_flags content :
  let mounts := parse_mount_info content in
  let taken := check_zygote_traces info_flags content in
  if Z.testbit info_flags 28 || Z.testbit info_flags 29 || Z.testbit info_flags 30 then
    exists left, Permutation mounts (taken ++ left) /\
      Forall (root_mount info_flags mounts) taken /\
      Forall (fun i => ~ root_mount info_flags mounts i) left /\
      StronglySorted (fun i i' => id i' <= id i) taken
  else taken = [].
Proof.
  intros mounts taken.
  assert (taken = match mount_source_name info_flags with
                  | None => []
                  | Some (name, ksu) =>
                      sort_by_id (List.filter (should_unmount name
                        (if ksu : bool then kernel_su_module_source mounts else "")) mounts)
                  end) as Et.
  { unfold taken, check_zygote_traces. fold mounts. destruct mounts; [|done].
    by destruct (mount_source_name info_flags) as [[name [|]]|]. }
  destruct (mount_source_name info_flags) as [[name ksu]|] eqn:En.
  - pose proof (fun i => should_unmount_root info_flags mounts name ksu i En) as Hs.
    rewrite mount_source_bits in En.
    replace (_ || _) with true by (by destruct (Z.testbit info_flags 28), (Z.testbit info_flags 29),
      (Z.testbit info_flags 30)).
    set (f := should_unmount name _) in *.
    assert (Permutation taken (List.filter f mounts)) as Hp by (rewrite Et; apply sort_desc_perm).
    exists (List.filter (negb ∘ f) mounts). split_and!.
    + rewrite Hp. apply filter_partition.
    + rewrite Forall_forall. intros i Hi. rewrite Hp in Hi.
      apply list_elem_of_In, filter_In in Hi as [_ Hi].
      by apply Hs.
    + rewrite Forall_forall. intros i Hi Hr%Hs. apply list_elem_of_In, filter_In in Hi as [_ Hi].
      cbn in Hi. by rewrite Hr in Hi.
    + rewrite Et. apply sort_desc_sorted.
  - rewrite mount_source_bits in En.
    by destruct (Z.testbit info_flags 28), (Z.testbit info_flags 29), (Z.testbit info_flags 30).
Qed.

(** ** Examples *)

Definition sample : string :=
  "21 1 254:3 / / ro - ext4 /dev/block/dm-3 ro,seclabel" +:+ String newline
  ("35 21 0:31 /adb/modules/x /system/etc rw - ext4 /dev/block/dm-5 rw" +:+ String newline
  ("36 21 0:32 / /data/adb/modules rw - ext4 /dev/block/loop7 rw" +:+ String newline
  ("37 21 0:33 / /vendor/lib rw - overlay KSU rw" +:+ String newline
  ("40 21 0:32 / /odm rw - ext4 /dev/block/loop7 rw" +:+ String newline
  ("malformed" +:+ String newline ""))))).

Example parse_sample : map id (parse_mount_info (Some sample)) = [21; 35; 36; 37; 40].
Proof. vm_compute. reflexivity. Qed.
Example ksu_traces :
  map target (check_zygote_traces PROCESS_ROOT_IS_KSU (Some sample)) =
    ["/odm"; "/vendor/lib"; "/data/adb/modules"; "/system/etc"].
Proof. vm_compute. reflexivity. Qed.
Example magisk_traces :
  map target (check_zygote_traces PROCESS_ROOT_IS_MAGISK (Some sample)) =
    ["/data/adb/modules"; "/system/etc"].
Proof. vm_compute. reflexivity. Qed.
Example parsed_fields :
  option_map (fun i => (vfs_options i, type i, fs_options i, device i))
    (parse_line "21 1 254:3 / / ro,relatime shared:1 - ext4 /dev/block/dm-3 ro,seclabel") =
  Some ("ro,relatime shared:1", "ext4", "ro,seclabel", 254 * 256 + 3).
Proof. vm_compute. reflexivity. Qed.
