(* ===== verification/Daemon.v ===== *)
(** * The daemon's client

    common/socket_utils.cpp and common/daemon.cpp: whole reads and writes over a stream socket,
    descriptors passed over it, and the requests the daemon serves. Each request has a
    connection of its own. The daemon is not part of the C++ sources: its answers are the
    answers of the calls. *)
From Stdlib Require Import ZArith Lia List String Ascii Bool.
From stdpp Require Import base list strings.
From S2P Require Import Prelude.
From S2P Require Import Scan.
From S2P Require Import Remote.
Open Scope string_scope.
Open Scope list_scope.
Open Scope Z_scope.

(** What [write] and [read] come back with. *)
Inductive wrote := Wrote (n : nat) | WInterrupted | WFailed.
Inductive got := Got (bytes : list Z) | RInterrupted | RFailed.

Inductive net : Type -> Type :=
| Socket : net Z
| ConnectTo (fd : Z) (path : string) : net bool
| SleepSec (s : Z) : net unit
| Write (fd : Z) (bytes : list Z) : net wrote
| Read (fd : Z) (count : nat) : net got
| RecvMsg (fd : Z) : net (option Z)   (* the descriptor in the first control header *)
| Close (fd : Z) : net unit.

(** ** Whole reads and writes *)

Fixpoint xread_from (fuel : nat) (fd : Z) (count : nat) (buf : list Z) : prog net (Z * list Z) :=
  match fuel with
  | O => Halt NoFuel
  | S fuel =>
      ret <- call (Read fd (count - List.length buf)%nat) ;;
      match ret with
      | RFailed => Ret (-1, buf)
      | RInterrupted =>
          if Nat.eqb (List.length buf) count then Ret (Z.of_nat (List.length buf), buf)
          else xread_from fuel fd count buf
      | Got bytes =>
          let buf := buf ++ bytes in
          if Nat.eqb (List.length buf) count || Nat.eqb (List.length bytes) 0
          then Ret (Z.of_nat (List.length buf), buf)
          else xread_from fuel fd count buf
      end
  end.
Definition xread (fuel : nat) (fd : Z) (count : nat) : prog net (Z * list Z) :=
  xread_from fuel fd count [].

Fixpoint xwrite_from (fuel : nat) (fd : Z) (data : list Z) (write_sz : nat) : prog net nat :=
  match fuel with
  | O => Halt NoFuel
  | S fuel =>
      ret <- call (Write fd (skipn write_sz data)) ;;
      match ret with
      | WFailed => Ret write_sz
      | WInterrupted =>
          if Nat.eqb write_sz (List.length data) then Ret write_sz
          else xwrite_from fuel fd data write_sz
      | Wrote n =>
          let write_sz := (write_sz + n)%nat in
          if Nat.eqb write_sz (List.length data) || Nat.eqb n 0 then Ret write_sz
          else xwrite_from fuel fd data write_sz
      end
  end.
Definition xwrite (fuel : nat) (fd : Z) (data : list Z) : prog net nat :=
  xwrite_from fuel fd data 0.

(** The templates, for a type of [size] bytes. *)
Definition read_exact_or (fuel : nat) (fd : Z) (size : nat) (fail : Z) : prog net Z :=
  let* (n, buf) := xread fuel fd size in
  Ret (if n =? Z.of_nat size then le_value buf else fail).
Definition write_exact (fuel : nat) (fd : Z) (size : nat) (val : Z) : prog net bool :=
  n <- xwrite fuel fd (le_bytes size val) ;; Ret (Nat.eqb n size).

Section Client.
(** [word] is [sizeof(size_t)]; [tmp_path] what [Init] stored. *)
Context (fuel word : nat) (tmp_path : string).

Definition read_u8 (fd : Z) : prog net Z := read_exact_or fuel fd 1 0.
Definition read_u32 (fd : Z) : prog net Z := read_exact_or fuel fd 4 0.
Definition read_usize (fd : Z) : prog net Z := read_exact_or fuel fd word 0.
Definition write_u8 (fd val : Z) : prog net bool := write_exact fuel fd 1 val.
Definition write_u32 (fd val : Z) : prog net bool := write_exact fuel fd 4 val.
Definition write_usize (fd val : Z) : prog net bool := write_exact fuel fd word val.

Definition string_bytes (s : string) : list Z := map code (list_ascii_of_string s).
Definition bytes_string (bs : list Z) : string := string_of_list_ascii (map char bs).

Definition write_string (fd : Z) (str : string) : prog net bool :=
  ok <- write_usize fd (Z.of_nat (String.length str)) ;;
  if negb ok then Ret false
  else n <- xwrite fuel fd (string_bytes str) ;; Ret (Nat.eqb n (String.length str)).

(** The length of the terminator wraps for the largest size, and the buffer is not initialised:
    what a short read leaves in it is indeterminate, and it is read up to a NUL. *)
Definition read_string (fd : Z) : prog net string :=
  len <- read_usize fd ;;
  if len + 1 =? 2 ^ (8 * Z.of_nat word) then Halt (Undefined "new char[0]")
  else
    let* (_, buf) := xread fuel fd (Z.to_nat len) in
    let s := bytes_string buf in
    if (Z.of_nat (List.length buf) =? len) || negb (String.eqb (c_str s) s) then Ret (c_str s)
    else Halt (Undefined "an uninitialised buffer").

(** [recv_fds] with one descriptor: nothing but a missing header makes it fail; every other
    mismatch is only logged. *)
Definition recv_fds (sockfd : Z) : prog net (option Z) := call (RecvMsg sockfd).
Definition recv_fd (sockfd : Z) : prog net Z :=
  data <- recv_fds sockfd ;;
  Ret (match data with None => -1 | Some fd => fd end).

(** ** Requests *)

Inductive SocketAction :=
| PingHeartbeat_ | GetProcessFlags_ | CacheMountNamespace_ | UpdateMountNamespace_
| ReadModules_ | RequestCompanionSocket_ | GetModuleDir_ | ZygoteRestart_
| SystemServerStarted_ | RefreshModules_.
Definition action_value (a : SocketAction) : Z :=
  match a with
  | PingHeartbeat_ => 0 | GetProcessFlags_ => 1 | CacheMountNamespace_ => 2
  | UpdateMountNamespace_ => 3 | ReadModules_ => 4 | RequestCompanionSocket_ => 5
  | GetModuleDir_ => 6 | ZygoteRestart_ => 7 | SystemServerStarted_ => 8 | RefreshModules_ => 9
  end.
Inductive MountNamespace := Clean | Root.
Definition namespace_value (n : MountNamespace) : Z := match n with Clean => 0 | Root => 1 end.

(** [kCPSocketName] under [TMP_PATH]. *)
Definition socket_path : string :=
  tmp_path +:+ "/" +:+ (if Nat.eqb word 8 then "cp64" else "cp32") +:+ ".sock".

(** The loop of [Connect]: [retry] attempts are left. *)
Fixpoint connect_loop (fd : Z) (retry : nat) : prog net Z :=
  match retry with
  | O => call (Close fd) ;;; Ret (-1)
  | S retry =>
      ok <- call (ConnectTo fd socket_path) ;;
      if ok : bool then Ret fd
      else
        (match retry with O => Ret tt | S _ => call (SleepSec 1) end) ;;;
        connect_loop fd retry
  end.
Definition Connect (retry : nat) : prog net Z :=
  fd <- call Socket ;; connect_loop fd retry.

(** [UniqueFd]: closed when it goes out of scope. *)
Definition drop_fd (fd : Z) : prog net unit := if 0 <=? fd then call (Close fd) else Ret tt.
Definition with_fd {A} (retry : nat) (body : Z -> prog net A) : prog net A :=
  fd <- Connect retry ;; r <- body fd ;; drop_fd fd ;;; Ret r.

Definition PingHeartbeat : prog net bool :=
  with_fd 5 (fun fd =>
    if fd =? -1 then Ret false
    else write_u8 fd (action_value PingHeartbeat_) ;;; Ret true).

Definition GetProcessFlags (uid : Z) : prog net Z :=
  with_fd 1 (fun fd =>
    if fd =? -1 then Ret 0
    else write_u8 fd (action_value GetProcessFlags_) ;;; write_u32 fd uid ;;; read_u32 fd).

(** The only request that goes on without a connection. *)
Definition CacheMountNamespace (pid : Z) : prog net unit :=
  with_fd 1 (fun fd =>
    write_u8 fd (action_value CacheMountNamespace_) ;;; write_u32 fd (u32 pid) ;;; Ret tt).

Definition UpdateMountNamespace (type : MountNamespace) : prog net Z :=
  with_fd 1 (fun fd =>
    if fd =? -1 then Ret (-1)
    else
      write_u8 fd (action_value UpdateMountNamespace_) ;;;
      write_u8 fd (namespace_value type) ;;;
      status <- read_u8 fd ;;
      if status =? 0 then Ret (-1)
      else
        namespace_fd <- recv_fd fd ;;
        Ret (if namespace_fd <? 0 then -1 else namespace_fd)).

Fixpoint read_modules_loop (fd : Z) (n : nat) : prog net (list (string * Z)) :=
  match n with
  | O => Ret []
  | S n =>
      name <- read_string fd ;;
      module_fd <- recv_fd fd ;;
      rest <- read_modules_loop fd n ;;
      Ret ((name, module_fd) :: rest)
  end.
Definition ReadModules : prog net (list (string * Z)) :=
  with_fd 1 (fun fd =>
    if fd =? -1 then Ret []
    else
      write_u8 fd (action_value ReadModules_) ;;;
      len <- read_usize fd ;;
      read_modules_loop fd (Z.to_nat len)).

Definition ConnectCompanion (index : Z) : prog net Z :=
  fd <- Connect 1 ;;
  if fd =? -1 then Ret (-1)
  else
    write_u8 fd (action_value RequestCompanionSocket_) ;;;
    write_usize fd index ;;;
    answer <- read_u8 fd ;;
    if answer =? 1 then Ret fd else call (Close fd) ;;; Ret (-1).

Definition GetModuleDir (index : Z) : prog net Z :=
  with_fd 1 (fun fd =>
    if fd =? -1 then Ret (-1)
    else write_u8 fd (action_value GetModuleDir_) ;;; write_usize fd index ;;; recv_fd fd).

Definition ZygoteRestart : prog net unit :=
  with_fd 1 (fun fd =>
    if fd =? -1 then Ret tt
    else write_u8 fd (action_value ZygoteRestart_) ;;; Ret tt).

Definition SystemServerStarted : prog net unit :=
  with_fd 1 (fun fd =>
    if fd =? -1 then Ret tt
    else write_u8 fd (action_value SystemServerStarted_) ;;; Ret tt).

Definition RefreshModules (ignore_disable : bool) : prog net bool :=
  with_fd 5 (fun fd =>
    if fd =? -1 then Ret false
    else
      sent <- write_u8 fd (action_value RefreshModules_) ;;
      if negb sent then Ret false
      else
        sent <- write_u8 fd (if ignore_disable then 1 else 0) ;;
        if negb sent then Ret false
        else answer <- read_u8 fd ;; Ret (answer =? 1)).
End Client.

(** ** Facts: what crosses the socket *)

(** A [read] or [write] that transfers no more than it was asked to. *)
Definition wrote_of (ev : event net) : option (list Z * wrote) :=
  match ev with
  | Ev e x => match e in net X return X -> option (list Z * wrote) with
              | Write _ bs => fun w => Some (bs, w)
              | _ => fun _ => None
              end x
  end.
Definition got_of (ev : event net) : option (nat * got) :=
  match ev with
  | Ev e x => match e in net X return X -> option (nat * got) with
              | Read _ n => fun g => Some (n, g)
              | _ => fun _ => None
              end x
  end.

Definition within (ev : event net) : Prop :=
  (forall bs n, wrote_of ev = Some (bs, Wrote n) -> (n <= List.length bs)%nat) /\
  (forall n bs, got_of ev = Some (n, Got bs) -> (List.length bs <= n)%nat).
Definition sent (tr : list (event net)) : list Z :=
  List.flat_map (fun ev =>
    match wrote_of ev with Some (bs, Wrote n) => firstn n bs | _ => [] end) tr.
Definition received (tr : list (event net)) : list Z :=
  List.flat_map (fun ev => match got_of ev with Some (_, Got bs) => bs | _ => [] end) tr.
Definition interrupted (ev : event net) : bool :=
  match wrote_of ev, got_of ev with
  | Some (_, WInterrupted), _ | _, Some (_, RInterrupted) => true
  | _, _ => false
  end.

Lemma sent_app tr tr' : sent (tr ++ tr') = sent tr ++ sent tr'.
Proof. apply List.flat_map_app. Qed.
Lemma received_app tr tr' : received (tr ++ tr') = received tr ++ received tr'.
Proof. apply List.flat_map_app. Qed.

Lemma xwrite_from_spec fuel fd data sz :
  (sz <= List.length data)%nat ->
  every_run (xwrite_from fuel fd data sz) (fun tr r =>
    Forall within tr ->
    match r with
    | Val n => (sz <= n <= List.length data)%nat /\ firstn sz data ++ sent tr = firstn n data
    | Stop h => h = NoFuel /\ (fuel + sz <= count interrupted tr + List.length data)%nat
    end).
Proof.
  revert sz. induction fuel as [|fuel IH]; intros sz Hsz; cbn [xwrite_from].
  { intros _. split; [done|]. rewrite count_nil. lia. }
  apply every_run_step. intros [n| |]; cbv zeta.
  - destruct (Nat.eqb (sz + n) (List.length data) || Nat.eqb n 0) eqn:E; cbn [every_run].
    + intros [[Hw _] _]%Forall_cons_1. specialize (Hw _ _ eq_refl). rewrite length_skipn in Hw. split; [lia|].
      unfold sent. cbn. rewrite app_nil_r. rewrite <- (take_drop sz data) at 3.
      rewrite take_app_ge by (rewrite length_take; lia). f_equal. f_equal.
      rewrite length_take. lia.
    + apply orb_false_elim in E as [E1 E2]. apply Nat.eqb_neq in E1, E2.
      destruct (decide (n <= List.length data - sz)%nat) as [Hn|Hn].
      * eapply every_run_mono; [|apply (IH (sz + n)%nat); lia]. intros tr r Hr [Hw Ht]%Forall_cons_1.
        specialize (Hr Ht). destruct r as [m|h].
        -- destruct Hr as [Hm Hs]. split; [lia|]. rewrite <- Hs. unfold sent at 1. cbn.
           fold (sent tr). rewrite app_assoc. f_equal. rewrite <- (take_drop sz data) at 3.
           rewrite take_app_ge by (rewrite length_take; lia). f_equal. f_equal. rewrite length_take. lia.
        -- destruct Hr as [-> Hf]. split; [done|]. rewrite count_cons. cbn [interrupted wrote_of got_of]. lia.
      * apply every_run_trivial. intros tr r [[Hw _] _]%Forall_cons_1.
        specialize (Hw _ _ eq_refl). rewrite length_skipn in Hw. lia.
  - destruct (Nat.eqb_spec sz (List.length data)); cbn [every_run].
    + intros _. split; [lia|]. unfold sent. cbn. by rewrite app_nil_r.
    + eapply every_run_mono; [|apply (IH sz); lia]. intros tr r Hr [_ Ht]%Forall_cons_1.
      specialize (Hr Ht). destruct r as [m|h]; [done|]. destruct Hr as [-> Hf]. split; [done|].
      rewrite count_cons. cbn [interrupted wrote_of got_of]. lia.
  - intros _. split; [lia|]. unfold sent. cbn. by rewrite app_nil_r.
Qed.

Lemma xread_from_spec fuel fd n buf :
  (List.length buf <= n)%nat ->
  every_run (xread_from fuel fd n buf) (fun tr r =>
    Forall within tr ->
    match r with
    | Val (m, out) => out = buf ++ received tr /\ (List.length out <= n)%nat /\
        (m = Z.of_nat (List.length out) \/
         m = -1 /\ (List.length out < n \/ List.length buf = n)%nat)
    | Stop h => h = NoFuel /\ (fuel + List.length buf <= count interrupted tr + n)%nat
    end).
Proof.
  revert buf. induction fuel as [|fuel IH]; intros buf Hb; cbn [xread_from].
  { intros _. split; [done|]. rewrite count_nil. lia. }
  apply every_run_step. intros [bs| |]; cbv zeta.
  - destruct (decide (List.length bs <= n - List.length buf)%nat) as [Hn|Hn].
    2: { apply every_run_trivial. intros tr r [[_ Hw] _]%Forall_cons_1. specialize (Hw _ _ eq_refl). lia. }
    destruct (_ || _) eqn:E; cbn [every_run].
    + intros _. unfold received. cbn. rewrite app_nil_r. split; [done|]. rewrite length_app.
      split; [lia|by left].
    + apply orb_false_elim in E as [E1 E2]. apply Nat.eqb_neq in E1, E2. rewrite length_app in E1.
      eapply every_run_mono; [|apply (IH (buf ++ bs)); rewrite length_app; lia].
      intros tr r Hr [_ Ht]%Forall_cons_1. specialize (Hr Ht). destruct r as [[m out]|h].
      * destruct Hr as (-> & Hm & Hn').
        assert (buf ++ received (Ev (Read fd (n - List.length buf)) (Got bs) :: tr) =
                (buf ++ bs) ++ received tr) as ->
          by (unfold received; cbn; by rewrite app_assoc).
        split; [done|]. split; [done|].
        destruct Hn' as [->|[-> Hn']]; [by left|right]. rewrite !length_app in Hn' |- *. lia.
      * destruct Hr as [-> Hf]. split; [done|]. rewrite length_app in Hf. rewrite count_cons. cbn [interrupted wrote_of got_of]. lia.
  - destruct (Nat.eqb_spec (List.length buf) n); cbn [every_run].
    + intros _. unfold received. cbn. rewrite app_nil_r. split; [done|]. split; [lia|by left].
    + eapply every_run_mono; [|apply (IH buf Hb)]. intros tr r Hr [_ Ht]%Forall_cons_1.
      specialize (Hr Ht). destruct r as [[m out]|h]; [done|]. destruct Hr as [-> Hf].
      split; [done|]. rewrite count_cons. cbn [interrupted wrote_of got_of]. lia.
  - intros _. unfold received. cbn. rewrite app_nil_r. split; [done|]. split; [lia|right]. lia.
Qed.

Lemma le_bytes_length n z : List.length (le_bytes n z) = n.
Proof. revert z. induction n as [|n IH]; intros z; cbn; auto. Qed.

Lemma write_exact_spec fuel fd size val :
  every_run (write_exact fuel fd size val) (fun tr r =>
    Forall within tr -> r = Val true -> sent tr = le_bytes size val).
Proof.
  eapply every_run_seq; [apply (xwrite_from_spec fuel fd (le_bytes size val) 0); lia|done|].
  intros tr n Hn Hw Hr. rewrite app_nil_r in *. destruct (Hn Hw) as [Hl Hs].
  injection Hr as Hr. apply Nat.eqb_eq in Hr. rewrite firstn_O in Hs. cbn in Hs. rewrite Hs.
  apply firstn_all2. rewrite le_bytes_length. lia.
Qed.

Lemma write_string_spec fuel word fd s :
  every_run (write_string fuel word fd s) (fun tr r =>
    Forall within tr -> r = Val true ->
    sent tr = le_bytes word (Z.of_nat (String.length s)) ++ string_bytes s).
Proof.
  eapply every_run_seq; [apply write_exact_spec|done|]. intros tr [] Hs; cbn [negb].
  - eapply every_run_seq; [apply (xwrite_from_spec fuel fd (string_bytes s) 0); lia|done|].
    intros tr' n Hn Hw Hr. rewrite app_nil_r in *. apply Forall_app in Hw as [Hw Hw'].
    destruct (Hn Hw') as [Hl Hs']. injection Hr as Hr. apply Nat.eqb_eq in Hr.
    rewrite sent_app, (Hs Hw eq_refl). f_equal. rewrite firstn_O in Hs'. cbn in Hs'. rewrite Hs'.
    apply firstn_all2. unfold string_bytes. rewrite length_map, length_list_ascii. lia.
  - done.
Qed.

Lemma read_usize_spec fuel word fd :
  every_run (read_usize fuel word fd) (fun tr r =>
    Forall within tr ->
    match r with
    | Val v => (List.length (received tr) <= word)%nat /\
        (List.length (received tr) = word -> v = le_value (received tr) \/ word = O) /\
        ((List.length (received tr) < word)%nat -> v = 0)
    | Stop h => h = NoFuel /\ (fuel <= count interrupted tr + word)%nat
    end).
Proof.
  eapply every_run_seq; [apply (xread_from_spec fuel fd word []); cbn; lia| |].
  - intros tr h H Hw. destruct (H Hw) as [-> Hf]. cbn in Hf. split; [done|lia].
  - intros tr [m out] H Hw. rewrite app_nil_r in *. destruct (H Hw) as (-> & Hl & Hm). clear H.
    cbn [app] in *. split; [done|]. destruct (Z.eqb_spec m (Z.of_nat word)) as [->|Hne].
    + split; [by left|]. intros Hlt. destruct Hm as [Hm|[Hm _]]; lia.
    + split; [|done]. intros Heq. destruct Hm as [Hm|[_ [Hm|Hm]]]; [lia|lia|by right].
Qed.

Lemma string_bytes_back s : bytes_string (string_bytes s) = s.
Proof.
  unfold bytes_string, string_bytes. rewrite map_map.
  rewrite map_ext with (g := fun c => c); [by rewrite map_id, string_of_list_ascii_of_string|].
  intros c. unfold char, code. by rewrite N2Z.id, ascii_N_embedding.
Qed.

Lemma read_string_spec fuel word fd s :
  (0 < word)%nat -> Z.of_nat (String.length s) + 1 < 256 ^ Z.of_nat word -> c_str s = s ->
  every_run (read_string fuel word fd) (fun tr r =>
    Forall within tr ->
    received tr = le_bytes word (Z.of_nat (String.length s)) ++ string_bytes s ->
    r = Val s \/
    r = Stop NoFuel /\ (fuel <= count interrupted tr + word + String.length s)%nat).
Proof.
  intros Hword Hlen Hs. eapply every_run_seq; [apply read_usize_spec| |].
  - intros tr h H Hw _. right. destruct (H Hw) as [-> Hf]. split; [done|lia].
  - intros tr v Hv. destruct (Z.eqb_spec (v + 1) (2 ^ (8 * Z.of_nat word))) as [Hv1|Hv1].
    + intros Hw Hr. rewrite app_nil_r in *. destruct (Hv Hw) as (H1 & H2 & H3). exfalso.
      assert (List.length (received tr) = word) as Heq.
      { rewrite Hr, length_app, le_bytes_length in *. lia. }
      destruct (H2 Heq) as [Hval|]; [|lia].
      rewrite Hr in Hval, Heq. rewrite length_app, le_bytes_length in Heq.
      destruct (string_bytes s) eqn:Eb; [|cbn in Heq; lia]. rewrite app_nil_r, le_value_bytes in Hval.
      rewrite Z.mod_small in Hval by lia. rewrite Z.pow_mul_r in Hv1 by lia.
      change (2 ^ 8) with 256 in Hv1. lia.
    + eapply every_run_seq; [apply (xread_from_spec fuel fd (Z.to_nat v) []); cbn; lia| |].
      * intros tr' h H Hw Hr. apply Forall_app in Hw as [Hw Hw']. right.
        destruct (H Hw') as [-> Hf]. split; [done|]. rewrite count_app. cbn in Hf.
        destruct (Hv Hw) as (H1 & H2 & H3). rewrite received_app in Hr.
        destruct (decide (List.length (received tr) = word)) as [Heq|Hne].
        -- destruct (H2 Heq) as [Hval|]; [|lia].
           apply app_inj_1 in Hr as [Hr1 _]; [|by rewrite le_bytes_length].
           rewrite Hval, Hr1, le_value_bytes, Z.mod_small in Hf by lia. lia.
        -- rewrite H3 in Hf by lia. lia.
      * intros tr' [m out] H.
        assert (Forall within (tr ++ tr') ->
          received (tr ++ tr') = le_bytes word (Z.of_nat (String.length s)) ++ string_bytes s ->
          out = string_bytes s /\ v = Z.of_nat (String.length s)) as Hout.
        { intros Hw Hr. apply Forall_app in Hw as [Hw Hw']. destruct (H Hw') as (-> & Hl & _).
          destruct (Hv Hw) as (H1 & H2 & H3). cbn [app] in *. rewrite received_app in Hr.
          destruct (decide (List.length (received tr) = word)) as [Heq|Hne].
          - destruct (H2 Heq) as [Hval|]; [|lia].
            apply app_inj_1 in Hr as [Hr1 Hr2]; [|by rewrite le_bytes_length].
            split; [done|]. rewrite Hval, Hr1, le_value_bytes. apply Z.mod_small. lia.
          - rewrite H3 in Hl by lia. apply (f_equal (@List.length Z)) in Hr.
            rewrite !length_app, le_bytes_length in Hr. cbn in Hl. lia. }
        cbv zeta.
        match goal with |- every_run (if ?b then _ else _) _ => destruct b eqn:Eb end;
          cbn [every_run]; rewrite app_nil_r; intros Hw Hr; destruct (Hout Hw Hr) as [-> ->].
        -- left. by rewrite string_bytes_back, Hs.
        -- unfold string_bytes in Eb. rewrite length_map, length_list_ascii, Z.eqb_refl in Eb. done.
Qed.

(** C39: strings cross the socket whole. What [write_string] sent when it reported success,
    delivered in whatever pieces and between whatever interruptions, is what [read_string]
    returns, for a string without a NUL whose length fits a [size_t]; and it does return: the
    fuel has only to exceed the interruptions and the bytes. *)
Theorem string_crosses_socket fuel word fd fd' s trw trr r :
  (0 < word)%nat -> Z.of_nat (String.length s) + 1 < 256 ^ Z.of_nat word -> c_str s = s ->
  exec (write_string fuel word fd s) trw (Val true) -> Forall within trw ->
  exec (read_string fuel word fd') trr r -> Forall within trr ->
  received trr = sent trw ->
  (count interrupted trr + word + String.length s < fuel)%nat ->
  r = Val s.
Proof.
  intros Hw Hl Hs Hexw Hww Hexr Hwr Heq Hfuel.
  pose proof (proj1 (every_run_exec _ _) (write_string_spec fuel word fd s) _ _ Hexw Hww eq_refl)
    as Hsent.
  rewrite Hsent in Heq.
  destruct (proj1 (every_run_exec _ _) (read_string_spec fuel word fd' s Hw Hl Hs) _ _ Hexr Hwr Heq)
    as [->|[_ Hf]]; [done|lia].
Qed.

(** ** Facts: descriptors *)

Definition opened_fd (ev : event net) : list Z :=
  match ev with
  | Ev e x => match e in net X return X -> list Z with
              | Socket => fun fd => if 0 <=? fd then [fd] else []
              | _ => fun _ => []
              end x
  end.
Definition closed_fd (ev : event net) : list Z :=
  match ev with Ev (Close fd) _ => if 0 <=? fd then [fd] else [] | _ => [] end.
Definition opened (tr : list (event net)) : list Z := List.flat_map opened_fd tr.
Definition closed (tr : list (event net)) : list Z := List.flat_map closed_fd tr.

(** An event that neither opens nor closes a descriptor of ours. *)
Definition quiet (ev : event net) : bool :=
  match ev with Ev Socket _ | Ev (Close _) _ => false | _ => true end.

Lemma quiet_spec tr : forallb quiet tr = true -> opened tr = [] /\ closed tr = [].
Proof.
  induction tr as [|[X e x] tr IH]; [done|]. cbn [forallb]. intros [He Ht]%andb_prop.
  destruct (IH Ht) as [H1 H2]. unfold opened, closed in *. cbn [List.flat_map].
  rewrite H1, H2. by destruct e.
Qed.
Lemma opened_app tr tr' : opened (tr ++ tr') = opened tr ++ opened tr'.
Proof. apply List.flat_map_app. Qed.
Lemma closed_app tr tr' : closed (tr ++ tr') = closed tr ++ closed tr'.
Proof. apply List.flat_map_app. Qed.

(** How a run may fail to return: for want of fuel, or, where [faults] says so, in undefined
    behaviour. *)
Definition stuck (faults : bool) (h : halt) : Prop :=
  h = NoFuel \/ faults = true /\ exists why, h = Undefined why.

(** Programs whose runs touch no descriptor table and return but for that. *)
Definition silent (faults : bool) {A} (p : prog net A) : Prop :=
  every_run p (fun tr r =>
    forallb quiet tr = true /\ match r with Val _ => True | Stop h => stuck faults h end).

Section Silent.
Variable faults : bool.

Lemma silent_ret {A} (a : A) : silent faults (Ret a).
Proof. done. Qed.
Lemma silent_nofuel {A} : silent faults (A := A) (Halt NoFuel).
Proof. split; [done|by left]. Qed.
Lemma silent_call {X} (e : net X) : (forall x, quiet (Ev e x) = true) -> silent faults (call e).
Proof. intros H x. split; [|done]. cbn [forallb]. by rewrite H. Qed.
Lemma silent_bind {A B} (p : prog net A) (f : A -> prog net B) :
  silent faults p -> (forall a, silent faults (f a)) -> silent faults (bind p f).
Proof.
  intros Hp Hf. eapply every_run_seq; [exact Hp|done|]. intros tr a [Htr _].
  eapply every_run_mono; [|apply Hf]. intros tr' r [Htr' Hr]. by rewrite forallb_app, Htr, Htr'.
Qed.
End Silent.

Ltac silent_tac :=
  repeat first
    [ apply silent_ret | apply silent_nofuel | apply silent_call; intros; reflexivity
    | solve [eauto with neo]
    | apply silent_bind; [|intros]
    | match goal with
      | |- silent _ (if ?b then _ else _) => destruct b
      | |- silent _ (match ?x with _ => _ end) => destruct x
      end ].

Lemma xread_from_silent b fuel fd n buf : silent b (xread_from fuel fd n buf).
Proof. revert buf. induction fuel as [|fuel IH]; intros buf; cbn [xread_from]; silent_tac; apply IH. Qed.
Lemma xwrite_from_silent b fuel fd data sz : silent b (xwrite_from fuel fd data sz).
Proof. revert sz. induction fuel as [|fuel IH]; intros sz; cbn [xwrite_from]; silent_tac; apply IH. Qed.
Lemma read_exact_silent b fuel fd size fail : silent b (read_exact_or fuel fd size fail).
Proof. apply silent_bind; [apply xread_from_silent|]. intros [n buf]. done. Qed.
Lemma write_exact_silent b fuel fd size val : silent b (write_exact fuel fd size val).
Proof. apply silent_bind; [apply xwrite_from_silent|]. done. Qed.
#[export] Hint Resolve xread_from_silent xwrite_from_silent read_exact_silent write_exact_silent : neo.

Lemma silent_undefined {A} why : silent true (A := A) (Halt (Undefined why)).
Proof. split; [done|]. right. eauto. Qed.
#[export] Hint Resolve silent_undefined : neo.
Lemma read_modules_loop_silent fuel word fd n : silent true (read_modules_loop fuel word fd n).
Proof.
  induction n as [|n IH]; cbn [read_modules_loop]; [done|].
  unfold read_string, read_usize, recv_fd, recv_fds, xread. silent_tac.
Qed.
#[export] Hint Resolve read_modules_loop_silent : neo.

(** What a connection leaves open: its socket when it is returned, nothing otherwise. *)
Definition holds (fd : Z) : list Z := if 0 <=? fd then [fd] else [].

Lemma connect_loop_spec word tmp fd retry :
  every_run (connect_loop word tmp fd retry) (fun tr r =>
    opened tr = [] /\
    match r with
    | Val fd' => fd' = fd /\ closed tr = [] \/ fd' = -1 /\ closed tr = holds fd
    | Stop _ => False
    end).
Proof.
  induction retry as [|retry IH]; cbn [connect_loop].
  - intros []. cbn. split; [done|]. right. by rewrite app_nil_r.
  - apply every_run_step. intros [].
    + cbn. split; [done|]. by left.
    + destruct retry as [|retry]; [cbn [bind]|apply every_run_step; intros []];
        (eapply every_run_mono; [|apply IH]; intros tr [fd'|h] [Ho Hc]; [|done]; split; done).
Qed.

Lemma Connect_spec word tmp retry :
  every_run (Connect word tmp retry) (fun tr r =>
    match r with Val fd => opened tr = closed tr ++ holds fd | Stop _ => False end).
Proof.
  apply every_run_step. intros fd. eapply every_run_mono; [|apply connect_loop_spec].
  intros tr [fd'|h] [Ho Hc]; [|done]. unfold opened in *. cbn. rewrite Ho, app_nil_r.
  destruct Hc as [[-> Hc]|[-> Hc]]; unfold closed in *; cbn; rewrite Hc; [done|].
  by rewrite app_nil_r.
Qed.

(** What a run of a request leaves open is [kept], if it returns; else it is stuck. *)
Definition balanced (faults : bool) {A} (kept : A -> list Z) (tr : list (event net)) (r : res A) :
    Prop :=
  match r with
  | Val a => opened tr = closed tr ++ kept a
  | Stop h => stuck faults h
  end.
Definition none {A} (_ : A) : list Z := [].

Lemma with_fd_balanced {A} faults word tmp retry (body : Z -> prog net A) :
  (forall fd, silent faults (body fd)) ->
  every_run (with_fd word tmp retry body) (balanced faults none).
Proof.
  intros Hb. eapply every_run_seq; [apply Connect_spec|done|]. intros tr fd Ho.
  eapply every_run_seq; [apply Hb|by intros tr' h [_ ?]|]. intros tr' a [Hq _].
  apply quiet_spec in Hq as [Hq1 Hq2]. unfold drop_fd, holds in *.
  destruct (Z.leb_spec 0 fd); cbn; intros; rewrite !opened_app, !closed_app, Hq1, Hq2, Ho;
    unfold opened, closed; cbn; rewrite ?app_nil_r; [|done].
  by destruct (Z.leb_spec 0 fd); [|lia].
Qed.

Lemma companion_balanced fuel word tr fd i :
  opened tr = closed tr ++ holds fd ->
  every_run (write_u8 fuel fd (action_value RequestCompanionSocket_) ;;;
             write_usize fuel word fd i ;;;
             answer <- read_u8 fuel fd ;;
             if answer =? 1 then Ret fd else call (Close fd) ;;; Ret (-1))
    (fun tr' r => balanced false holds (tr ++ tr') r).
Proof.
  intros Ho.
  eapply every_run_seq; [apply (write_exact_silent false)|by intros t h [_ ?]|].
  intros t1 _ [[H1 H1']%quiet_spec _].
  eapply every_run_seq; [apply (write_exact_silent false)|by intros t h [_ ?]|].
  intros t2 _ [[H2 H2']%quiet_spec _].
  eapply every_run_seq; [apply (read_exact_silent false)|by intros t h [_ ?]|].
  intros t3 v [[H3 H3']%quiet_spec _].
  destruct (v =? 1); cbn; intros;
    rewrite !opened_app, !closed_app, H1, H2, H3, H1', H2', H3', Ho; unfold opened, closed; cbn;
    rewrite ?app_nil_r; [done|].
  unfold holds. destruct (0 <=? fd); by rewrite ?app_nil_r.
Qed.

(** C40: no request loses its socket. Whatever the daemon and the kernel answer, a request that
    returns has closed the socket it opened exactly once, failures included; only
    [ConnectCompanion], when it returns its socket, leaves it open for its caller and closes it
    otherwise. A request fails to return only for want of fuel for its transfers, and
    [ReadModules] also on a name whose bytes never came. *)
Theorem requests_close_their_socket fuel word tmp :
  every_run (PingHeartbeat fuel word tmp) (balanced false none) /\
  (forall uid, every_run (GetProcessFlags fuel word tmp uid) (balanced false none)) /\
  (forall pid, every_run (CacheMountNamespace fuel word tmp pid) (balanced false none)) /\
  (forall ns, every_run (UpdateMountNamespace fuel word tmp ns) (balanced false none)) /\
  (forall i, every_run (GetModuleDir fuel word tmp i) (balanced false none)) /\
  every_run (ZygoteRestart fuel word tmp) (balanced false none) /\
  every_run (SystemServerStarted fuel word tmp) (balanced false none) /\
  (forall ignore, every_run (RefreshModules fuel word tmp ignore) (balanced false none)) /\
  every_run (ReadModules fuel word tmp) (balanced true none) /\
  (forall i, every_run (ConnectCompanion fuel word tmp i) (balanced false holds)).
Proof.
  do 9 (split; [intros; apply with_fd_balanced; intros fd;
    unfold write_u8, write_u32, write_usize, read_u8, read_u32, read_usize, recv_fd, recv_fds; silent_tac|]).
  intros i. eapply every_run_seq; [apply Connect_spec|done|]. intros tr fd Ho.
  destruct (Z.eqb_spec fd (-1)) as [->|Hfd]; [cbn; rewrite app_nil_r; exact Ho|].
  apply companion_balanced; assumption.
Qed.

(** ** Witnesses *)

(** A writer's world that takes three bytes, is interrupted, and takes the rest; a reader's
    that delivers them in pieces. *)
Definition writing (n : nat) (X : Type) (e : net X) : X :=
  match e with
  | Socket => 5
  | ConnectTo _ _ => false
  | SleepSec _ => tt
  | Write _ bs => match n with O => Wrote 3 | 1%nat => WInterrupted | _ => Wrote (List.length bs) end
  | Read _ _ => RFailed
  | RecvMsg _ => None
  | Close _ => tt
  end.
Definition reading (n : nat) (X : Type) (e : net X) : X :=
  match e in net X return X with
  | Read _ _ => match n with O => Got [2] | 1%nat => RInterrupted
                | 2%nat => Got [0; 0; 0; 0; 0; 0; 0] | 3%nat => Got [104] | _ => Got [105] end
  | e => writing 5 _ e
  end.

Definition sent_hi : list (event net) := (run writing 0 (write_string 20 8 3 "hi")).1.
Definition received_hi : list (event net) := (run reading 0 (read_string 20 8 4)).1.

Lemma run_exec {A} (p : prog net A) o r : (run o 0 p).2 = r -> exec p (run o 0 p).1 r.
Proof. intros <-. apply exec_run. Qed.

Example received_pieces : received received_hi = [2; 0; 0; 0; 0; 0; 0; 0; 104; 105].
Proof. vm_compute. reflexivity. Qed.

Ltac within_tac := vm_compute; repeat constructor; intros ? ? [=]; subst; cbn; lia.

Lemma string_crosses_socket_witness :
  exec (read_string 20 8 4) received_hi (Val "hi") /\ (Val "hi" = Val "hi" :> res string).
Proof.
  assert (exec (read_string 20 8 4) received_hi (Val "hi")) as H.
  { apply run_exec. vm_compute. reflexivity. }
  split; [exact H|].
  apply (string_crosses_socket 20 8 3 4 "hi" sent_hi received_hi (Val "hi"));
    [lia|reflexivity|reflexivity|apply run_exec; vm_compute; reflexivity|within_tac|exact H
    |within_tac|vm_compute; reflexivity|vm_compute; lia].
Defined.

(** With the daemon away, [CacheMountNamespace] goes on and writes to descriptor -1. *)
Example cache_without_daemon :
  exists tr, exec (CacheMountNamespace 20 8 "/tmp" 7) tr (Val tt) /\
    List.flat_map (fun ev => match ev with Ev (Write fd bs) _ => [(fd, bs)] | _ => [] end) tr =
      [(-1, [2]); (-1, [7; 0; 0; 0])].
Proof.
  exists (run (fun n => writing (n + 5)) 0 (CacheMountNamespace 20 8 "/tmp" 7)).1.
  split; [apply run_exec|]; vm_compute; reflexivity.
Qed.
