(* ===== verification/UniqueFd.v ===== *)
(** * Owned descriptors

    include/daemon.hpp: [UniqueFd], the descriptor an object owns, and [Module], the one the
    daemon's answers are collected in. Objects live in a store, by address, so that moving one
    is the swap of two cells the code makes it; the requests of Daemon.v and the loading of
    modules in Module.v say only which descriptors are closed, and when, which is what this file
    shows of the objects: a descriptor put into one is closed exactly once, by the destruction
    of whichever object holds it in the end, and a vector of modules holds the descriptors it
    was given however often it grows. *)
From Stdlib Require Import ZArith Lia List String.
From stdpp Require Import base list gmap strings.
From S2P Require Import Prelude.
From S2P Require Import Scan.
From S2P Require Import Daemon.
Open Scope string_scope.
Open Scope list_scope.
Open Scope Z_scope.

(** ** Objects *)

(** The live objects with their [fd_], and the descriptors closed so far, in order. *)
Record store := { cells : gmap nat Z; shut : list Z }.
Definition set_cells (m : gmap nat Z) (s : store) : store := {| cells := m; shut := shut s |}.

(** The default constructor and the one from a descriptor: at an address nothing lives at. *)
Definition no_fd : Z := -1.
Definition construct_fd (o : nat) (fd : Z) (s : store) : option store :=
  match cells s !! o with
  | None => Some (set_cells (<[o := fd]> (cells s)) s)
  | Some _ => None
  end.
Definition default_construct (o : nat) (s : store) : option store := construct_fd o no_fd s.

Definition swap_cells (o other : nat) (s : store) : option store :=
  match cells s !! o, cells s !! other with
  | Some mine, Some theirs => Some (set_cells (<[o := theirs]> (<[other := mine]> (cells s))) s)
  | _, _ => None
  end.

(** The move constructor swaps with a member still at its initial -1. *)
Definition move_construct (o other : nat) (s : store) : option store :=
  s ← construct_fd o no_fd s; swap_cells o other s.
Definition move_assign (o other : nat) (s : store) : option store := swap_cells o other s.

Definition destroy (o : nat) (s : store) : option store :=
  match cells s !! o with
  | Some fd => Some {| cells := delete o (cells s); shut := shut s ++ holds fd |}
  | None => None
  end.

(** What code does with such objects; copying one does not compile. *)
Inductive fd_op :=
| DefaultCtor (o : nat)
| FdCtor (o : nat) (fd : Z)
| MoveCtor (o other : nat)
| MoveAssign (o other : nat)
| Dtor (o : nat).

Definition fd_step (s : store) (x : fd_op) : option store :=
  match x with
  | DefaultCtor o => default_construct o s
  | FdCtor o fd => construct_fd o fd s
  | MoveCtor o other => move_construct o other s
  | MoveAssign o other => move_assign o other s
  | Dtor o => destroy o s
  end.
Fixpoint fd_steps (s : store) (xs : list fd_op) : option store :=
  match xs with [] => Some s | x :: xs => s ← fd_step s x; fd_steps s xs end.

(** The descriptors given to objects, and those live objects hold. *)
Definition adopted (xs : list fd_op) : list Z :=
  xs ≫= fun x => match x with FdCtor _ fd => holds fd | _ => [] end.
Definition kept (m : gmap nat Z) : list Z := (map_to_list m).*2 ≫= holds.

(** ** A vector of modules *)

(** The buffer's addresses in order, with the names, and its capacity. *)
Record modules_vec := { elems : list (string * nat); capacity : nat }.
Definition no_modules : modules_vec := {| elems := []; capacity := 0 |}.

Definition some_address (s : store) : nat := fresh (dom (cells s) : gset nat).

(** Moving the elements of a full buffer into the larger one. *)
Fixpoint move_all (l : list (string * nat)) (s : store) : option (list (string * nat) * store) :=
  match l with
  | [] => Some ([], s)
  | (name, other) :: l =>
      let o := some_address s in
      s ← move_construct o other s;
      '(moved, s) ← move_all l s;
      Some ((name, o) :: moved, s)
  end.
Fixpoint destroy_all (l : list nat) (s : store) : option store :=
  match l with [] => Some s | o :: l => s ← destroy o s; destroy_all l s end.

Section Growth.
(** How many elements the library makes room for when a buffer of [n] is full. *)
Context (grow : nat -> nat).

(** [emplace_back]: with room the element is made in place; without, it is made in a larger
    buffer first, the others are moved over and the old ones destroyed. *)
Definition emplace_back (name : string) (memfd : Z) (v : modules_vec) (s : store)
    : option (modules_vec * store) :=
  let o := some_address s in
  s ← construct_fd o memfd s;
  if Nat.ltb (List.length (elems v)) (capacity v)
  then Some ({| elems := elems v ++ [(name, o)]; capacity := capacity v |}, s)
  else
    '(moved, s) ← move_all (elems v) s;
    s ← destroy_all (elems v).*2 s;
    Some ({| elems := moved ++ [(name, o)]; capacity := grow (List.length (elems v)) |}, s).

Fixpoint collect_modules (l : list (string * Z)) (v : modules_vec) (s : store)
    : option (modules_vec * store) :=
  match l with
  | [] => Some (v, s)
  | (name, memfd) :: l => '(v, s) ← emplace_back name memfd v s; collect_modules l v s
  end.
End Growth.

(** A vector's elements are destroyed from its back. *)
Definition destroy_modules (v : modules_vec) (s : store) : option store :=
  destroy_all (rev (elems v).*2) s.

(** ** Facts: no descriptor is lost or closed twice *)

Lemma kept_insert m o fd : m !! o = None -> kept (<[o := fd]> m) ≡ₚ holds fd ++ kept m.
Proof. intros Ho. unfold kept. by rewrite map_to_list_insert. Qed.
Lemma kept_delete m o fd : m !! o = Some fd -> kept m ≡ₚ holds fd ++ kept (delete o m).
Proof. intros Ho. unfold kept. by rewrite <- (map_to_list_delete m o fd). Qed.
Lemma kept_update m o fd fd' :
  m !! o = Some fd -> holds fd ++ kept (<[o := fd']> m) ≡ₚ holds fd' ++ kept m.
Proof.
  intros Ho. rewrite <- (insert_delete_eq m o fd'), kept_insert by apply lookup_delete_eq.
  rewrite (kept_delete m o fd) by done. solve_Permutation.
Qed.

Lemma construct_ledger o fd s s' :
  construct_fd o fd s = Some s' -> shut s' ++ kept (cells s') ≡ₚ holds fd ++ shut s ++ kept (cells s).
Proof.
  unfold construct_fd. destruct (cells s !! o) eqn:Ho; [done|]. intros [= <-]. cbn.
  rewrite kept_insert by done. solve_Permutation.
Qed.
Lemma swap_ledger o other s s' :
  swap_cells o other s = Some s' -> shut s' ++ kept (cells s') ≡ₚ shut s ++ kept (cells s).
Proof.
  unfold swap_cells. destruct (cells s !! o) as [mine|] eqn:Ho; [|done].
  destruct (cells s !! other) as [theirs|] eqn:Hother; [|done]. intros [= <-]. cbn.
  apply Permutation_app_head. destruct (decide (o = other)) as [->|Hne].
  - simplify_eq. by rewrite insert_insert_eq, insert_id.
  - apply (Permutation_app_inv_l (holds mine)). rewrite kept_update; [by rewrite kept_update|].
    by rewrite lookup_insert_ne.
Qed.
Lemma destroy_ledger o s s' :
  destroy o s = Some s' -> shut s' ++ kept (cells s') ≡ₚ shut s ++ kept (cells s).
Proof.
  unfold destroy. destruct (cells s !! o) as [fd|] eqn:Ho; [|done]. intros [= <-]. cbn.
  rewrite (kept_delete (cells s) o fd) by done. solve_Permutation.
Qed.

Lemma fd_step_ledger s x s' :
  fd_step s x = Some s' -> shut s' ++ kept (cells s') ≡ₚ adopted [x] ++ shut s ++ kept (cells s).
Proof.
  destruct x; cbn [fd_step]; unfold default_construct, move_construct, move_assign; cbn; intros H;
    rewrite ?app_nil_r; eauto using construct_ledger, swap_ledger, destroy_ledger.
  - by apply construct_ledger in H.
  - apply bind_Some in H as (s1 & H1 & H2).
    rewrite (swap_ledger _ _ _ _ H2). by apply construct_ledger in H1.
Qed.

(** Whatever is done with the objects, what they were given is what was closed and what live
    objects hold. *)
Lemma fds_accounted xs s s' :
  fd_steps s xs = Some s' -> shut s' ++ kept (cells s') ≡ₚ adopted xs ++ shut s ++ kept (cells s).
Proof.
  revert s. induction xs as [|x xs IH]; intros s; cbn [fd_steps]; [by intros [= <-]|].
  intros (s1 & H1 & H2)%bind_Some. rewrite (IH _ H2), (fd_step_ledger _ _ _ H1).
  unfold adopted. cbn. solve_Permutation.
Qed.

(** So once no object lives, each descriptor was closed exactly as often as it was put into
    one. *)
Lemma fds_closed_once xs s' :
  fd_steps {| cells := ∅; shut := [] |} xs = Some s' -> cells s' = ∅ -> shut s' ≡ₚ adopted xs.
Proof.
  intros H He. apply fds_accounted in H. rewrite He in H. revert H. unfold kept. cbn.
  rewrite map_to_list_empty. cbn. by rewrite !app_nil_r.
Qed.

(** ** Facts: the vector *)

(** [m] is [m0] with the objects [l] besides. *)
Definition beside (l : list (nat * Z)) (m0 m : gmap nat Z) : Prop :=
  NoDup l.*1 /\ (forall o, o ∈ l.*1 -> m0 !! o = None) /\ m = list_to_map l ∪ m0.
#[export] Instance beside_proper : Proper ((≡ₚ) ==> (=) ==> (=) ==> iff) beside.
Proof.
  enough (forall l l' m0 m, l ≡ₚ l' -> beside l m0 m -> beside l' m0 m) as H.
  { intros l l' Hl m0 ? <- m ? <-. split; apply H; [done|by symmetry]. }
  intros l l' m0 m Hl (Hd & Hm0 & ->). assert (l.*1 ≡ₚ l'.*1) as Hk by by apply fmap_Permutation.
  split_and!; [by rewrite <- Hk|intros o; rewrite <- Hk; apply Hm0|].
  by rewrite (list_to_map_proper l l').
Qed.

Lemma beside_nil m : beside [] m m.
Proof. split_and!; [constructor|set_solver|]. cbn. by rewrite (left_id_L ∅ _). Qed.
Lemma beside_cons l m0 m o fd :
  beside l m0 m -> m !! o = None -> beside ((o, fd) :: l) m0 (<[o := fd]> m).
Proof.
  intros (Hd & Hm0 & ->) [Hl Ho]%lookup_union_None. split_and!; cbn.
  - constructor; [by apply not_elem_of_list_to_map|done].
  - intros o' [->|H]%elem_of_cons; [done|by apply Hm0].
  - by rewrite insert_union_l.
Qed.
Lemma beside_lookup l m0 m o fd : beside ((o, fd) :: l) m0 m -> m !! o = Some fd.
Proof.
  intros (_ & _ & ->). apply lookup_union_Some_l. cbn. by rewrite lookup_insert_eq.
Qed.
Lemma beside_delete l m0 m o fd : beside ((o, fd) :: l) m0 m -> beside l m0 (delete o m).
Proof.
  intros ([Hno Hd]%NoDup_cons & Hm0 & ->). split_and!; [done| |].
  - intros o' H. apply Hm0. by right.
  - cbn. rewrite delete_union, delete_insert_eq, !delete_id; [done| |].
    + apply Hm0. by left.
    + by apply not_elem_of_list_to_map.
Qed.
Lemma beside_update l m0 m o fd fd' :
  beside ((o, fd) :: l) m0 m -> beside ((o, fd') :: l) m0 (<[o := fd']> m).
Proof.
  intros H. rewrite <- insert_delete_eq. apply beside_cons; [by eapply beside_delete|].
  apply lookup_delete_eq.
Qed.

Lemma construct_beside l m0 s fd :
  beside l m0 (cells s) ->
  exists s', construct_fd (some_address s) fd s = Some s' /\ shut s' = shut s /\
    beside ((some_address s, fd) :: l) m0 (cells s').
Proof.
  intros Hb. assert (cells s !! some_address s = None) as Hf.
  { apply (not_elem_of_dom (D := gset nat)). unfold some_address. apply is_fresh. }
  unfold construct_fd. rewrite Hf. eexists. split_and!; [done..|]. by apply beside_cons.
Qed.
Lemma move_construct_beside l m0 s other fd :
  beside ((other, fd) :: l) m0 (cells s) ->
  exists s', move_construct (some_address s) other s = Some s' /\ shut s' = shut s /\
    beside ((some_address s, fd) :: (other, no_fd) :: l) m0 (cells s').
Proof.
  intros (s1 & H1 & Hs1 & Hb)%(construct_beside _ _ _ no_fd). unfold move_construct. rewrite H1.
  cbn. unfold swap_cells. rewrite (beside_lookup _ _ _ _ _ Hb). rewrite Permutation_swap in Hb.
  rewrite (beside_lookup _ _ _ _ _ Hb). eexists. split_and!; [done..|]. cbn.
  eapply beside_update. rewrite Permutation_swap. by eapply beside_update.
Qed.

Lemma move_all_beside l fds rest m0 s :
  List.length fds = List.length l -> beside (zip l.*2 fds ++ rest) m0 (cells s) ->
  exists moved s', move_all l s = Some (moved, s') /\ shut s' = shut s /\ moved.*1 = l.*1 /\
    beside (zip moved.*2 fds ++ ((fun o => (o, no_fd)) <$> l.*2) ++ rest) m0 (cells s').
Proof.
  revert fds rest s. induction l as [|[name other] l IH]; intros [|fd fds] rest s; [|done..|].
  { intros _ H. by exists [], s. }
  cbn. intros [= Hlen] (s1 & H1 & Hs1 & Hb)%move_construct_beside. rewrite H1. cbn.
  rewrite !Permutation_middle in Hb. apply IH in Hb as (moved & s2 & H2 & Hs2 & Hn & Hb); [|done].
  rewrite H2. cbn. do 2 eexists. split_and!; [reflexivity|congruence|cbn; congruence|]. cbn.
  eapply beside_proper; [|reflexivity..|exact Hb]. solve_Permutation.
Qed.
Lemma destroy_all_beside l rest m0 s :
  beside (l ++ rest) m0 (cells s) ->
  exists s', destroy_all l.*1 s = Some s' /\ shut s' = shut s ++ (l.*2 ≫= holds) /\
    beside rest m0 (cells s').
Proof.
  revert s. induction l as [|[o fd] l IH]; intros s H; cbn.
  { exists s. by rewrite app_nil_r. }
  unfold destroy. rewrite (beside_lookup _ _ _ _ _ H). apply beside_delete in H. cbn.
  destruct (IH {| cells := delete o (cells s); shut := shut s ++ holds fd |} H)
    as (s' & -> & Hs & Hb).
  exists s'. split_and!; [done| |done]. rewrite Hs. cbn. by rewrite app_assoc.
Qed.

(** The vector holds these modules, in objects beside those of [m0]. *)
Definition vec_holds (v : modules_vec) (l : list (string * Z)) (m0 m : gmap nat Z) : Prop :=
  (elems v).*1 = l.*1 /\ beside (zip (elems v).*2 l.*2) m0 m.
Lemma vec_holds_length v l m0 m :
  vec_holds v l m0 m -> List.length l.*2 = List.length (elems v).
Proof.
  intros [Hn _]. apply (f_equal List.length) in Hn. by rewrite !length_fmap in *.
Qed.

(** Objects that were moved from have nothing to close. *)
Lemma parked_hold_nothing (l : list nat) : ((fun o => (o, no_fd)) <$> l).*2 ≫= holds = [].
Proof. by induction l. Qed.

Lemma emplace_back_holds grow name fd v l m0 s :
  vec_holds v l m0 (cells s) ->
  exists v' s', emplace_back grow name fd v s = Some (v', s') /\ shut s' = shut s /\
    vec_holds v' (l ++ [(name, fd)]) m0 (cells s').
Proof.
  intros H. pose proof (vec_holds_length _ _ _ _ H) as Hlen. destruct H as [Hn Hb].
  unfold emplace_back, vec_holds. destruct (construct_beside _ _ _ fd Hb) as (s1 & -> & Hs1 & Hb1).
  cbn [mbind option_bind]. destruct (Nat.ltb (List.length (elems v)) (capacity v)).
  - do 2 eexists. split_and!; [reflexivity|done|cbn; rewrite !fmap_app; by f_equal|]. cbn.
    rewrite !fmap_app, zip_with_app by (by rewrite !length_fmap in * ). cbn.
    by rewrite <- Permutation_cons_append.
  - rewrite Permutation_cons_append in Hb1.
    apply move_all_beside in Hb1 as (moved & s2 & -> & Hs2 & Hn2 & Hb2); [|done]. cbn.
    rewrite Permutation_app_swap_app in Hb2. apply destroy_all_beside in Hb2 as (s3 & H3 & Hs3 & Hb3).
    rewrite <- list_fmap_compose, list_fmap_id in H3. rewrite H3. cbn.
    do 2 eexists. split_and!; [reflexivity| |cbn; rewrite !fmap_app; by rewrite Hn2, Hn|].
    + rewrite Hs3, parked_hold_nothing, app_nil_r. congruence.
    + cbn. rewrite !fmap_app, zip_with_app; [done|].
      apply (f_equal List.length) in Hn2. rewrite !length_fmap in *; congruence.
Qed.

Lemma collect_modules_holds grow l v l0 m0 s :
  vec_holds v l0 m0 (cells s) ->
  exists v' s', collect_modules grow l v s = Some (v', s') /\ shut s' = shut s /\
    vec_holds v' (l0 ++ l) m0 (cells s').
Proof.
  revert v l0 s. induction l as [|[name fd] l IH]; intros v l0 s H; cbn.
  { exists v, s. by rewrite app_nil_r. }
  destruct (emplace_back_holds grow name fd _ _ _ _ H) as (v1 & s1 & -> & Hs1 & H1). cbn.
  destruct (IH _ _ _ H1) as (v2 & s2 & -> & Hs2 & H2). exists v2, s2.
  split_and!; [done|congruence|]. by rewrite <- app_assoc in H2.
Qed.

Lemma vec_holds_read v l m0 m :
  vec_holds v l m0 m ->
  (fun e => (e.1, m !! e.2)) <$> elems v = (fun x => (x.1, Some x.2)) <$> l.
Proof.
  intros [Hn Hb]. revert l Hn Hb. generalize (elems v) as es. intros es.
  enough (forall rest l, es.*1 = l.*1 -> beside (zip es.*2 l.*2 ++ rest) m0 m ->
    (fun e => (e.1, m !! e.2)) <$> es = (fun x => (x.1, Some x.2)) <$> l) as H.
  { intros l Hn Hb. apply (H []); [done|by rewrite app_nil_r]. }
  induction es as [|[name o] es IH]; intros rest [|[name' fd] l] [=] Hb; [done|]. subst. cbn in *.
  rewrite (beside_lookup _ _ _ _ _ Hb). f_equal. apply (IH ((o, fd) :: rest)); [done|].
  by rewrite <- Permutation_middle.
Qed.

Lemma fmap_rev {A B} (f : A -> B) (l : list A) : f <$> rev l = rev (f <$> l).
Proof. apply List.map_rev. Qed.
Lemma destroy_modules_closes v l m0 s :
  vec_holds v l m0 (cells s) ->
  exists s', destroy_modules v s = Some s' /\ shut s' = shut s ++ ((rev l).*2 ≫= holds) /\
    cells s' = m0.
Proof.
  intros H. pose proof (vec_holds_length _ _ _ _ H) as Hlen. destruct H as [_ Hb].
  rewrite <- (app_nil_r (zip _ _)), (Permutation_rev (zip _ _)) in Hb.
  apply destroy_all_beside in Hb as (s' & Hd & Hs & Hb).
  exists s'. unfold destroy_modules. rewrite !fmap_rev in *. rewrite <- (length_fmap snd (elems v)) in Hlen.
  rewrite fst_zip in Hd by lia. rewrite snd_zip in Hs by lia. split_and!; [done..|].
  destruct Hb as (_ & _ & ->). cbn. by rewrite (left_id_L ∅ _).
Qed.

(** [Module.load_modules] and the requests of Daemon.v keep the modules as a list: the vector
    of objects implements it. However its buffer grows, filling it closes nothing, element by
    element it then holds the names and descriptors of the list, and destroying it closes the
    list's descriptors from the back, each once and the missing ones not at all, and leaves no
    object behind. *)
Theorem modules_vector_implements grow l s :
  exists v s1 s2,
    collect_modules grow l no_modules s = Some (v, s1) /\ shut s1 = shut s /\
    (fun e => (e.1, cells s1 !! e.2)) <$> elems v = (fun x => (x.1, Some x.2)) <$> l /\
    destroy_modules v s1 = Some s2 /\ shut s2 = shut s ++ ((rev l).*2 ≫= holds) /\
    cells s2 = cells s.
Proof.
  destruct (collect_modules_holds grow l no_modules [] (cells s) s) as (v & s1 & H1 & Hs1 & H).
  { split; [done|apply beside_nil]. }
  destruct (destroy_modules_closes _ _ _ _ H) as (s2 & H2 & Hs2 & Hc).
  exists v, s1, s2. split_and!; [done..|by apply vec_holds_read in H|done|by rewrite Hs2, Hs1|done].
Qed.

(** The end of scope of the requests ([drop_fd]) is the destructor. *)
Lemma drop_fd_destroys o fd s :
  cells s !! o = Some fd ->
  every_run (drop_fd fd) (on_return (fun tr _ =>
    option_map shut (destroy o s) = Some (shut s ++ closed tr))).
Proof.
  intros Ho. unfold drop_fd, destroy. rewrite Ho. unfold holds, closed.
  destruct (0 <=? fd) eqn:Hfd; cbn; intros; rewrite ?Hfd; done.
Qed.

Definition room_for_pairs (n : nat) : nat := if Nat.eqb n 0 then 1 else 2 * n.
Example three_modules :
  option_map (fun '(v, s) => (capacity v, shut s, option_map shut (destroy_modules v s)))
    (collect_modules room_for_pairs [("a", 5); ("b", -1); ("c", 7)] no_modules
       {| cells := ∅; shut := [] |}) = Some (4%nat, [], Some [7; 5]).
Proof. vm_compute. reflexivity. Qed.
