(* ===== verification/Atexit.v ===== *)
(** * libc's exit handlers

    injector/atexit.cpp and include/atexit.hpp, with [clean_libc_trace]: compacting the array of
    exit handlers the unloaded modules left holes in, under libc's lock and with its pages
    opened for writing and closed again. The addresses of the array and the lock come from
    libc's symbols, behind the interface [Symbols]. *)
From Stdlib Require Import ZArith Lia List String Ascii Bool.
From stdpp Require Import base list strings.
From S2P Require Import Prelude.
From S2P Require Import Elf.
Open Scope string_scope.
Open Scope list_scope.
Open Scope Z_scope.

Inductive ScrubStatus :=
| kDone | kNothingToScrub | kNoArray | kNoLock | kLockBusy | kNotWritable | kLeftWritable.
#[export] Instance ScrubStatus_eq_dec : EqDecision ScrubStatus.
Proof. solve_decision. Defined.

Definition describe (status : ScrubStatus) : string :=
  match status with
  | kDone => "array compacted"
  | kNothingToScrub => "nothing to scrub"
  | kNoArray => "atexit array not found"
  | kNoLock => "atexit lock not found"
  | kLockBusy => "atexit lock held by another thread"
  | kNotWritable => "array could not be made writable"
  | kLeftWritable => "array compacted but left writable"
  end.
(** No two outcomes read the same in the log. *)
Lemma describe_inj s s' : describe s = describe s' -> s = s'.
Proof. by destruct s, s'. Qed.

Record AtexitEntry := { fn : Z; arg : Z; dso : Z }.
#[export] Instance AtexitEntry_eq_dec : EqDecision AtexitEntry.
Proof. solve_decision. Defined.
Definition no_entry : AtexitEntry := {| fn := 0; arg := 0; dso := 0 |}.
Definition live (e : AtexitEntry) : bool := negb (fn e =? 0).

(** The object libc keeps; [entries] is the memory behind its pointer. *)
Record AtexitArray := {
  array_ : Z; entries : list AtexitEntry; size_ : nat; extracted_count_ : nat;
  capacity_ : nat; total_appends_ : Z }.

Inductive libc (I : Type) : Type -> Type :=
| OpenLibc : libc I (option I)
| ReadArray (addr : Z) : libc I AtexitArray
| StoreEntries (addr : Z) (es : list AtexitEntry) : libc I unit
| StoreCounters (addr : Z) (size extracted : nat) (appends : Z) : libc I unit
| TryLock (lock : Z) : libc I bool
| Unlock (lock : Z) : libc I unit
| SchedYield : libc I unit
| Mprotect (start len : Z) (writable : bool) : libc I Z  (* 0, or the errno *)
| Madvise (start len : Z) : libc I unit.                 (* MADV_DONTNEED *)
Arguments OpenLibc {I}.
Arguments ReadArray {I} addr.
Arguments StoreEntries {I} addr es.
Arguments StoreCounters {I} addr size extracted appends.
Arguments TryLock {I} lock.
Arguments Unlock {I} lock.
Arguments SchedYield {I}.
Arguments Mprotect {I} start len writable.
Arguments Madvise {I} start len.

Definition EFAULT : Z := 14.
Definition kLockAttempts : nat := 8.
Definition MAX_REASONABLE_ATEXIT_ENTRIES : nat := 4096 * 16.

Section Atexit.
(** Pointers of [w] bits and pages of [page_size] bytes. *)
Context {I : Type} `{Symbols I} (w page_size : Z).

Definition page_start (x : Z) : Z := Z.land x (wrap w (Z.lnot (page_size - 1))).
Definition page_end (x : Z) : Z := page_start (wrap w (x + page_size - 1)).
Definition entry_size : Z := 3 * (w / 8).
Definition page_start_of_index (idx : nat) : Z := page_start (wrap w (Z.of_nat idx * entry_size)).
Definition page_end_of_index (idx : nat) : Z := page_end (wrap w (Z.of_nat idx * entry_size)).

(** Answers 0, or the errno. *)
Definition set_writable (a : AtexitArray) (writable : bool) (start_idx num_entries : nat) :
    prog (libc I) Z :=
  if array_ a =? 0 then Ret EFAULT
  else
    let start_byte := page_start_of_index start_idx in
    let stop_byte := page_end_of_index (start_idx + num_entries) in
    call (Mprotect (wrap w (array_ a + start_byte)) (wrap w (stop_byte - start_byte)) writable).

Definition has_fingerprint (a : AtexitArray) : bool :=
  Nat.ltb 0 (extracted_count_ a) || (Z.of_nat (size_ a) <? total_appends_ a).

(** How many entries at the front, of the first [n], are not null. *)
Fixpoint skip_live (n : nat) (es : list AtexitEntry) : nat :=
  match n, es with
  | S n, e :: es => if live e then S (skip_live n es) else O
  | _, _ => O
  end.

(** The loop that shifts [n] entries from [src] on down to [dst]. *)
Fixpoint compact (n src dst : nat) (es : list AtexitEntry) : list AtexitEntry * nat :=
  match n with
  | O => (es, dst)
  | S n =>
      let entry := nth src es no_entry in
      let es := <[src := no_entry]> es in
      if live entry then compact n (S src) (S dst) (<[dst := entry]> es)
      else compact n (S src) dst es
  end.

Definition recompact (addr : Z) (a : AtexitArray) : prog (libc I) (ScrubStatus * Z) :=
  if negb (has_fingerprint a) then Ret (kNothingToScrub, 0)
  else if Nat.ltb 0 (extracted_count_ a) then
    err <- set_writable a true 0 (size_ a) ;;
    if negb (err =? 0) then Ret (kNotWritable, err)
    else if Nat.ltb (List.length (entries a)) (size_ a) then
      Halt (Undefined "read past the array")
    else
      let src := skip_live (size_ a) (entries a) in
      let '(es, dst) := compact (size_ a - src) src src (entries a) in
      call (StoreEntries addr es) ;;;
      let old_bytes := page_end_of_index (size_ a) in
      let new_bytes := page_end_of_index dst in
      (if new_bytes <? old_bytes
       then call (Madvise (wrap w (array_ a + new_bytes)) (old_bytes - new_bytes))
       else Ret tt) ;;;
      err <- set_writable a false 0 (size_ a) ;;
      call (StoreCounters addr dst 0 (Z.of_nat dst)) ;;;
      Ret (if err =? 0 then kDone else kLeftWritable, err)
  else
    call (StoreCounters addr (size_ a) (extracted_count_ a) (Z.of_nat (size_ a))) ;;;
    Ret (kDone, 0).

(** [findArray]: the address, 0 for none. *)
Definition findArray (image : I) : prog (libc I) Z :=
  modern <- ofres (symbol_address image "_ZL7g_array.0") ;;
  g_array <- (if negb (modern =? 0) then Ret modern
              else ofres (symbol_address image "_ZL7g_array")) ;;
  if g_array =? 0 then Ret 0
  else
    a <- call (ReadArray g_array) ;;
    Ret (if Nat.ltb (size_ a) MAX_REASONABLE_ATEXIT_ENTRIES then g_array else 0).

Definition findLock (image : I) : prog (libc I) Z :=
  lock <- ofres (symbol_address image "_ZL13g_atexit_lock") ;;
  if negb (lock =? 0) then Ret lock
  else
    name <- ofres (symbol_by_prefix image "_ZL13g_atexit_lock") ;;
    if is_empty name then Ret 0 else ofres (symbol_address image name).

Fixpoint try_lock (attempts : nat) (lock : Z) : prog (libc I) bool :=
  match attempts with
  | O => Ret false
  | S attempts =>
      locked <- call (TryLock lock) ;;
      if locked : bool then Ret true else call SchedYield ;;; try_lock attempts lock
  end.

Definition scrubFingerprint : prog (libc I) ScrubStatus :=
  image <- call OpenLibc ;;
  match image with
  | None => Ret kNoArray
  | Some image =>
      g_array <- findArray image ;;
      if g_array =? 0 then Ret kNoArray
      else
        lock <- findLock image ;;
        if lock =? 0 then Ret kNoLock
        else
          locked <- try_lock kLockAttempts lock ;;
          if negb locked then Ret kLockBusy
          else
            a <- call (ReadArray g_array) ;;
            let* (status, _) := recompact g_array a in
            call (Unlock lock) ;;;
            Ret status
  end.

(** clean.cpp: every outcome is only logged. *)
Definition clean_libc_trace : prog (libc I) unit := scrubFingerprint ;;; Ret tt.
End Atexit.

(** ** Facts: the compaction *)

Definition squeezed (es : list AtexitEntry) : list AtexitEntry :=
  let kept := List.filter live es in kept ++ repeat no_entry (List.length es - List.length kept).

Lemma filter_live_le es : (List.length (List.filter live es) <= List.length es)%nat.
Proof. induction es as [|e es IH]; cbn; [lia|]. destruct (live e); cbn; lia. Qed.

Lemma all_empty gap : Forall (fun e => e = no_entry) gap -> gap = repeat no_entry (List.length gap).
Proof. induction 1; cbn; congruence. Qed.

Lemma compact_spec n : forall src dst kept gap rest,
  List.length kept = dst -> List.length (kept ++ gap) = src -> Forall (fun e => e = no_entry) gap ->
  (n <= List.length rest)%nat ->
  compact n src dst (kept ++ gap ++ rest) =
    (kept ++ List.filter live (firstn n rest) ++
       repeat no_entry (List.length gap + n - List.length (List.filter live (firstn n rest))) ++
       skipn n rest,
     (dst + List.length (List.filter live (firstn n rest)))%nat).
Proof.
  induction n as [|n IH]; intros src dst kept gap rest Hdst Hsrc Hgap Hn.
  { cbn [compact firstn List.filter List.length skipn app].
    rewrite !Nat.add_0_r, Nat.sub_0_r, <- (all_empty gap Hgap). done. }
  destruct rest as [|e rest]; [cbn in Hn; lia|]. cbn [compact].
  rewrite app_nth2 by (rewrite length_app in Hsrc; lia).
  rewrite app_nth2 by (rewrite length_app in Hsrc; lia).
  replace (src - List.length kept - List.length gap)%nat with O
    by (rewrite length_app in Hsrc; lia). cbn [nth].
  assert (<[src:=no_entry]> (kept ++ gap ++ e :: rest) = kept ++ (gap ++ [no_entry]) ++ rest) as ->.
  { rewrite (app_assoc kept gap), insert_app_r_alt by lia. rewrite Hsrc, Nat.sub_diag. cbn.
    by rewrite <- !app_assoc. }
  cbn [firstn List.filter skipn].
  destruct (live e) eqn:He.
  - destruct gap as [|g gap].
    + assert (<[dst:=e]> (kept ++ ([] ++ [no_entry]) ++ rest) = (kept ++ [e]) ++ [] ++ rest) as ->.
      { rewrite insert_app_r_alt by lia. rewrite Hdst, Nat.sub_diag. cbn. by rewrite <- !app_assoc. }
      rewrite IH; [|rewrite length_app; cbn; lia| |constructor|cbn in Hn; lia].
      * cbn [List.length app]. rewrite <- app_assoc. by repeat (f_equal; try lia).
      * repeat (rewrite ?length_app in *; cbn [List.length app] in *). lia.
    + inversion Hgap; subst g.
      assert (<[dst:=e]> (kept ++ ((no_entry :: gap) ++ [no_entry]) ++ rest) =
              (kept ++ [e]) ++ (gap ++ [no_entry]) ++ rest) as ->.
      { rewrite insert_app_r_alt by lia. rewrite Hdst, Nat.sub_diag. cbn. by rewrite <- !app_assoc. }
      rewrite IH; [|rewrite length_app; cbn; lia| |apply Forall_app; auto|cbn in Hn; lia].
      * rewrite !length_app. cbn [List.length app].
        rewrite <- app_assoc. cbn [app]. by repeat (f_equal; try lia).
      * repeat (rewrite ?length_app in *; cbn [List.length app] in *). lia.
  - rewrite IH; [|done| |apply Forall_app; auto|cbn in Hn; lia].
    + rewrite length_app. cbn [List.length]. by repeat (f_equal; try lia).
    + repeat (rewrite ?length_app in *; cbn [List.length app] in *). lia.
Qed.

Lemma skip_live_spec n es :
  (skip_live n es <= n)%nat /\ (skip_live n es <= List.length es)%nat /\
  List.filter live (firstn (skip_live n es) es) = firstn (skip_live n es) es.
Proof.
  revert es. induction n as [|n IH]; intros [|e es]; cbn [skip_live]; try (cbn; split_and!; [lia|lia|done]).
  destruct (live e) eqn:He; [|cbn; split_and!; [lia|lia|done]].
  destruct (IH es) as (H1 & H2 & H3). cbn [firstn List.filter List.length]. rewrite He, H3.
  split_and!; [lia|lia|done].
Qed.

Lemma compacted n es :
  (n <= List.length es)%nat ->
  compact (n - skip_live n es) (skip_live n es) (skip_live n es) es =
    (squeezed (firstn n es) ++ skipn n es, List.length (List.filter live (firstn n es))).
Proof.
  intros Hn. destruct (skip_live_spec n es) as (H1 & H2 & H3). set (k := skip_live n es) in *.
  pose proof (compact_spec (n - k) k k (firstn k es) [] (skipn k es)) as Hc.
  cbn [app] in Hc. rewrite take_drop in Hc. rewrite Hc; clear Hc;
    [|rewrite length_firstn; lia|rewrite app_nil_r, length_firstn; lia|constructor
     |rewrite length_skipn; lia].
  assert (firstn n es = firstn k es ++ firstn (n - k) (skipn k es)) as Hsplit.
  { rewrite <- (take_drop k (firstn n es)), take_take, skipn_firstn_comm.
    by rewrite Nat.min_l by lia. }
  assert (List.filter live (firstn n es) =
          firstn k es ++ List.filter live (firstn (n - k) (skipn k es))) as Hf.
  { by rewrite Hsplit, List.filter_app, H3. }
  unfold squeezed. rewrite Hf. rewrite skipn_skipn, !length_app.
  rewrite !length_firstn. replace (Nat.min k (List.length es)) with k by lia.
  rewrite <- !app_assoc. cbn [List.length Nat.add].
  replace (n - k + k)%nat with n by lia.
  do 5 f_equal. lia.
Qed.

(** ** Facts: pages *)

Lemma page_start_pow w k x :
  0 <= k <= w -> 0 <= x < 2 ^ w -> page_start w (2 ^ k) x = x / 2 ^ k * 2 ^ k.
Proof.
  intros Hk Hx. unfold page_start, wrap. rewrite <- Z.land_ones by lia.
  rewrite Z.land_assoc, (Z.land_comm x), <- Z.land_assoc, (Z.land_ones x) by lia.
  rewrite (Z.mod_small x) by lia. rewrite Z.land_comm.
  replace (2 ^ k - 1) with (Z.ones k) by (rewrite Z.ones_equiv; lia).
  rewrite <- Z.ldiff_land, Z.ldiff_ones_r by lia.
  by rewrite Z.shiftl_mul_pow2, Z.shiftr_div_pow2 by lia.
Qed.

Lemma page_end_bounds w k x :
  0 <= k <= w -> 0 <= x -> x + 2 ^ k <= 2 ^ w -> x <= page_end w (2 ^ k) x < x + 2 ^ k.
Proof.
  intros Hk Hx Hw. assert (0 < 2 ^ k) by (apply Z.pow_pos_nonneg; lia).
  unfold page_end. rewrite (wrap_small w (x + 2 ^ k - 1)) by lia.
  rewrite page_start_pow by lia.
  pose proof (Z.div_mod (x + 2 ^ k - 1) (2 ^ k)). pose proof (Z.mod_pos_bound (x + 2 ^ k - 1) (2 ^ k)).
  lia.
Qed.

(** ** What a scrub does *)

Section Effects.
Context {I : Type} `{Symbols I} (w page_size : Z).
Local Abbreviation recompact := (recompact (I := I) w page_size).
Local Abbreviation scrubFingerprint := (scrubFingerprint (I := I) w page_size).

(** The stores of a run, and the ranges handed back to the kernel. *)
Definition entries_stored (tr : list (event (libc I))) : list (list AtexitEntry) :=
  List.flat_map (fun ev => match ev with Ev (StoreEntries _ es) _ => [es] | _ => [] end) tr.
Definition counters_stored (tr : list (event (libc I))) : list (nat * nat * Z) :=
  List.flat_map (fun ev => match ev with Ev (StoreCounters _ n m t) _ => [(n, m, t)] | _ => [] end) tr.
Definition discarded (tr : list (event (libc I))) : list (Z * Z) :=
  List.flat_map (fun ev => match ev with Ev (Madvise start len) _ => [(start, len)] | _ => [] end) tr.

Definition kept (a : AtexitArray) : list AtexitEntry := List.filter live (firstn (size_ a) (entries a)).

(** The stores of a scrub that had holes to close. *)
Definition closes_holes (a : AtexitArray) (tr : list (event (libc I))) : Prop :=
  entries_stored tr = [squeezed (firstn (size_ a) (entries a)) ++ skipn (size_ a) (entries a)] /\
  counters_stored tr = [(List.length (kept a), 0%nat, Z.of_nat (List.length (kept a)))] /\
  (forall start len, In (start, len) (discarded tr) ->
     start = wrap w (array_ a + page_end_of_index w page_size (List.length (kept a)))).

Lemma set_writable_spec a b i n :
  every_run (set_writable (I := I) w page_size a b i n) (fun tr r =>
    entries_stored tr = [] /\ counters_stored tr = [] /\ discarded tr = [] /\ exists e, r = Val e).
Proof.
  unfold set_writable. destruct (array_ a =? 0); cbn; [|intros x]; split_and!; eauto.
Qed.

Lemma entries_stored_app tr tr' : entries_stored (tr ++ tr') = entries_stored tr ++ entries_stored tr'.
Proof. apply List.flat_map_app. Qed.
Lemma counters_stored_app tr tr' :
  counters_stored (tr ++ tr') = counters_stored tr ++ counters_stored tr'.
Proof. apply List.flat_map_app. Qed.
Lemma discarded_app tr tr' : discarded (tr ++ tr') = discarded tr ++ discarded tr'.
Proof. apply List.flat_map_app. Qed.

Lemma closes_holes_shape a addr tr1 tr2 purged :
  entries_stored tr1 = [] /\ counters_stored tr1 = [] /\ discarded tr1 = [] ->
  entries_stored tr2 = [] /\ counters_stored tr2 = [] /\ discarded tr2 = [] ->
  entries_stored purged = [] /\ counters_stored purged = [] /\
  (forall start len, In (start, len) (discarded purged) ->
     start = wrap w (array_ a + page_end_of_index w page_size (List.length (kept a)))) ->
  closes_holes a
    (tr1 ++ [Ev (StoreEntries addr
        (squeezed (firstn (size_ a) (entries a)) ++ skipn (size_ a) (entries a))) tt] ++
     purged ++ tr2 ++
     [Ev (StoreCounters addr (List.length (kept a)) 0 (Z.of_nat (List.length (kept a)))) tt]).
Proof.
  intros (H1 & H2 & H3) (H1' & H2' & H3') (P1 & P2 & P3). unfold closes_holes.
  rewrite !entries_stored_app, !counters_stored_app, !discarded_app, H1, H2, H3, H1', H2', H3', P1, P2.
  cbn. split_and!; [done|done|]. intros start len Hin. rewrite app_nil_r in Hin. by apply (P3 start len).
Qed.

(** C31: a scrub keeps every handler libc still has, in order. With nothing to hide it does
    nothing; refused write access, it stores nothing. Otherwise, when there were holes, it
    stores the array with its live entries moved to the front in their order, empty entries
    behind them, and everything beyond the old size as it was, then counters that agree with
    the number of live entries; without holes it only stores the counters. *)
Theorem recompact_keeps_handlers addr a :
  (size_ a <= List.length (entries a))%nat ->
  every_run (recompact addr a) (fun tr r =>
    match r with
    | Stop _ => False
    | Val (kNothingToScrub, _) => tr = [] /\ has_fingerprint a = false
    | Val (kNotWritable, err) => entries_stored tr = [] /\ counters_stored tr = [] /\ err <> 0
    | Val (kDone, err) | Val (kLeftWritable, err) =>
        has_fingerprint a = true /\
        if Nat.ltb 0 (extracted_count_ a) then closes_holes a tr
        else tr = [Ev (StoreCounters addr (size_ a) 0 (Z.of_nat (size_ a))) tt] /\ err = 0
    | Val _ => False
    end).
Proof.
  intros Hsize. unfold Atexit.recompact. destruct (has_fingerprint a) eqn:Hf; cbn [negb]; [|done].
  destruct (Nat.ltb_spec 0 (extracted_count_ a)) as [He|He].
  2: { intros []. cbn. split; [done|]. split; [|done]. by replace (extracted_count_ a) with O by lia. }
  eapply every_run_seq; [apply set_writable_spec| |]; [intros tr h (_ & _ & _ & e & He'); done|].
  intros tr1 err (H1 & H2 & H3 & _). destruct (Z.eqb_spec err 0) as [->|Herr]; cbn [negb].
  2: { cbn. by rewrite app_nil_r. }
  destruct (Nat.ltb_spec (List.length (entries a)) (size_ a)) as [?|_]; [lia|].
  cbv zeta. rewrite compacted by done. apply every_run_step. intros [].
  set (purge := if _ <? _ then call (Madvise _ _) else Ret tt).
  assert (every_run purge (fun tr r => r = Val tt /\
    entries_stored tr = [] /\ counters_stored tr = [] /\
    (forall start len, In (start, len) (discarded tr) ->
     start = wrap w (array_ a + page_end_of_index w page_size (List.length (kept a)))))) as Hpurge.
  { unfold purge. destruct (_ <? _); [intros []|]; cbn; split_and!; try done.
    intros start len [[= <- <-]|[]]. reflexivity. }
  eapply every_run_seq; [exact Hpurge|by intros tr h [? _]|]. intros purged _ [_ HP].
  eapply every_run_seq; [apply set_writable_spec| |]; [intros tr h (_ & _ & _ & e & He'); done|].
  intros tr2 err (H1' & H2' & H3' & _). apply every_run_step. intros [].
  pose proof (closes_holes_shape a addr tr1 tr2 purged ltac:(auto) ltac:(auto) HP) as Hc.
  cbn [every_run]. cbn [app] in Hc. by destruct (err =? 0).
Qed.

(** *** The discipline

    What a run may do to the object at [addr] under the lock at [lock]. The state says whether
    the lock is held, what the object was when read under it, and whether the array's pages are
    open. There is no successor for another lock or object; for a second attempt at a held lock;
    for a store, a change of protection, a drop of pages or an unlock without it; for a change of
    protection of any pages but those of the array's entries; for a store of entries, or a drop
    of pages, while they are closed; for a store past the object's size; and for a drop of pages
    that does not end where the opened ones do. Reading the object is allowed without the lock. *)
Record guard := { g_held : bool; g_seen : option AtexitArray; g_open : bool }.

Definition array_pages (a : AtexitArray) : Z * Z :=
  (wrap w (array_ a), wrap w (page_end_of_index w page_size (size_ a))).
(** An array of the same length, with the same entries past the size. *)
Definition within_size (a : AtexitArray) (es : list AtexitEntry) : bool :=
  bool_decide (List.length es = List.length (entries a) /\
               skipn (size_ a) es = skipn (size_ a) (entries a)).

Definition guard_step (addr lock : Z) (g : guard) (ev : event (libc I)) : option guard :=
  let under (ok : AtexitArray -> bool) (g' : guard) :=
    match g_held g, g_seen g with
    | true, Some a => if ok a then Some g' else None
    | _, _ => None
    end in
  match ev with
  | Ev e x =>
      match e in libc _ X return X -> option guard with
      | OpenLibc | SchedYield => fun _ => Some g
      | ReadArray p => fun a =>
          if negb (p =? addr) then None
          else Some (if g_held g
                     then {| g_held := true; g_seen := Some a; g_open := g_open g |} else g)
      | TryLock l => fun ok =>
          if negb (l =? lock) || g_held g then None
          else Some {| g_held := ok; g_seen := None; g_open := g_open g |}
      | Unlock l => fun _ =>
          if negb (l =? lock) || negb (g_held g) then None
          else Some {| g_held := false; g_seen := None; g_open := g_open g |}
      | Mprotect start len writable => fun err =>
          under (fun a => bool_decide ((start, len) = array_pages a))
            (if err =? 0 then {| g_held := true; g_seen := g_seen g; g_open := writable |} else g)
      | StoreEntries p es => fun _ =>
          under (fun a => (p =? addr) && g_open g && within_size a es) g
      | Madvise start len => fun _ =>
          under (fun a => g_open g &&
            (start =? wrap w (array_ a + (page_end_of_index w page_size (size_ a) - len)))) g
      | StoreCounters p _ _ _ => fun _ => under (fun _ => p =? addr) g
      end x
  end.
Fixpoint guarded (addr lock : Z) (g : guard) (tr : list (event (libc I))) : option guard :=
  match tr with
  | [] => Some g
  | ev :: tr =>
      match guard_step addr lock g ev with Some g => guarded addr lock g tr | None => None end
  end.
Definition released (open : bool) : guard := {| g_held := false; g_seen := None; g_open := open |}.
Definition holding (a : AtexitArray) (open : bool) : guard :=
  {| g_held := true; g_seen := Some a; g_open := open |}.

Lemma guarded_app addr lock g tr tr' :
  guarded addr lock g (tr ++ tr') =
    match guarded addr lock g tr with Some g => guarded addr lock g tr' | None => None end.
Proof.
  revert g. induction tr as [|ev tr IH]; intros g; cbn [guarded app]; [done|].
  by destruct (guard_step addr lock g ev).
Qed.

(** The pages opened hold every entry up to the size, and less than a page more, as long as the
    address arithmetic does not wrap. *)
Lemma array_pages_cover a k :
  page_size = 2 ^ k -> 0 <= k <= w -> Z.of_nat (size_ a) * entry_size w + 2 ^ k <= 2 ^ w -> 0 <= w ->
  Z.of_nat (size_ a) * entry_size w <= snd (array_pages a)
    < Z.of_nat (size_ a) * entry_size w + 2 ^ k.
Proof.
  intros Hp Hk Hfit Hw. assert (0 < 2 ^ k) by (apply Z.pow_pos_nonneg; lia).
  assert (0 <= entry_size w) by (unfold entry_size; apply Z.mul_nonneg_nonneg; [lia|apply Z.div_pos; lia]).
  unfold array_pages, page_end_of_index. cbn [snd]. rewrite Hp.
  assert (0 <= Z.of_nat (size_ a) * entry_size w) as Hn by (apply Z.mul_nonneg_nonneg; lia).
  set (n := Z.of_nat (size_ a) * entry_size w) in *. rewrite (wrap_small w n) by lia.
  pose proof (page_end_bounds w k n Hk Hn Hfit). rewrite wrap_small by lia. lia.
Qed.

(** Reads alone. *)
Definition passive (ev : event (libc I)) : bool :=
  match ev with Ev OpenLibc _ | Ev (ReadArray _) _ => true | _ => false end.
Lemma ofres_passive {A} (r : res A) : emits passive (ofres (E := libc I) r).
Proof. by destruct r. Qed.
#[local] Hint Resolve ofres_passive : neo.
Lemma findArray_passive image : emits passive (findArray (I := I) image).
Proof. unfold findArray. emits_tac. Qed.
Lemma findLock_passive image : emits passive (findLock (I := I) image).
Proof. unfold findLock. emits_tac. Qed.

(** [addr] and [lock] are what the two searches found in [image], one after the other. *)
Definition located (image : I) (addr lock : Z) (tr : list (event (libc I))) : Prop :=
  exists ta tl, tr = Ev OpenLibc (Some image) :: ta ++ tl /\
    exec (findArray image) ta (Val addr) /\ exec (findLock image) tl (Val lock) /\
    addr <> 0 /\ lock <> 0.

Section Under.
Variables addr lock : Z.

Lemma try_lock_guarded n :
  every_run (try_lock (I := I) n lock) (fun tr r =>
    exists b, r = Val b /\ guarded addr lock (released false) tr =
      Some {| g_held := b; g_seen := None; g_open := false |}).
Proof.
  induction n as [|n IH]; cbn [try_lock]; [by exists false|]. apply every_run_step.
  intros []; [exists true|apply every_run_step; intros [];
    eapply every_run_mono; [|exact IH]; intros tr r (b & -> & Hg); exists b];
    (split; [done|]); cbn [guarded guard_step]; rewrite Z.eqb_refl; done.
Qed.

Lemma set_writable_guarded a b o :
  every_run (set_writable (I := I) w page_size a b 0 (size_ a)) (fun tr r =>
    exists e, r = Val e /\
      guarded addr lock (holding a o) tr = Some (holding a (if e =? 0 then b else o))).
Proof.
  unfold set_writable. destruct (array_ a =? 0); cbn [every_run]; [by exists EFAULT|].
  intros e. exists e. split; [done|]. cbn [guarded guard_step holding g_held g_seen].
  assert (page_start_of_index w page_size 0 = 0) as ->.
  { unfold page_start_of_index, page_start. rewrite Z.mul_0_l. unfold wrap.
    rewrite Zmod_0_l. apply Z.land_0_l. }
  rewrite Z.add_0_r, Z.sub_0_r, bool_decide_eq_true_2 by done. by destruct (e =? 0).
Qed.

Lemma stored_within a :
  (size_ a <= List.length (entries a))%nat ->
  within_size a (squeezed (firstn (size_ a) (entries a)) ++ skipn (size_ a) (entries a)) = true.
Proof.
  intros Hs. assert (List.length (squeezed (firstn (size_ a) (entries a))) = size_ a) as Hl.
  { unfold squeezed. rewrite length_app, repeat_length.
    pose proof (filter_live_le (firstn (size_ a) (entries a))). rewrite length_firstn in *. lia. }
  apply bool_decide_eq_true_2. rewrite length_app, Hl, length_skipn. split; [lia|].
  rewrite skipn_app, Hl, Nat.sub_diag, skipn_all2 by lia. done.
Qed.

Lemma recompact_guarded a :
  every_run (recompact addr a) (on_return (fun tr r => exists o,
    guarded addr lock (holding a false) tr = Some (holding a o) /\ (o = true <-> r.1 = kLeftWritable))).
Proof.
  unfold Atexit.recompact. destruct (has_fingerprint a); cbn [negb]; [|by exists false].
  destruct (Nat.ltb 0 (extracted_count_ a)).
  2: { intros []. exists false. cbn [guarded guard_step holding g_held g_seen].
       by rewrite Z.eqb_refl. }
  eapply every_run_seq; [apply (set_writable_guarded a true false)|done|].
  intros tr1 err (e & [= <-] & Hg1). destruct (err =? 0); cbn [negb].
  2: { cbn [every_run on_return]. rewrite app_nil_r. by exists false. }
  destruct (Nat.ltb_spec (List.length (entries a)) (size_ a)) as [?|Hs]; [done|].
  rewrite compacted by done. apply every_run_step. intros []. cbv zeta.
  set (purge := if _ <? _ then call (Madvise _ _) else Ret tt).
  assert (every_run purge (fun tr r => r = Val tt /\
            guarded addr lock (holding a true) tr = Some (holding a true))) as Hpurge.
  { unfold purge. destruct (_ <? _); [intros []|done]. split; [done|].
    cbn [guarded guard_step holding g_held g_seen g_open andb].
    rewrite Z.sub_sub_distr, Z.sub_diag, Z.add_0_l, Z.eqb_refl. done. }
  eapply every_run_seq; [exact Hpurge|by intros tr h [? _]|]. intros tr2 _ [_ Hg2].
  eapply every_run_seq; [apply (set_writable_guarded a false true)|by intros tr h (e & ? & _)|].
  intros tr3 err' (e & [= <-] & Hg3). apply every_run_step. intros [].
  cbn [every_run on_return fst]. exists (negb (err' =? 0)). split; [|by destruct (err' =? 0)].
  rewrite guarded_app, Hg1. cbn [guarded guard_step holding g_held g_seen g_open].
  rewrite Z.eqb_refl, (stored_within a Hs). cbn [andb]. fold (holding a true).
  rewrite guarded_app, Hg2, guarded_app, Hg3. cbn [guarded guard_step holding g_held g_seen g_open].
  rewrite Z.eqb_refl. by destruct (err' =? 0).
Qed.
End Under.

(** C32: libc's handlers are only written under libc's own lock, and their pages given back. In
    every run that ends, the searches for the object and its lock only read. Without both nothing
    else happens. From then on the run keeps the discipline of [guard_step] for that object and
    that lock: all it does beyond reading - protection changes, stores, dropped pages - it does
    with the lock held; what it opens are the pages of the entries and what it writes of the
    array lies within the size, while they are open; and at the end the lock is free, whatever
    happened, and the pages are closed again, except exactly when the status says they were left
    writable. *)
Theorem scrub_discipline :
  every_run scrubFingerprint (on_return (fun tr status =>
    (forallb passive tr = true /\ (status = kNoArray \/ status = kNoLock)) \/
    exists image addr lock before during open,
      tr = before ++ during /\ located image addr lock before /\ forallb passive before = true /\
      guarded addr lock (released false) during = Some (released open) /\
      (open = true <-> status = kLeftWritable))).
Proof.
  unfold Atexit.scrubFingerprint. apply every_run_step. intros [image|]; [|left; auto].
  eapply every_run_seq; [apply every_run_and; [apply (every_run_self (findArray image))|
                                                apply findArray_passive]|done|].
  intros tr1 addr [Hx1 Ht1]. cbn beta in Ht1.
  destruct (Z.eqb_spec addr 0) as [->|Hne1]; [left; cbn; rewrite app_nil_r; auto|].
  eapply every_run_seq; [apply every_run_and; [apply (every_run_self (findLock image))|
                                                apply findLock_passive]|done|].
  intros tr2 lock [Hx2 Ht2]. cbn beta in Ht2.
  destruct (Z.eqb_spec lock 0) as [->|Hne2].
  { left. cbn. rewrite app_nil_r, forallb_app, Ht1, Ht2. auto. }
  eapply every_run_seq; [apply (try_lock_guarded addr lock)|by intros tr h (b & ? & _)|].
  intros tr3 locked (b & [= <-] & Hg3).
  assert (forall during, Ev OpenLibc (Some image) :: tr1 ++ tr2 ++ during =
            (Ev OpenLibc (Some image) :: tr1 ++ tr2) ++ during) as Hsplit
    by (intros; cbn; by rewrite app_assoc).
  assert (located image addr lock (Ev OpenLibc (Some image) :: tr1 ++ tr2)) as Hl
    by (exists tr1, tr2; auto).
  assert (forallb passive (Ev OpenLibc (Some image) :: tr1 ++ tr2) = true) as Hp.
  { cbn. by rewrite forallb_app, Ht1, Ht2. }
  destruct locked; cbn [negb].
  2: { right. exists image, addr, lock, (Ev OpenLibc (Some image) :: tr1 ++ tr2), tr3, false.
       cbn [every_run on_return]. rewrite app_nil_r. split; [apply Hsplit|].
       do 3 (split; [done|]). done. }
  apply every_run_step. intros a. eapply every_run_seq; [apply (recompact_guarded addr lock)|done|].
  intros tr4 [status err] (o & Hg4 & Ho). apply every_run_step. intros [].
  right. exists image, addr, lock. eexists (_ :: tr1 ++ tr2), _, o.
  split; [apply Hsplit|]. do 2 (split; [done|]). split; [|exact Ho].
  rewrite guarded_app, Hg3. cbn [guarded guard_step app g_held]. rewrite Z.eqb_refl.
  cbn [negb g_open].
  fold (holding a false). rewrite guarded_app, Hg4. cbn [guarded guard_step holding g_held g_open].
  by rewrite Z.eqb_refl.
Qed.
End Effects.

(** ** Witness *)

Definition holed : AtexitArray :=
  let e n := {| fn := n; arg := 0; dso := 1 |} in
  {| array_ := 0x7000; entries := [e 1; no_entry; e 2; no_entry; e 3]; size_ := 4;
     extracted_count_ := 2; capacity_ := 170; total_appends_ := 4 |}.
Definition obliging (n : nat) (X : Type) (e : libc unit X) : X :=
  match e with
  | OpenLibc => None
  | ReadArray _ => holed
  | StoreEntries _ _ | StoreCounters _ _ _ _ | Unlock _ | SchedYield | Madvise _ _ => tt
  | TryLock _ => true
  | Mprotect _ _ _ => 0
  end.

Lemma recompact_keeps_handlers_witness :
  closes_holes 64 4096 holed (run obliging 0 (recompact 64 4096 0x100 holed)).1 /\
  map fn (concat (entries_stored (run obliging 0 (recompact 64 4096 0x100 holed)).1)) = [1; 2; 0; 0; 3].
Proof.
  split; [|vm_compute; reflexivity].
  assert (size_ holed <= List.length (entries holed))%nat as Hs by (cbn; lia).
  pose proof (every_run_run _ _ obliging 0
    (recompact_keeps_handlers (I := unit) 64 4096 0x100 holed Hs)) as H.
  exact (proj2 H).
Defined.
