(* ===== verification/Solist.v ===== *)
(** * The linker's list of libraries

    injector/solist.cpp and include/solist.hpp, with [clean_linker_trace] of injector/clean.cpp:
    locating the linker's private list, guessing the layout of its records, and dropping the
    records of libraries whose path gives the loader away. The linker's memory and its
    functions are outside the program: reading and writing memory, and calling the functions
    found behind symbols, are calls. *)
From Stdlib Require Import ZArith Lia List String Ascii Bool Sorting.
From stdpp Require Import base list strings.
From S2P Require Import Prelude.
From S2P Require Import Elf.
Open Scope string_scope.
Open Scope list_scope.
Open Scope Z_scope.

Inductive lnk (I : Type) : Type -> Type :=
| OpenLinker : lnk I (option (I * string))            (* the image and its path *)
| ReadWord (addr : Z) : lnk I Z
| ReadByte (addr : Z) : lnk I Z
| ReadCStr (addr : Z) : lnk I string
| ReadStdString (addr : Z) : lnk I (nat * string)     (* its size, and [c_str()] *)
| WriteWord (addr value : Z) : lnk I unit
| ReadU64 (addr : Z) : lnk I Z
| WriteU64 (addr value : Z) : lnk I unit
| GetRealpath (fn this : Z) : lnk I (option string)
| GuardEnter (fn : Z) : lnk I unit
| GuardLeave (fn : Z) : lnk I unit
| SoinfoFree (fn this : Z) : lnk I unit
| SoinfoUnload (fn this : Z) : lnk I unit.
Arguments OpenLinker {I}.
Arguments ReadWord {I} addr.
Arguments ReadByte {I} addr.
Arguments ReadCStr {I} addr.
Arguments ReadStdString {I} addr.
Arguments WriteWord {I} addr value.
Arguments ReadU64 {I} addr.
Arguments WriteU64 {I} addr value.
Arguments GetRealpath {I} fn this.
Arguments GuardEnter {I} fn.
Arguments GuardLeave {I} fn.
Arguments SoinfoFree {I} fn this.
Arguments SoinfoUnload {I} fn this.

(** The namespace's variables; addresses and functions are 0 until they are found. *)
Record linker_state := {
  solinker : Z; somain : Z;
  g_module_load_counter : Z; g_module_unload_counter : Z;
  field_base_offset : Z; field_size_offset : Z; field_next_offset : Z;
  field_constructor_called_offset : Z; field_realpath_offset : Z;
  get_realpath_sym : Z; soinfo_free : Z; soinfo_unload : Z;
  guard_ctor : Z; guard_dtor : Z }.

Definition set_guard (s : linker_state) c d := {|
  solinker := solinker s; somain := somain s;
  g_module_load_counter := g_module_load_counter s;
  g_module_unload_counter := g_module_unload_counter s;
  field_base_offset := field_base_offset s; field_size_offset := field_size_offset s;
  field_next_offset := field_next_offset s;
  field_constructor_called_offset := field_constructor_called_offset s;
  field_realpath_offset := field_realpath_offset s;
  get_realpath_sym := get_realpath_sym s; soinfo_free := soinfo_free s;
  soinfo_unload := soinfo_unload s; guard_ctor := c; guard_dtor := d |}.
Definition set_list (s : linker_state) l m := {|
  solinker := l; somain := m;
  g_module_load_counter := g_module_load_counter s;
  g_module_unload_counter := g_module_unload_counter s;
  field_base_offset := field_base_offset s; field_size_offset := field_size_offset s;
  field_next_offset := field_next_offset s;
  field_constructor_called_offset := field_constructor_called_offset s;
  field_realpath_offset := field_realpath_offset s;
  get_realpath_sym := get_realpath_sym s; soinfo_free := soinfo_free s;
  soinfo_unload := soinfo_unload s; guard_ctor := guard_ctor s; guard_dtor := guard_dtor s |}.
Definition set_functions (s : linker_state) r f u := {|
  solinker := solinker s; somain := somain s;
  g_module_load_counter := g_module_load_counter s;
  g_module_unload_counter := g_module_unload_counter s;
  field_base_offset := field_base_offset s; field_size_offset := field_size_offset s;
  field_next_offset := field_next_offset s;
  field_constructor_called_offset := field_constructor_called_offset s;
  field_realpath_offset := field_realpath_offset s;
  get_realpath_sym := r; soinfo_free := f; soinfo_unload := u;
  guard_ctor := guard_ctor s; guard_dtor := guard_dtor s |}.
Definition set_counters (s : linker_state) l u := {|
  solinker := solinker s; somain := somain s;
  g_module_load_counter := l; g_module_unload_counter := u;
  field_base_offset := field_base_offset s; field_size_offset := field_size_offset s;
  field_next_offset := field_next_offset s;
  field_constructor_called_offset := field_constructor_called_offset s;
  field_realpath_offset := field_realpath_offset s;
  get_realpath_sym := get_realpath_sym s; soinfo_free := soinfo_free s;
  soinfo_unload := soinfo_unload s; guard_ctor := guard_ctor s; guard_dtor := guard_dtor s |}.
Definition set_offsets (s : linker_state) base size next cc rp := {|
  solinker := solinker s; somain := somain s;
  g_module_load_counter := g_module_load_counter s;
  g_module_unload_counter := g_module_unload_counter s;
  field_base_offset := base; field_size_offset := size; field_next_offset := next;
  field_constructor_called_offset := cc; field_realpath_offset := rp;
  get_realpath_sym := get_realpath_sym s; soinfo_free := soinfo_free s;
  soinfo_unload := soinfo_unload s; guard_ctor := guard_ctor s; guard_dtor := guard_dtor s |}.

Definition size_block_range : Z := 1024.
Definition size_maximal : Z := 0x100000.
Definition size_minimal : Z := 0x100.

Section Solist.
(** Pointers of [w] bits; [fuel] bounds the walks over the linker's list. *)
Context {I : Type} `{Symbols I} (w : Z) (fuel : nat).
Local Abbreviation M := (prog (lnk I)).

Definition ws : Z := w / 8.
Definition at_ (addr off : Z) : Z := wrap w (addr + off).

Definition findDirectSymbol (image : I) (name : string) : M Z := ofres (symbol_address image name).
Definition resolveSymbolPointer (image : I) (name : string) : M Z :=
  address <- findDirectSymbol image name ;;
  if address =? 0 then Ret 0 else call (ReadWord address).

(** ** Guessing the layout *)

(** What the loop over the words has found so far. *)
Record found := { f_size : bool; f_next : bool; f_cc : bool }.

Definition index_gap : Z := (5 * ws + ws - 1) / ws.   (* link_map is five words *)

Definition constructor_called_here (linker_name : string) (field : Z) : M bool :=
  b <- call (ReadByte (at_ field (index_gap * ws))) ;;
  if negb (b =? 1) then Ret false
  else
    l_addr <- call (ReadWord field) ;;
    if l_addr =? 0 then Ret false
    else
      l_name <- call (ReadWord (at_ field ws)) ;;
      if l_name =? 0 then Ret false
      else name <- call (ReadCStr l_name) ;; Ret (String.eqb linker_name name).

(** One word per unit of fuel; an index that jumps ahead only ends the loop sooner. *)
Fixpoint scan_words (n : nat) (i : Z) (linker_name : string) (vdso : Z) (s : linker_state)
    (f : found) : M (linker_state * found) :=
  match n with
  | O => Ret (s, f)
  | S n =>
      if size_block_range / ws <=? i then Ret (s, f)
      else
        size <- call (ReadWord (at_ (somain s) (i * ws))) ;;
        if negb (f_size f) then
          if (size <? size_maximal) && (size_minimal <? size) then
            scan_words n (i + 1) linker_name vdso
              (set_offsets s (wrap w (i * ws - ws)) (i * ws) (field_next_offset s)
                 (field_constructor_called_offset s) (field_realpath_offset s))
              {| f_size := true; f_next := f_next f; f_cc := f_cc f |}
          else scan_words n (i + 1) linker_name vdso s f
        else
          let field := at_ (solinker s) (i * ws) in
          if negb (f_next f) then
            next <- call (ReadWord field) ;;
            if (next =? somain s) || (negb (vdso =? 0) && (next =? vdso)) then
              scan_words n (i + 1) linker_name vdso
                (set_offsets s (field_base_offset s) (field_size_offset s) (i * ws)
                   (field_constructor_called_offset s) (field_realpath_offset s))
                {| f_size := true; f_next := true; f_cc := f_cc f |}
            else scan_words n (i + 1) linker_name vdso s f
          else if negb (f_cc f) then
            here <- constructor_called_here linker_name field ;;
            if here : bool then
              scan_words n (i + index_gap + 1) linker_name vdso
                (set_offsets s (field_base_offset s) (field_size_offset s) (field_next_offset s)
                   (wrap w (at_ field (index_gap * ws) - solinker s)) (field_realpath_offset s))
                {| f_size := true; f_next := true; f_cc := true |}
            else scan_words n (i + 1) linker_name vdso s f
          else if negb (get_realpath_sym s =? 0) then Ret (s, f)
          else
            let* (size, name) := call (ReadStdString field) in
            if Nat.eqb size (String.length linker_name) && String.eqb linker_name name then
              Ret (set_offsets s (field_base_offset s) (field_size_offset s) (field_next_offset s)
                     (field_constructor_called_offset s) (i * ws), f)
            else scan_words n (i + 1) linker_name vdso s f
  end.

Definition findHeuristicOffsets (linker_name : string) (vdso : Z) (s : linker_state) :
    M (linker_state * bool) :=
  let* (s, f) := scan_words (Z.to_nat (size_block_range / ws)) 0 linker_name vdso s
                   {| f_size := false; f_next := false; f_cc := false |} in
  Ret (s, f_size f && f_next f && f_cc f).

(** ** Locating the list *)

Definition resolve (image : I) (primary fallback : string) : M Z :=
  addr <- findDirectSymbol image primary ;;
  if addr =? 0 then findDirectSymbol image fallback else Ret addr.

Definition setup (image : I) (s : linker_state) : M (linker_state * bool) :=
  ctor <- resolve image "__dl__ZN18ProtectedDataGuardC2Ev" "__dl__ZN18ProtectedDataGuardC1Ev" ;;
  dtor <- resolve image "__dl__ZN18ProtectedDataGuardD2Ev" "__dl__ZN18ProtectedDataGuardD1Ev" ;;
  Ret (set_guard s ctor dtor, negb (ctor =? 0) && negb (dtor =? 0)).

Definition symbol_by_prefix_ (image : I) (prefix : string) : M string :=
  ofres (symbol_by_prefix image prefix).

(** From the point where the three names are known. *)
Definition resolve_list (image : I) (path somain_name free_name unload_name : string)
    (s : linker_state) : M (linker_state * bool) :=
  let suffix := drop_str (String.length "__dl__ZL6somain") somain_name in
  solinker_ <- resolveSymbolPointer image ("__dl__ZL8solinker" +:+ suffix) ;;
  list_ <- (if solinker_ =? 0 then resolveSymbolPointer image ("__dl__ZL6solist" +:+ suffix)
            else Ret solinker_) ;;
  let s := set_list s list_ (somain s) in
  if list_ =? 0 then Ret (s, false)
  else
    vdso <- resolveSymbolPointer image ("__dl__ZL4vdso" +:+ suffix) ;;
    realpath <- findDirectSymbol image "__dl__ZNK6soinfo12get_realpathEv" ;;
    let s := set_functions s realpath (soinfo_free s) (soinfo_unload s) in
    free <- findDirectSymbol image free_name ;;
    let s := set_functions s realpath free (soinfo_unload s) in
    if free =? 0 then Ret (s, false)
    else
      unload <- findDirectSymbol image unload_name ;;
      let s := set_functions s realpath free unload in
      if unload =? 0 then Ret (s, false)
      else
        loads <- findDirectSymbol image "__dl__ZL21g_module_load_counter" ;;
        unloads <- findDirectSymbol image "__dl__ZL23g_module_unload_counter" ;;
        let s := set_counters s loads unloads in
        main <- resolveSymbolPointer image somain_name ;;
        let s := set_list s list_ main in
        if main =? 0 then Ret (s, false) else findHeuristicOffsets path vdso s.

Definition initialize (s : linker_state) : M (linker_state * bool) :=
  image <- call OpenLinker ;;
  match image with
  | None => Ret (set_guard s 0 0, false)
  | Some (image, path) =>
      let* (s, ok) := setup image s in
      if negb ok then Ret (s, false)
      else
        somain_name <- symbol_by_prefix_ image "__dl__ZL6somain" ;;
        if is_empty somain_name then Ret (s, false)
        else
          free_name <- symbol_by_prefix_ image "__dl__ZL11soinfo_freeP6soinfo" ;;
          if is_empty free_name then Ret (s, false)
          else
            unload_name <- symbol_by_prefix_ image "__dl__ZL13soinfo_unloadP6soinfo" ;;
            if is_empty unload_name then Ret (s, false)
            else resolve_list image path somain_name free_name unload_name s
  end.

(** [solinker == nullptr && !initialize()] failing or not. *)
Definition ready (s : linker_state) : M (linker_state * bool) :=
  if solinker s =? 0 then initialize s else Ret (s, true).

(** ** Records *)

Definition getBase (s : linker_state) (this : Z) : M Z :=
  call (ReadWord (at_ this (field_base_offset s))).
Definition getSize (s : linker_state) (this : Z) : M Z :=
  call (ReadWord (at_ this (field_size_offset s))).
Definition getNext (s : linker_state) (this : Z) : M Z :=
  call (ReadWord (at_ this (field_next_offset s))).
Definition getPath (s : linker_state) (this : Z) : M (option string) :=
  if negb (get_realpath_sym s =? 0) then call (GetRealpath (get_realpath_sym s) this)
  else let* (_, p) := call (ReadStdString (at_ this (field_realpath_offset s))) in Ret (Some p).
Definition setSize (s : linker_state) (this size : Z) : M unit :=
  call (WriteWord (at_ this (field_size_offset s)) size).
(** A whole word is written over the flag. *)
Definition setConstructorCalled (s : linker_state) (this : Z) (called : bool) : M unit :=
  call (WriteWord (at_ this (field_constructor_called_offset s)) (if called then 1 else 0)).

Definition matches (s : linker_state) (target_path : string) (iter : Z) : M bool :=
  p <- getPath s iter ;;
  match p with
  | None => Ret false
  | Some _ =>
      p <- getPath s iter ;;
      match p with
      | None => Halt (Undefined "strstr of a null pointer")
      | Some p =>
          if contains p target_path then size <- getSize s iter ;; Ret (0 <? size) else Ret false
      end
  end.

(** [dumpSoPath], which nothing calls: its log lines read each record once more. *)
Fixpoint dump_records (n : nat) (s : linker_state) (needle : string) (iter : Z) : M Z :=
  match n with
  | O => Halt NoFuel
  | S n =>
      if iter =? 0 then Ret 0
      else
        p <- getPath s iter ;;
        found <-
          (match p with
           | None => Ret 0
           | Some _ =>
               p <- getPath s iter ;;
               match p with
               | None => Halt (Undefined "strstr of a null pointer")
               | Some p =>
                   if contains p needle then
                     getSize s iter ;;; getPath s iter ;;; Ret 1
                   else Ret 0
               end
           end) ;;
        next <- getNext s iter ;;
        rest <- dump_records n s needle next ;;
        Ret (found + rest)
  end.

Fixpoint collect (n : nat) (s : linker_state) (target_path : string) (iter : Z) : M (list Z) :=
  match n with
  | O => Halt NoFuel
  | S n =>
      if iter =? 0 then Ret []
      else
        hit <- matches s target_path iter ;;
        next <- getNext s iter ;;
        rest <- collect n s target_path next ;;
        Ret (if hit : bool then iter :: rest else rest)
  end.

Fixpoint still_linked (n : nat) (s : linker_state) (target iter : Z) : M bool :=
  match n with
  | O => Halt NoFuel
  | S n =>
      if iter =? 0 then Ret false
      else if iter =? target then Ret true
      else next <- getNext s iter ;; still_linked n s target next
  end.

Definition guard_enter (s : linker_state) : M unit :=
  if guard_ctor s =? 0 then Ret tt else call (GuardEnter (guard_ctor s)).
Definition guard_leave (s : linker_state) : M unit :=
  if guard_dtor s =? 0 then Ret tt else call (GuardLeave (guard_dtor s)).

(** What the caller asked to be told: the first base and size dropped. *)
Definition report (outs : option (Z * Z)) (base size : Z) : option (Z * Z) :=
  option_map (fun '(b, z) => (if b =? 0 then base else b, if z =? 0 then size else z)) outs.

(** The body of the loop over the targets. *)
Definition drop_one (s : linker_state) (unload : bool) (acc : bool * option (Z * Z)) (target : Z) :
    M (bool * option (Z * Z)) :=
  linked <- still_linked fuel s target (solinker s) ;;
  if negb linked then Ret acc
  else
    guard_enter s ;;;
    size <- getSize s target ;;
    if size =? 0 then guard_leave s ;;; Ret acc
    else
      let '(_, outs) := acc in
      base <- (match outs with
               | Some (b, _) => if b =? 0 then getBase s target else Ret b
               | None => Ret 0
               end) ;;
      setSize s target 0 ;;;
      (if unload then
         setConstructorCalled s target false ;;;
         call (SoinfoUnload (soinfo_unload s) target) ;;;
         setConstructorCalled s target true
       else
         call (SoinfoFree (soinfo_free s) target) ;;;
         setSize s target size) ;;;
      guard_leave s ;;;
      Ret (true, report outs base size).

Definition dropSoPath (s : linker_state) (target_path : string) (unload : bool)
    (outs : option (Z * Z)) : M (linker_state * (bool * option (Z * Z))) :=
  let* (s, ok) := ready s in
  if negb ok then Ret (s, (false, outs))
  else
    targets <- collect fuel s target_path (solinker s) ;;
    r <- fold_prog (sort_desc id targets) (false, outs) (drop_one s unload) ;;
    Ret (s, r).

Definition dumpSoPath (s : linker_state) (needle : string) : M (linker_state * Z) :=
  let* (s, ok) := ready s in
  if negb ok then Ret (s, 0)
  else n <- dump_records fuel s needle (solinker s) ;; Ret (s, n).

(** [by_] is subtracted unless that would wrap. *)
Definition reset_one (counter by_ : Z) (value : Z) : M unit :=
  if by_ <=? value then call (WriteU64 counter (value - by_)) else Ret tt.
Definition resetCounters (s : linker_state) (load unload : Z) : M linker_state :=
  let* (s, ok) := ready s in
  if negb ok then Ret s
  else if (g_module_load_counter s =? 0) || (g_module_unload_counter s =? 0) then Ret s
  else
    loaded <- call (ReadU64 (g_module_load_counter s)) ;;
    unloaded <- call (ReadU64 (g_module_unload_counter s)) ;;
    reset_one (g_module_load_counter s) load loaded ;;;
    reset_one (g_module_unload_counter s) unload unloaded ;;;
    Ret s.

Definition clean_linker_trace (s : linker_state) (path : string)
    (loaded_modules unloaded_modules : Z) (unload_soinfo : bool) (outs : option (Z * Z)) :
    M (linker_state * option (Z * Z)) :=
  let* (s, r) := dropSoPath s path unload_soinfo outs in
  s <- (if unload_soinfo then resetCounters s loaded_modules loaded_modules
        else resetCounters s loaded_modules unloaded_modules) ;;
  Ret (s, snd r).
End Solist.

(** ** Facts: a record is only dropped while it is on the list *)

Section Drops.
Context {I : Type} `{Symbols I} (w : Z) (fuel : nat).

Definition drop_of (ev : event (lnk I)) : option Z :=
  match ev with
  | Ev (SoinfoFree _ this) _ | Ev (SoinfoUnload _ this) _ => Some this
  | _ => None
  end.
Definition drops (tr : list (event (lnk I))) : list Z := omap drop_of tr.
Definition harmless (ev : event (lnk I)) : bool :=
  match drop_of ev with Some _ => false | None => true end.

Lemma harmless_drops tr : forallb harmless tr = true <-> drops tr = [].
Proof.
  induction tr as [|ev tr IH]; [done|]. unfold drops, harmless in *. cbn.
  destruct (drop_of ev); cbn; [done|]. exact IH.
Qed.
Lemma drops_app tr tr' : drops (tr ++ tr') = drops tr ++ drops tr'.
Proof. apply omap_app. Qed.

(** The reads of the next pointers that lead from [iter] to [target]. *)
Inductive walk (s : linker_state) : Z -> list (event (lnk I)) -> Z -> Prop :=
| walk_here target : target <> 0 -> walk s target [] target
| walk_next iter next tr target :
    iter <> 0 -> walk s next tr target ->
    walk s iter (Ev (ReadWord (at_ w iter (field_next_offset s))) next :: tr) target.

(** Every record dropped was reached from the head of the list after the drop before it. *)
Definition linked (s : linker_state) (tr : list (event (lnk I))) : Prop :=
  forall tr1 ev tr2 target, tr = tr1 ++ ev :: tr2 -> drop_of ev = Some target ->
    exists a found b, tr1 = a ++ found ++ b /\ walk s (solinker s) found target /\ drops b = [].

Lemma walk_harmless s iter tr target : walk s iter tr target -> drops tr = [].
Proof. induction 1; [done|]. exact IHwalk. Qed.

Lemma linked_harmless s tr : drops tr = [] -> linked s tr.
Proof.
  intros Hd tr1 ev tr2 target -> Hev. rewrite drops_app in Hd. apply app_eq_nil in Hd as [_ Hd].
  unfold drops in Hd. cbn in Hd. by rewrite Hev in Hd.
Qed.

Lemma linked_app s tr tr' : linked s tr -> linked s tr' -> linked s (tr ++ tr').
Proof.
  intros H1 H2 tr1 ev tr2 target Heq Hev. apply app_eq_inv in Heq as [(k & -> & Hk)|(k & -> & ->)].
  - destruct k as [|ev' k]; cbn in Hk.
    + destruct (H2 [] ev tr2 target (eq_sym Hk) Hev) as (a & f & b & Hnil & Hw & Hb).
      exists tr1, f, b. apply eq_sym, app_eq_nil in Hnil as [_ Hnil].
      by rewrite Hnil, app_nil_r.
    + injection Hk as -> ->. by apply (H1 tr1 ev' k target).
  - destruct (H2 k ev tr2 target eq_refl Hev) as (a & f & b & -> & Hw & Hb).
    exists (tr ++ a), f, b. by rewrite <- !app_assoc.
Qed.

Lemma split_unique pre (d : event (lnk I)) post tr1 ev tr2 :
  drops pre = [] -> drops post = [] -> pre ++ d :: post = tr1 ++ ev :: tr2 ->
  drop_of ev <> None -> pre = tr1 /\ d = ev.
Proof.
  revert tr1. induction pre as [|p pre IH]; intros [|t tr1] Hpre Hpost Heq Hev; cbn in Heq.
  - by injection Heq as -> _.
  - injection Heq as -> ->. rewrite drops_app in Hpost. apply app_eq_nil in Hpost as [_ Hpost].
    unfold drops in Hpost. cbn in Hpost. by destruct (drop_of ev).
  - injection Heq as -> Heq. unfold drops in Hpre. cbn in Hpre. by destruct (drop_of ev).
  - injection Heq as -> Heq. unfold drops in Hpre, IH. cbn in Hpre.
    destruct (drop_of t); [done|]. destruct (IH tr1 Hpre Hpost Heq Hev) as [-> ->]. done.
Qed.

Lemma linked_once s pre found b d post target :
  pre = found ++ b -> walk s (solinker s) found target -> drops b = [] ->
  drop_of d = Some target -> drops post = [] -> linked s (pre ++ d :: post).
Proof.
  intros -> Hw Hb Hd Hpost tr1 ev tr2 t Heq Hev.
  assert (drops (found ++ b) = []) as Hpre by (by rewrite drops_app, (walk_harmless _ _ _ _ Hw), Hb).
  destruct (split_unique _ _ _ _ _ _ Hpre Hpost Heq) as [<- <-]; [by rewrite Hev|].
  exists [], found, b. rewrite Hd in Hev. by injection Hev as ->.
Qed.

Lemma still_linked_walk s n target iter :
  every_run (still_linked (I := I) w n s target iter) (fun tr r =>
    drops tr = [] /\ (r = Val true -> walk s iter tr target)).
Proof.
  revert iter. induction n as [|n IH]; intros iter; cbn [still_linked]; [done|].
  destruct (Z.eqb_spec iter 0) as [->|Hi]; [done|].
  destruct (Z.eqb_spec iter target) as [->|Ht]; [by repeat constructor|].
  apply every_run_step. intros next. eapply every_run_mono; [|apply IH].
  intros tr r [Hd Hw]. split; [exact Hd|]. intros Hr. constructor; auto.
Qed.

(** At most one drop, of [target], and the result tells whether there was one. *)
Definition one_drop (before : bool) (target : Z) (tr : list (event (lnk I)))
    (r : res (bool * option (Z * Z))) : Prop :=
  (drops tr = [] /\ forall acc, r = Val acc -> acc.1 = before) \/
  (exists b d post, tr = b ++ d :: post /\ drops b = [] /\ drop_of d = Some target /\
     drops post = [] /\ forall acc, r = Val acc -> acc.1 = true).

Lemma one_drop_after {A} before target (p : prog (lnk I) A) f :
  emits harmless p -> (forall a, every_run (f a) (one_drop before target)) ->
  every_run (bind p f) (one_drop before target).
Proof.
  intros Hp Hf. eapply every_run_seq; [exact Hp| |].
  - intros tr h Hd%harmless_drops. left. by split.
  - intros tr a Hd%harmless_drops. eapply every_run_mono; [|apply Hf].
    intros tr' r [[Hd' Hr]|(b & d & post & -> & Hb & Hdrop & Hpost & Hr)].
    + left. by rewrite drops_app, Hd, Hd'.
    + right. exists (tr ++ b), d, post. by rewrite drops_app, Hd, Hb, <- app_assoc.
Qed.

Lemma one_drop_now {X} before target (e : lnk I X) (k : X -> prog (lnk I) (bool * option (Z * Z))) :
  (forall x, drop_of (Ev e x) = Some target) ->
  (forall x, emits harmless (k x) /\ returns (fun acc => acc.1 = true) (k x)) ->
  every_run (bind (call e) k) (one_drop before target).
Proof.
  intros He Hk. apply every_run_step. intros x. destruct (Hk x) as [H1 H2].
  eapply every_run_mono; [|exact (every_run_and _ _ _ H1 H2)].
  intros tr r [Hd%harmless_drops Hr]. right. exists [], (Ev e x), tr. split_and!; auto.
  intros acc ->. exact Hr.
Qed.

Lemma read_harmless s target :
  emits harmless (getSize (I := I) w s target) /\ emits harmless (getBase (I := I) w s target) /\
  emits harmless (guard_enter (I := I) s) /\ emits harmless (guard_leave (I := I) s) /\
  (forall z, emits harmless (setSize (I := I) w s target z)) /\
  (forall b, emits harmless (setConstructorCalled (I := I) w s target b)).
Proof.
  unfold guard_enter, guard_leave, getSize, getBase, setSize, setConstructorCalled.
  split_and!; intros; emits_tac.
Qed.

Lemma dropping s unload before target size (tail : bool * option (Z * Z)) :
  tail.1 = true ->
  every_run
    ((if unload : bool then
        setConstructorCalled (I := I) w s target false ;;;
        call (SoinfoUnload (soinfo_unload s) target) ;;;
        setConstructorCalled w s target true
      else
        call (SoinfoFree (soinfo_free s) target) ;;;
        setSize w s target size) ;;;
     guard_leave s ;;;
     Ret tail) (one_drop before target).
Proof.
  intros Htail. destruct (read_harmless s target) as (_ & _ & _ & Hleave & Hset & Hcc).
  assert (forall (p : prog (lnk I) unit), emits harmless p ->
    emits harmless (p ;;; guard_leave s ;;; Ret tail) /\
    returns (fun acc => acc.1 = true) (p ;;; guard_leave s ;;; Ret tail)) as Hend.
  { intros p Hp. split.
    - apply emits_bind; [exact Hp|]. intros _. apply emits_bind; [exact Hleave|done].
    - apply returns_skip. intros _. by apply returns_skip. }
  destruct unload; apply bind_bind.
  - apply one_drop_after; [apply Hcc|]. intros _. apply bind_bind.
    apply one_drop_now; [done|]. intros _. apply Hend, Hcc.
  - apply one_drop_now; [done|]. intros _. apply Hend, Hset.
Qed.

Lemma drop_one_drops s unload acc target :
  every_run (drop_one (I := I) w fuel s unload acc target) (fun tr r =>
    linked s tr /\ (drops tr = [] \/ drops tr = [target]) /\
    (forall acc', r = Val acc' -> acc'.1 = match drops tr with [] => acc.1 | _ => true end)).
Proof.
  destruct (read_harmless s target) as (Hsize & Hbase & Henter & Hleave & Hset & Hcc).
  assert (emits harmless (still_linked (I := I) w fuel s target (solinker s))) as Hlink.
  { eapply every_run_mono; [|apply still_linked_walk]. intros tr r [Hd _]. by apply harmless_drops. }
  eapply every_run_seq; [apply still_linked_walk| |].
  { intros tr h [Hd _]. rewrite Hd. split; [by apply linked_harmless|]. split; [by left|done]. }
  intros tr1 [] [Hd1 Hw]; cbn [negb].
  2: { cbn. rewrite app_nil_r, Hd1. split; [by apply linked_harmless|]. split; [by left|].
       by intros acc' [= <-]. }
  eapply every_run_mono with (Q := one_drop acc.1 target).
  - intros tr r [[Hd Hr]|(b & d & post & -> & Hb & Hdrop & Hpost & Hr)].
    + rewrite drops_app, Hd1, Hd. split; [apply linked_harmless; by rewrite drops_app, Hd1, Hd|].
      split; [by left|exact Hr].
    + rewrite app_assoc. split; [by eapply linked_once; auto|].
      assert (drops ((tr1 ++ b) ++ d :: post) = [target]) as ->.
      { rewrite !drops_app, Hd1, Hb. unfold drops in *. cbn. by rewrite Hdrop, Hpost. }
      split; [by right|exact Hr].
  - apply one_drop_after; [done|]. intros _. apply one_drop_after; [done|]. intros size.
    destruct (size =? 0).
    { apply one_drop_after; [done|]. intros _. left. split; [done|]. by intros ? [= <-]. }
    destruct acc as [before outs].
    apply one_drop_after; [destruct outs as [[b z]|]; [destruct (b =? 0)|]; done|]. intros base.
    apply one_drop_after; [apply Hset|]. intros _. by apply dropping.
Qed.

Lemma ofres_harmless {A} (r : res A) : emits harmless (ofres (E := lnk I) r).
Proof. by destruct r. Qed.
#[local] Hint Resolve ofres_harmless : neo.

Lemma scan_words_harmless n i name vdso s f :
  emits harmless (scan_words (I := I) w n i name vdso s f).
Proof.
  revert i s f. induction n as [|n IH]; intros i s f; cbn [scan_words]; [done|].
  unfold constructor_called_here. emits_tac; apply IH.
Qed.
#[local] Hint Resolve scan_words_harmless : neo.

Lemma ready_harmless s : emits harmless (ready (I := I) w s).
Proof.
  unfold ready, initialize, setup, resolve, symbol_by_prefix_, resolve_list, findHeuristicOffsets,
    resolveSymbolPointer, findDirectSymbol.
  emits_tac.
Qed.

Lemma getPath_harmless s this : emits harmless (getPath (I := I) w s this).
Proof. unfold getPath. emits_tac. Qed.
#[local] Hint Resolve getPath_harmless : neo.

Lemma collect_harmless n s path iter : emits harmless (collect (I := I) w n s path iter).
Proof.
  revert iter. induction n as [|n IH]; intros iter; cbn [collect]; [done|].
  unfold matches, getSize, getNext. emits_tac; apply IH.
Qed.

Lemma drop_all s unload targets acc :
  every_run (fold_prog targets acc (drop_one (I := I) w fuel s unload)) (fun tr r =>
    linked s tr /\ drops tr `sublist_of` targets /\
    (forall acc', r = Val acc' -> acc'.1 = match drops tr with [] => acc.1 | _ => true end)).
Proof.
  revert acc. induction targets as [|t targets IH]; intros acc; cbn [fold_prog].
  { split; [by apply linked_harmless|]. split; [constructor|]. by intros acc' [= <-]. }
  eapply every_run_seq; [apply drop_one_drops| |].
  - intros tr h (Hl & Hd & Hr). split; [exact Hl|]. split; [|done].
    destruct Hd as [-> | ->]; [apply sublist_nil_l|]. apply sublist_skip, sublist_nil_l.
  - intros tr acc1 (Hl & Hd & Hr). eapply every_run_mono; [|apply IH].
    intros tr' r (Hl' & Hd' & Hr'). rewrite drops_app. split; [by apply linked_app|].
    specialize (Hr _ eq_refl). destruct Hd as [Hd|Hd]; rewrite Hd in *; cbn [app].
    + split; [by constructor|]. intros acc' Hacc. by rewrite (Hr' _ Hacc), Hr.
    + split; [by constructor|]. intros acc' Hacc. rewrite (Hr' _ Hacc). by destruct (drops tr').
Qed.

Lemma sublist_sorted (l k : list Z) :
  l `sublist_of` k -> StronglySorted (not_below id) k -> StronglySorted (not_below id) l.
Proof.
  induction 1 as [|x l k Hs IH|x l k Hs IH]; intros Hk; inversion Hk; subst; [done| |auto].
  constructor; [auto|]. rewrite Forall_forall in *. intros y Hy. apply H3. by eapply elem_of_sublist.
Qed.

(** No record is handed to the linker after it went away. In every run that ends,
    [dropSoPath] frees or unloads records in descending order of their addresses; each had been
    reached from the head of the list, through the next pointers, after the drop before it;
    and the answer says whether any was dropped. *)
Lemma dropSoPath_drops s path unload outs :
  every_run (dropSoPath (I := I) w fuel s path unload outs) (on_return (fun tr r =>
    let '(s', (path_found, _)) := r in
    linked s' tr /\ StronglySorted (not_below id) (drops tr) /\
    (path_found = true <-> drops tr <> []))).
Proof.
  eapply every_run_seq; [apply ready_harmless|done|]. intros tr1 [s' ok] Hd1%harmless_drops.
  destruct ok; cbn [negb].
  2: { cbn. rewrite app_nil_r, Hd1. split; [by apply linked_harmless|]. split; [constructor|done]. }
  eapply every_run_seq; [apply collect_harmless|done|]. intros tr2 targets Hd2%harmless_drops.
  eapply every_run_seq; [apply drop_all|done|]. intros tr3 [b o] (Hl & Hs & Hr).
  specialize (Hr _ eq_refl). cbn in *. rewrite app_nil_r, !drops_app, Hd1, Hd2. cbn [app].
  split; [|split].
  - apply linked_app; [by apply linked_harmless|]. apply linked_app; [by apply linked_harmless|exact Hl].
  - eapply sublist_sorted; [exact Hs|apply sort_desc_sorted].
  - subst b. by destruct (drops tr3).
Qed.
End Drops.

(** ** A failed initialisation is not retried

    [initialize] stores the head of the list before its last checks, and the head is all that
    [ready] looks at: once a later check has failed, the next caller goes on with whatever
    functions and offsets there are. *)

Definition toy_symbols : Symbols unit := {|
  symbol_address _ _ := Val 1000;
  symbol_by_prefix _ p := Val p |}.
Definition toy_linker (n : nat) (X : Type) (e : lnk unit X) : X :=
  match e with
  | OpenLinker => Some (tt, "/linker64")
  | ReadWord a => if a =? 25 then 0 else 1
  | ReadByte _ => 0
  | ReadCStr _ => ""
  | ReadStdString _ => (O, "")
  | ReadU64 _ => 0
  | GetRealpath _ _ => Some "zygisk-module"
  | WriteWord _ _ | WriteU64 _ _ | GuardEnter _ | GuardLeave _ | SoinfoFree _ _
  | SoinfoUnload _ _ => tt
  end.
(** The offsets of linker_soinfo.h stand until the guesses replace them. *)
Definition fresh_linker : linker_state := {|
  solinker := 0; somain := 0; g_module_load_counter := 0; g_module_unload_counter := 0;
  field_base_offset := 8; field_size_offset := 16; field_next_offset := 24;
  field_constructor_called_offset := 32; field_realpath_offset := 40;
  get_realpath_sym := 0; soinfo_free := 0; soinfo_unload := 0; guard_ctor := 0; guard_dtor := 0 |}.
Definition first_drop :=
  run toy_linker 0 (dropSoPath (H := toy_symbols) 64 10 fresh_linker "zygisk" true None).
Definition left_behind : linker_state :=
  match first_drop.2 with Val (s, _) => s | Stop _ => fresh_linker end.
Definition second_drop :=
  run toy_linker 0 (dropSoPath (H := toy_symbols) 64 10 left_behind "zygisk" true None).

Lemma failed_initialize_not_retried :
  (exists outs, first_drop.2 = Val (left_behind, (false, outs))) /\ drops first_drop.1 = [] /\
  field_size_offset left_behind = field_size_offset fresh_linker /\
  drops second_drop.1 = [1].
Proof. split; [exists None|]; vm_compute; auto. Qed.
