(* ===== verification/Soinfo.v ===== *)
(** * The layout of the linker's records, declared and guessed

    include/linker_soinfo.h declares the fields a record of the linker starts with, and
    include/solist.hpp takes the offsets it needs from that declaration until
    [findHeuristicOffsets] of injector/solist.cpp replaces them by what it finds in memory. The
    guesses are right, whatever the layout, when nothing before a field looks like it. *)
From Stdlib Require Import ZArith Lia List String Ascii Bool.
From stdpp Require Import base list strings.
From S2P Require Import Prelude.
From S2P Require Import Elf.
From S2P Require Import Solist.
From S2P Require Import Sys.
Open Scope string_scope.
Open Scope list_scope.
Open Scope Z_scope.

(** ** The declaration *)

Inductive field_type :=
| Word                 (* pointers, size_t, ElfW(Addr), ino_t, functions *)
| Uint32 | Int | Bool
| Chars (n : Z)
| DevT | Off64
| LinkMap              (* five words *)
| StdString            (* three words *)
| SoinfoList.          (* LinkedList, one pointer *)

Section Layout.
Variable a : arch.

Definition lp64 : bool := match a with X86_64 | AARCH64 => true | I386 | ARM => false end.
Definition word : Z := if lp64 then 8 else 4.
Definition only32 {A} (l : list A) : list A := if lp64 then [] else l.

(** The fields up to the flags of version 0, and the ones behind them. *)
Definition soinfo_head : list (string * field_type) :=
  only32 [("old_name_", Chars 128)] ++
  [("phdr", Word); ("phnum", Word)] ++
  only32 [("unused0", Word)] ++
  [("base", Word); ("size", Word)] ++
  only32 [("unused1", Uint32)] ++
  [("dynamic", Word)] ++
  only32 [("unused2", Uint32); ("unused3", Uint32)] ++
  [("next", Word);
   ("flags_", Uint32);
   ("strtab_", Word); ("symtab_", Word);
   ("nbucket_", Word); ("nchain_", Word); ("bucket_", Word); ("chain_", Word)] ++
  only32 [("unused4", Word)] ++
  [("plt_rel_", Word); ("plt_rel_count_", Word); ("rel_", Word); ("rel_count_", Word);
   ("preinit_array_", Word); ("preinit_array_count_", Word);
   ("init_array_", Word); ("init_array_count_", Word);
   ("fini_array_", Word); ("fini_array_count_", Word);
   ("init_func_", Word); ("fini_func_", Word)] ++
  (match a with ARM => [("ARM_exidx", Word); ("ARM_exidx_count", Word)] | _ => [] end) ++
  [("ref_count_", Word);
   ("link_map_head", LinkMap);
   ("constructors_called", Bool);
   ("load_bias", Word)] ++
  only32 [("has_text_relocations", Bool)] ++
  [("has_DT_SYMBOLIC", Bool)].
Definition soinfo_tail : list (string * field_type) :=
  [("version_", Uint32);
   ("st_dev_", DevT); ("st_ino_", Word);
   ("children_", SoinfoList); ("parents_", SoinfoList);
   ("file_offset_", Off64); ("rtld_flags_", Uint32); ("dt_flags_1_", Uint32);
   ("strtab_size_", Word);
   ("gnu_nbucket_", Word); ("gnu_bucket_", Word); ("gnu_chain_", Word);
   ("gnu_maskwords_", Uint32); ("gnu_shift2_", Uint32); ("gnu_bloom_filter_", Word);
   ("local_group_root_", Word);
   ("android_relocs_", Word); ("android_relocs_size_", Word);
   ("soname_", StdString); ("realpath_", StdString);
   ("versym_", Word);
   ("verdef_ptr_", Word); ("verdef_cnt_", Word);
   ("verneed_ptr_", Word); ("verneed_cnt_", Word);
   ("target_sdk_version_", Int)].
Definition soinfo : list (string * field_type) := soinfo_head ++ soinfo_tail.

(** Sizes and alignments of the platform's ABI. *)
Definition sizeof (t : field_type) : Z :=
  match t with
  | Word | SoinfoList => word
  | Uint32 | Int => 4
  | Bool => 1
  | Chars n => n
  | DevT => word
  | Off64 => 8
  | LinkMap => 5 * word
  | StdString => 3 * word
  end.
Definition alignof (t : field_type) : Z :=
  match t with
  | Word | SoinfoList | DevT | LinkMap | StdString => word
  | Uint32 | Int => 4
  | Bool | Chars _ => 1
  | Off64 => match a with I386 => 4 | _ => 8 end
  end.
Definition align_up (n align : Z) : Z := (n + align - 1) / align * align.

(** [offsetof] *)
Fixpoint offset_in (fields : list (string * field_type)) (end_ : Z) (name : string) : Z :=
  match fields with
  | [] => 0
  | (field, t) :: fields =>
      let start := align_up end_ (alignof t) in
      if String.eqb field name then start else offset_in fields (start + sizeof t) name
  end.
Definition offsetof (name : string) : Z := offset_in soinfo 0 name.

Definition get_base_offset : Z := offsetof "base".
Definition get_size_offset : Z := offsetof "size".
Definition get_next_offset : Z := offsetof "next".
Definition get_constructors_called_offset : Z := offsetof "constructors_called".
Definition get_realpath_offset : Z := offsetof "realpath_".

(** The namespace's variables as the library is loaded. *)
Definition initial_linker : linker_state := {|
  solinker := 0; somain := 0; g_module_load_counter := 0; g_module_unload_counter := 0;
  field_base_offset := get_base_offset; field_size_offset := get_size_offset;
  field_next_offset := get_next_offset;
  field_constructor_called_offset := get_constructors_called_offset;
  field_realpath_offset := get_realpath_offset;
  get_realpath_sym := 0; soinfo_free := 0; soinfo_unload := 0; guard_ctor := 0; guard_dtor := 0 |}.
End Layout.

(** A record read field by field, in the compiler's order. *)
Example layout_arm64 :
  (get_base_offset AARCH64, get_size_offset AARCH64, get_next_offset AARCH64,
   get_constructors_called_offset AARCH64, get_realpath_offset AARCH64) = (16, 24, 40, 248, 416).
Proof. vm_compute. reflexivity. Qed.

(** ** What memory holds while it is searched *)

Record view := {
  v_word : Z -> Z; v_byte : Z -> Z; v_cstr : Z -> string; v_string : Z -> nat * string }.

Section Guess.
Context {I : Type} (w : Z) (v : view).

Definition shows (ev : event (lnk I)) : bool :=
  match ev with
  | Ev e x =>
      (match e in lnk _ X return X -> bool with
       | ReadWord a => fun x => x =? v_word v a
       | ReadByte a => fun x => x =? v_byte v a
       | ReadCStr a => fun x => String.eqb x (v_cstr v a)
       | ReadStdString a => fun x =>
           Nat.eqb (fst x) (fst (v_string v a)) && String.eqb (snd x) (snd (v_string v a))
       | _ => fun _ => true
       end) x
  end.

(** The offsets a search starts from, word by word, below another. *)
Definition offsets (from to : Z) : list Z :=
  map (fun k => from + Z.of_nat k * ws w) (seq 0 (Z.to_nat ((to - from) / ws w))).
Definition none_of (like : Z -> bool) (base from to : Z) : bool :=
  forallb (fun off => negb (like (at_ w base off))) (offsets from to).

(** What a field is taken for the one searched by. *)
Definition size_like (addr : Z) : bool :=
  (v_word v addr <? size_maximal) && (size_minimal <? v_word v addr).
Definition next_like (main vdso addr : Z) : bool :=
  (v_word v addr =? main) || (negb (vdso =? 0) && (v_word v addr =? vdso)).
Definition link_map_like (name : string) (addr : Z) : bool :=
  (v_byte v (at_ w addr (index_gap w * ws w)) =? 1) && negb (v_word v addr =? 0) &&
  negb (v_word v (at_ w addr (ws w)) =? 0) &&
  String.eqb name (v_cstr v (v_word v (at_ w addr (ws w)))).
Definition realpath_like (name : string) (addr : Z) : bool :=
  Nat.eqb (fst (v_string v addr)) (String.length name) && String.eqb name (snd (v_string v addr)).

(** Any layout the search can find: the fields in this order, words apart, [base] right before
    [size], the flag right behind the five words of the link_map, all within the range. *)
Record layout := {
  l_size : Z; l_next : Z; l_link_map : Z; l_realpath : Z }.
Definition aligned (off : Z) : bool := off mod ws w =? 0.
Definition searchable (l : layout) : bool :=
  aligned (l_size l) && aligned (l_next l) && aligned (l_link_map l) && aligned (l_realpath l) &&
  (0 <=? l_size l) && (l_size l <? l_next l) && (l_next l <? l_link_map l) &&
  (l_link_map l + 5 * ws w <? l_realpath l) && (l_realpath l <? size_block_range).

(** The records of the program and the linker are laid out so, and no field before another one
    that is searched for looks like it. *)
Record laid_out (l : layout) (s : linker_state) (vdso : Z) (name : string) : Prop := {
  at_size : size_like (at_ w (somain s) (l_size l)) = true;
  before_size : none_of size_like (somain s) 0 (l_size l) = true;
  at_next : next_like (somain s) vdso (at_ w (solinker s) (l_next l)) = true;
  before_next : none_of (next_like (somain s) vdso) (solinker s) (l_size l + ws w) (l_next l) = true;
  at_link_map : link_map_like name (at_ w (solinker s) (l_link_map l)) = true;
  before_link_map :
    none_of (link_map_like name) (solinker s) (l_next l + ws w) (l_link_map l) = true;
  at_realpath : get_realpath_sym s = 0 ->
    realpath_like name (at_ w (solinker s) (l_realpath l)) = true /\
    none_of (realpath_like name) (solinker s) (l_link_map l + 6 * ws w) (l_realpath l) = true }.
Definition guessed (l : layout) (s : linker_state) : linker_state :=
  set_offsets s (wrap w (l_size l - ws w)) (l_size l) (l_next l) (l_link_map l + 5 * ws w)
    (if get_realpath_sym s =? 0 then l_realpath l else field_realpath_offset s).
End Guess.
Arguments shows {I} v ev.

(** ** Facts: the search *)

Section GuessFacts.
Context {I : Type} (w : Z) (v : view) (Hw : w = 32 \/ w = 64).
Context (name : string) (vdso : Z).
Local Abbreviation ws := (ws w).
Local Abbreviation scan := (scan_words (I := I) w).

(** The answer of a program all of whose reads are answered by the view. *)
Definition seen {A} (p : prog (lnk I) A) (r : A) : Prop :=
  every_run p (fun tr r' => forallb (shows v) tr = true -> r' = Val r).

Lemma seen_ret {A} (a : A) : seen (Ret a) a.
Proof. done. Qed.
Lemma seen_call {X A} (e : lnk I X) x (f : X -> prog (lnk I) A) r :
  (forall x', shows v (Ev e x') = true -> x' = x) -> seen (f x) r -> seen (x <- call e ;; f x) r.
Proof.
  intros Hx Hf. step. intros x'. destruct (shows v (Ev e x')) eqn:E.
  - rewrite (Hx x' E). eapply every_run_mono; [|exact Hf]. cbn. intros tr r' Hr Hs.
    apply andb_prop in Hs as [_ Hs]. by apply Hr.
  - apply every_run_mono with (Q := fun _ _ => True); [|by apply every_run_trivial].
    intros tr r' _ Hs. change (shows v (Ev e x') && forallb (shows v) tr = true) in Hs.
    by rewrite E in Hs.
Qed.
Lemma seen_word {A} addr (f : Z -> prog (lnk I) A) r :
  seen (f (v_word v addr)) r -> seen (x <- call (ReadWord addr) ;; f x) r.
Proof. apply seen_call. intros x'. apply Z.eqb_eq. Qed.
Lemma seen_byte {A} addr (f : Z -> prog (lnk I) A) r :
  seen (f (v_byte v addr)) r -> seen (x <- call (ReadByte addr) ;; f x) r.
Proof. apply seen_call. intros x'. apply Z.eqb_eq. Qed.
Lemma seen_cstr {A} addr (f : string -> prog (lnk I) A) r :
  seen (f (v_cstr v addr)) r -> seen (x <- call (ReadCStr addr) ;; f x) r.
Proof. apply seen_call. intros x'. apply String.eqb_eq. Qed.
Lemma seen_string {A} addr (f : nat * string -> prog (lnk I) A) r :
  seen (f (v_string v addr)) r -> seen (x <- call (ReadStdString addr) ;; f x) r.
Proof.
  apply seen_call. intros [n t] E. cbn in E. apply andb_prop in E as [En Et].
  apply Nat.eqb_eq in En. apply String.eqb_eq in Et. subst. by destruct (v_string v addr).
Qed.

Lemma seen_bind {A B} (p : prog (lnk I) A) (f : A -> prog (lnk I) B) a b :
  seen p a -> seen (f a) b -> seen (x <- p ;; f x) b.
Proof.
  intros Hp Hf. eapply every_run_seq; [exact Hp|..].
  - intros tr h Hr Hs. by specialize (Hr Hs).
  - intros tr a' Hr. eapply every_run_mono; [|apply every_run_self].
    intros tr' r' Hex Hs. rewrite forallb_app in Hs. apply andb_prop in Hs as [Hs Hs'].
    specialize (Hr Hs). injection Hr as ->. unfold seen in Hf. rewrite every_run_exec in Hf.
    by apply (Hf tr').
Qed.

(** *** Words *)

Lemma ws_cases : (ws = 4 \/ ws = 8) /\ index_gap w = 5.
Proof. destruct Hw as [-> | ->]; split; vm_compute; auto. Qed.
Lemma ws_pos : 0 < ws.
Proof. pose proof ws_cases. lia. Qed.
Lemma aligned_index off : aligned w off = true -> off = off / ws * ws.
Proof.
  unfold aligned. intros E. apply Z.eqb_eq in E. pose proof ws_pos.
  pose proof (Z.div_mod off ws). lia.
Qed.
Lemma offsets_cons i d : offsets w (i * ws) ((i + Z.of_nat (S d)) * ws) =
  i * ws :: offsets w ((i + 1) * ws) ((i + 1 + Z.of_nat d) * ws).
Proof.
  pose proof ws_pos. unfold offsets.
  assert (forall i d, Z.to_nat (((i + Z.of_nat d) * ws - i * ws) / ws) = d) as E.
  { intros i' d'. replace ((i' + Z.of_nat d') * ws - i' * ws) with (Z.of_nat d' * ws) by ring.
    rewrite Z.div_mul by lia. lia. }
  rewrite !E. cbn [seq map]. f_equal; [lia|]. rewrite <- seq_shift, map_map.
  apply map_ext. intros k. lia.
Qed.
Lemma none_of_cons like base i d :
  none_of w like base (i * ws) ((i + Z.of_nat (S d)) * ws) = true ->
  like (at_ w base (i * ws)) = false /\
  none_of w like base ((i + 1) * ws) ((i + 1 + Z.of_nat d) * ws) = true.
Proof.
  unfold none_of. rewrite offsets_cons. cbn [forallb]. intros E. apply andb_prop in E as [E E'].
  by apply negb_true_iff in E.
Qed.

(** *** Going by what is not searched for *)

Local Abbreviation top := (size_block_range / ws).

(** From word [i] on the search ends in [r], with fuel enough. *)
Definition finds (r : linker_state * found) (s : linker_state) (f : found) (i : Z) : Prop :=
  forall n, top - i <= Z.of_nat n -> seen (scan n i name vdso s f) r.

Lemma finds_step r s f i :
  i < top ->
  (forall n, top - (i + 1) <= Z.of_nat n -> seen (scan (S n) i name vdso s f) r) -> finds r s f i.
Proof. intros Hi Hb [|n] Hn; [lia|]. apply Hb. lia. Qed.

Lemma finds_climb like base r s f d i :
  (forall i, i < top -> like (at_ w base (i * ws)) = false -> finds r s f (i + 1) -> finds r s f i) ->
  i + Z.of_nat d <= top -> none_of w like base (i * ws) ((i + Z.of_nat d) * ws) = true ->
  finds r s f (i + Z.of_nat d) -> finds r s f i.
Proof.
  intros Hmiss. revert i. induction d as [|d IH]; intros i Hd Hn Hf.
  - by replace (i + Z.of_nat 0) with i in Hf by lia.
  - apply none_of_cons in Hn as [Hi Hn]. apply Hmiss; [lia|done|].
    apply IH; [lia|done|]. by replace (i + 1 + Z.of_nat d) with (i + Z.of_nat (S d)) by lia.
Qed.

(** One round of the loop, up to the field it looks for. *)
Ltac round :=
  intros; apply finds_step; [done|]; intros n Hn; cbn [scan_words f_size f_next f_cc negb];
  match goal with |- context [?t <=? ?i] => destruct (Z.leb_spec t i); [lia|] end;
  apply seen_word.

Definition nothing_yet := {| f_size := false; f_next := false; f_cc := false |}.
Definition size_only := {| f_size := true; f_next := false; f_cc := false |}.
Definition not_flag := {| f_size := true; f_next := true; f_cc := false |}.
Definition all_but_path := {| f_size := true; f_next := true; f_cc := true |}.

Lemma size_miss r s i :
  i < top -> size_like v (at_ w (somain s) (i * ws)) = false ->
  finds r s nothing_yet (i + 1) -> finds r s nothing_yet i.
Proof. unfold size_like. intros Hi E Hf. round. rewrite E. by apply Hf. Qed.
Lemma size_hit r s i :
  i < top -> size_like v (at_ w (somain s) (i * ws)) = true ->
  finds r (set_offsets s (wrap w (i * ws - ws)) (i * ws) (field_next_offset s)
             (field_constructor_called_offset s) (field_realpath_offset s)) size_only (i + 1) ->
  finds r s nothing_yet i.
Proof. unfold size_like. intros Hi E Hf. round. rewrite E. by apply Hf. Qed.

Lemma next_miss r s i :
  i < top -> next_like v (somain s) vdso (at_ w (solinker s) (i * ws)) = false ->
  finds r s size_only (i + 1) -> finds r s size_only i.
Proof. unfold next_like. intros Hi E Hf. round. apply seen_word. rewrite E. by apply Hf. Qed.
Lemma next_hit r s i :
  i < top -> next_like v (somain s) vdso (at_ w (solinker s) (i * ws)) = true ->
  finds r (set_offsets s (field_base_offset s) (field_size_offset s) (i * ws)
             (field_constructor_called_offset s) (field_realpath_offset s)) not_flag (i + 1) ->
  finds r s size_only i.
Proof. unfold next_like. intros Hi E Hf. round. apply seen_word. rewrite E. by apply Hf. Qed.

Lemma seen_link_map addr : seen (constructor_called_here w name addr) (link_map_like w v name addr).
Proof.
  unfold constructor_called_here, link_map_like. apply seen_byte.
  destruct (_ =? 1); [|apply seen_ret]. cbn [negb andb]. apply seen_word.
  destruct (_ =? 0); [apply seen_ret|]. cbn [negb andb]. apply seen_word.
  destruct (_ =? 0); [apply seen_ret|]. apply seen_cstr, seen_ret.
Qed.
Lemma link_map_miss r s i :
  i < top -> link_map_like w v name (at_ w (solinker s) (i * ws)) = false ->
  finds r s not_flag (i + 1) -> finds r s not_flag i.
Proof.
  intros Hi E Hf. round. eapply seen_bind; [apply seen_link_map|]. rewrite E. by apply Hf.
Qed.
Lemma link_map_hit r s i :
  i < top -> link_map_like w v name (at_ w (solinker s) (i * ws)) = true ->
  finds r (set_offsets s (field_base_offset s) (field_size_offset s) (field_next_offset s)
             (wrap w (at_ w (at_ w (solinker s) (i * ws)) (index_gap w * ws) - solinker s))
             (field_realpath_offset s)) all_but_path (i + index_gap w + 1) ->
  finds r s not_flag i.
Proof.
  intros Hi E Hf. round. eapply seen_bind; [apply seen_link_map|]. rewrite E. apply Hf.
  pose proof ws_cases as [_ ->]. lia.
Qed.

Lemma path_known r s i :
  get_realpath_sym s <> 0 -> r = (s, all_but_path) -> finds r s all_but_path i.
Proof.
  intros Hs -> [|n] _; [done|]. cbn [scan_words f_size f_next f_cc negb all_but_path].
  destruct (_ <=? i); [done|]. apply seen_word. by apply Z.eqb_neq in Hs as ->.
Qed.
Lemma path_miss r s i :
  get_realpath_sym s = 0 ->
  i < top -> realpath_like v name (at_ w (solinker s) (i * ws)) = false ->
  finds r s all_but_path (i + 1) -> finds r s all_but_path i.
Proof.
  unfold realpath_like. intros Hs Hi E Hf. round. rewrite Hs. cbn. apply seen_string.
  destruct (v_string v _). cbn in E. rewrite E. by apply Hf.
Qed.
Lemma path_hit s i :
  get_realpath_sym s = 0 ->
  i < top -> realpath_like v name (at_ w (solinker s) (i * ws)) = true ->
  finds (set_offsets s (field_base_offset s) (field_size_offset s) (field_next_offset s)
           (field_constructor_called_offset s) (i * ws), all_but_path) s all_but_path i.
Proof.
  unfold realpath_like. intros Hs Hi E. round. rewrite Hs. cbn. apply seen_string.
  destruct (v_string v _). cbn in E. by rewrite E.
Qed.

(** *** All of it *)

Lemma finds_up_to like base r s f i j :
  (forall i, i < top -> like (at_ w base (i * ws)) = false -> finds r s f (i + 1) -> finds r s f i) ->
  i <= j <= top -> none_of w like base (i * ws) (j * ws) = true -> finds r s f j -> finds r s f i.
Proof.
  intros Hmiss Hij. pose proof (finds_climb like base r s f (Z.to_nat (j - i)) i Hmiss) as Hc.
  replace (i + Z.of_nat (Z.to_nat (j - i))) with j in Hc by lia. apply Hc. lia.
Qed.

Lemma flag_offset base off gap :
  0 <= off + gap < 2 ^ w -> wrap w (at_ w (at_ w base off) gap - base) = off + gap.
Proof.
  intros Hb. unfold at_, wrap. rewrite Zplus_mod_idemp_l, Zminus_mod_idemp_l.
  replace (base + off + gap - base) with (off + gap) by ring. by apply Z.mod_small.
Qed.

(** From the word behind the flag on. *)
Lemma finds_path r s kf kr :
  kf <= kr < top ->
  (get_realpath_sym s = 0 ->
     realpath_like v name (at_ w (solinker s) (kr * ws)) = true /\
     none_of w (realpath_like v name) (solinker s) (kf * ws) (kr * ws) = true) ->
  r = (set_offsets s (field_base_offset s) (field_size_offset s) (field_next_offset s)
         (field_constructor_called_offset s)
         (if get_realpath_sym s =? 0 then kr * ws else field_realpath_offset s), all_but_path) ->
  finds r s all_but_path kf.
Proof.
  intros Hk Hp ->. destruct (Z.eqb_spec (get_realpath_sym s) 0) as [E|E].
  - destruct (Hp E) as [Hat Hbefore].
    eapply (finds_up_to (realpath_like v name) (solinker s) _ _ _ kf kr); [|lia|exact Hbefore|].
    + intros. by apply path_miss.
    + by apply path_hit; [|lia|].
  - apply path_known; [done|]. by destruct s.
Qed.

Lemma search_finds l s :
  searchable w l = true -> laid_out w v l s vdso name ->
  finds (guessed w l s, all_but_path) s nothing_yet 0.
Proof.
  intros Hl [Hs Hs' Hn Hn' Hm Hm' Hp]. unfold searchable in Hl. rewrite !andb_true_iff in Hl.
  destruct Hl as [[[[[[[[As An] Am] Ap] H0] Hsn] Hnm] Hmp] Htop].
  apply aligned_index in As, An, Am, Ap. pose proof ws_pos as Hws.
  destruct ws_cases as [Hcases Hgap].
  unfold guessed.
  remember (l_size l / ws) as ks. remember (l_next l / ws) as kn.
  remember (l_link_map l / ws) as km. remember (l_realpath l / ws) as kp.
  rewrite As, An, Am, Ap in *.
  assert (0 <= ks < kn /\ kn < km /\ km + 5 < kp < top /\ 0 <= km * ws + 5 * ws < 2 ^ w) as Hk.
  { assert (1024 < 2 ^ w) by by destruct Hw as [-> | ->].
    apply Z.leb_le in H0. apply Z.ltb_lt in Hsn, Hnm, Hmp, Htop. unfold size_block_range in *.
    assert (1024 = 1024 / ws * ws) by (destruct Hcases as [-> | ->]; done). nia. }
  replace (ks * ws + ws) with ((ks + 1) * ws) in Hn' by ring.
  replace (kn * ws + ws) with ((kn + 1) * ws) in Hm' by ring.
  replace (km * ws + 6 * ws) with ((km + 6) * ws) in Hp by ring.
  eapply (finds_up_to (size_like v) (somain s) _ _ _ 0 ks); [|lia|exact Hs'|].
  { intros. by apply size_miss. }
  apply size_hit; [lia|done|].
  eapply (finds_up_to (next_like v (somain s) vdso) (solinker s) _ _ _ _ kn); [|lia|exact Hn'|].
  { intros. by apply next_miss. }
  apply next_hit; [lia|done|].
  eapply (finds_up_to (link_map_like w v name) (solinker s) _ _ _ _ km); [|lia|exact Hm'|].
  { intros. by apply link_map_miss. }
  apply link_map_hit; [lia|done|]. rewrite Hgap. cbn [solinker set_offsets].
  rewrite flag_offset by lia.
  replace (km + 5 + 1) with (km + 6) by ring.
  by apply (finds_path _ _ (km + 6) kp); [lia|exact Hp|].
Qed.

(** C34: the search through the linker's memory finds its layout. Whatever the layout, as long as
    it has the fields in the order of linker_soinfo.h and in reach, and whatever memory holds, as
    long as no field in front of one that is searched for looks like it, [findHeuristicOffsets]
    answers true with exactly the offsets of the layout: the size and the base before it, the
    next record, the flag behind the link_map and, where libc's function is missing, the path. *)
Theorem heuristics_find_layout l s :
  searchable w l = true -> laid_out w v l s vdso name ->
  every_run (findHeuristicOffsets (I := I) w name vdso s) (fun tr r =>
    forallb (shows v) tr = true -> r = Val (guessed w l s, true)).
Proof.
  intros Hl Hs. unfold findHeuristicOffsets.
  eapply (seen_bind _ _ (guessed w l s, all_but_path)); [|apply seen_ret].
  apply (search_finds l s Hl Hs). unfold size_block_range. pose proof ws_pos.
  pose proof (Z.div_pos 1024 ws). lia.
Qed.
End GuessFacts.

(** ** The declared layout *)

Definition header_layout (a : arch) : layout := {|
  l_size := get_size_offset a; l_next := get_next_offset a;
  l_link_map := offsetof a "link_map_head"; l_realpath := get_realpath_offset a |}.

(** The search can find it on all four architectures, and then it changes nothing. *)
Lemma header_searchable a : searchable (8 * word a) (header_layout a) = true.
Proof. by destruct a. Qed.
Lemma header_confirmed a s :
  (field_base_offset s, field_size_offset s, field_next_offset s) =
    (get_base_offset a, get_size_offset a, get_next_offset a) ->
  (field_constructor_called_offset s, field_realpath_offset s) =
    (get_constructors_called_offset a, get_realpath_offset a) ->
  guessed (8 * word a) (header_layout a) s = s.
Proof.
  destruct s. cbn. intros [= -> -> ->] [= -> ->]. unfold guessed, set_offsets. cbn.
  f_equal; [by destruct a..|]. by destruct (_ =? 0).
Qed.

(** A program and its linker on arm64, without libc's function for paths. *)
Definition sample_linker : linker_state :=
  set_list (initial_linker AARCH64) 0x7000001000 0x7000002000.
Definition sample_words : list (Z * Z) :=
  [(0x7000002000, 0x5500000040); (0x7000002008, 11); (0x7000002010, 0x5500000000);
   (0x7000002018, 0x8000);
   (0x7000001020, 0x7100001000); (0x7000001028, 0x7000002000);
   (0x70000010d0, 0x7100000000); (0x70000010d8, 0x7000003000)].
Definition sample_view : view := {|
  v_word a := match find (fun p => fst p =? a) sample_words with Some p => snd p | None => 0 end;
  v_byte a := if a =? 0x70000010f8 then 1 else 0;
  v_cstr a := if a =? 0x7000003000 then "/system/bin/linker64" else "";
  v_string a := if a =? 0x7000001188 then (8%nat, "linker64")
                else if a =? 0x70000011a0 then (20%nat, "/system/bin/linker64") else (O, "") |}.
Definition sample_reads (n : nat) (X : Type) (e : lnk unit X) : X :=
  match e with
  | OpenLinker => None
  | ReadWord a => v_word sample_view a
  | ReadByte a => v_byte sample_view a
  | ReadCStr a => v_cstr sample_view a
  | ReadStdString a => v_string sample_view a
  | ReadU64 _ => 0
  | GetRealpath _ _ => None
  | WriteWord _ _ | WriteU64 _ _ | GuardEnter _ | GuardLeave _ | SoinfoFree _ _
  | SoinfoUnload _ _ => tt
  end.
Example sample_search :
  (run sample_reads 0 (findHeuristicOffsets (I := unit) 64 "/system/bin/linker64" 0 sample_linker)).2
    = Val (sample_linker, true).
Proof. vm_compute. reflexivity. Qed.

Lemma heuristics_find_layout_witness :
  searchable 64 (header_layout AARCH64) = true /\
  guessed 64 (header_layout AARCH64) sample_linker = sample_linker /\
  every_run (findHeuristicOffsets (I := unit) 64 "/system/bin/linker64" 0 sample_linker)
    (fun tr r => forallb (shows sample_view) tr = true ->
       r = Val (guessed 64 (header_layout AARCH64) sample_linker, true)).
Proof.
  split; [reflexivity|]. split; [vm_compute; reflexivity|].
  apply (heuristics_find_layout 64 sample_view (or_intror eq_refl)
    "/system/bin/linker64" 0 (header_layout AARCH64) sample_linker eq_refl).
  constructor; try (vm_compute; reflexivity). intros _. split; vm_compute; reflexivity.
Defined.
