(* ===== verification/Records.v ===== *)
(** * Dropping records, seen from the linker's list

    [dropSoPath] of injector/solist.cpp works on memory. Here memory is the linker's list of
    records, the linker's functions take records off it, and what is left is stated record by
    record: none whose path gives the loader away. *)
From Stdlib Require Import ZArith Lia List String Ascii Bool Sorting.
From stdpp Require Import base list strings.
From S2P Require Import Prelude.
From S2P Require Import Elf.
From S2P Require Import Solist.
From S2P Require Import Sys.
From S2P Require Import Soinfo.
Open Scope string_scope.
Open Scope list_scope.
Open Scope Z_scope.

(** ** The list *)

(** A record at its address; its next pointer is the address of the one behind it. *)
Record entry := { e_addr : Z; e_base : Z; e_size : Z; e_path : option string }.
Definition resized (size : Z) (e : entry) : entry :=
  {| e_addr := e_addr e; e_base := e_base e; e_size := size; e_path := e_path e |}.
Definition first_addr (l : list entry) : Z := match l with e :: _ => e_addr e | [] => 0 end.
Definition at_addr (a : Z) (e : entry) : bool := e_addr e =? a.
Definition resize_at (a size : Z) (l : list entry) : list entry :=
  map (fun e => if at_addr a e then resized size e else e) l.

(** What [dropSoPath] is after. *)
Definition matching (path : string) (e : entry) : bool :=
  match e_path e with Some p => contains p path && (0 <? e_size e) | None => false end.

Section World.
Context {I : Type} `{Symbols I} (w : Z) (fuel : nat) (s : linker_state).

(** The linker's functions: [soinfo_free] takes its record off the list, [soinfo_unload] takes
    off whatever goes with it. *)
Variable unloaded : Z -> list entry -> list entry.
Definition freed (this : Z) (l : list entry) : list entry :=
  List.filter (fun e => negb (at_addr this e)) l.

(** The list after a call, and whether its answer is what the list says. *)
Definition after (ev : event (lnk I)) (l : list entry) : list entry :=
  match ev with
  | Ev e _ =>
      match e with
      | WriteWord a z =>
          map (fun r => if at_ w (e_addr r) (field_size_offset s) =? a then resized z r else r) l
      | SoinfoFree _ this => freed this l
      | SoinfoUnload _ this => unloaded this l
      | _ => l
      end
  end.
Fixpoint next_told (a x : Z) (l : list entry) : Prop :=
  match l with
  | [] => True
  | r :: l => (a = at_ w (e_addr r) (field_next_offset s) -> x = first_addr l) /\ next_told a x l
  end.
Definition tells (l : list entry) (ev : event (lnk I)) : Prop :=
  match ev with
  | Ev e x =>
      (match e in lnk _ X return X -> Prop with
       | ReadWord a => fun x =>
           (forall r, In r l -> a = at_ w (e_addr r) (field_size_offset s) -> x = e_size r) /\
           (forall r, In r l -> a = at_ w (e_addr r) (field_base_offset s) -> x = e_base r) /\
           next_told a x l
       | GetRealpath _ this => fun x => forall r, In r l -> e_addr r = this -> x = e_path r
       | ReadStdString a => fun '(_, x) => forall r, In r l ->
           a = at_ w (e_addr r) (field_realpath_offset s) -> Some x = e_path r
       | _ => fun _ => True
       end) x
  end.
Definition afters (tr : list (event (lnk I))) (l : list entry) : list entry :=
  fold_left (fun l ev => after ev l) tr l.
Fixpoint accords (l : list entry) (tr : list (event (lnk I))) : Prop :=
  match tr with
  | [] => True
  | ev :: tr => tells l ev /\ accords (after ev l) tr
  end.

(** The records are apart: no write meant for a field of one lands in a field of another. *)
Record apart (addrs : list Z) : Prop := {
  ap_distinct : NoDup addrs;
  ap_range : Forall (fun a => 0 < a < 2 ^ w) addrs;
  ap_size : forall a b off, In a addrs -> In b addrs ->
    off = field_base_offset s \/ off = field_next_offset s ->
    ws w <= Z.abs (at_ w a (field_size_offset s) - at_ w b off);
  ap_flag : forall a b off, In a addrs -> In b addrs ->
    off = field_base_offset s \/ off = field_next_offset s \/ off = field_size_offset s ->
    ws w <= Z.abs (at_ w a (field_constructor_called_offset s) - at_ w b off) }.

(** Every run of a program on a list returns, and what it then did to the list. *)
Definition holds {A} (l : list entry) (p : prog (lnk I) A)
    (Q : list Z -> A -> list entry -> Prop) : Prop :=
  every_run p (fun tr r => accords l tr -> exists a, r = Val a /\ Q (drops tr) a (afters tr l)).

Lemma accords_app l tr tr' : accords l (tr ++ tr') <-> accords l tr /\ accords (afters tr l) tr'.
Proof.
  revert l. induction tr as [|ev tr IH]; intros l; cbn; [tauto|].
  change (fold_left (fun l ev => after ev l) tr (after ev l)) with (afters tr (after ev l)).
  rewrite IH. tauto.
Qed.
Lemma afters_app tr tr' l : afters (tr ++ tr') l = afters tr' (afters tr l).
Proof. apply fold_left_app. Qed.

Lemma holds_ret {A} l (a : A) (Q : list Z -> A -> list entry -> Prop) :
  Q [] a l -> holds l (Ret a) Q.
Proof. intros HQ _. by exists a. Qed.
Lemma holds_bind {A B} l (p : prog (lnk I) A) (f : A -> prog (lnk I) B) Q :
  holds l p (fun d a l' => holds l' (f a) (fun d' b l'' => Q (d ++ d') b l'')) ->
  holds l (bind p f) Q.
Proof.
  intros Hp. eapply every_run_seq; [exact Hp|..].
  - intros tr h Hr Ha. by destruct (Hr Ha) as (a & [=] & _).
  - intros tr a Hr. apply every_run_exec. intros tr' r' Hex [Ha Ha']%accords_app.
    destruct (Hr Ha) as (a' & [= <-] & Hf). unfold holds in Hf. rewrite every_run_exec in Hf.
    destruct (Hf _ _ Hex Ha') as (b & -> & HQ). exists b. split; [done|].
    by rewrite drops_app, afters_app.
Qed.
Lemma holds_mono {A} l (p : prog (lnk I) A) (Q Q' : list Z -> A -> list entry -> Prop) :
  (forall d a l', Q d a l' -> Q' d a l') -> holds l p Q -> holds l p Q'.
Proof.
  intros HQ. apply every_run_mono. intros tr r Hr Ha. destruct (Hr Ha) as (a & -> & Hq).
  exists a. auto.
Qed.
Lemma holds_call {X} l (e : lnk I X) (Q : list Z -> X -> list entry -> Prop) :
  (forall x, tells l (Ev e x) -> Q (drops [Ev e x]) x (after (Ev e x) l)) -> holds l (call e) Q.
Proof. intros HQ x [Ht _]. exists x. split; [done|]. by apply HQ. Qed.

(** ** Facts: reading the list *)

(** A program that reads off [a] and leaves the list as it is. *)
Definition reads {A} (l : list entry) (p : prog (lnk I) A) (a : A) : Prop :=
  holds l p (fun d a' l' => d = [] /\ a' = a /\ l' = l).

Lemma reads_ret {A} l (a : A) : reads l (Ret a) a.
Proof. by apply holds_ret. Qed.
Lemma reads_then {A B} l (p : prog (lnk I) A) (f : A -> prog (lnk I) B) a Q :
  reads l p a -> holds l (f a) Q -> holds l (bind p f) Q.
Proof.
  intros Hp Hf. apply holds_bind. eapply holds_mono; [|exact Hp]. by intros d a' l' (-> & -> & ->).
Qed.

Lemma reads_word l addr x :
  (forall y, tells l (Ev (ReadWord addr) y) -> y = x) -> reads l (call (ReadWord addr)) x.
Proof. intros Hx. apply holds_call. intros y Hy. by rewrite (Hx y Hy). Qed.
Lemma reads_size l r : In r l -> reads l (getSize w s (e_addr r)) (e_size r).
Proof. intros Hr. apply reads_word. intros y (Hs & _). by apply Hs. Qed.
Lemma reads_base l r : In r l -> reads l (getBase w s (e_addr r)) (e_base r).
Proof. intros Hr. apply reads_word. intros y (_ & Hb & _). by apply Hb. Qed.
Lemma next_told_split a x pre r post :
  next_told a x (pre ++ r :: post) -> a = at_ w (e_addr r) (field_next_offset s) ->
  x = first_addr post.
Proof. induction pre as [|r' pre IH]; cbn; intros [H1 H2] Ha; auto. Qed.
Lemma reads_next pre r post :
  reads (pre ++ r :: post) (getNext w s (e_addr r)) (first_addr post).
Proof. apply reads_word. intros y (_ & _ & Hn). by eapply next_told_split. Qed.
Lemma reads_path l r : In r l -> reads l (getPath w s (e_addr r)) (e_path r).
Proof.
  intros Hr. unfold getPath. destruct (negb _).
  - apply holds_call. intros x Hx. by rewrite (Hx r Hr eq_refl).
  - apply holds_bind, holds_call. intros [n x] Hx. apply holds_ret.
    by rewrite (Hx r Hr eq_refl).
Qed.

Lemma reads_matches l path r :
  In r l -> reads l (matches w s path (e_addr r)) (matching path r).
Proof.
  intros Hr. unfold matches, matching. eapply reads_then; [by apply reads_path|].
  destruct (e_path r) as [p|] eqn:E; [|apply reads_ret].
  eapply reads_then; [by apply reads_path|]. rewrite E.
  destruct (contains p path); [|apply reads_ret].
  eapply reads_then; [by apply reads_size|]. apply reads_ret.
Qed.

Definition live (l : list entry) : Prop := Forall (fun r => e_addr r <> 0) l.

Lemma reads_collect n path pre post :
  live post -> (List.length post < n)%nat ->
  reads (pre ++ post) (collect w n s path (first_addr post))
    (map e_addr (List.filter (matching path) post)).
Proof.
  intros Hlive. revert n pre. induction Hlive as [|r post Hr Hlive IH]; intros [|n] pre Hn;
    cbn [List.length] in Hn; try lia; cbn [collect first_addr]; [apply reads_ret|].
  apply Z.eqb_neq in Hr. rewrite Hr.
  eapply reads_then; [apply reads_matches, in_elt|].
  eapply reads_then; [apply reads_next|].
  replace (pre ++ r :: post) with ((pre ++ [r]) ++ post) by by rewrite <- app_assoc.
  eapply reads_then; [apply IH; lia|]. cbn [List.filter]. destruct (matching path r); apply reads_ret.
Qed.
Lemma reads_still_linked n target pre post :
  live post -> (List.length post < n)%nat ->
  reads (pre ++ post) (still_linked w n s target (first_addr post))
    (existsb (at_addr target) post).
Proof.
  intros Hlive. revert n pre. induction Hlive as [|r post Hr Hlive IH]; intros [|n] pre Hn;
    cbn [List.length] in Hn; try lia; cbn [still_linked first_addr existsb]; [apply reads_ret|].
  apply Z.eqb_neq in Hr. rewrite Hr. unfold at_addr at 1.
  destruct (e_addr r =? target); [apply reads_ret|].
  eapply reads_then; [apply reads_next|].
  replace (pre ++ r :: post) with ((pre ++ [r]) ++ post) by by rewrite <- app_assoc.
  apply IH. lia.
Qed.

(** ** Facts: one record dropped *)

Section Apart.
Context (Hw : w = 32 \/ w = 64) (addrs : list Z) (Hapart : apart addrs) (Hlinker : solinker s <> 0).

Definition listed (l : list entry) : Prop := map e_addr l `sublist_of` addrs.
(** [unloaded] takes records off and never the first one, the linker's own. *)
Definition unloads_some : Prop :=
  forall t h l, e_addr h <> t -> exists l', unloaded t (h :: l) = h :: l' /\ l' `sublist_of` l.

Lemma listed_in l r : listed l -> In r l -> In (e_addr r) addrs.
Proof.
  intros Hl Hr. apply list_elem_of_In. eapply elem_of_sublist; [|exact Hl].
  by apply list_elem_of_In, in_map.
Qed.
Lemma listed_sublist l l' : listed l -> l' `sublist_of` l -> listed l'.
Proof. intros Hl Hs. unfold listed in *. transitivity (map e_addr l); [|done]. by apply (fmap_sublist e_addr). Qed.
Lemma listed_resize l a z : listed l -> listed (resize_at a z l).
Proof.
  unfold listed, resize_at. rewrite map_map. intros Hl.
  rewrite (map_ext _ e_addr); [done|]. intros r. by destruct (at_addr a r).
Qed.
Lemma listed_live l : listed l -> live l.
Proof.
  intros Hl. apply Forall_forall. intros r Hr%list_elem_of_In.
  pose proof (proj1 (List.Forall_forall _ _) (ap_range _ Hapart) _ (listed_in _ _ Hl Hr)). cbn in *. lia.
Qed.

Lemma at_inj a b off : In a addrs -> In b addrs -> at_ w a off = at_ w b off -> a = b.
Proof.
  intros Ha Hb E. pose proof (proj1 (List.Forall_forall _ _) (ap_range _ Hapart)) as Hr.
  pose proof (Hr a Ha) as Ra. pose proof (Hr b Hb) as Rb. cbn in Ra, Rb.
  unfold at_, wrap in E.
  rewrite <- (Z.mod_small a (2 ^ w)), <- (Z.mod_small b (2 ^ w)) by lia.
  replace a with (a + off - off) by ring. replace b with (b + off - off) by ring.
  rewrite <- (Zminus_mod_idemp_l (a + off)), E. by rewrite Zminus_mod_idemp_l.
Qed.

Lemma holds_setSize l a z (Q : list Z -> unit -> list entry -> Prop) :
  listed l -> In a addrs -> Q [] tt (resize_at a z l) -> holds l (setSize w s a z) Q.
Proof.
  intros Hl Ha HQ. apply holds_call. intros [] _.
  replace (after (Ev (WriteWord (at_ w a (field_size_offset s)) z) tt) l) with (resize_at a z l);
    [done|].
  cbn. apply map_ext_in. intros r Hr. unfold at_addr.
  destruct (Z.eqb_spec (e_addr r) a) as [->|Hne]; [by rewrite Z.eqb_refl|].
  destruct (Z.eqb_spec (at_ w (e_addr r) (field_size_offset s)) (at_ w a (field_size_offset s)))
    as [E|]; [|done].
  destruct Hne. eapply at_inj; [by eapply listed_in|done|exact E].
Qed.
Lemma reads_setConstructorCalled l a b :
  listed l -> In a addrs -> reads l (setConstructorCalled w s a b) tt.
Proof.
  intros Hl Ha. apply holds_call. intros [] _. split; [done|]. split; [done|]. cbn.
  transitivity (map id l); [|apply list_fmap_id]. apply map_ext_in. intros r Hr.
  destruct (Z.eqb_spec (at_ w (e_addr r) (field_size_offset s))
    (at_ w a (field_constructor_called_offset s))) as [E|]; [|done].
  pose proof (ap_flag _ Hapart a (e_addr r) (field_size_offset s) Ha (listed_in _ _ Hl Hr)
    ltac:(tauto)) as Hd. rewrite E in Hd.
  assert (0 < ws w) by by destruct Hw as [-> | ->]. lia.
Qed.
Lemma reads_guard l : reads l (guard_enter s) tt /\ reads l (guard_leave s) tt.
Proof.
  unfold guard_enter, guard_leave.
  split; destruct (_ =? 0); first [apply reads_ret|by apply holds_call; intros []].
Qed.

Lemma resize_freed t z l : resize_at t z (freed t l) = freed t l.
Proof.
  unfold resize_at, freed. transitivity (map id (List.filter (fun e => negb (at_addr t e)) l));
    [|apply list_fmap_id].
  apply map_ext_in. intros r [_ Hr]%filter_In. by destruct (at_addr t r).
Qed.

(** The list once the record at [t] is dropped. *)
Definition gone (unload : bool) (t : Z) (l : list entry) : list entry :=
  if unload then unloaded t (resize_at t 0 l) else freed t l.

Lemma freed_resize t z l : freed t (resize_at t z l) = freed t l.
Proof.
  unfold freed, resize_at. induction l as [|r l IH]; [done|]. cbn.
  unfold at_addr in *. destruct (e_addr r =? t) eqn:E; cbn; rewrite E; cbn; [done|]. by rewrite IH.
Qed.

Lemma filter_sublist {A} (f : A -> bool) l : List.filter f l `sublist_of` l.
Proof. induction l as [|x l IH]; [constructor|]. cbn. destruct (f x); by constructor. Qed.
Lemma filter_everything {A} (f : A -> bool) l :
  (forall x, In x l -> f x = true) -> List.filter f l = l.
Proof.
  induction l as [|x l IH]; intros Hf; [done|]. cbn. rewrite (Hf x) by by left.
  f_equal. apply IH. intros y Hy. apply Hf. by right.
Qed.
Lemma resize_in t z l r : In r (resize_at t z l) ->
  exists r1, In r1 l /\ ((e_addr r1 <> t /\ r = r1) \/ (e_addr r1 = t /\ r = resized z r1)).
Proof.
  unfold resize_at. intros (r1 & <- & Hr)%in_map_iff. exists r1. split; [done|].
  unfold at_addr. destruct (Z.eqb_spec (e_addr r1) t); auto.
Qed.

(** Dropping a record takes records off, and leaves the linker's own first. *)
Lemma gone_sublist unload t l :
  unloads_some -> first_addr l = solinker s -> t <> solinker s ->
  first_addr (gone unload t l) = solinker s /\ gone unload t l `sublist_of` resize_at t 0 l.
Proof.
  intros Hun Hfirst Ht. destruct l as [|h l]; [by destruct Hlinker|].
  cbn in Hfirst. assert (e_addr h <> t) as Hne by congruence.
  assert (resize_at t 0 (h :: l) = h :: resize_at t 0 l) as Eh.
  { unfold resize_at, at_addr. cbn. by destruct (Z.eqb_spec (e_addr h) t). }
  unfold gone. destruct unload.
  - rewrite Eh. destruct (Hun t h (resize_at t 0 l) Hne) as (l' & -> & Hs).
    split; [done|by constructor].
  - rewrite <- (freed_resize t 0), Eh. split; [|apply filter_sublist].
    unfold freed, at_addr. cbn. by destruct (Z.eqb_spec (e_addr h) t).
Qed.

Definition drop_effect (unload : bool) (acc : bool * option (Z * Z)) (t : Z) (l : list entry)
    (d : list Z) (acc' : bool * option (Z * Z)) (l' : list entry) : Prop :=
  match List.find (at_addr t) l with
  | Some r =>
      if e_size r =? 0 then d = [] /\ acc' = acc /\ l' = l
      else d = [t] /\ acc' = (true, report acc.2 (e_base r) (e_size r)) /\ l' = gone unload t l
  | None => d = [] /\ acc' = acc /\ l' = l
  end.

Lemma existsb_find {A} (f : A -> bool) l :
  existsb f l = match List.find f l with Some _ => true | None => false end.
Proof. induction l as [|x l IH]; [done|]. cbn. by destruct (f x). Qed.

Lemma holds_drop_one unload acc t l :
  unloads_some -> listed l -> first_addr l = solinker s -> t <> solinker s ->
  (List.length l < fuel)%nat -> In t addrs ->
  holds l (drop_one w fuel s unload acc t) (drop_effect unload acc t l).
Proof.
  intros Hun Hl Hfirst Hne Hlen Ht. unfold drop_one, drop_effect. rewrite <- Hfirst.
  eapply reads_then; [apply (reads_still_linked fuel t [] l); [by apply listed_live|done]|].
  rewrite existsb_find. destruct (List.find (at_addr t) l) as [r|] eqn:E; [|by apply holds_ret].
  apply find_some in E as [Hr Er%Z.eqb_eq]. cbn [negb].
  destruct (reads_guard l) as [Henter Hleave].
  eapply reads_then; [exact Henter|]. rewrite <- Er at 1.
  eapply reads_then; [by apply reads_size|].
  destruct (e_size r =? 0); [eapply reads_then; [exact Hleave|by apply holds_ret]|].
  destruct acc as [before outs].
  assert (exists base, report outs base (e_size r) = report outs (e_base r) (e_size r) /\
    reads l (match outs with
             | Some (b, _) => if b =? 0 then getBase w s t else Ret b
             | None => Ret 0
             end) base) as (base & Hbase & Hreads).
  { destruct outs as [[b z]|]; [|by exists 0; split; [|apply reads_ret]].
    destruct (b =? 0) eqn:Eb.
    - exists (e_base r). split; [done|]. rewrite <- Er. by apply reads_base.
    - exists b. cbn. rewrite Eb. by split; [|apply reads_ret]. }
  eapply reads_then; [exact Hreads|].
  apply holds_bind, holds_setSize; [done..|]. apply holds_bind.
  pose proof (listed_resize _ t 0 Hl) as Hl0.
  destruct unload; cbn [gone].
  - eapply reads_then; [by apply reads_setConstructorCalled|].
    apply holds_bind, holds_call. intros [] _. cbn [after].
    destruct (gone_sublist true t l) as [_ Hs]; [done..|]. cbn [gone] in Hs.
    pose proof (listed_sublist _ _ Hl0 Hs) as Hlu.
    eapply holds_mono; [|by apply reads_setConstructorCalled].
    intros d [] l' (-> & _ & ->).
    destruct (reads_guard (unloaded t (resize_at t 0 l))) as [_ Hleave'].
    eapply reads_then; [exact Hleave'|]. apply holds_ret. by rewrite Hbase.
  - apply holds_bind, holds_call. intros [] _. cbn [after]. rewrite freed_resize.
    apply holds_setSize; [|done|].
    { by eapply listed_sublist; [|apply filter_sublist]. }
    rewrite resize_freed. destruct (reads_guard (freed t l)) as [_ Hleave'].
    eapply reads_then; [exact Hleave'|]. apply holds_ret. by rewrite Hbase.
Qed.

(** ** Facts: all of them *)

Section All.
Context (path : string) (unload : bool) (outs : option (Z * Z)) (l0 : list entry).
Context (Hun : unloads_some) (Hl0 : listed l0) (Hfirst : first_addr l0 = solinker s).
Context (Hown : match l0 with h :: _ => matching path h = false | [] => True end).
Context (Hbases : Forall (fun r => e_base r <> 0) l0) (Hfuel : (List.length l0 < fuel)%nat).

Definition targets : list Z := sort_desc id (map e_addr (List.filter (matching path) l0)).

Lemma same_addr l r r' : listed l -> In r l -> In r' l -> e_addr r = e_addr r' -> r = r'.
Proof.
  intros Hl Hr Hr' E. assert (NoDup (map e_addr l)) as Hnd
    by (eapply sublist_NoDup; [|exact Hl]; apply (ap_distinct _ Hapart)).
  apply list_elem_of_In, list_elem_of_lookup in Hr as [i Hi].
  apply list_elem_of_In, list_elem_of_lookup in Hr' as [j Hj].
  assert (map e_addr l !! i = Some (e_addr r)) as Ei by by rewrite list_lookup_fmap, Hi.
  assert (map e_addr l !! j = Some (e_addr r)) as Ej by by rewrite list_lookup_fmap, Hj, E.
  pose proof (NoDup_lookup _ _ _ _ Hnd Ei Ej). congruence.
Qed.

Lemma in_targets t : In t targets <-> exists r, In r l0 /\ matching path r = true /\ e_addr r = t.
Proof.
  unfold targets. rewrite (Permutation_in' eq_refl (sort_desc_perm id _)), in_map_iff.
  split; [intros (r & <- & [Hr Hm]%filter_In)|intros (r & Hr & Hm & <-)]; exists r; [done|].
  by rewrite filter_In.
Qed.
Lemma target_ok t : In t targets -> In t addrs /\ t <> solinker s.
Proof.
  intros (r & Hr & Hm & <-)%in_targets. split; [by eapply listed_in|]. rewrite <- Hfirst.
  destruct l0 as [|h l]; [done|]. cbn. intros E.
  rewrite (same_addr (h :: l) r h Hl0 Hr (or_introl eq_refl) E) in Hm. congruence.
Qed.

(** After the targets [done], of those there are. *)
Record progress (done : list Z) (acc : bool * option (Z * Z)) (l : list entry) : Prop := {
  pr_listed : listed l;
  pr_first : first_addr l = solinker s;
  pr_shorter : (List.length l <= List.length l0)%nat;
  pr_from : forall r, In r l -> In r l0 \/
    exists r0, In r0 l0 /\ matching path r0 = true /\ r = resized 0 r0;
  pr_done : forall r, In r l -> In (e_addr r) done -> e_size r = 0;
  pr_start : done = [] -> l = l0;
  pr_acc : match done with
           | [] => acc = (false, outs)
           | t :: _ => acc.1 = true /\ exists r, In r l0 /\ matching path r = true /\ e_addr r = t /\
                         acc.2 = report outs (e_base r) (e_size r)
           end;
  pr_freed : unload = false ->
    l = List.filter (fun r => negb (existsb (Z.eqb (e_addr r)) done)) l0 }.

Lemma progress_start : progress [] (false, outs) l0.
Proof. split; auto; [done|]. intros _. symmetry. by apply filter_everything. Qed.

(** The list keeps what a target was, until it is its turn. *)
Lemma target_found done acc l t r :
  progress done acc l -> In t targets -> List.find (at_addr t) l = Some r ->
  In r l /\ e_addr r = t /\ ((e_size r = 0 /\ unload = true) \/ (In r l0 /\ matching path r = true)).
Proof.
  intros Hp Ht [Hr Er%Z.eqb_eq]%find_some. split; [done|]. split; [done|].
  apply in_targets in Ht as (r' & Hr' & Hm' & Et).
  destruct (pr_from _ _ _ Hp r Hr) as [Hin|(r0 & Hin & Hm & ->)].
  - right. by rewrite (same_addr l0 r r') by congruence.
  - left. split; [done|]. destruct unload eqn:Eu; [done|]. exfalso.
    rewrite (pr_freed _ _ _ Hp Eu) in Hr. apply filter_In in Hr as [Hr _].
    rewrite <- (same_addr l0 (resized 0 r0) r') in Hm' by (done || congruence).
    unfold matching in Hm'. cbn in Hm'. destruct (e_path r0); [|done].
    by rewrite andb_false_r in Hm'.
Qed.

Lemma matching_size r : matching path r = true -> e_size r <> 0.
Proof.
  unfold matching. destruct (e_path r); [|done]. intros [_ Hz%Z.ltb_lt]%andb_prop. lia.
Qed.
Lemma report_once o b z b' z' : b <> 0 -> z <> 0 -> report (report o b z) b' z' = report o b z.
Proof.
  intros Hb Hz. destruct o as [[b0 z0]|]; [|done]. cbn.
  destruct (Z.eqb_spec b0 0), (Z.eqb_spec z0 0); repeat f_equal;
    repeat match goal with |- context [?x =? 0] => destruct (Z.eqb_spec x 0) end; congruence.
Qed.
Lemma freed_more done t l :
  freed t (List.filter (fun r => negb (existsb (Z.eqb (e_addr r)) done)) l) =
  List.filter (fun r => negb (existsb (Z.eqb (e_addr r)) (done ++ [t]))) l.
Proof.
  unfold freed, at_addr. induction l as [|r l IH]; [done|]. cbn. rewrite existsb_app. cbn.
  rewrite orb_false_r. destruct (existsb (Z.eqb (e_addr r)) done); cbn; [exact IH|].
  destruct (e_addr r =? t); cbn; [exact IH|]. by rewrite IH.
Qed.
Lemma progress_skip done acc l t :
  progress done acc l -> In t targets -> done <> [] ->
  (forall r, In r l -> e_addr r = t -> e_size r = 0) ->
  (unload = false -> freed t l = l) -> progress (done ++ [t]) acc l.
Proof.
  intros Hp Ht Hne Hat Hfree. destruct Hp as [Hl Hf Hs Hfrom Hdone Hstart Hacc Hfr]. split; auto.
  - intros r Hr [Hd|[Hd|[]]]%in_app_or; auto.
  - by destruct done.
  - by destruct done.
  - intros Hu. rewrite <- freed_more, <- Hfr by done. symmetry. auto.
Qed.

Lemma progress_gone done acc l t r :
  progress done acc l -> In t targets -> In r l -> In r l0 -> matching path r = true -> e_addr r = t ->
  progress (done ++ [t]) (true, report acc.2 (e_base r) (e_size r)) (gone unload t l).
Proof.
  intros Hp Ht Hr Hr0 Hm Er. destruct (target_ok t Ht) as [_ Hne].
  destruct Hp as [Hl Hf Hs Hfrom Hdone Hstart Hacc Hfr].
  destruct (gone_sublist unload t l Hun Hf Hne) as [Hf' Hsub].
  assert (forall r', In r' (gone unload t l) -> In r' (resize_at t 0 l)) as Hin.
  { intros r' Hr'. apply list_elem_of_In. eapply elem_of_sublist; [|exact Hsub].
    by apply list_elem_of_In. }
  split.
  - eapply listed_sublist; [|exact Hsub]. by apply listed_resize.
  - done.
  - apply sublist_length in Hsub. unfold resize_at in Hsub. rewrite length_map in Hsub. lia.
  - intros r' (r1 & Hr1 & [[_ ->]|[E ->]])%Hin%resize_in; [auto|]. right. exists r.
    by rewrite (same_addr l r1 r) by congruence.
  - intros r' (r1 & Hr1 & [[Hn ->]|[E ->]])%Hin%resize_in; [|done].
    intros [Hd|[Hd|[]]]%in_app_or; [auto|congruence].
  - by destruct done.
  - destruct done as [|u done]; cbn.
    + rewrite Hacc. split; [done|]. by exists r.
    + destruct Hacc as (_ & r1 & Hr1 & Hm1 & E1 & ->). split; [done|]. exists r1.
      rewrite report_once; [done| |by apply matching_size].
      by apply (proj1 (List.Forall_forall _ _) Hbases).
  - intros Hu. unfold gone. rewrite Hu. rewrite Hfr by done. apply freed_more.
Qed.

Lemma progress_step done acc l t d acc' l' :
  progress done acc l -> In t targets -> drop_effect unload acc t l d acc' l' ->
  progress (done ++ [t]) acc' l' /\ (unload = false -> ~ In t done -> d = [t]).
Proof.
  intros Hp Ht. unfold drop_effect. destruct (List.find (at_addr t) l) as [r|] eqn:E.
  - destruct (target_found _ _ _ _ _ Hp Ht E) as (Hr & Er & [[Hz Hu]|[Hr0 Hm]]).
    + rewrite Hz. cbn. intros (-> & -> & ->). split; [|congruence].
      apply progress_skip; [done..| | |congruence].
      * intros ->. apply in_targets in Ht as (r' & Hr' & Hm & Et).
        rewrite (pr_start _ _ _ Hp eq_refl) in Hr.
        apply (matching_size r' Hm). by rewrite (same_addr l0 r' r) by congruence.
      * intros r' Hr' E'. by rewrite (same_addr l r' r); [| |done..|congruence];
          [|apply (pr_listed _ _ _ Hp)].
    + pose proof (matching_size r Hm) as Hz%Z.eqb_neq. rewrite Hz. intros (-> & -> & ->).
      split; [|done]. by apply progress_gone.
  - intros (-> & -> & ->). assert (forall r, In r l -> e_addr r <> t) as Hno.
    { intros r Hr Er. pose proof (find_none _ _ E r Hr) as Hn. unfold at_addr in Hn.
      by apply Z.eqb_neq in Hn. }
    apply in_targets in Ht as Ht'. destruct Ht' as (r' & Hr' & Hm & Et). split.
    + apply progress_skip; [done..| | |].
      * intros ->. rewrite (pr_start _ _ _ Hp eq_refl) in Hno. by apply (Hno r').
      * intros r Hr Er. by destruct (Hno r Hr).
      * intros _. apply filter_everything. intros r Hr. unfold at_addr.
        by destruct (Z.eqb_spec (e_addr r) t) as [Er|]; [destruct (Hno r Hr)|].
    + intros Hu Hd. exfalso. apply (Hno r'); [|done]. rewrite (pr_freed _ _ _ Hp Hu).
      apply filter_In. split; [done|]. rewrite Et. apply negb_true_iff.
      apply not_true_iff_false. intros (x & Hx & Ex%Z.eqb_eq)%existsb_exists. congruence.
Qed.

Lemma holds_drop_all ts done acc l :
  Forall (fun t => In t targets) ts -> progress done acc l ->
  holds l (fold_prog ts acc (drop_one w fuel s unload)) (fun d acc' l' =>
    progress (done ++ ts) acc' l' /\ (unload = false -> NoDup (done ++ ts) -> d = ts)).
Proof.
  intros Hts. revert done acc l. induction Hts as [|t ts Ht Hts IH]; intros done acc l Hp;
    cbn [fold_prog].
  { apply holds_ret. by rewrite app_nil_r. }
  destruct (target_ok t Ht) as [Hin Hne]. apply holds_bind. eapply holds_mono.
  2: { apply holds_drop_one; [done|apply Hp|apply Hp|done| |done].
       pose proof (pr_shorter _ _ _ Hp). lia. }
  intros d acc1 l1 Heff. destruct (progress_step _ _ _ _ _ _ _ Hp Ht Heff) as [Hp1 Hd].
  eapply holds_mono; [|apply (IH _ _ _ Hp1)]. intros d' acc' l'. rewrite <- app_assoc. cbn [app].
  intros [Hp' Hd']. split; [exact Hp'|]. intros Hu Hnd. rewrite Hd, Hd'; [done|done..|].
  apply NoDup_app in Hnd as (_ & Hnd & _).
  intros Hdone. by apply (Hnd t); [apply list_elem_of_In|left].
Qed.

Lemma targets_nodup : NoDup targets.
Proof.
  assert (NoDup (map e_addr (List.filter (matching path) l0))) as Hnd.
  { eapply sublist_NoDup; [apply (ap_distinct _ Hapart)|]. eapply listed_sublist; [exact Hl0|].
    apply filter_sublist. }
  unfold targets. by rewrite (sort_desc_perm id).
Qed.

Lemma is_target r : In r l0 -> existsb (Z.eqb (e_addr r)) targets = matching path r.
Proof.
  intros Hr. apply eq_true_iff_eq. rewrite existsb_exists. split.
  - intros (t & (r' & Hr' & Hm & <-)%in_targets & E%Z.eqb_eq).
    by rewrite (same_addr l0 r r').
  - intros Hm. exists (e_addr r). split; [|apply Z.eqb_refl]. apply in_targets. by exists r.
Qed.

Lemma holds_dropSoPath :
  holds l0 (dropSoPath w fuel s path unload outs) (fun d a l => exists b o,
    a = (s, (b, o)) /\ progress targets (b, o) l /\ (unload = false -> d = targets)).
Proof.
  unfold dropSoPath, ready. apply Z.eqb_neq in Hlinker as Hs. rewrite Hs. cbn [bind negb].
  rewrite <- Hfirst. eapply reads_then.
  { apply (reads_collect fuel path [] l0); [by apply listed_live|done]. }
  apply holds_bind. eapply holds_mono; [|apply (holds_drop_all targets [] (false, outs) l0)].
  - intros d [b o] l [Hp Hd]. apply holds_ret. exists b, o. rewrite app_nil_r.
    split; [done|]. split; [exact Hp|]. intros Hu. apply Hd; [done|apply targets_nodup].
  - by apply List.Forall_forall.
  - apply progress_start.
Qed.

(** The first target is the highest match. *)
Lemma first_target t ts r :
  targets = t :: ts -> In r l0 -> matching path r = true ->
  (forall r', In r' l0 -> matching path r' = true -> e_addr r' <= e_addr r) -> e_addr r = t.
Proof.
  intros E Hr Hm Hmax. pose proof (sort_desc_sorted id (map e_addr (List.filter (matching path) l0)))
    as Hs. fold targets in Hs. rewrite E in Hs. apply StronglySorted_inv in Hs as [_ Hs].
  assert (In t targets) as (r' & Hr' & Hm' & <-)%in_targets by (rewrite E; by left).
  pose proof (Hmax r' Hr' Hm').
  assert (In (e_addr r) targets) as Hin by (apply in_targets; by exists r).
  rewrite E in Hin. destruct Hin as [|Hin]; [congruence|].
  apply (proj1 (List.Forall_forall _ _) Hs) in Hin. unfold not_below, id in Hin. lia.
Qed.

(** C33: the library's records disappear from the linker's list. Whatever the linker's list holds,
    as long as its records are apart in memory and its functions only take records off,
    [dropSoPath] returns; it answers whether some record's path matched, and for the caller the
    base and size of the highest one; afterwards no record on the list matches, and each one
    there is as it was or is a matching one of size 0. When it frees, exactly the matching
    records are gone, released from the highest address down. *)
Theorem dropSoPath_clears :
  every_run (dropSoPath w fuel s path unload outs) (fun tr r => accords l0 tr ->
    exists outs', r = Val (s, (existsb (matching path) l0, outs')) /\
      (forall e, In e (afters tr l0) -> matching path e = false) /\
      (forall e, In e (afters tr l0) -> In e l0 \/
         exists e0, In e0 l0 /\ matching path e0 = true /\ e = resized 0 e0) /\
      (forall e, In e l0 -> matching path e = true ->
         (forall e', In e' l0 -> matching path e' = true -> e_addr e' <= e_addr e) ->
         outs' = report outs (e_base e) (e_size e)) /\
      (unload = false ->
         afters tr l0 = List.filter (fun e => negb (matching path e)) l0 /\ drops tr = targets)).
Proof.
  eapply every_run_mono; [|exact holds_dropSoPath]. intros tr r Hr Ha.
  destruct (Hr Ha) as (a & -> & b & o & -> & Hp & Hd). exists o.
  assert (b = existsb (matching path) l0) as ->.
  { pose proof (pr_acc _ _ _ Hp) as Hacc. symmetry. destruct targets as [|t ts] eqn:E.
    - injection Hacc as -> ->. apply not_true_iff_false. intros (e & He & Hm)%existsb_exists.
      assert (In (e_addr e) targets) as Hin by (apply in_targets; by exists e).
      by rewrite E in Hin.
    - destruct Hacc as (Hb & e & He & Hm & _). cbn in Hb. subst b. apply existsb_exists. by exists e. }
  split; [done|]. split; [|split; [apply (pr_from _ _ _ Hp)|split]].
  - intros e He. destruct (matching path e) eqn:Hm; [exfalso|done].
    apply (matching_size e Hm). apply (pr_done _ _ _ Hp e He). apply in_targets.
    destruct (pr_from _ _ _ Hp e He) as [H0|(e0 & H0 & Hm0 & ->)]; [by exists e|by exists e0].
  - intros e He Hm Hmax. pose proof (pr_acc _ _ _ Hp) as Hacc.
    destruct targets as [|t ts] eqn:E.
    + assert (In (e_addr e) targets) as Hin by (apply in_targets; by exists e). by rewrite E in Hin.
    + destruct Hacc as (_ & e' & He' & Hm' & Et & Eo). cbn in Eo. subst o.
      pose proof (first_target t ts e E He Hm Hmax).
      by rewrite (same_addr l0 e e') by congruence.
  - intros Hu. split; [|auto]. rewrite (pr_freed _ _ _ Hp Hu).
    apply List.filter_ext_in. intros e He. by rewrite is_target.
Qed.
End All.
End Apart.
End World.

(** ** An example *)

(** [apart], decided. *)
Definition apartb (w : Z) (s : linker_state) (addrs : list Z) : bool :=
  let far a off b off' := ws w <=? Z.abs (at_ w a off - at_ w b off') in
  bool_decide (NoDup addrs) && forallb (fun a => (0 <? a) && (a <? 2 ^ w)) addrs &&
  forallb (fun a => forallb (fun b =>
    forallb (far a (field_size_offset s) b) [field_base_offset s; field_next_offset s] &&
    forallb (far a (field_constructor_called_offset s) b)
      [field_base_offset s; field_next_offset s; field_size_offset s]) addrs) addrs.
Lemma apart_decided w s addrs : apartb w s addrs = true -> apart w s addrs.
Proof.
  unfold apartb. cbv zeta. rewrite !andb_true_iff, !forallb_forall. intros [[Hnd Hr] Hfar].
  apply bool_decide_eq_true in Hnd.
  assert (forall a b off l l', In a addrs -> In b addrs ->
    (l, l') = (field_size_offset s, [field_base_offset s; field_next_offset s]) \/
    (l, l') = (field_constructor_called_offset s,
               [field_base_offset s; field_next_offset s; field_size_offset s]) ->
    In off l' -> ws w <= Z.abs (at_ w a l - at_ w b off)) as Hf.
  { intros a b off l l' Ha Hb El Hoff. specialize (Hfar a Ha). rewrite forallb_forall in Hfar.
    specialize (Hfar b Hb). rewrite andb_true_iff, !forallb_forall in Hfar.
    apply Z.leb_le. destruct El as [[= -> ->]|[= -> ->]]; by apply Hfar. }
  split; [done| | |].
  - apply List.Forall_forall. intros a Ha. specialize (Hr a Ha). cbn in *. lia.
  - intros a b off Ha Hb Hoff. eapply Hf; [done..|by left|]. cbn. intuition congruence.
  - intros a b off Ha Hb Hoff. eapply Hf; [done..|by right|]. cbn. intuition congruence.
Qed.

Section Play.
Context {I : Type} (w : Z) (s : linker_state) (unloaded : Z -> list entry -> list entry).

(** A run on a list, by the answers the list gives. *)
Fixpoint next_of (a : Z) (l : list entry) : option Z :=
  match l with
  | [] => None
  | r :: l => if a =? at_ w (e_addr r) (field_next_offset s) then Some (first_addr l) else next_of a l
  end.
Definition answered (l : list entry) (X : Type) (e : lnk I X) : X :=
  match e with
  | OpenLinker => None
  | ReadWord a =>
      match next_of a l with
      | Some x => x
      | None =>
          match List.find (fun r => at_ w (e_addr r) (field_size_offset s) =? a) l,
                List.find (fun r => at_ w (e_addr r) (field_base_offset s) =? a) l with
          | Some r, _ => e_size r
          | None, Some r => e_base r
          | None, None => 0
          end
      end
  | ReadStdString a =>
      match List.find (fun r => at_ w (e_addr r) (field_realpath_offset s) =? a) l with
      | Some r => (O, default "" (e_path r))
      | None => (O, "")
      end
  | GetRealpath _ this =>
      match List.find (at_addr this) l with Some r => e_path r | None => None end
  | ReadByte _ | ReadU64 _ => 0
  | ReadCStr _ => ""
  | WriteWord _ _ | WriteU64 _ _ | GuardEnter _ | GuardLeave _ | SoinfoFree _ _
  | SoinfoUnload _ _ => tt
  end.
Fixpoint play {A} (l : list entry) (p : prog (lnk I) A) : list (event (lnk I)) * res A :=
  match p with
  | Ret a => ([], Val a)
  | Halt h => ([], Stop h)
  | Vis e k =>
      let x := answered l _ e in
      let (tr, r) := play (after w s unloaded (Ev e x) l) (k x) in (Ev e x :: tr, r)
  end.
End Play.

Definition sample_records : list entry :=
  [{| e_addr := 0x7000001000; e_base := 0x7100000000; e_size := 0x200000;
      e_path := Some "/system/bin/linker64" |};
   {| e_addr := 0x7000002000; e_base := 0x5500000000; e_size := 0x8000;
      e_path := Some "/system/bin/app_process64" |};
   {| e_addr := 0x7000002400; e_base := 0x7200000000; e_size := 0x40000;
      e_path := Some "/data/adb/neozygisk/lib64/libzygisk.so" |};
   {| e_addr := 0x7000002800; e_base := 0x7300000000; e_size := 0x1000;
      e_path := Some "/memfd:jit-cache-zygisk" |};
   {| e_addr := 0x7000002C00; e_base := 0x7400000000; e_size := 0x1000;
      e_path := Some "/system/lib64/libart.so" |}].
(** Unloading takes the record off, unless something else still uses the library. *)
Definition sample_unloaded (this : Z) (l : list entry) : list entry :=
  match l with
  | [] => []
  | h :: l => h :: (if this =? 0x7000002800 then l else freed this l)
  end.

Example sample_drop :
  let (tr, r) := play (I := unit) 64 sample_linker sample_unloaded sample_records
    (dropSoPath (H := toy_symbols) 64 10 sample_linker "zygisk" true (Some (0, 0))) in
  r = Val (sample_linker, (true, Some (0x7300000000, 0x1000))) /\
  drops tr = [0x7000002800; 0x7000002400] /\
  map (fun e => (e_addr e, e_size e)) (afters 64 sample_linker sample_unloaded tr sample_records) =
    [(0x7000001000, 0x200000); (0x7000002000, 0x8000); (0x7000002800, 0); (0x7000002C00, 0x1000)].
Proof. vm_compute. by repeat split. Qed.

Lemma sample_unloads_some : unloads_some sample_unloaded.
Proof.
  intros t h l _. eexists. split; [done|]. destruct (_ =? _); [done|]. apply filter_sublist.
Qed.

Lemma dropSoPath_clears_witness :
  every_run (dropSoPath (I := unit) (H := toy_symbols) 64 10 sample_linker "zygisk" true (Some (0, 0)))
    (fun tr r => accords 64 sample_linker sample_unloaded sample_records tr ->
       r = Val (sample_linker, (true, Some (0x7300000000, 0x1000))) /\
       forall e, In e (afters 64 sample_linker sample_unloaded tr sample_records) ->
         matching "zygisk" e = false).
Proof.
  eapply every_run_mono; [|apply (dropSoPath_clears (H := toy_symbols) 64 10 sample_linker
    sample_unloaded (or_intror eq_refl) (map e_addr sample_records))].
  - intros tr r Hr Ha. destruct (Hr Ha) as (o & -> & Hclear & _ & Ho & _). split; [|exact Hclear].
    rewrite (Ho _ (or_intror (or_intror (or_intror (or_introl eq_refl)))) eq_refl); [done|].
    cbn. intros e' He Hm.
    repeat destruct He as [<-|He]; [..|done]; cbn in *; try done; lia.
  - apply apart_decided. vm_compute. reflexivity.
  - done.
  - apply sample_unloads_some.
  - by unfold listed.
  - done.
  - reflexivity.
  - repeat constructor; done.
  - cbn. lia.
Defined.
