(* ===== verification/Seccomp.v ===== *)
(** * The seccomp filter that clears the exec event message

    injector/seccomp.cpp: the filter zygote installs on kernels that keep the message of the
    last ptrace event, and the one system call it is installed for. The filter is a program in
    the kernel's classic BPF, interpreted here as the kernel's documentation has it. *)
From Stdlib Require Import ZArith Lia List String Ascii Bool.
From stdpp Require Import base list strings.
From S2P Require Import Prelude.
From S2P Require Import Sys.
From S2P Require Import Inject.
Open Scope string_scope.
Open Scope list_scope.
Open Scope Z_scope.

(** ** Classic BPF, as far as the filter uses it *)

Inductive sock_filter :=
| BPF_LD_ABS (k : Z)               (* BPF_LD | BPF_W | BPF_ABS *)
| BPF_JEQ (k : Z) (jt jf : nat)    (* BPF_JMP | BPF_JEQ | BPF_K *)
| BPF_RET (k : Z).                 (* BPF_RET | BPF_K *)

(** What the kernel hands the filter. *)
Record seccomp_data := { sd_nr : Z; sd_arch : Z; sd_ip : Z; sd_args : list Z }.

Definition offsetof_nr : Z := 0.
Definition offsetof_args (i : Z) : Z := 16 + 8 * i.

(** The 32-bit word at an offset, on a little-endian machine. *)
Definition load (d : seccomp_data) (k : Z) : Z :=
  let half v := if k mod 8 =? 0 then u32 v else u32 (Z.shiftr v 32) in
  if k =? 0 then u32 (sd_nr d)
  else if k =? 4 then u32 (sd_arch d)
  else if k <? 16 then half (sd_ip d)
  else half (nth (Z.to_nat ((k - 16) / 8)) (sd_args d) 0).

(** Jumps only go forward, so a run takes at most one step per instruction. *)
Fixpoint bpf_run (fuel : nat) (prog : list sock_filter) (acc : Z) (d : seccomp_data) : option Z :=
  match fuel, prog with
  | S fuel, BPF_LD_ABS k :: prog => bpf_run fuel prog (load d k) d
  | S fuel, BPF_JEQ k jt jf :: prog => bpf_run fuel (skipn (if acc =? k then jt else jf) prog) acc d
  | S _, BPF_RET k :: _ => Some k
  | _, _ => None
  end.
Definition verdict (prog : list sock_filter) (d : seccomp_data) : option Z :=
  bpf_run (List.length prog) prog 0 d.

Definition SECCOMP_RET_TRACE : Z := 0x7ff00000.
Definition SECCOMP_RET_ALLOW : Z := 0x7fff0000.

(** ** The filter *)

Inductive scmp : Type -> Type :=
| Kernel {X} (e : sys X) : scmp X
| OpenRandom : scmp bool
| ReadRandom : scmp (option (Z * Z * Z * Z))   (* sixteen bytes, or a short read *)
| SetFilter (prog : list sock_filter) : scmp bool
| ExitGroup (args : list Z) : scmp unit.       (* the raw system call, which comes back *)

Section Filter.
(** [__NR_exit_group] of the architecture. *)
Context (NR_exit_group : Z).

Definition filter (a0 a1 a2 a3 : Z) : list sock_filter := [
  BPF_LD_ABS offsetof_nr;
  BPF_JEQ NR_exit_group 0 9;
  BPF_LD_ABS (offsetof_args 0);
  BPF_JEQ a0 0 7;
  BPF_LD_ABS (offsetof_args 1);
  BPF_JEQ a1 0 5;
  BPF_LD_ABS (offsetof_args 2);
  BPF_JEQ a2 0 3;
  BPF_LD_ABS (offsetof_args 3);
  BPF_JEQ a3 0 1;
  BPF_RET SECCOMP_RET_TRACE;
  BPF_RET SECCOMP_RET_ALLOW ].

(** Keeps the signature out of the range of an exit status. *)
Definition signature (a0 : Z) : Z := Z.lor a0 0x10000.

Definition send_seccomp_event_if_needed : prog scmp unit :=
  keeps <- lift (@Kernel) kernel_keeps_ptrace_message ;;
  if negb keeps then Ret tt
  else
    opened <- call OpenRandom ;;
    if negb opened then Ret tt
    else
      random <- call ReadRandom ;;
      match random with
      | None => Ret tt
      | Some (a0, a1, a2, a3) =>
          let a0 := signature a0 in
          set <- call (SetFilter (filter a0 a1 a2 a3)) ;;
          if negb set then Ret tt
          else call (ExitGroup [a0; a1; a2; a3])
      end.

(** The system calls the filter has traced. *)
Definition signed_exit (a0 a1 a2 a3 : Z) (d : seccomp_data) : bool :=
  (u32 (sd_nr d) =? NR_exit_group) && (u32 (nth 0 (sd_args d) 0) =? a0) &&
  (u32 (nth 1 (sd_args d) 0) =? a1) && (u32 (nth 2 (sd_args d) 0) =? a2) &&
  (u32 (nth 3 (sd_args d) 0) =? a3).

Lemma verdict_exact a0 a1 a2 a3 d :
  verdict (filter a0 a1 a2 a3) d =
    Some (if signed_exit a0 a1 a2 a3 d then SECCOMP_RET_TRACE else SECCOMP_RET_ALLOW).
Proof.
  unfold verdict, signed_exit. cbn [filter bpf_run List.length].
  change (load d offsetof_nr) with (u32 (sd_nr d)).
  change (load d (offsetof_args 0)) with (u32 (nth 0 (sd_args d) 0)).
  change (load d (offsetof_args 1)) with (u32 (nth 1 (sd_args d) 0)).
  change (load d (offsetof_args 2)) with (u32 (nth 2 (sd_args d) 0)).
  change (load d (offsetof_args 3)) with (u32 (nth 3 (sd_args d) 0)).
  destruct (u32 (sd_nr d) =? NR_exit_group); [|done]. cbn [skipn bpf_run andb].
  destruct (_ =? a0); [|done]. cbn [skipn bpf_run andb].
  destruct (_ =? a1); [|done]. cbn [skipn bpf_run andb].
  destruct (_ =? a2); [|done]. cbn [skipn bpf_run andb].
  by destruct (_ =? a3).
Qed.

Lemma signature_bit a0 : Z.testbit (signature a0) 16 = true.
Proof. unfold signature. rewrite Z.lor_spec. change (Z.testbit 0x10000 16) with true. apply orb_true_r. Qed.

(** The arguments of the calls made, and the filters put in place. *)
Definition exit_args (ev : event scmp) : option (list Z) :=
  match ev with Ev (ExitGroup args) _ => Some args | _ => None end.
Definition filter_set (ev : event scmp) : option (list sock_filter) :=
  match ev with
  | Ev e x => match e in scmp X return X -> option (list sock_filter) with
              | SetFilter p => fun ok => if ok then Some p else None
              | _ => fun _ => None
              end x
  end.

Lemma keeps_calls_nothing :
  every_run (lift (@Kernel) kernel_keeps_ptrace_message) (fun tr r =>
    (exists b, r = Val b) /\ omap exit_args tr = [] /\ omap filter_set tr = []).
Proof. apply every_run_lift. intros x. cbn. eauto. Qed.

Lemma signed_exit_status a0 a1 a2 a3 d :
  0 <= nth 0 (sd_args d) 0 < 2 ^ 16 -> signed_exit (signature a0) a1 a2 a3 d = false.
Proof.
  intros Hs. assert (u32 (nth 0 (sd_args d) 0) <> signature a0) as Hne%Z.eqb_neq.
  { intros E. pose proof (signature_bit a0) as Hb. rewrite <- E in Hb. unfold u32 in Hb.
    rewrite wrap_small in Hb by lia. rewrite Z.bits_above_log2 in Hb; [done|lia|].
    destruct (Z.eq_dec (nth 0 (sd_args d) 0) 0) as [->|]; [cbn; lia|]. apply Z.log2_lt_pow2; lia. }
  unfold signed_exit. by rewrite Hne, andb_false_r.
Qed.

(** C35: the filter takes nothing away and traces one call. Every system call gets one of two
    verdicts, allow or trace, and is traced exactly when it is an exit_group with the four
    signature words in its arguments; an exit_group whose status fits sixteen bits is
    allowed. The injector makes its call at most once, only after the filter is in place, and
    with the words the filter compares. *)
Theorem filter_traces_signature :
  (forall a0 a1 a2 a3 d,
     verdict (filter (signature a0) a1 a2 a3) d =
       Some (if signed_exit (signature a0) a1 a2 a3 d then SECCOMP_RET_TRACE else SECCOMP_RET_ALLOW) /\
     (0 <= nth 0 (sd_args d) 0 < 2 ^ 16 ->
        verdict (filter (signature a0) a1 a2 a3) d = Some SECCOMP_RET_ALLOW)) /\
  every_run send_seccomp_event_if_needed (fun tr r =>
    r = Val tt /\
    (omap exit_args tr = [] \/
     exists a0 a1 a2 a3, omap exit_args tr = [[signature a0; a1; a2; a3]] /\
       omap filter_set tr = [filter (signature a0) a1 a2 a3] /\
       last_is (fun ev => match exit_args ev with Some _ => true | None => false end) tr = true)).
Proof.
  split.
  - intros a0 a1 a2 a3 d. rewrite verdict_exact. split; [done|]. intros Hs.
    by rewrite signed_exit_status.
  - eapply every_run_seq; [apply keeps_calls_nothing|by intros tr h [[? ?] _]|].
    intros tr keeps (_ & He & Hf).
    destruct keeps; cbn; [|by rewrite omap_app, He; auto].
    intros []; cbn; [|by rewrite omap_app, He; auto].
    intros [[[[a0 a1] a2] a3]|]; cbn; [|by rewrite omap_app, He; auto].
    intros []; cbn; [|by rewrite omap_app, He; auto].
    intros []. split; [done|]. right. exists a0, a1, a2, a3. rewrite !omap_app, He, Hf. cbn.
    split_and!; [done|done|]. by apply last_is_app.
Qed.
End Filter.
