(* ===== verification/JniEnv.v ===== *)
(** * The Java native interface

    injector/android_util.hpp: the wrappers that check for exceptions after every call and
    delete local references at the end of their scopes, and the reader of ART's private
    [ArtMethod]. References, identifiers and addresses are numbers, null is 0. *)
From Stdlib Require Import ZArith Lia List String Ascii Bool.
From stdpp Require Import base gmap list strings.
From S2P Require Import Prelude.
Open Scope string_scope.
Open Scope list_scope.
Open Scope Z_scope.

Record JNINativeMethod := { jm_name : string; jm_signature : string; fnPtr : Z }.

(** ** Calls *)

(** What is called through a [JNIEnv], and the reads of ART's memory. Methods and fields are
    asked for as those of instances or static ones. *)
Inductive jni : Type -> Type :=
| FindClass (name : string) : jni Z
| GetMethodID (clazz : Z) (name signature : string) (static : bool) : jni Z
| GetFieldID (clazz : Z) (name signature : string) (static : bool) : jni Z
| GetStaticIntField (clazz field : Z) : jni Z
| GetLongField (obj field : Z) : jni Z
| ToReflectedMethod (clazz method : Z) (is_static : bool) : jni Z
| CallIntMethod (obj method : Z) : jni Z
| CallObjectMethod (obj method : Z) : jni Z
| CallBooleanMethod (obj method : Z) : jni bool
| CallVoidMethod (obj method : Z) : jni unit
| GetObjectField (obj field : Z) : jni Z
| SetObjectField (obj field value : Z) : jni unit
| NewObject (clazz method : Z) : jni Z
| NewStringUTF (str : string) : jni Z
| GetStringUTFChars (jstr : Z) : jni Z
| ReleaseStringUTFChars (jstr chars : Z) : jni unit
| GetArrayLength (array : Z) : jni Z
| GetObjectArrayElement (array index : Z) : jni Z
| RegisterNatives (clazz : Z) (methods : list JNINativeMethod) : jni unit
| ExceptionCheck : jni bool
| ExceptionDescribe : jni unit
| ExceptionClear : jni unit
| DeleteLocal (ref : Z) : jni unit
| ReadPtr (base offset : Z) : jni Z.                 (* the word there, addresses wrapping around *)

(** ** Local references *)

(** A [ScopedLocalRef] is the reference it owns. [reset] deletes the one it had; [release] and
    the moves leave it without one; the destructor resets it to null. *)
Definition ScopedLocalRef_reset (ref ptr : Z) : prog jni Z :=
  if ref =? ptr then Ret ref
  else (if negb (ref =? 0) then call (DeleteLocal ref) else Ret tt) ;;; Ret ptr.
Definition ScopedLocalRef_release (ref : Z) : Z * Z := (ref, 0).
Definition ScopedLocalRef_destroy (ref : Z) : prog jni unit := ScopedLocalRef_reset ref 0 ;;; Ret tt.
(** [Cast]: the reference moves into the new wrapper, and the old one is destroyed empty. *)
Definition Cast (x : Z) : prog jni Z :=
  let '(moved, x) := ScopedLocalRef_release x in
  ScopedLocalRef_destroy x ;;; Ret moved.
(** A scope that owns a reference. *)
Definition scoped {A} (ref : Z) (body : prog jni A) : prog jni A :=
  a <- body ;; ScopedLocalRef_destroy ref ;;; Ret a.

(** ** Invocations *)

(** The destructor of [ExceptionChecker]. *)
Definition ExceptionChecker_destroy : prog jni unit :=
  pending <- call ExceptionCheck ;;
  if pending : bool then call ExceptionDescribe ;;; call ExceptionClear else Ret tt.
(** [SafeInvoke]: the result, or a zero of its type when the call threw. *)
Definition SafeInvoke {X} (f : jni X) (zero : X) : prog jni X :=
  result <- call f ;;
  pending <- call ExceptionCheck ;;
  ExceptionChecker_destroy ;;;
  Ret (if pending : bool then zero else result).

(** For a function that returns nothing. *)
Definition SafeInvoke_void (f : jni unit) : prog jni unit := call f ;;; ExceptionChecker_destroy.

Definition safe_FindClass (name : string) := SafeInvoke (FindClass name) 0.
Definition safe_GetFieldID (clazz : Z) (name sig : string) := SafeInvoke (GetFieldID clazz name sig false) 0.
Definition safe_GetStaticFieldID (clazz : Z) (name sig : string) :=
  SafeInvoke (GetFieldID clazz name sig true) 0.
Definition safe_GetStaticIntField (clazz field : Z) := SafeInvoke (GetStaticIntField clazz field) 0.
Definition safe_GetMethodID (clazz : Z) (name sig : string) := SafeInvoke (GetMethodID clazz name sig false) 0.
Definition safe_ToReflectedMethod (clazz method : Z) (is_static : bool) :=
  SafeInvoke (ToReflectedMethod clazz method is_static) 0.
Definition safe_CallObjectMethod (obj method : Z) := SafeInvoke (CallObjectMethod obj method) 0.
Definition safe_CallIntMethod (obj method : Z) := SafeInvoke (CallIntMethod obj method) 0.
Definition safe_GetLongField (obj field : Z) := SafeInvoke (GetLongField obj field) 0.
Definition safe_GetObjectField (obj field : Z) := SafeInvoke (GetObjectField obj field) 0.
Definition safe_SetObjectField (obj field value : Z) := SafeInvoke_void (SetObjectField obj field value).
Definition safe_CallVoidMethod (obj method : Z) := SafeInvoke_void (CallVoidMethod obj method).
Definition safe_CallBooleanMethod (obj method : Z) := SafeInvoke (CallBooleanMethod obj method) false.
Definition safe_NewObject (clazz method : Z) := SafeInvoke (NewObject clazz method) 0.
Definition safe_NewStringUTF (str : string) := SafeInvoke (NewStringUTF str) 0.

(** ** Strings *)

(** The characters a [JUTFString] holds; its destructor gives them back. *)
Definition JUTFString (env jstr : Z) : prog jni Z :=
  if negb (env =? 0) && negb (jstr =? 0) then call (GetStringUTFChars jstr) else Ret 0.
Definition JUTFString_destroy (env jstr cstr : Z) : prog jni unit :=
  if negb (env =? 0) && negb (jstr =? 0) && negb (cstr =? 0) then
    call (ReleaseStringUTFChars jstr cstr)
  else Ret tt.

(** ** ART's methods *)

(** The static members of [ArtMethod]. *)
Record art_state := {
  art_method_field_id : Z; art_method_size : Z; entry_point_offset : Z; data_offset : Z }.
Definition fresh_art : art_state :=
  {| art_method_field_id := 0; art_method_size := 0; entry_point_offset := 0; data_offset := 0 |}.

Definition FromReflectedMethod (art : art_state) (method : Z) : prog jni Z :=
  if art_method_field_id art =? 0 then Ret 0
  else safe_GetLongField method (art_method_field_id art).
(** A method of a null [ArtMethod] would read at the offset itself. *)
Definition GetData (art : art_state) (this : Z) : prog jni Z :=
  if this =? 0 then Halt (Undefined "a member of a null ArtMethod")
  else call (ReadPtr this (data_offset art)).

Section Art.
(** The width of an address in bits, and the size of a pointer in bytes. *)
Context (w : Z).
Definition kPointerSize : Z := w / 8.

(** The end of [Init], once the constructors of Throwable are in an array. *)
Definition measure (art : art_state) (constructors_array : Z) : prog jni (bool * art_state) :=
  first_ctor <- call (GetObjectArrayElement constructors_array 0) ;;
  scoped first_ctor (
    second_ctor <- call (GetObjectArrayElement constructors_array 1) ;;
    scoped second_ctor (
      first <- FromReflectedMethod art first_ctor ;;
      second <- FromReflectedMethod art second_ctor ;;
      if (first =? 0) || (second =? 0) then Ret (false, art)
      else
        let size := wrap w (second - first) in
        let entry := wrap w (size - kPointerSize) in
        Ret (true, {| art_method_field_id := art_method_field_id art; art_method_size := size;
                      entry_point_offset := entry; data_offset := wrap w (entry - kPointerSize) |}))).

Definition Init (art : art_state) : prog jni (bool * art_state) :=
  if negb (art_method_field_id art =? 0) then Ret (true, art)
  else
    executable_class <- safe_FindClass "java/lang/reflect/Executable" ;;
    scoped executable_class (
      if executable_class =? 0 then Ret (false, art)
      else
        field <- safe_GetFieldID executable_class "artMethod" "J" ;;
        let art := {| art_method_field_id := field; art_method_size := art_method_size art;
                      entry_point_offset := entry_point_offset art; data_offset := data_offset art |} in
        if field =? 0 then Ret (false, art)
        else
          throwable_class <- safe_FindClass "java/lang/Throwable" ;;
          scoped throwable_class (
            if throwable_class =? 0 then Ret (false, art)
            else
              class_class <- safe_FindClass "java/lang/Class" ;;
              scoped class_class (
                get_constructors_method <-
                  safe_GetMethodID class_class "getDeclaredConstructors"
                    "()[Ljava/lang/reflect/Constructor;" ;;
                array <- safe_CallObjectMethod throwable_class get_constructors_method ;;
                constructors_array <- Cast array ;;
                scoped constructors_array (
                  if constructors_array =? 0 then Ret (false, art)
                  else
                    length <- call (GetArrayLength constructors_array) ;;
                    if length <? 2 then Ret (false, art)
                    else measure art constructors_array)))).
End Art.

(** ** A machine

    What the interface demands of its caller, and what it may do: whether an exception is
    pending, and the local references the caller holds. *)
Record env_state := { pending : bool; held : gset Z }.
Definition with_pending (b : bool) (m : env_state) : env_state := {| pending := b; held := held m |}.

(** Null, or a reference that was not deleted. *)
Definition usable (m : env_state) (ref : Z) : Prop := ref = 0 \/ ref ∈ held m.
(** With an exception pending only the exception's functions and the deletion of references are
    allowed. *)
Definition allowed {X} (m : env_state) (e : jni X) : Prop :=
  match e with
  | ExceptionCheck | ExceptionDescribe | ExceptionClear | ReadPtr _ _ => True
  | DeleteLocal ref => ref ∈ held m
  | ReleaseStringUTFChars _ _ => True
  | FindClass _ | NewStringUTF _ => pending m = false
  | SetObjectField ref _ value => pending m = false /\ usable m ref /\ usable m value
  | GetMethodID ref _ _ _ | GetFieldID ref _ _ _ | GetStaticIntField ref _ | GetLongField ref _
  | ToReflectedMethod ref _ _ | CallIntMethod ref _ | CallObjectMethod ref _ | GetArrayLength ref
  | GetObjectArrayElement ref _ | RegisterNatives ref _ | CallBooleanMethod ref _
  | CallVoidMethod ref _ | GetObjectField ref _ | NewObject ref _ | GetStringUTFChars ref =>
      pending m = false /\ usable m ref
  end.
(** A new reference, or an exception and any answer. *)
Definition new_ref (m : env_state) (x : Z) (m' : env_state) : Prop :=
  x <> 0 /\ x ∉ held m /\ m' = {| pending := false; held := {[x]} ∪ held m |} \/
  m' = with_pending true m.
(** The states a function leaves: no exception pending, and the references it was given. *)
Definition calm_state (held0 : gset Z) (m : env_state) : Prop := pending m = false /\ held m = held0.
Definition leaves {A} (held0 : gset Z) (m : env_state) (r : res A) : Prop :=
  match r with Val _ => calm_state held0 m | Stop _ => True end.
(** The outcome of a call that makes a reference: none, or a new one. *)
Definition made (held0 : gset Z) (m : env_state) (r : res Z) : Prop :=
  match r with
  | Val x => calm_state held0 m /\ x = 0 \/ x <> 0 /\ x ∉ held0 /\ calm_state ({[x]} ∪ held0) m
  | Stop _ => True
  end.

Ltac calm :=
  match goal with H : calm_state _ ?m |- _ => destruct H as [? ?]; cbn; tauto end.

(** [len] is the length of an array, by its reference; an element within it is had without an
    exception. *)
Section Machine.
Context (len : Z -> Z).
Definition steps {X} (m : env_state) (e : jni X) : X -> env_state -> Prop :=
  match e in jni X return X -> env_state -> Prop with
  | FindClass _ => fun x m' => new_ref m x m' /\ (pending m' = true -> x = 0)
  | GetMethodID _ _ _ _ | GetFieldID _ _ _ _ => fun x m' =>
      m' = with_pending (x =? 0) m
  | ToReflectedMethod _ _ _ | NewObject _ _ | NewStringUTF _ => new_ref m
  | CallObjectMethod _ _ | GetObjectField _ _ => fun x m' => new_ref m x m' \/ x = 0 /\ m' = m
  | GetObjectArrayElement array index => fun x m' =>
      (new_ref m x m' \/ x = 0 /\ m' = m) /\
      (0 <= index < len array -> pending m' = false)
  | GetStaticIntField _ _ | GetLongField _ _ | CallIntMethod _ _ => fun _ m' =>
      exists b, m' = with_pending b m
  | CallBooleanMethod _ _ => fun _ m' => exists b, m' = with_pending b m
  | RegisterNatives _ _ | CallVoidMethod _ _ | SetObjectField _ _ _ => fun _ m' =>
      exists b, m' = with_pending b m
  | GetStringUTFChars _ => fun x m' => m' = with_pending (x =? 0) m
  | ReleaseStringUTFChars _ _ => fun _ m' => m' = m
  | GetArrayLength array => fun x m' => x = len array /\ m' = m
  | ReadPtr _ _ => fun _ m' => m' = m
  | ExceptionCheck => fun x m' => x = pending m /\ m' = m
  | ExceptionDescribe => fun _ m' => m' = m
  | ExceptionClear => fun _ m' => m' = with_pending false m
  | DeleteLocal ref => fun _ m' => m' = {| pending := pending m; held := held m ∖ {[ref]} |}
  end.

(** The weakest precondition of a program on that machine: every call is allowed when it is made,
    whatever was answered before. *)
Fixpoint wp {A} (p : prog jni A) (m : env_state) (Q : env_state -> res A -> Prop) : Prop :=
  match p with
  | Ret a => Q m (Val a)
  | Halt h => Q m (Stop h)
  | Vis e k => allowed m e /\ forall x m', steps m e x m' -> wp (k x) m' Q
  end.

Lemma wp_mono {A} (p : prog jni A) m (Q Q' : env_state -> res A -> Prop) :
  (forall m r, Q m r -> Q' m r) -> wp p m Q -> wp p m Q'.
Proof.
  intros HQ. revert m. induction p as [a|h|X e k IH]; intros m; cbn; [apply HQ..|].
  intros [He Hk]. split; [done|]. intros x m' Hx. by apply IH, Hk.
Qed.
Lemma wp_bind {A B} (p : prog jni A) (f : A -> prog jni B) m Q :
  wp p m (fun m r => match r with Val a => wp (f a) m Q | Stop h => Q m (Stop h) end) -> wp (bind p f) m Q.
Proof.
  revert m. induction p as [a|h|X e k IH]; intros m; cbn; [done|done|].
  intros [He Hk]. split; [done|]. intros x m' Hx. by apply IH, Hk.
Qed.
Lemma wp_seq {A B} (p : prog jni A) (f : A -> prog jni B) m (S : env_state -> res A -> Prop) Q :
  wp p m S -> (forall m h, S m (Stop h) -> Q m (Stop h)) -> (forall m a, S m (Val a) -> wp (f a) m Q) ->
  wp (bind p f) m Q.
Proof.
  intros Hp Hh Hv. apply wp_bind. eapply wp_mono; [|exact Hp]. intros m' [a|h]; [apply Hv|apply Hh].
Qed.

(** ** Facts: the wrappers *)

Lemma wp_checked m {X} (x zero : X) (L : gset Z) Q :
  held m = L ->
  (forall m', calm_state L m' -> Q m' (Val (if pending m then zero else x))) ->
  wp (pending_ <- call ExceptionCheck ;; ExceptionChecker_destroy ;;;
      Ret (if pending_ : bool then zero else x)) m Q.
Proof.
  intros HL HQ. cbn. split; [done|]. intros b m1 [-> ->]. split; [done|]. intros b m1 [-> ->].
  destruct (pending m) eqn:Hp; cbn.
  - split; [done|]. intros [] m1 ->. split; [done|]. intros [] m1 ->. apply HQ. by split.
  - by apply HQ.
Qed.

Lemma wp_SafeInvoke_value m {X} (f : jni X) (zero : X) L Q :
  allowed m f -> held m = L -> (forall x m', steps m f x m' -> held m' = L) ->
  (forall x m', calm_state L m' -> Q m' (Val x)) ->
  wp (SafeInvoke f zero) m Q.
Proof.
  intros Hf HL Hheld HQ. cbn. split; [done|]. intros x m' Hx.
  apply (wp_checked m' x zero L); [by eapply Hheld|]. intros. by apply HQ.
Qed.

Lemma wp_SafeInvoke_void m (f : jni unit) L Q :
  allowed m f -> held m = L -> (forall x m', steps m f x m' -> held m' = L) ->
  (forall m', calm_state L m' -> Q m' (Val tt)) ->
  wp (SafeInvoke_void f) m Q.
Proof.
  intros Hf HL Hheld HQ. cbn. split; [done|]. intros [] m' Hx. pose proof (Hheld _ _ Hx) as Hh.
  split; [done|]. intros b m1 [-> ->]. destruct (pending m') eqn:Hp; cbn.
  - split; [done|]. intros [] m1 ->. split; [done|]. intros [] m1 ->. apply HQ. by split.
  - apply HQ. by split.
Qed.

Lemma wp_SafeInvoke_ref m (f : jni Z) L Q :
  allowed m f -> calm_state L m ->
  (forall x m', steps m f x m' -> new_ref m x m' \/ x = 0 /\ m' = m) ->
  (forall x m', made L m' (Val x) -> Q m' (Val x)) ->
  wp (SafeInvoke f 0) m Q.
Proof.
  intros Hf [Hp HL] Hnew HQ. cbn. split; [done|]. intros x m' Hx.
  destruct (Hnew x m' Hx) as [[(Hx0 & Hin & ->)| ->]|[-> ->]].
  - apply (wp_checked _ x 0 ({[x]} ∪ L)); [by rewrite HL|]. intros m1 Hm1. apply HQ. right. cbn.
    by rewrite <- HL in *.
  - apply (wp_checked _ x 0 L); [done|]. intros m1 Hm1. apply HQ. by left.
  - apply (wp_checked _ 0 0 L); [done|]. intros m1 Hm1. apply HQ. left. by destruct (pending m).
Qed.

(** A scope gives up the reference it owns. *)
Lemma wp_scoped {A} x (body : prog jni A) m L Q :
  made L m (Val x) ->
  (forall L', calm_state L' m -> L ⊆ L' -> usable m x -> wp body m (fun m' r =>
    match r with Val a => calm_state L' m' /\ forall m2, calm_state L m2 -> Q m2 (Val a)
               | Stop h => Q m' (Stop h) end)) ->
  wp (scoped x body) m Q.
Proof.
  intros Hm Hbody. unfold scoped. apply wp_bind.
  destruct Hm as [[Hc ->]|(Hx & Hin & Hc)].
  - eapply wp_mono; [|apply (Hbody L); [done|done|by left]]. intros m' [a|h]; [|done].
    intros [Hc' HQ]. cbn. by apply HQ.
  - eapply wp_mono; [|apply (Hbody ({[x]} ∪ L)); [done|set_solver|right; destruct Hc as [_ ->]; set_solver]].
    intros m' [a|h]; [|done]. intros [[Hp Hh] HQ].
    unfold ScopedLocalRef_destroy, ScopedLocalRef_reset. destruct (Z.eqb_spec x 0) as [|_]; [done|]. cbn.
    split; [set_solver|]. intros [] m2 ->. apply HQ. split; [done|]. cbn. rewrite Hh. set_solver.
Qed.

(** The same for bodies that leave what they find. *)
Definition owned (L : gset Z) (ref : Z) : Prop := ref = 0 \/ ref ∈ L.
Lemma owned_usable L m ref : calm_state L m -> owned L ref -> usable m ref.
Proof. intros [_ <-] H. exact H. Qed.
Lemma owned_mono (L L' : gset Z) ref : L ⊆ L' -> owned L ref -> owned L' ref.
Proof. intros HL [?|?]; [by left|right; set_solver]. Qed.

Lemma wp_scope {A} x (body : prog jni A) m L :
  made L m (Val x) ->
  (forall L', calm_state L' m -> L ⊆ L' -> owned L' x -> wp body m (leaves L')) ->
  wp (scoped x body) m (leaves L).
Proof.
  intros Hm Hbody. apply (wp_scoped x body m L); [done|]. intros L' Hc HL Hu.
  eapply wp_mono; [|apply (Hbody L'); [done|done|]].
  - intros m' [a|h]; [|done]. intros Hc'. split; [exact Hc'|done].
  - destruct Hc as [_ <-]. exact Hu.
Qed.

(** Calls of the wrappers from a calm state. *)
Lemma wp_safe_value m {X} (f : jni X) (zero : X) L {B} (k : X -> prog jni B) Q :
  calm_state L m -> allowed m f -> (forall x m', steps m f x m' -> held m' = held m) ->
  (forall x m', calm_state L m' -> wp (k x) m' Q) ->
  wp (bind (SafeInvoke f zero) k) m Q.
Proof.
  intros [Hp HL] Hf Hheld Hk. apply wp_bind. apply (wp_SafeInvoke_value m f zero L); [done|done| |].
  - intros x m' Hx. by rewrite (Hheld x m' Hx).
  - intros x m' Hc. by apply Hk.
Qed.
Lemma wp_safe_ref m (f : jni Z) L {B} (k : Z -> prog jni B) Q :
  calm_state L m -> allowed m f ->
  (forall x m', steps m f x m' -> new_ref m x m' \/ x = 0 /\ m' = m) ->
  (forall x m', made L m' (Val x) -> wp (k x) m' Q) ->
  wp (bind (SafeInvoke f 0) k) m Q.
Proof.
  intros Hc Hf Hnew Hk. apply wp_bind. apply (wp_SafeInvoke_ref m f L); [done|done|done|].
  intros x m' Hx. by apply Hk.
Qed.

Section ArtFacts.
Context (w : Z).

Lemma wp_FromReflected art method L m {B} (k : Z -> prog jni B) Q :
  calm_state L m -> owned L method ->
  (forall x m', calm_state L m' -> wp (k x) m' Q) ->
  wp (bind (FromReflectedMethod art method) k) m Q.
Proof.
  intros Hc Ho Hk. unfold FromReflectedMethod. destruct (_ =? 0); [by apply Hk|].
  apply (wp_safe_value m _ 0 L); [done| | |done].
  - split; [apply Hc|by eapply owned_usable].
  - by intros x m' [b ->].
Qed.

Lemma wp_element a i L m {B} (k : Z -> prog jni B) Q :
  calm_state L m -> owned L a -> 0 <= i < len a ->
  (forall x m', made L m' (Val x) -> wp (k x) m' Q) ->
  wp (bind (call (GetObjectArrayElement a i)) k) m Q.
Proof.
  intros [Hp HL] Ho Hi Hk. cbn. split; [split; [done|unfold usable; by rewrite HL]|].
  intros x m' [[[(Hx & Hin & ->)| ->]|[-> ->]] Hp']; apply Hk.
  - right. by rewrite <- HL in *.
  - by specialize (Hp' Hi).
  - by left.
Qed.

(** The result and the state of [Init]: whatever the machine answers, it is calm again and holds
    what it held. *)
Lemma wp_measure art array L m :
  calm_state L m -> owned L array -> 2 <= len array -> wp (measure w art array) m (leaves L).
Proof.
  intros Hc Ho Hlen. unfold measure.
  apply (wp_element _ _ L); [done|done|lia|]. intros first m1 Hm1.
  apply wp_scope; [done|]. intros L1 Hc1 HL1 Ho1.
  apply (wp_element _ _ L1); [done|by eapply owned_mono|lia|]. intros second m2 Hm2.
  apply wp_scope; [done|]. intros L2 Hc2 HL2 Ho2.
  apply (wp_FromReflected _ _ L2); [done|by eapply owned_mono|]. intros p1 m3 Hc3.
  apply (wp_FromReflected _ _ L2); [done|done|]. intros p2 m4 Hc4.
  by destruct (_ || _).
Qed.

Lemma wp_Init art L m : calm_state L m -> wp (Init w art) m (leaves L).
Proof.
  intros Hc. unfold Init. destruct (negb _); [exact Hc|].
  unfold safe_FindClass, safe_GetFieldID, safe_GetMethodID, safe_CallObjectMethod.
  apply (wp_safe_ref _ _ L); [done|calm|intros x m' [? _]; by left|]. intros executable m1 Hm1.
  apply wp_scope; [done|]. intros L1 Hc1 HL1 Ho1. destruct (executable =? 0); [exact Hc1|].
  apply (wp_safe_value _ _ _ L1); [done|split; [calm|by eapply owned_usable]|by intros x m' ->|].
  intros field m2 Hc2. destruct (field =? 0); [exact Hc2|].
  apply (wp_safe_ref _ _ L1); [done|calm|intros x m' [? _]; by left|]. intros throwable m3 Hm3.
  apply wp_scope; [done|]. intros L2 Hc3 HL2 Ho2. destruct (throwable =? 0); [exact Hc3|].
  apply (wp_safe_ref _ _ L2); [done|calm|intros x m' [? _]; by left|]. intros class m4 Hm4.
  apply wp_scope; [done|]. intros L3 Hc4 HL3 Ho3.
  apply (wp_safe_value _ _ _ L3); [done|split; [calm|by eapply owned_usable]|by intros x m' ->|].
  intros ctors m5 Hc5.
  apply (wp_safe_ref _ _ L3); [done|split; [calm|]|by intros x m' H|].
  { eapply owned_usable; [done|]. by eapply owned_mono. }
  intros array m6 Hm6. change (Cast array) with (Ret array : prog jni Z). cbn [bind].
  apply wp_scope; [done|]. intros L4 Hc6 HL4 Ho4. destruct (array =? 0); [exact Hc6|].
  cbn. split; [split; [calm|by eapply owned_usable]|]. intros n m7 [-> ->].
  destruct (Z.ltb_spec (len array) 2); [exact Hc6|]. by apply wp_measure.
Qed.
End ArtFacts.
End Machine.

(** ** Facts: ART's layout *)

(** Measured on two methods next to each other, the offset is that of a method's last pointer but
    one: the size of a method, less two pointers. *)
Lemma measured_offset w first size :
  16 <= w -> 0 <= first -> 2 * kPointerSize w <= size < 2 ^ w -> first + size < 2 ^ w ->
  wrap w (wrap w (wrap w (first + size - first) - kPointerSize w) - kPointerSize w) =
    size - 2 * kPointerSize w.
Proof.
  intros Hw Hf Hs Hfs. assert (0 <= kPointerSize w) by (unfold kPointerSize; apply Z.div_pos; lia).
  replace (first + size - first) with size by lia.
  rewrite (wrap_small w size), (wrap_small w (size - _)), wrap_small; lia.
Qed.

(** A failed [Init] that had found the field is taken for a finished one the next time: it answers
    true, and the code of methods is then read at offset 0. *)
Definition no_constructors (n : nat) (X : Type) (e : jni X) : X :=
  match e with
  | FindClass _ | GetMethodID _ _ _ _ | GetFieldID _ _ _ _ | ToReflectedMethod _ _ _ => 1
  | GetStaticIntField _ _ | GetLongField _ _ | CallIntMethod _ _ | CallObjectMethod _ _
  | GetArrayLength _ | GetObjectArrayElement _ _ | ReadPtr _ _ | GetObjectField _ _ | NewObject _ _
  | NewStringUTF _ | GetStringUTFChars _ => 0
  | ExceptionCheck | CallBooleanMethod _ _ => false
  | CallVoidMethod _ _ | SetObjectField _ _ _ | ReleaseStringUTFChars _ _ | RegisterNatives _ _ | ExceptionDescribe | ExceptionClear | DeleteLocal _ => tt
  end.
Lemma failed_init_passes :
  exists art, (run no_constructors 0 (Init 64 fresh_art)).2 = Val (false, art) /\
    data_offset art = 0 /\ Init 64 art = Ret (true, art).
Proof.
  exists {| art_method_field_id := 1; art_method_size := 0; entry_point_offset := 0; data_offset := 0 |}.
  split; [vm_compute; reflexivity|done].
Qed.
