(* ===== verification/Jni.v ===== *)
(** * Hooking native methods

    [hook_jni_methods] of injector/hook.cpp: it swaps the native implementations of a class's
    methods for others and remembers the ones it replaced, so that a second pass over the same
    table puts them back. *)
From Stdlib Require Import ZArith Lia List String Ascii Bool.
From stdpp Require Import base gmap list strings.
From S2P Require Import Prelude.
From S2P Require Import JniEnv.
Open Scope string_scope.
Open Scope list_scope.
Open Scope Z_scope.

Definition with_fn (m : JNINativeMethod) (fn : Z) : JNINativeMethod :=
  {| jm_name := jm_name m; jm_signature := jm_signature m; fnPtr := fn |}.

Section HookJni.
(** [Modifier.NATIVE] and the method [Member.getModifiers], as [hook_zygote_jni] found them, and
    the layout of ART's methods. *)
Context (MODIFIER_NATIVE member_getModifiers : Z) (art : art_state).

(** What becomes of an entry whose method was found, and the hook to register, if any. *)
Definition swap_native (clazz id : Z) (is_static : bool) (m : JNINativeMethod) :
    prog jni (JNINativeMethod * option JNINativeMethod) :=
  method <- safe_ToReflectedMethod clazz id is_static ;;
  scoped method (
    modifier <- safe_CallIntMethod method member_getModifiers ;;
    if Z.land modifier MODIFIER_NATIVE =? 0 then Ret (with_fn m 0, None)
    else
      artMethod <- FromReflectedMethod art method ;;
      original <- GetData art artMethod ;;
      Ret (with_fn m original, Some m)).
(** One entry of the table. *)
Definition hook_one (clazz : Z) (m : JNINativeMethod) :
    prog jni (JNINativeMethod * option JNINativeMethod) :=
  if fnPtr m =? 0 then Ret (m, None)
  else
    id <- call (GetMethodID clazz (jm_name m) (jm_signature m) false) ;;
    let* (id, is_static) :=
      (if negb (id =? 0) then Ret (id, false)
       else
         call ExceptionClear ;;;
         id <- call (GetMethodID clazz (jm_name m) (jm_signature m) true) ;;
         Ret (id, true)) in
    if id =? 0 then call ExceptionClear ;;; Ret (with_fn m 0, None)
    else swap_native clazz id is_static m.

Fixpoint hook_loop (clazz : Z) (methods : list JNINativeMethod) :
    prog jni (list JNINativeMethod * list JNINativeMethod) :=
  match methods with
  | [] => Ret ([], [])
  | m :: methods =>
      let* (m, hook) := hook_one clazz m in
      let* (methods, hooks) := hook_loop clazz methods in
      Ret (m :: methods, match hook with Some h => h :: hooks | None => hooks end)
  end.

(** The table after the call; the reference to the class is left to the caller's frame. *)
Definition hook_jni_methods (clz : string) (methods : list JNINativeMethod) :
    prog jni (list JNINativeMethod) :=
  clazz <- call (FindClass clz) ;;
  if clazz =? 0 then
    call ExceptionClear ;;; Ret (map (fun m => with_fn m 0) methods)
  else
    let* (methods, hooks) := hook_loop clazz methods in
    match hooks with
    | [] => Ret methods
    | _ => call (RegisterNatives clazz hooks) ;;; Ret methods
    end.
End HookJni.

Ltac wp_step := cbn [bind call wp allowed steps negb Z.eqb].

(** ** Facts: hygiene

    Whatever the machine answers, no call is made while an exception is pending or on a reference
    that was deleted. *)
Section Hygiene.
Context (len : Z -> Z) (NATIVE member : Z) (art : art_state).

Lemma wp_GetData this m L {B} (k : Z -> prog jni B) :
  calm_state L m -> (forall x, wp len (k x) m (leaves L)) -> wp len (bind (GetData art this) k) m (leaves L).
Proof.
  intros Hc Hk. unfold GetData. destruct (this =? 0); [exact I|]. cbn. split; [done|]. intros x m' ->. apply Hk.
Qed.

Lemma wp_swap_native clazz id static j L m :
  calm_state L m -> owned L clazz -> wp len (swap_native NATIVE member art clazz id static j) m (leaves L).
Proof.
  intros Hc Ho. unfold swap_native, safe_ToReflectedMethod, safe_CallIntMethod.
  apply (wp_safe_ref _ _ _ L); [done|split; [calm|by eapply owned_usable]|by left|]. intros x m1 Hm1.
  apply wp_scope; [done|]. intros L1 Hc1 HL1 Ho1.
  apply (wp_safe_value _ _ _ _ L1); [done|split; [calm|by eapply owned_usable]|by intros ? ? [? ->]|].
  intros modifier m2 Hc2. destruct (_ =? 0); [exact Hc2|].
  apply (wp_FromReflected _ _ _ L1); [done|done|]. intros this m3 Hc3.
  apply wp_GetData; [done|]. by intros.
Qed.

Lemma wp_hook_one clazz j L m :
  calm_state L m -> owned L clazz -> wp len (hook_one NATIVE member art clazz j) m (leaves L).
Proof.
  intros Hc Ho. pose proof (owned_usable _ _ _ Hc Ho) as Hu. destruct Hc as [Hp HL].
  unfold hook_one. destruct (fnPtr j =? 0); [by split|]. wp_step. split; [by split|].
  intros id m1 ->. destruct (Z.eqb_spec id 0) as [->|Hid]; wp_step.
  - split; [done|]. intros [] m1 ->. wp_step. split; [by split|]. intros id m1 ->. wp_step.
    destruct (Z.eqb_spec id 0) as [->|Hid]; [|by apply wp_swap_native].
    wp_step. split; [done|]. by intros [] m1 ->.
  - destruct (Z.eqb_spec id 0); [done|]. by apply wp_swap_native.
Qed.

Lemma wp_hook_loop clazz ms L m :
  calm_state L m -> owned L clazz -> wp len (hook_loop NATIVE member art clazz ms) m (leaves L).
Proof.
  revert m. induction ms as [|j ms IH]; intros m Hc Ho; cbn [hook_loop]; [exact Hc|].
  eapply wp_seq; [by apply wp_hook_one|done|]. intros m1 [j' hook] Hc1.
  eapply wp_seq; [by apply IH|done|]. by intros m2 [ms' hooks] Hc2.
Qed.

(** The class's reference is not given back; only registering may leave an exception. *)
Definition leaks_class {A} (L : gset Z) (m : env_state) (r : res A) : Prop :=
  match r with
  | Val _ => held m = L \/ exists clazz, clazz ∉ L /\ held m = {[clazz]} ∪ L
  | Stop _ => True
  end.
Lemma wp_hook_jni_methods clz ms L m :
  calm_state L m -> wp len (hook_jni_methods NATIVE member art clz ms) m (leaks_class L).
Proof.
  intros [Hp HL]. unfold hook_jni_methods. wp_step. split; [done|]. intros clazz m1 [[(Hx & Hin & ->)| ->] Hnull].
  - destruct (Z.eqb_spec clazz 0); [done|].
    eapply wp_seq; [apply (wp_hook_loop clazz ms ({[clazz]} ∪ L)); [by rewrite HL|right; set_solver]|done|].
    intros m2 [ms' hooks] Hc2. pose proof Hc2 as [Hp2 HL2]. rewrite HL in Hin.
    destruct hooks as [|h hooks]; [right; by exists clazz|]. wp_step. split.
    { split; [done|]. right. rewrite HL2. set_solver. }
    intros [] m3 [b ->]. right. by exists clazz.
  - rewrite (Hnull eq_refl). wp_step. split; [done|]. intros [] m2 ->. by left.
Qed.
End Hygiene.

(** ** A virtual machine

    The methods of one class, by name and signature: whether static, the modifiers, and the
    native code. [RegisterNatives] replaces the code of the methods it names. A method's
    identifier, the reference to its reflection and the address of its [ArtMethod] are the same
    number; its code lies at an offset from there. *)
Record jmethod := { jv_static : bool; jv_modifiers : Z; jv_data : Z }.
Notation jvm := (gmap (string * string) jmethod).

Record layout := {
  vm_getModifiers : Z; vm_artMethod : Z; vm_offset : Z;
  address : string * string -> Z; method_at : Z -> option (string * string) }.

Definition register_native (vm : jvm) (m : JNINativeMethod) : jvm :=
  alter (fun j => {| jv_static := jv_static j; jv_modifiers := jv_modifiers j; jv_data := fnPtr m |})
    (jm_name m, jm_signature m) vm.

Section Vm.
Context (ly : layout).

Definition method_of (vm : jvm) (a : Z) : option jmethod :=
  match method_at ly a with Some k => vm !! k | None => None end.
(** Calls that must not be made while an exception is pending. *)
Definition fallible {X} (e : jni X) : bool :=
  match e with
  | ExceptionCheck | ExceptionDescribe | ExceptionClear | DeleteLocal _ | ReadPtr _ _
  | ReleaseStringUTFChars _ _ => false
  | _ => true
  end.
Definition vm_step {X : Type} (st : jvm * bool) (e : jni X) : X * (jvm * bool) :=
  let '(vm, exn) := st in
  match e in jni X return X * (jvm * bool) with
  | FindClass _ => (1, st)
  | GetMethodID _ n s static =>
      match vm !! (n, s) with
      | Some j => if Bool.eqb (jv_static j) static then (address ly (n, s), st) else (0, (vm, true))
      | None => (0, (vm, true))
      end
  | ToReflectedMethod _ id _ => (id, st)
  | CallIntMethod obj m =>
      (if m =? vm_getModifiers ly then
         match method_of vm obj with Some j => jv_modifiers j | None => 0 end
       else 0, st)
  | GetLongField obj f => (if f =? vm_artMethod ly then obj else 0, st)
  | ReadPtr a offset =>
      (if offset =? vm_offset ly then
         match method_of vm a with Some j => jv_data j | None => 0 end
       else 0, st)
  | RegisterNatives _ ms => (tt, (fold_left register_native ms vm, exn))
  | GetFieldID _ _ _ _ | GetStaticIntField _ _ | CallObjectMethod _ _ | GetArrayLength _
  | GetObjectArrayElement _ _ | GetObjectField _ _ | NewObject _ _ | NewStringUTF _
  | GetStringUTFChars _ => (0, st)
  | CallBooleanMethod _ _ => (false, st)
  | CallVoidMethod _ _ | SetObjectField _ _ _ | ReleaseStringUTFChars _ _ => (tt, st)
  | ExceptionCheck => (exn, st)
  | ExceptionDescribe => (tt, st)
  | ExceptionClear => (tt, (vm, false))
  | DeleteLocal _ => (tt, st)
  end.

Fixpoint on_vm {A : Type} (p : prog jni A) (st : jvm * bool) : res A * (jvm * bool) :=
  match p with
  | Ret a => (Val a, st)
  | Halt h => (Stop h, st)
  | Vis e k =>
      if snd st && fallible e then (Stop (Undefined "a call with an exception pending"), st)
      else let '(x, st) := vm_step st e in on_vm (k x) st
  end.

Lemma on_vm_bind {A B : Type} (p : prog jni A) (f : A -> prog jni B) st :
  on_vm (bind p f) st =
    match on_vm p st with (Val a, st) => on_vm (f a) st | (Stop h, st) => (Stop h, st) end.
Proof.
  revert st. induction p as [a|h|X e k IH]; intros st; [done|done|].
  cbn [bind on_vm]. destruct (snd st && fallible e); [done|]. destruct (vm_step st e) as [x st']. apply IH.
Qed.
Lemma on_vm_safe {X} (f : jni X) zero vm x :
  vm_step (vm, false) f = (x, (vm, false)) -> on_vm (SafeInvoke f zero) (vm, false) = (Val x, (vm, false)).
Proof. intros Hf. unfold SafeInvoke. cbn [bind call on_vm snd andb]. by rewrite Hf. Qed.
Lemma on_vm_scoped {A} x (body : prog jni A) st a vm :
  on_vm body st = (Val a, (vm, false)) -> on_vm (scoped x body) st = (Val a, (vm, false)).
Proof.
  intros Hb. unfold scoped. rewrite on_vm_bind, Hb. unfold ScopedLocalRef_destroy, ScopedLocalRef_reset.
  by destruct (x =? 0).
Qed.

(** ** Facts: what a pass does *)

Definition key (m : JNINativeMethod) : string * string := (jm_name m, jm_signature m).

(** The library's view of the machine is right. *)
Record sees (member : Z) (art : art_state) (vm : jvm) : Prop := {
  sees_member : member = vm_getModifiers ly;
  sees_field : art_method_field_id art = vm_artMethod ly /\ vm_artMethod ly <> 0;
  sees_offset : data_offset art = vm_offset ly;
  sees_methods : forall k j, vm !! k = Some j ->
    method_at ly (address ly k) = Some k /\ address ly k <> 0 }.

Section Pass.
Context (NATIVE member : Z) (art : art_state).

(** The method an entry hooks: native, and present. *)
Definition hookable (vm : jvm) (m : JNINativeMethod) : option jmethod :=
  if fnPtr m =? 0 then None
  else match vm !! key m with
       | Some j => if Z.land (jv_modifiers j) NATIVE =? 0 then None else Some j
       | None => None
       end.
Definition swapped (vm : jvm) (m : JNINativeMethod) : JNINativeMethod :=
  match hookable vm m with Some j => with_fn m (jv_data j) | None => with_fn m 0 end.
Definition hooks_of (vm : jvm) (ms : list JNINativeMethod) : list JNINativeMethod :=
  List.filter (fun m => match hookable vm m with Some _ => true | None => false end) ms.

Lemma with_fn_same m : with_fn m (fnPtr m) = m.
Proof. by destruct m. Qed.

Lemma method_of_address vm k j :
  sees member art vm -> vm !! k = Some j -> method_of vm (address ly k) = Some j.
Proof. intros Hs Hk. unfold method_of. by destruct (sees_methods _ _ _ Hs k j Hk) as [-> _]. Qed.

Lemma swap_native_vm clazz static m vm j :
  sees member art vm -> vm !! key m = Some j ->
  on_vm (swap_native NATIVE member art clazz (address ly (key m)) static m) (vm, false) =
    (Val (if Z.land (jv_modifiers j) NATIVE =? 0 then (with_fn m 0, None)
          else (with_fn m (jv_data j), Some m)), (vm, false)).
Proof.
  intros Hs Hj. destruct (sees_methods _ _ _ Hs _ _ Hj) as [Ha Hpos].
  unfold swap_native, safe_ToReflectedMethod, safe_CallIntMethod. rewrite on_vm_bind, (on_vm_safe _ 0 vm (address ly (key m))) by done.
  apply on_vm_scoped. rewrite on_vm_bind, (on_vm_safe _ 0 vm (jv_modifiers j)).
  2: { cbn. rewrite (sees_member _ _ _ Hs), Z.eqb_refl. by rewrite (method_of_address vm (key m) j). }
  destruct (Z.land (jv_modifiers j) NATIVE =? 0); [done|].
  destruct (sees_field _ _ _ Hs) as [Hf Hf0].
  unfold FromReflectedMethod, safe_GetLongField. rewrite Hf. destruct (Z.eqb_spec (vm_artMethod ly) 0); [done|].
  rewrite on_vm_bind, (on_vm_safe _ 0 vm (address ly (key m))) by (cbn; by rewrite Z.eqb_refl).
  unfold GetData. destruct (Z.eqb_spec (address ly (key m)) 0); [lia|].
  rewrite on_vm_bind. cbn [call on_vm snd andb fallible vm_step].
  rewrite (sees_offset _ _ _ Hs), Z.eqb_refl. by rewrite (method_of_address vm (key m) j).
Qed.

Lemma hook_one_vm clazz m vm :
  sees member art vm ->
  on_vm (hook_one NATIVE member art clazz m) (vm, false) =
    (Val (swapped vm m, match hookable vm m with Some _ => Some m | None => None end), (vm, false)).
Proof.
  intros Hs. unfold hook_one, swapped, hookable. destruct (Z.eqb_spec (fnPtr m) 0) as [E|E].
  { cbn. by rewrite <- E, with_fn_same. }
  rewrite on_vm_bind. cbn [call on_vm snd andb fallible vm_step]. fold (key m).
  destruct (vm !! key m) as [j|] eqn:Hj.
  - destruct (sees_methods _ _ _ Hs _ _ Hj) as [_ Hpos].
    assert (address ly (key m) =? 0 = false) as Hnz by lia.
    pose proof (fun static => swap_native_vm clazz static m vm j Hs Hj) as Hswap.
    destruct (jv_static j) eqn:Es; cbn [Bool.eqb]; rewrite ?on_vm_bind;
      cbn [negb Z.eqb call on_vm bind snd andb fallible vm_step]; fold (key m); rewrite ?Hj, ?Es; cbn [Bool.eqb];
      rewrite ?Hnz; cbn [negb on_vm]; rewrite ?Hnz, Hswap; by destruct (Z.land (jv_modifiers j) NATIVE =? 0).
  - rewrite on_vm_bind. cbn [negb Z.eqb call on_vm bind snd andb fallible vm_step]. fold (key m). by rewrite Hj.
Qed.

Lemma hook_loop_vm clazz ms vm :
  sees member art vm ->
  on_vm (hook_loop NATIVE member art clazz ms) (vm, false) =
    (Val (map (swapped vm) ms, hooks_of vm ms), (vm, false)).
Proof.
  intros Hs. induction ms as [|m ms IH]; [done|]. cbn [hook_loop]. rewrite on_vm_bind, hook_one_vm by done.
  rewrite on_vm_bind, IH. cbn. by destruct (hookable vm m).
Qed.

Lemma hook_jni_methods_vm clz ms vm :
  sees member art vm ->
  on_vm (hook_jni_methods NATIVE member art clz ms) (vm, false) =
    (Val (map (swapped vm) ms), (fold_left register_native (hooks_of vm ms) vm, false)).
Proof.
  intros Hs. unfold hook_jni_methods. rewrite on_vm_bind. cbn [call on_vm snd andb fallible vm_step Z.eqb].
  rewrite on_vm_bind, hook_loop_vm by done. by destruct (hooks_of vm ms).
Qed.

Definition set_data (j : jmethod) (d : Z) : jmethod :=
  {| jv_static := jv_static j; jv_modifiers := jv_modifiers j; jv_data := d |}.

Lemma register_other l vm k :
  k ∉ map key l -> fold_left register_native l vm !! k = vm !! k.
Proof.
  revert vm. induction l as [|m l IH]; intros vm Hk; [done|]. cbn in *.
  apply not_elem_of_cons in Hk as [Hk1 Hk2]. rewrite IH by done.
  unfold register_native. apply lookup_alter_ne. by intros <-.
Qed.

Lemma register_own l vm m :
  NoDup (map key l) -> m ∈ l ->
  fold_left register_native l vm !! key m = (fun j => set_data j (fnPtr m)) <$> vm !! key m.
Proof.
  revert vm. induction l as [|m' l IH]; intros vm Hnd Hin; [by apply elem_of_nil in Hin|].
  cbn in *. apply NoDup_cons in Hnd as [Hni Hnd]. apply elem_of_cons in Hin as [<-|Hin].
  - rewrite register_other by done. unfold register_native. apply lookup_alter_eq.
  - rewrite IH by done. unfold register_native. rewrite lookup_alter_ne; [done|].
    intros E. apply Hni. change (key m' = key m) in E. rewrite E. by apply list_elem_of_fmap_2.
Qed.

Lemma hooks_key vm ms : map key (hooks_of vm ms) `sublist_of` map key ms.
Proof.
  induction ms as [|m ms IH]; [done|]. cbn. destruct (hookable vm m); cbn; by constructor.
Qed.

Lemma hooks_of_elem vm ms m : m ∈ hooks_of vm ms <-> m ∈ ms /\ hookable vm m <> None.
Proof.
  unfold hooks_of. rewrite !list_elem_of_In, filter_In. destruct (hookable vm m); naive_solver.
Qed.

(** What is left of an entry after the table has been through two passes. *)
Definition restored (vm : jvm) (m : JNINativeMethod) : JNINativeMethod :=
  match hookable vm m with Some _ => m | None => with_fn m 0 end.

Lemma hookable_data vm m j : hookable vm m = Some j -> vm !! key m = Some j /\ fnPtr m <> 0.
Proof.
  unfold hookable. destruct (Z.eqb_spec (fnPtr m) 0) as [|Hm]; [done|].
  destruct (vm !! key m) as [j'|]; [|done]. destruct (_ =? 0); [done|]. by intros [= ->].
Qed.

Lemma swapped_hookable vm vm1 m :
  (forall j, hookable vm m = Some j -> jv_data j <> 0 /\ vm1 !! key m = Some (set_data j (fnPtr m))) ->
  hookable vm1 (swapped vm m) = (fun j => set_data j (fnPtr m)) <$> hookable vm m.
Proof.
  intros Hvm. unfold swapped. destruct (hookable vm m) as [j|] eqn:Hh; [|done].
  destruct (Hvm j eq_refl) as [Hd Hk]. unfold hookable in *. cbn [fnPtr with_fn].
  destruct (Z.eqb_spec (jv_data j) 0); [done|]. change (key (with_fn m (jv_data j))) with (key m).
  rewrite Hk. destruct (fnPtr m =? 0); [done|]. destruct (vm !! key m) as [j'|]; [|done].
  destruct (Z.land (jv_modifiers j') NATIVE =? 0) eqn:El; [done|]. injection Hh as ->.
  cbn [set_data jv_modifiers]. by rewrite El.
Qed.

Lemma key_with_fn m d : key (with_fn m d) = key m.
Proof. done. Qed.
Lemma key_swapped vm m : key (swapped vm m) = key m.
Proof. unfold swapped. by destruct (hookable vm m). Qed.

Lemma hooked_lookup vm ms m j :
  NoDup (map key ms) -> m ∈ ms -> hookable vm m = Some j ->
  fold_left register_native (hooks_of vm ms) vm !! key m = Some (set_data j (fnPtr m)).
Proof.
  intros Hnd Hin Hh. rewrite register_own.
  - destruct (hookable_data _ _ _ Hh) as [-> _]. done.
  - eapply sublist_NoDup; [exact Hnd|apply hooks_key].
  - apply hooks_of_elem. by rewrite Hh.
Qed.

Lemma second_hooks vm vm1 ms :
  (forall m j, m ∈ ms -> hookable vm m = Some j ->
     jv_data j <> 0 /\ vm1 !! key m = Some (set_data j (fnPtr m))) ->
  hooks_of vm1 (map (swapped vm) ms) = map (swapped vm) (hooks_of vm ms) /\
  map (swapped vm1) (map (swapped vm) ms) = map (restored vm) ms.
Proof.
  induction ms as [|m ms IH]; intros Hall; [done|].
  destruct IH as [IH1 IH2]; [intros m' j' Hin; apply Hall; by right|].
  assert (hookable vm1 (swapped vm m) = (fun j => set_data j (fnPtr m)) <$> hookable vm m) as Hm.
  { apply swapped_hookable. intros j Hj. apply Hall; [by left|done]. }
  unfold hooks_of in *. cbn [map List.filter]. rewrite Hm, IH2.
  assert (swapped vm1 (swapped vm m) = restored vm m) as ->.
  { unfold swapped at 1. rewrite Hm. unfold restored, swapped.
    destruct (hookable vm m) as [j|]; [by destruct m|done]. }
  split; [|done]. destruct (hookable vm m); cbn [map]; by rewrite IH1.
Qed.

Lemma second_pass vm ms :
  NoDup (map key ms) ->
  fold_left register_native (map (swapped vm) (hooks_of vm ms))
    (fold_left register_native (hooks_of vm ms) vm) = vm.
Proof.
  intros Hnd. apply map_eq. intros k.
  assert (map key (map (swapped vm) (hooks_of vm ms)) = map key (hooks_of vm ms)) as Hkeys.
  { rewrite map_map. apply map_ext. intros m. apply key_swapped. }
  assert (NoDup (map key (hooks_of vm ms))) as Hnd' by (eapply sublist_NoDup; [exact Hnd|apply hooks_key]).
  destruct (decide (k ∈ map key (hooks_of vm ms))) as [Hin|Hout].
  - apply list_elem_of_fmap_1 in Hin as (m & -> & Hm).
    pose proof (proj1 (hooks_of_elem vm ms m) Hm) as [Hms Hh].
    destruct (hookable vm m) as [j|] eqn:Hj; [|done].
    rewrite <- (key_swapped vm m), register_own; [|by rewrite Hkeys|by apply list_elem_of_fmap_2].
    rewrite key_swapped, (hooked_lookup vm ms m j Hnd Hms Hj).
    destruct (hookable_data _ _ _ Hj) as [-> _]. cbn. unfold swapped. rewrite Hj. by destruct j.
  - rewrite register_other by (by rewrite Hkeys). by rewrite register_other.
Qed.

Lemma register_domain l vm k j :
  fold_left register_native l vm !! k = Some j -> exists j', vm !! k = Some j'.
Proof.
  revert vm. induction l as [|m l IH]; intros vm Hk; [by exists j|].
  destruct (IH _ Hk) as [j1 Hj1]. unfold register_native in Hj1.
  destruct (decide (key m = k)) as [<-|Hne].
  - rewrite lookup_alter_eq in Hj1. destruct (vm !! key m) as [j2|] eqn:E; [by exists j2|].
    unfold key in E. by rewrite E in Hj1.
  - rewrite lookup_alter_ne in Hj1 by done. by exists j1.
Qed.
Lemma sees_registered l vm : sees member art vm -> sees member art (fold_left register_native l vm).
Proof.
  intros Hs. constructor; try apply Hs. intros k j Hk.
  destruct (register_domain _ _ _ _ Hk) as [j' Hj']. by apply (sees_methods _ _ _ Hs k j').
Qed.

(** C27: hooking the methods of a class is undone by a second pass over the table. For a table
    without repeated entries, methods with native code of their own and the machine's real
    layout: in neither pass is a call made while an exception is pending; after the first pass
    each native method with an entry runs the entry's function and no other method changed;
    after a second pass, over the table the first one left, every method runs what it ran
    before, and the table is as it was, but for entries that never applied, which are null. *)
Theorem hooks_are_undone clz ms vm :
  sees member art vm ->
  NoDup (map key ms) ->
  (forall m j, m ∈ ms -> vm !! key m = Some j -> jv_data j <> 0) ->
  exists ms1 vm1,
    on_vm (hook_jni_methods NATIVE member art clz ms) (vm, false) = (Val ms1, (vm1, false)) /\
    (forall m j, m ∈ ms -> hookable vm m = Some j -> vm1 !! key m = Some (set_data j (fnPtr m))) /\
    (forall k, k ∉ map key (hooks_of vm ms) -> vm1 !! k = vm !! k) /\
    on_vm (hook_jni_methods NATIVE member art clz ms1) (vm1, false) =
      (Val (map (restored vm) ms), (vm, false)).
Proof.
  intros Hs Hnd Hdata. rewrite hook_jni_methods_vm by done. do 2 eexists. split; [reflexivity|].
  set (vm1 := fold_left register_native (hooks_of vm ms) vm).
  assert (forall m j, m ∈ ms -> hookable vm m = Some j ->
    vm1 !! key m = Some (set_data j (fnPtr m))) as Hvm1 by (intros; by apply hooked_lookup).
  split; [exact Hvm1|]. split; [intros k Hk; by apply register_other|].
  destruct (second_hooks vm vm1 ms) as [H1 H2].
  { intros m j Hin Hj. split; [|by apply Hvm1]. apply (Hdata m j Hin). by apply hookable_data. }
  rewrite hook_jni_methods_vm by (by apply sees_registered). rewrite H1, H2. do 2 f_equal.
  by apply second_pass.
Qed.
End Pass.
End Vm.

(** ** Witness *)

Definition table : list JNINativeMethod :=
  [{| jm_name := "nativeForkAndSpecialize"; jm_signature := "(I)I"; fnPtr := 1 |};
   {| jm_name := "nativeForkAndSpecialize"; jm_signature := "(II)I"; fnPtr := 2 |};
   {| jm_name := "nativeForkSystemServer"; jm_signature := "(J)I"; fnPtr := 3 |}].
Definition zygote_class : jvm :=
  {[ ("nativeForkAndSpecialize", "(II)I") := {| jv_static := true; jv_modifiers := 0x108; jv_data := 70 |};
     ("nativeForkSystemServer", "(J)I") := {| jv_static := true; jv_modifiers := 0x108; jv_data := 71 |} ]}.

Definition zygote_keys : list (string * string) :=
  [("nativeForkAndSpecialize", "(II)I"); ("nativeForkSystemServer", "(J)I")].
Definition sample_layout : layout :=
  {| vm_getModifiers := 5; vm_artMethod := 6; vm_offset := 16;
     address := fun k => if decide (k = ("nativeForkAndSpecialize", "(II)I")) then 0x1000 else 0x1020;
     method_at := fun a => if a =? 0x1000 then Some ("nativeForkAndSpecialize", "(II)I")
                           else if a =? 0x1020 then Some ("nativeForkSystemServer", "(J)I") else None |}.
Definition sample_art : art_state :=
  {| art_method_field_id := 6; art_method_size := 32; entry_point_offset := 24; data_offset := 16 |}.

Lemma sample_sees : sees sample_layout 5 sample_art zygote_class.
Proof.
  constructor; [done|done|done|]. intros k j Hk. unfold zygote_class in Hk.
  apply lookup_insert_Some in Hk as [[<- _]|[Hne Hk]]; [done|].
  apply lookup_singleton_Some in Hk as [<- _]. done.
Qed.

Lemma hooks_are_undone_witness :
  exists ms1 vm1,
    on_vm sample_layout (hook_jni_methods 0x100 5 sample_art "Zygote" table) (zygote_class, false) =
      (Val ms1, (vm1, false)) /\
    map fnPtr ms1 = [0; 70; 71] /\
    on_vm sample_layout (hook_jni_methods 0x100 5 sample_art "Zygote" ms1) (vm1, false) =
      (Val (map (restored 0x100 zygote_class) table), (zygote_class, false)).
Proof.
  destruct (hooks_are_undone sample_layout 0x100 5 sample_art "Zygote" table zygote_class sample_sees)
    as (ms1 & vm1 & H1 & _ & _ & H2).
  - apply (bool_decide_unpack _). vm_compute. exact I.
  - intros m j Hin Hj. unfold table in Hin.
    repeat (apply elem_of_cons in Hin as [->|Hin]; [vm_compute in Hj; try done; by injection Hj as <-|]).
    by apply elem_of_nil in Hin.
  - exists ms1, vm1. split; [exact H1|]. split; [|exact H2].
    assert (forall x y, x = (Val ms1, (vm1, false)) -> x = y ->
      map fnPtr (match y.1 with Val l => l | Stop _ => [] end) = map fnPtr ms1) as Hx
      by (by intros ? ? -> <-).
    rewrite <- (Hx _ _ H1 eq_refl). vm_compute. reflexivity.
Defined.
