(* ===== verification/Spoof.v ===== *)
(** * Hiding mappings

    injector/clean.cpp's [spoof_virtual_maps], which replaces the mappings of the modules by
    anonymous copies of themselves. The kernel's part is a model of an address space, byte by
    byte; the facts say what the pass leaves of each mapped byte: its value, its protection as
    far as the kernel allows it, and its name. *)
From Stdlib Require Import ZArith Lia List String Ascii Bool Sorting.
From stdpp Require Import base list strings.
From S2P Require Import Prelude.
Open Scope string_scope.
Open Scope list_scope.
Open Scope Z_scope.
Open Scope prog_scope.

Definition PROT_READ : Z := 1.
Definition PROT_WRITE : Z := 2.
Definition PROT_EXEC : Z := 4.
Definition PROT_ALL : Z := Z.lor PROT_READ (Z.lor PROT_WRITE PROT_EXEC).

(** One mapping as lsplt reports it. *)
Record LMap := {
  l_start : Z; l_end : Z; l_perms : Z; l_private : bool; l_offset : Z; l_dev : Z; l_inode : Z;
  l_path : string }.

Inductive vm : Type -> Type :=
| ScanMaps : vm (list LMap)
| MmapAnon (len prot : Z) : vm (option Z)
| Protect (start len prot : Z) : vm bool
| Memcpy (dst src len : Z) : vm unit
| MremapFixed (old len new : Z) : vm bool
| Unmap (start len : Z) : vm unit
| NameAnon (start len : Z) (name : string) : vm bool.

(** The copy that takes a mapping's place; the answer is whether the loop goes on with it. *)
Definition replace_map (map : LMap) : prog vm bool :=
  let size := l_end map - l_start map in
  copy <- call (MmapAnon size PROT_WRITE) ;;
  match copy with
  | None => Ret false
  | Some copy =>
      (if has_flag (l_perms map) PROT_READ then Ret true
       else call (Protect (l_start map) size PROT_READ)) ;;;
      call (Memcpy copy (l_start map) size) ;;;
      call (MremapFixed copy size (l_start map)) ;;;
      call (Unmap copy size) ;;;
      call (Protect (l_start map) size (l_perms map)) ;;;
      call (NameAnon (l_start map) size "dalvik-DEX data") ;;;
      Ret true
  end.

Definition rwx_named (map : LMap) : bool :=
  negb (is_empty (l_path map)) && (Z.land (l_perms map) PROT_ALL =? PROT_ALL).
Definition without_write (perms : Z) : Z := Z.land perms (Z.lnot PROT_WRITE).

Definition spoof_map (path : string) (clear_write_permission : bool) (map : LMap) : prog vm unit :=
  go_on <- (if contains (l_path map) path then replace_map map else Ret true) ;;
  if go_on && (clear_write_permission && rwx_named map) then
    call (Protect (l_start map) (l_end map - l_start map) (without_write (l_perms map))) ;;; Ret tt
  else Ret tt.

Fixpoint spoof_loop (path : string) (clear : bool) (maps : list LMap) : prog vm unit :=
  match maps with
  | [] => Ret tt
  | map :: maps => spoof_map path clear map ;;; spoof_loop path clear maps
  end.
Definition spoof_virtual_maps (path : string) (clear_write_permission : bool) : prog vm unit :=
  maps <- call ScanMaps ;; spoof_loop path clear_write_permission maps.

(** ** The kernel

    An address space gives each mapped address a byte, its protection and the name of its
    mapping. The kernel may refuse new mappings, moves and names when [may_refuse] is set, and
    changes a protection when [allows] says so: SELinux has a say in it. It never names a
    mapping of a file; a request that fails on one may have named what lies in front of it. *)

Record cell := { c_prot : Z; c_anon : bool; c_name : string; c_byte : ascii }.
Definition space : Type := Z -> option cell.

Definition within (a start len : Z) : bool := (start <=? a) && (a <? start + len).
(** The cells of a range. *)
Definition upd (s : space) (start len : Z) (f : Z -> option cell -> option cell) : space :=
  fun a => if within a start len then f a (s a) else s a.
Definition all_in (s : space) (start len : Z) (P : cell -> Prop) : Prop :=
  forall a, within a start len = true -> exists c, s a = Some c /\ P c.

Definition with_prot (prot : Z) (c : cell) : cell :=
  {| c_prot := prot; c_anon := c_anon c; c_name := c_name c; c_byte := c_byte c |}.
Definition with_byte (b : ascii) (c : cell) : cell :=
  {| c_prot := c_prot c; c_anon := c_anon c; c_name := c_name c; c_byte := b |}.
Definition with_name (name : string) (c : cell) : cell :=
  if c_anon c then {| c_prot := c_prot c; c_anon := true; c_name := "[anon:" ++ name ++ "]";
                      c_byte := c_byte c |}
  else c.
Definition fresh_cell (prot : Z) : cell :=
  {| c_prot := prot; c_anon := true; c_name := ""; c_byte := Ascii.zero |}.

(** What /proc/self/maps says of a mapping. *)
Definition describes (s : space) (m : LMap) : Prop :=
  l_start m < l_end m /\
  all_in s (l_start m) (l_end m - l_start m)
    (fun c => c_prot c = l_perms m /\ c_name c = l_path m).
Definition below (m m' : LMap) : Prop := l_end m <= l_start m'.
Definition snapshot (s : space) (maps : list LMap) : Prop :=
  Forall (describes s) maps /\ StronglySorted below maps /\
  forall a c, s a = Some c ->
    exists m, m ∈ maps /\ within a (l_start m) (l_end m - l_start m) = true.

Section Kernel.
Context (may_refuse : bool) (allows : Z -> bool).

(** The answers a call can get, with the space after it; [None] is a fault. *)
Definition vstep (s : space) {X} (e : vm X) : X -> option space -> Prop :=
  match e in vm X return X -> option space -> Prop with
  | ScanMaps => fun maps s' => snapshot s maps /\ s' = Some s
  | MmapAnon n prot => fun copy s' =>
      match copy with
      | None => may_refuse = true /\ s' = Some s
      | Some a => (forall b, within b a n = true -> s b = None) /\
                  s' = Some (upd s a n (fun _ _ => Some (fresh_cell prot)))
      end
  | Protect a n prot => fun ok s' =>
      ok = allows prot /\
      (all_in s a n (fun _ => True) ->
       s' = Some (if ok : bool then upd s a n (fun _ c => option_map (with_prot prot) c) else s))
  | Memcpy dst src n => fun _ s' =>
      (all_in s src n (fun c => has_flag (c_prot c) PROT_READ = true) /\
       all_in s dst n (fun c => has_flag (c_prot c) PROT_WRITE = true) /\
       s' = Some (upd s dst n (fun a c =>
              match c, s (src + (a - dst)) with
              | Some c, Some c' => Some (with_byte (c_byte c') c)
              | _, _ => c
              end))) \/
      (~ (all_in s src n (fun c => has_flag (c_prot c) PROT_READ = true) /\
          all_in s dst n (fun c => has_flag (c_prot c) PROT_WRITE = true)) /\ s' = None)
  | MremapFixed old n new => fun ok s' =>
      if ok : bool then
        s' = Some (upd (upd s old n (fun _ _ => None)) new n (fun a _ => s (old + (a - new))))
      else may_refuse = true /\ s' = Some s
  | Unmap a n => fun _ s' => s' = Some (upd s a n (fun _ _ => None))
  | NameAnon a n name => fun ok s' => exists named : Z -> bool,
      (if ok : bool then all_in s a n (fun c => c_anon c = true) /\ forall b, named b = true
       else may_refuse = true \/ ~ all_in s a n (fun c => c_anon c = true)) /\
      s' = Some (upd s a n (fun b c => if named b then option_map (with_name name) c else c))
  end.

(** Every run of a program from a space ends in [Q]. *)
Fixpoint on_space {A} (p : prog vm A) (s : space) (Q : res A -> space -> Prop) : Prop :=
  match p with
  | Ret a => Q (Val a) s
  | Halt h => Q (Stop h) s
  | Vis e k => forall x s', vstep s e x s' ->
      match s' with
      | Some s' => on_space (k x) s' Q
      | None => Q (Stop (Undefined "a fault")) s
      end
  end.
End Kernel.

(** ** Facts: one mapping *)

Section KernelFacts.
Context (may_refuse : bool) (allows : Z -> bool).
Local Notation runs := (on_space may_refuse allows).

Lemma on_space_bind {A B} (p : prog vm A) (f : A -> prog vm B) s Q :
  runs p s (fun r s' => match r with Val a => runs (f a) s' Q | Stop h => Q (Stop h) s' end) ->
  runs (bind p f) s Q.
Proof.
  revert s. induction p as [a|h|X e k IH]; intros s; cbn; [done|done|].
  intros H x s' Hs. specialize (H x s' Hs). destruct s' as [s'|]; [by apply IH|done].
Qed.

Lemma on_space_mono {A} (p : prog vm A) s (Q Q' : res A -> space -> Prop) :
  (forall r s, Q r s -> Q' r s) -> runs p s Q -> runs p s Q'.
Proof.
  intros HQ. revert s. induction p as [a|h|X e k IH]; intros s; cbn; [apply HQ|apply HQ|].
  intros H x s' Hs. specialize (H x s' Hs). destruct s' as [s'|]; [by apply IH|by apply HQ].
Qed.

Lemma upd_in s start len f a : within a start len = true -> upd s start len f a = f a (s a).
Proof. unfold upd. by intros ->. Qed.
Lemma upd_out s start len f a : within a start len = false -> upd s start len f a = s a.
Proof. unfold upd. by intros ->. Qed.

Definition size (m : LMap) : Z := l_end m - l_start m.
Definition inside (m : LMap) (a : Z) : bool := within a (l_start m) (size m).

(** What happens to the cells of a mapping, when nothing happens to others. *)
Definition changes (R : cell -> cell -> Prop) (m : LMap) (s s' : space) : Prop :=
  forall a, if inside m a then exists c c', s a = Some c /\ s' a = Some c' /\ R c c'
            else s' a = s a.
Definition anon_name : string := "[anon:dalvik-DEX data]".

(** After the copy was made room for and the mapping made readable, the rest of the
    replacement. [s1] is the space then. *)
Definition prepared (m : LMap) (cp : Z) (s s1 : space) : Prop :=
  (forall a, within a cp (size m) = true -> s a = None) /\
  forall a, if inside m a then exists c c1, s a = Some c /\ s1 a = Some c1 /\
                c_byte c1 = c_byte c /\ c_name c1 = c_name c /\
                c_prot c1 = (if has_flag (l_perms m) PROT_READ || negb (allows PROT_READ)
                             then l_perms m else PROT_READ)
            else if within a cp (size m) then s1 a = Some (fresh_cell PROT_WRITE)
            else s1 a = s a.

Definition readable (m : LMap) : bool := has_flag (l_perms m) PROT_READ || allows PROT_READ.

Lemma prepared_readable m cp s s1 :
  prepared m cp s s1 ->
  readable m = true ->
  all_in s1 (l_start m) (size m) (fun c => has_flag (c_prot c) PROT_READ = true) /\
  all_in s1 cp (size m) (fun c => has_flag (c_prot c) PROT_WRITE = true).
Proof.
  intros [Hf Hp] Hr. split; intros a Ha; specialize (Hp a).
  - unfold inside in Hp. rewrite Ha in Hp. destruct Hp as (c & c1 & _ & -> & _ & _ & Hc).
    exists c1. split; [done|]. rewrite Hc. unfold readable in Hr.
    destruct (has_flag (l_perms m) PROT_READ) eqn:E; cbn in *; [done|]. by rewrite Hr.
  - rewrite Ha in Hp. destruct (inside m a) eqn:E.
    + destruct Hp as (c & c1 & Hc & _). by rewrite Hf in Hc.
    + exists (fresh_cell PROT_WRITE). done.
Qed.

(** The copy is where the mapping was, and the room for it is free again. *)
Definition moved (m : LMap) (s s2 : space) : Prop :=
  forall a, if inside m a then exists c c2, s a = Some c /\ s2 a = Some c2 /\
              c_byte c2 = c_byte c /\ (c_name c2 = c_name c \/ c_name c2 = "") /\
              (may_refuse = false -> c_anon c2 = true) /\
              (c_prot c2 = l_perms m \/ c_prot c2 = PROT_WRITE \/ c_prot c2 = PROT_READ)
            else s2 a = s a.

(** The address of a byte's copy, and back. *)
Lemma within_shift a from to n : within a from n = true -> within (to + (a - from)) to n = true.
Proof. unfold within. lia. Qed.

Lemma move_spec m cp s s1 (go : prog vm bool) Q :
  prepared m cp s s1 -> readable m = true ->
  (forall s2, moved m s s2 -> runs go s2 Q) ->
  runs (call (Memcpy cp (l_start m) (size m)) ;;; call (MremapFixed cp (size m) (l_start m)) ;;;
        call (Unmap cp (size m)) ;;; go) s1 Q.
Proof.
  intros Hp Hr Hgo [] s1' [(_ & _ & ->)|[Hbad _]];
    [|by destruct Hbad; eapply prepared_readable].
  destruct Hp as [Hf Hp]. intros ok s2' H2.
  assert (forall a, inside m a = true -> within a cp (size m) = false) as Hd.
  { intros a Ha. specialize (Hp a). rewrite Ha in Hp. destruct Hp as (c & _ & Hc & _).
    destruct (within a cp (size m)) eqn:E; [|done]. by rewrite Hf in Hc. }
  destruct ok; cbn in H2; [subst s2'|destruct H2 as [Hm ->]]; intros [] s3 Hs3; cbn in Hs3; subst s3;
    apply Hgo; intros a; pose proof (Hp a) as Ha; destruct (inside m a) eqn:E.
  - destruct Ha as (c & c1 & Hc & Hc1 & Hb & Hn & Hpr). rewrite (upd_out _ cp) by auto.
    rewrite upd_in by done.
    pose proof (within_shift a (l_start m) cp (size m) E) as Ht.
    pose proof (Hp (cp + (a - l_start m))) as Hq. rewrite Ht in Hq.
    destruct (inside m (cp + (a - l_start m))) eqn:E2; [by rewrite Hd in Ht|].
    rewrite upd_in by done. rewrite Hq.
    replace (l_start m + (cp + (a - l_start m) - cp)) with a by lia. rewrite Hc1.
    do 2 eexists. split; [exact Hc|]. split; [reflexivity|]. cbn. auto 7.
  - destruct (within a cp (size m)) eqn:E2; [rewrite upd_in by done; by rewrite Hf|].
    rewrite (upd_out _ cp), (upd_out _ (l_start m)), (upd_out _ cp), (upd_out _ cp) by done. done.
  - destruct Ha as (c & c1 & Hc & Hc1 & Hb & Hn & Hpr). rewrite !(upd_out _ cp) by auto.
    exists c, c1. rewrite Hm. split_and!; auto; [discriminate|]. destruct (_ || _); auto.
  - destruct (within a cp (size m)) eqn:E2; [rewrite upd_in by done; by rewrite Hf|].
    by rewrite !(upd_out _ cp) by done.
Qed.

(** A protection put back, unless the kernel does not allow it: then it is what the copy, or the
    mapping made readable for it, was given for the while. *)
Definition prot_back (c c' : cell) : Prop :=
  c_prot c' = c_prot c \/
  allows (c_prot c) = false /\ (c_prot c' = PROT_WRITE \/ c_prot c' = PROT_READ).

Definition restored (c c3 : cell) : Prop :=
  c_byte c3 = c_byte c /\ (c_name c3 = c_name c \/ c_name c3 = "") /\
  (may_refuse = false -> c_anon c3 = true) /\ prot_back c c3.

Definition settled (c c' : cell) : Prop :=
  c_byte c' = c_byte c /\ prot_back c c' /\
  (c_name c' = c_name c \/ c_name c' = "" \/ c_name c' = anon_name) /\
  (may_refuse = false -> c_name c' = anon_name).

Lemma restore_spec m s s2 ok s3 :
  describes s m -> moved m s s2 ->
  vstep may_refuse allows s2 (Protect (l_start m) (size m) (l_perms m)) ok s3 ->
  exists s3', s3 = Some s3' /\ changes restored m s s3'.
Proof.
  intros [_ Hdesc] Hm [-> Hs3]. eexists. split.
  { apply Hs3. intros a Ha. specialize (Hm a). unfold inside in Hm. rewrite Ha in Hm.
    destruct Hm as (c & c2 & _ & -> & _). eauto. }
  intros a. specialize (Hm a). specialize (Hdesc a). destruct (inside m a) eqn:E.
  - destruct Hm as (c & c2 & Hc & Hc2 & Hb & Hn & Hr & Hp2). destruct (Hdesc E) as (c0 & Hc0 & Hp & _).
    rewrite Hc in Hc0. injection Hc0 as <-. exists c. unfold restored, prot_back. rewrite Hp.
    destruct (allows (l_perms m)); rewrite ?(upd_in _ _ _ _ a E), Hc2; cbn;
      eexists; split_and!; try done; try reflexivity; auto; cbn; tauto.
  - destruct (allows (l_perms m)); rewrite ?(upd_out _ _ _ _ a E); done.
Qed.

Lemma name_spec m s s3 ok s4 :
  changes restored m s s3 ->
  vstep may_refuse allows s3 (NameAnon (l_start m) (size m) "dalvik-DEX data") ok s4 ->
  exists s4', s4 = Some s4' /\ changes settled m s s4'.
Proof.
  intros Hm (named & Hok & ->). eexists. split; [done|].
  assert (may_refuse = false -> forall b, named b = true) as Hall.
  { intros Hr. destruct ok; [by destruct Hok|]. destruct Hok as [Hok|[]]; [congruence|].
    intros a Ha. specialize (Hm a). unfold inside in Hm. rewrite Ha in Hm.
    destruct Hm as (c & c3 & _ & -> & _ & _ & Han & _). eauto. }
  intros a. specialize (Hm a). destruct (inside m a) eqn:E; [|by rewrite upd_out by exact E].
  destruct Hm as (c & c3 & Hc & Hc3 & Hb & Hn & Han & Hp). exists c.
  rewrite upd_in by exact E. rewrite Hc3. unfold settled, prot_back, with_name in *. cbn [option_map].
  destruct (named a) eqn:En; [destruct (c_anon c3) eqn:Ea|]; eexists; split_and!; try done; cbn; try tauto.
  all: intros Hr; specialize (Han Hr); specialize (Hall Hr a); congruence.
Qed.

Lemma settle_spec m s s2 :
  describes s m -> moved m s s2 ->
  runs (call (Protect (l_start m) (size m) (l_perms m)) ;;;
        call (NameAnon (l_start m) (size m) "dalvik-DEX data") ;;; Ret true) s2
    (fun r s' => r = Val true /\ changes settled m s s').
Proof.
  intros Hd Hm ok s3 H3. destruct (restore_spec m s s2 ok s3 Hd Hm H3) as (s3' & -> & H3').
  intros ok4 s4 H4. destruct (name_spec m s s3' ok4 s4 H3' H4) as (s4' & -> & H4'). done.
Qed.

Lemma replace_rest m cp s s1 Q :
  describes s m -> prepared m cp s s1 ->
  (readable m = false -> Q (Stop (Undefined "a fault")) s1) ->
  (forall s', changes settled m s s' -> Q (Val true) s') ->
  runs (call (Memcpy cp (l_start m) (size m)) ;;; call (MremapFixed cp (size m) (l_start m)) ;;;
        call (Unmap cp (size m)) ;;;
        call (Protect (l_start m) (size m) (l_perms m)) ;;;
        call (NameAnon (l_start m) (size m) "dalvik-DEX data") ;;; Ret true) s1 Q.
Proof.
  intros Hd Hp Hfault Hok. destruct (readable m) eqn:Hr.
  - apply (move_spec m cp s s1); [done|done|]. intros s2 Hm.
    eapply on_space_mono, settle_spec; [|exact Hd|exact Hm]. intros r s' [-> H]. by apply Hok.
  - intros [] s1' [(Hread & _ & _)|[_ ->]]; [|by apply Hfault]. exfalso.
    destruct Hd as [Hne Hdesc]. destruct Hp as [_ Hp]. specialize (Hp (l_start m)).
    assert (inside m (l_start m) = true) as Hin by (unfold inside, within, size; lia).
    rewrite Hin in Hp. destruct Hp as (c & c1 & _ & Hc1 & _ & _ & Hprot).
    destruct (Hread (l_start m) Hin) as (c1' & Hc1' & Hflag). rewrite Hc1 in Hc1'.
    injection Hc1' as <-. unfold readable in Hr. apply orb_false_iff in Hr as [Hr1 Hr2].
    rewrite Hprot, Hr2, orb_true_r in Hflag. congruence.
Qed.

Lemma replace_spec m s :
  describes s m ->
  runs (replace_map m) s (fun r s' =>
    match r with
    | Val true => changes settled m s s'
    | Val false => s' = s /\ may_refuse = true
    | Stop h => h = Undefined "a fault" /\ readable m = false
    end).
Proof.
  intros Hd [cp|] s1 H1; [|by destruct H1 as [? ->]].
  destruct H1 as [Hf ->]. pose proof Hd as [_ Hdesc].
  assert (forall a c, inside m a = true -> s a = Some c -> within a cp (size m) = false) as Hdis.
  { intros a c _ Hc. destruct (within a cp (size m)) eqn:E; [|done]. rewrite Hf in Hc; done. }
  set (s1 := upd s cp (size m) (fun _ _ => Some (fresh_cell PROT_WRITE))).
  assert (forall s2, prepared m cp s s2 -> runs (call (Memcpy cp (l_start m) (size m)) ;;;
      call (MremapFixed cp (size m) (l_start m)) ;;; call (Unmap cp (size m)) ;;;
      call (Protect (l_start m) (size m) (l_perms m)) ;;;
      call (NameAnon (l_start m) (size m) "dalvik-DEX data") ;;; Ret true) s2 (fun r s' =>
        match r with
        | Val true => changes settled m s s'
        | Val false => s' = s /\ may_refuse = true
        | Stop h => h = Undefined "a fault" /\ readable m = false
        end)) as Hgo by (intros s2 H2; by eapply replace_rest).
  cbn [replace_map]. destruct (has_flag (l_perms m) PROT_READ) eqn:Hr.
  - apply Hgo. split; [exact Hf|]. intros a. unfold s1. destruct (inside m a) eqn:E.
    + destruct (Hdesc a E) as (c & Hc & Hp & Hn). exists c, c.
      rewrite (upd_out _ cp) by eauto. by rewrite Hr.
    + destruct (within a cp (size m)) eqn:E2; [by rewrite upd_in|by rewrite upd_out].
  - intros ok s2 [-> Hs2]. rewrite Hs2; clear Hs2 s2.
    2:{ intros a E. destruct (Hdesc a E) as (c & Hc & _). exists c.
        rewrite (upd_out _ cp) by (eapply Hdis; eauto). done. }
    apply Hgo. split; [exact Hf|]. intros a. destruct (inside m a) eqn:E.
    + destruct (Hdesc a E) as (c & Hc & Hp & Hn). exists c. rewrite Hr. unfold s1.
      destruct (allows PROT_READ) eqn:Ea; rewrite ?(upd_in _ (l_start m)) by exact E;
        rewrite (upd_out _ cp) by eauto; rewrite Hc; cbn; by eexists.
    + destruct (allows PROT_READ); rewrite ?(upd_out _ (l_start m)) by exact E; unfold s1;
        (destruct (within a cp (size m)) eqn:E2; [by rewrite upd_in|by rewrite upd_out]).
Qed.

(** ** Facts: the whole pass *)

Definition wanted (clear : bool) (c : cell) : Z :=
  if clear && (negb (is_empty (c_name c)) && (Z.land (c_prot c) PROT_ALL =? PROT_ALL))
  then without_write (c_prot c) else c_prot c.
(** What may become of a mapped byte: it keeps its value. Its protection is the old one or the
    wanted one; only in a mapping of the path whose old protection the kernel does not allow
    again may it be one the pass needed in between; and it is the wanted one when nothing is
    refused. Its name can only be lost or become the anonymous one, and only in a mapping of
    the path; when nothing is refused it does become that. *)
Definition unnoticed (path : string) (clear : bool) (c c' : cell) : Prop :=
  c_byte c' = c_byte c /\
  (c_prot c' = c_prot c \/ c_prot c' = wanted clear c \/
   contains (c_name c) path = true /\ allows (c_prot c) = false /\
     (c_prot c' = PROT_WRITE \/ c_prot c' = PROT_READ)) /\
  (may_refuse = false -> allows (c_prot c) = true -> allows (without_write (c_prot c)) = true ->
     c_prot c' = wanted clear c) /\
  (c_name c' = c_name c \/
   contains (c_name c) path = true /\ (c_name c' = "" \/ c_name c' = anon_name)) /\
  (may_refuse = false -> contains (c_name c) path = true -> c_name c' = anon_name).

Lemma unnoticed_kept path clear c c1 :
  wanted clear c = c_prot c -> unnoticed path false c c1 -> unnoticed path clear c c1.
Proof.
  intros Hw (Hb & Hp & Hq & Hn). unfold unnoticed. rewrite Hw. unfold wanted in Hp, Hq. cbn in Hp, Hq.
  tauto.
Qed.

Lemma unnoticed_cleared path clear c c1 :
  wanted clear c = without_write (c_prot c) -> unnoticed path false c c1 ->
  unnoticed path clear c
    (if allows (without_write (c_prot c)) then with_prot (without_write (c_prot c)) c1 else c1).
Proof.
  intros Hw (Hb & Hp & Hq & Hn). unfold unnoticed. rewrite Hw. unfold wanted in Hp, Hq. cbn in Hp, Hq.
  destruct (allows (without_write (c_prot c))) eqn:Ea; cbn.
  - split; [done|]. split; [by auto|]. split; [by auto|]. exact Hn.
  - split; [done|]. split; [tauto|]. split; [by intros _ _ [=]|]. exact Hn.
Qed.

Lemma settled_unnoticed path c c1 :
  contains (c_name c) path = true -> settled c c1 -> unnoticed path false c c1.
Proof.
  intros Hpath (Hb & Hp & Hn & Hn'). unfold unnoticed, wanted, prot_back in *. cbn [andb].
  split; [done|]. split; [tauto|]. split; [|split; [tauto|auto]].
  intros _ Ha _. destruct Hp as [?|[? _]]; congruence.
Qed.

Lemma untouched_unnoticed path c :
  (may_refuse = false -> contains (c_name c) path = false) -> unnoticed path false c c.
Proof.
  intros H. unfold unnoticed, wanted. cbn [andb]. split_and!; auto.
  intros Hr Hc. rewrite H in Hc; done.
Qed.

Lemma clear_spec path clear m s s1 :
  describes s m -> changes (unnoticed path false) m s s1 ->
  runs (if clear && rwx_named m
        then call (Protect (l_start m) (size m) (without_write (l_perms m))) ;;; Ret tt
        else Ret tt) s1
    (fun r s' => r = Val tt /\ changes (unnoticed path clear) m s s').
Proof.
  intros [_ Hd] Hc.
  assert (forall a, inside m a = true -> exists c c1, s a = Some c /\ s1 a = Some c1 /\
            unnoticed path false c c1 /\ c_prot c = l_perms m /\
            wanted clear c = if clear && rwx_named m then without_write (l_perms m) else l_perms m) as Hin.
  { intros a E. specialize (Hc a). rewrite E in Hc. destruct Hc as (c & c1 & H1 & H2 & H3).
    destruct (Hd a E) as (c0 & H0 & H4 & H5). rewrite H1 in H0. injection H0 as <-.
    exists c, c1. unfold wanted, rwx_named. rewrite H4, H5. auto. }
  revert Hin. destruct (clear && rwx_named m); intros Hin.
  - intros ok s2 [-> ->].
    2:{ intros a E. destruct (Hin a E) as (_ & c1 & _ & H & _). eauto. }
    split; [done|]. intros a. specialize (Hc a). destruct (inside m a) eqn:E.
    + destruct (Hin a E) as (c & c1 & H1 & H2 & H3 & H4 & H5). rewrite <- H4 in *.
      apply (unnoticed_cleared path clear) in H3; [|done]. exists c.
      destruct (allows (without_write (c_prot c))); rewrite ?(upd_in _ _ _ _ _ E), ?H2; cbn; eauto.
    + destruct (allows (without_write (l_perms m))); rewrite ?(upd_out _ _ _ _ _ E); done.
  - split; [done|]. intros a. specialize (Hc a). destruct (inside m a) eqn:E; [|done].
    destruct (Hin a E) as (c & c1 & H1 & H2 & H3 & H4 & H5). rewrite <- H4 in H5.
    exists c, c1. split_and!; [done..|]. by apply unnoticed_kept.
Qed.

(** A mapping left alone. *)
Lemma changes_none path m s :
  describes s m -> (may_refuse = false -> contains (l_path m) path = false) ->
  changes (unnoticed path false) m s s.
Proof.
  intros [_ H] Hp a. destruct (inside m a) eqn:E; [|done]. destruct (H a E) as (c & Hc & _ & Hn).
  exists c, c. split_and!; [done..|]. apply untouched_unnoticed. by rewrite Hn.
Qed.

Definition faulty (path : string) (m : LMap) : Prop :=
  contains (l_path m) path = true /\ has_flag (l_perms m) PROT_READ = false /\ allows PROT_READ = false.

Lemma spoof_map_spec path clear m s :
  describes s m ->
  runs (spoof_map path clear m) s (fun r s' =>
    match r with
    | Val _ => changes (unnoticed path clear) m s s'
    | Stop h => h = Undefined "a fault" /\ faulty path m
    end).
Proof.
  intros Hd. unfold spoof_map. apply on_space_bind.
  assert (forall s1, changes (unnoticed path false) m s s1 ->
    runs (if clear && rwx_named m
          then call (Protect (l_start m) (size m) (without_write (l_perms m))) ;;; Ret tt
          else Ret tt) s1 (fun r s' => match r with
            | Val _ => changes (unnoticed path clear) m s s'
            | Stop h => h = Undefined "a fault" /\ faulty path m
            end)) as Hclear.
  { intros s1 H1. eapply on_space_mono, clear_spec; [|exact Hd|exact H1]. by intros r s' [-> H]. }
  destruct (contains (l_path m) path) eqn:Hpath; [|by apply Hclear, changes_none].
  eapply on_space_mono, replace_spec; [|exact Hd]. intros [[]|h] s1; cbn [andb].
  - intros Hs. apply Hclear. intros a. specialize (Hs a). destruct (inside m a) eqn:E; [|done].
    destruct Hs as (c & c1 & Hc & Hc1 & Hst). exists c, c1. split_and!; [done..|].
    apply settled_unnoticed; [|done]. destruct Hd as [_ Hd]. destruct (Hd a E) as (c0 & H0 & _ & H5).
    rewrite Hc in H0. injection H0 as <-. by rewrite H5.
  - intros [-> Hr] a. pose proof (changes_none path m s Hd ltac:(congruence) a) as H.
    destruct (inside m a); [|done]. destruct H as (c & c' & H1 & H2 & H3).
    exists c, c'. split_and!; [done..|]. destruct H3 as (H4 & H5 & H6 & H7).
    unfold unnoticed. rewrite H1 in H2. injection H2 as <-. rewrite Hr. split_and!; auto; congruence.
  - intros [-> Hr]. split; [done|]. unfold readable in Hr. apply orb_false_iff in Hr. by destruct Hr.
Qed.

Lemma below_apart m m' a : below m m' -> inside m a = true -> inside m' a = false.
Proof. unfold below, inside, within, size. lia. Qed.

Lemma apart m maps a : Forall (below m) maps -> existsb (fun m' => inside m' a) maps = true -> inside m a = false.
Proof.
  intros Hb Ha. apply existsb_exists in Ha as (m' & Hm' & Ha). destruct (inside m a) eqn:E; [|done].
  rewrite Forall_forall in Hb. specialize (Hb m' (proj2 (list_elem_of_In _ _) Hm')).
  by rewrite (below_apart m m' a Hb E) in Ha.
Qed.

Lemma describes_frame s s1 m :
  describes s m -> (forall a, inside m a = true -> s1 a = s a) -> describes s1 m.
Proof.
  intros [Hne H] Hs. split; [done|]. intros a Ha. rewrite (Hs a) by exact Ha. by apply H.
Qed.

Lemma spoof_loop_spec path clear maps s :
  Forall (describes s) maps -> StronglySorted below maps ->
  runs (spoof_loop path clear maps) s (fun r s' =>
    match r with
    | Val _ => forall a, if existsb (fun m => inside m a) maps
        then exists c c', s a = Some c /\ s' a = Some c' /\ unnoticed path clear c c' else s' a = s a
    | Stop h => h = Undefined "a fault" /\ Exists (faulty path) maps
    end).
Proof.
  intros Hd Hs. revert s Hd. induction Hs as [|m maps Hs IH Hb]; intros s Hd; [done|].
  inversion Hd as [|? ? Hdm Hdr]; subst. cbn [spoof_loop]. apply on_space_bind.
  eapply on_space_mono, spoof_map_spec; [|exact Hdm]. intros [[]|h] s1 H1.
  2:{ destruct H1 as [-> ?]. split; [done|by constructor]. }
  eapply on_space_mono, IH.
  - intros [[]|h] s2 H2; [|destruct H2 as [-> ?]; split; [done|by right]].
    intros a. specialize (H1 a). specialize (H2 a). cbn [existsb].
    destruct (existsb (fun m' => inside m' a) maps) eqn:E.
    + pose proof (apart m maps a Hb E) as Em. rewrite Em in *. cbn. by rewrite H1 in H2.
    + rewrite orb_false_r. rewrite H2. exact H1.
  - rewrite Forall_forall in Hdr, Hb |- *. intros m' Hm'. apply (describes_frame s); [by apply Hdr|].
    intros a Ha. specialize (H1 a). destruct (inside m a) eqn:E; [|done].
    by rewrite (below_apart m m' a (Hb m' Hm') E) in Ha.
Qed.

(** C24: what hiding mappings leaves behind. From any address space, whatever the kernel
    answers, a pass that ends leaves exactly the same addresses mapped, to the same bytes. A
    protection is what it was, or without write permission if the pass was asked to clear that
    of a named mapping open to everything; only in a mapping of the path, where the kernel
    refuses to give the old protection back, may write only or read only be left. Names change
    only for mappings of the path, and only to none or the anonymous one; if the kernel refuses
    nothing, every name of the path is gone. A pass faults only at a mapping of the path that
    could not be read and was not allowed to become so. *)
Theorem spoof_unnoticed path clear s :
  runs (spoof_virtual_maps path clear) s (fun r s' =>
    match r with
    | Val _ => forall a, match s a with
                         | Some c => exists c', s' a = Some c' /\ unnoticed path clear c c'
                         | None => s' a = None
                         end
    | Stop h => h = Undefined "a fault" /\ allows PROT_READ = false /\
        exists a c, s a = Some c /\ contains (c_name c) path = true /\
                    has_flag (c_prot c) PROT_READ = false
    end).
Proof.
  intros maps s1 [(Hd & Hs & Hcover) ->]. eapply on_space_mono, spoof_loop_spec; [|done|done].
  intros [[]|h] s' H.
  - intros a. specialize (H a). destruct (s a) as [c|] eqn:Ha.
    + destruct (Hcover a c Ha) as (m & Hm & Hin).
      assert (existsb (fun m => inside m a) maps = true) as E.
      { apply existsb_exists. exists m. split; [by apply list_elem_of_In|done]. }
      rewrite E in H. destruct H as (c0 & c' & [= <-] & H). by exists c'.
    + destruct (existsb _ maps); [|done]. by destruct H as (? & ? & ? & _).
  - destruct H as [-> H]. split; [done|]. apply Exists_exists in H as (m & Hm & H1 & H2 & H3).
    split; [done|]. rewrite Forall_forall in Hd. destruct (Hd m Hm) as [Hne Hall].
    destruct (Hall (l_start m)) as (c & Hc & Hp & Hn); [unfold within; lia|].
    exists (l_start m), c. by rewrite Hn, Hp.
Qed.
End KernelFacts.
