(* ===== verification/Args.v ===== *)
(** * The arguments of a specialization

    The values zygote's native methods are called with, the structures of injector/module.hpp
    through which a context and its modules see them, and the variables these structures refer
    to: a module that assigns to [args->uid] assigns to the parameter of the function that
    hooks the method. *)
From Stdlib Require Import ZArith Lia List String Ascii Bool.
From stdpp Require Import base list strings.
From S2P Require Import Prelude.
Open Scope string_scope.
Open Scope list_scope.
Open Scope Z_scope.

(** ** Values *)

(** The C++ types of the parameters. *)
Inductive jtype :=
| Jint | Jlong | Jboolean | JString | JintArray | JlongArray | JbooleanArray | JobjectArray.
#[export] Instance jtype_eq_dec : EqDecision jtype.
Proof. solve_decision. Defined.

(** Strings and arrays are references, null or to what they hold; the arrays whose contents
    nothing here looks at are the reference alone. *)
Inductive jvalue :=
| VInt (n : Z) | VLong (n : Z) | VBool (b : Z)
| VString (s : option string) | VInts (a : option (list Z))
| VLongs (reference : Z) | VObjects (reference : Z).

Definition in_range (lo hi n : Z) : bool := (lo <=? n) && (n <? hi).
Definition has_type (t : jtype) (v : jvalue) : bool :=
  match t, v with
  | Jint, VInt n => in_range (- 2 ^ 31) (2 ^ 31) n
  | Jlong, VLong n => in_range (- 2 ^ 63) (2 ^ 63) n
  | Jboolean, VBool b => in_range 0 256 b
  | JString, VString _ | JintArray, VInts _ | JlongArray, VLongs _ | JobjectArray, VObjects _ => true
  | _, _ => false
  end.

(** ** The structures, by value *)

(** What the references and the pointers of the structure lead to; [None] for a null pointer. *)
Record AppSpecializeArgs_v5 := {
  a_uid : Z; a_gid : Z; a_gids : option (list Z); a_runtime_flags : Z; a_rlimits : Z;
  a_mount_external : Z; a_se_info : option string; a_nice_name : option string;
  a_instruction_set : option string; a_app_data_dir : option string;
  a_fds_to_ignore : option (option (list Z)); a_is_child_zygote : option Z;
  a_is_top_app : option Z; a_pkg_data_info_list : option Z;
  a_whitelisted_data_info_list : option Z; a_mount_data_dirs : option Z;
  a_mount_storage_dirs : option Z; a_mount_sysprop_overrides : option Z }.
Record ServerSpecializeArgs_v1 := {
  s_uid : Z; s_gid : Z; s_gids : option (list Z); s_runtime_flags : Z;
  s_permitted_capabilities : Z; s_effective_capabilities : Z }.
(** The context's union: which member is live is known from its flags. *)
Inductive args_t := App (a : AppSpecializeArgs_v5) | Server (a : ServerSpecializeArgs_v1).

(** The fields in the order of their declarations. *)
Definition app_fields : list (string * jtype) :=
  [("uid", Jint); ("gid", Jint); ("gids", JintArray); ("runtime_flags", Jint);
   ("rlimits", JobjectArray); ("mount_external", Jint); ("se_info", JString);
   ("nice_name", JString); ("instruction_set", JString); ("app_data_dir", JString);
   ("fds_to_ignore", JintArray); ("is_child_zygote", Jboolean); ("is_top_app", Jboolean);
   ("pkg_data_info_list", JobjectArray); ("whitelisted_data_info_list", JobjectArray);
   ("mount_data_dirs", Jboolean); ("mount_storage_dirs", Jboolean);
   ("mount_sysprop_overrides", Jboolean)].
Definition server_fields : list (string * jtype) :=
  [("uid", Jint); ("gid", Jint); ("gids", JintArray); ("runtime_flags", Jint);
   ("permitted_capabilities", Jlong); ("effective_capabilities", Jlong)].

Definition slots (a : args_t) : list (option jvalue) :=
  match a with
  | App a =>
      [Some (VInt (a_uid a)); Some (VInt (a_gid a)); Some (VInts (a_gids a));
       Some (VInt (a_runtime_flags a)); Some (VObjects (a_rlimits a));
       Some (VInt (a_mount_external a)); Some (VString (a_se_info a));
       Some (VString (a_nice_name a)); Some (VString (a_instruction_set a));
       Some (VString (a_app_data_dir a)); option_map VInts (a_fds_to_ignore a);
       option_map VBool (a_is_child_zygote a); option_map VBool (a_is_top_app a);
       option_map VObjects (a_pkg_data_info_list a);
       option_map VObjects (a_whitelisted_data_info_list a);
       option_map VBool (a_mount_data_dirs a); option_map VBool (a_mount_storage_dirs a);
       option_map VBool (a_mount_sysprop_overrides a)]
  | Server a =>
      [Some (VInt (s_uid a)); Some (VInt (s_gid a)); Some (VInts (s_gids a));
       Some (VInt (s_runtime_flags a)); Some (VLong (s_permitted_capabilities a));
       Some (VLong (s_effective_capabilities a))]
  end.

(** ** The structures, as they are built

    For each field, the variable its reference or pointer designates; [None] for a pointer left
    at its default. *)
Definition struct : Type := list (string * option string).

Definition AppSpecializeArgs_v3_new (uid gid gids runtime_flags rlimits mount_external se_info
    nice_name instruction_set app_data_dir : string) : struct :=
  [("uid", Some uid); ("gid", Some gid); ("gids", Some gids);
   ("runtime_flags", Some runtime_flags); ("rlimits", Some rlimits);
   ("mount_external", Some mount_external); ("se_info", Some se_info);
   ("nice_name", Some nice_name); ("instruction_set", Some instruction_set);
   ("app_data_dir", Some app_data_dir);
   ("fds_to_ignore", None); ("is_child_zygote", None); ("is_top_app", None);
   ("pkg_data_info_list", None); ("whitelisted_data_info_list", None);
   ("mount_data_dirs", None); ("mount_storage_dirs", None)].
Definition AppSpecializeArgs_v5_new (uid gid gids runtime_flags rlimits mount_external se_info
    nice_name instruction_set app_data_dir : string) : struct :=
  AppSpecializeArgs_v3_new uid gid gids runtime_flags rlimits mount_external se_info nice_name
    instruction_set app_data_dir ++ [("mount_sysprop_overrides", None)].
Definition ServerSpecializeArgs_v1_new (uid gid gids runtime_flags permitted_capabilities
    effective_capabilities : string) : struct :=
  [("uid", Some uid); ("gid", Some gid); ("gids", Some gids);
   ("runtime_flags", Some runtime_flags);
   ("permitted_capabilities", Some permitted_capabilities);
   ("effective_capabilities", Some effective_capabilities)].
(** [args.field = &variable]. *)
Definition set_pointer (field variable : string) (s : struct) : struct :=
  map (fun f => if String.eqb (fst f) field then (field, Some variable) else f) s.

(** ** Frames *)

(** The parameters of a function, in order. *)
Definition frame : Type := list (string * jvalue).

Definition var (fr : frame) (x : string) : option jvalue :=
  match find (fun b => String.eqb (fst b) x) fr with Some b => Some (snd b) | None => None end.
Definition set_var (x : string) (v : jvalue) (fr : frame) : frame :=
  map (fun b => if String.eqb (fst b) x then (x, v) else b) fr.

(** Through the structure: what it leads to, and an assignment to all of it. *)
Definition read_slots (s : struct) (fr : frame) : list (option jvalue) :=
  map (fun f => match snd f with Some x => var fr x | None => None end) s.
Definition write_slot (fr : frame) (fv : (string * option string) * option jvalue) : frame :=
  match snd (fst fv), snd fv with Some x, Some v => set_var x v fr | _, _ => fr end.
Definition write_slots (s : struct) (vs : list (option jvalue)) (fr : frame) : frame :=
  fold_left write_slot (combine s vs) fr.

(** A pointer's slot is null or of its type. *)
Definition ptr {X} (as_ : jvalue -> option X) (v : option jvalue) : option (option X) :=
  match v with None => Some None | Some v => option_map Some (as_ v) end.
Definition as_ints (v : jvalue) := match v with VInts a => Some a | _ => None end.
Definition as_bool (v : jvalue) := match v with VBool b => Some b | _ => None end.
Definition as_objects (v : jvalue) := match v with VObjects r => Some r | _ => None end.

Definition app_of (l : list (option jvalue)) : option args_t :=
  match l with
  | [Some (VInt uid); Some (VInt gid); Some (VInts gids); Some (VInt runtime_flags);
     Some (VObjects rlimits); Some (VInt mount_external); Some (VString se_info);
     Some (VString nice_name); Some (VString instruction_set); Some (VString app_data_dir);
     fds; child; top; pkg; white; data; storage; sysprop] =>
      fds ← ptr as_ints fds; child ← ptr as_bool child; top ← ptr as_bool top;
      pkg ← ptr as_objects pkg; white ← ptr as_objects white; data ← ptr as_bool data;
      storage ← ptr as_bool storage; sysprop ← ptr as_bool sysprop;
      Some (App {| a_uid := uid; a_gid := gid; a_gids := gids; a_runtime_flags := runtime_flags;
                   a_rlimits := rlimits; a_mount_external := mount_external;
                   a_se_info := se_info; a_nice_name := nice_name;
                   a_instruction_set := instruction_set; a_app_data_dir := app_data_dir;
                   a_fds_to_ignore := fds; a_is_child_zygote := child; a_is_top_app := top;
                   a_pkg_data_info_list := pkg; a_whitelisted_data_info_list := white;
                   a_mount_data_dirs := data; a_mount_storage_dirs := storage;
                   a_mount_sysprop_overrides := sysprop |})
  | _ => None
  end.
Definition server_of (l : list (option jvalue)) : option args_t :=
  match l with
  | [Some (VInt uid); Some (VInt gid); Some (VInts gids); Some (VInt runtime_flags);
     Some (VLong permitted); Some (VLong effective)] =>
      Some (Server {| s_uid := uid; s_gid := gid; s_gids := gids;
                      s_runtime_flags := runtime_flags; s_permitted_capabilities := permitted;
                      s_effective_capabilities := effective |})
  | _ => None
  end.

(** ** What a module can assign *)

(** The fields of the structure a module is given, by the version it was built against. A
    version 1 or 2 gets an [AppSpecializeArgs_v1], whose references and pointers are copied
    from the context's; later ones get the context's own, of which a version 3 or 4 knows the
    part it shares with [AppSpecializeArgs_v3]. *)
Definition AppSpecializeArgs_v1 : list string :=
  ["uid"; "gid"; "gids"; "runtime_flags"; "mount_external"; "se_info"; "nice_name";
   "instruction_set"; "app_data_dir"; "is_child_zygote"; "is_top_app"; "pkg_data_info_list";
   "whitelisted_data_info_list"; "mount_data_dirs"; "mount_storage_dirs"].
Definition AppSpecializeArgs_v3 : list string :=
  ["uid"; "gid"; "gids"; "runtime_flags"; "rlimits"; "mount_external"; "se_info"; "nice_name";
   "instruction_set"; "app_data_dir"; "fds_to_ignore"; "is_child_zygote"; "is_top_app";
   "pkg_data_info_list"; "whitelisted_data_info_list"; "mount_data_dirs"; "mount_storage_dirs"].
Definition given (api_version : Z) : list string :=
  if api_version <=? 2 then AppSpecializeArgs_v1
  else if api_version <=? 4 then AppSpecializeArgs_v3
  else AppSpecializeArgs_v3 ++ ["mount_sysprop_overrides"].

Section Assign.
Context (fields : list string).
Definition pick {X} (field : string) (old new : X) : X :=
  if existsb (String.eqb field) fields then new else old.
(** Behind a pointer that is not null. *)
Definition behind {X} (field : string) (old new : option X) : option X :=
  match old with
  | None => None
  | Some x => Some (pick field x (match new with Some y => y | None => x end))
  end.
Definition assign_app (o n : AppSpecializeArgs_v5) : AppSpecializeArgs_v5 :=
  {| a_uid := pick "uid" (a_uid o) (s32 (a_uid n));
     a_gid := pick "gid" (a_gid o) (s32 (a_gid n));
     a_gids := pick "gids" (a_gids o) (a_gids n);
     a_runtime_flags := pick "runtime_flags" (a_runtime_flags o) (s32 (a_runtime_flags n));
     a_rlimits := pick "rlimits" (a_rlimits o) (a_rlimits n);
     a_mount_external := pick "mount_external" (a_mount_external o) (s32 (a_mount_external n));
     a_se_info := pick "se_info" (a_se_info o) (a_se_info n);
     a_nice_name := pick "nice_name" (a_nice_name o) (a_nice_name n);
     a_instruction_set := pick "instruction_set" (a_instruction_set o) (a_instruction_set n);
     a_app_data_dir := pick "app_data_dir" (a_app_data_dir o) (a_app_data_dir n);
     a_fds_to_ignore := behind "fds_to_ignore" (a_fds_to_ignore o) (a_fds_to_ignore n);
     a_is_child_zygote :=
       behind "is_child_zygote" (a_is_child_zygote o) (option_map u8 (a_is_child_zygote n));
     a_is_top_app := behind "is_top_app" (a_is_top_app o) (option_map u8 (a_is_top_app n));
     a_pkg_data_info_list :=
       behind "pkg_data_info_list" (a_pkg_data_info_list o) (a_pkg_data_info_list n);
     a_whitelisted_data_info_list :=
       behind "whitelisted_data_info_list" (a_whitelisted_data_info_list o)
         (a_whitelisted_data_info_list n);
     a_mount_data_dirs :=
       behind "mount_data_dirs" (a_mount_data_dirs o) (option_map u8 (a_mount_data_dirs n));
     a_mount_storage_dirs :=
       behind "mount_storage_dirs" (a_mount_storage_dirs o)
         (option_map u8 (a_mount_storage_dirs n));
     a_mount_sysprop_overrides :=
       behind "mount_sysprop_overrides" (a_mount_sysprop_overrides o)
         (option_map u8 (a_mount_sysprop_overrides n)) |}.
End Assign.

(** A server's structure is the same for all versions. *)
Definition assign_server (n : ServerSpecializeArgs_v1) : ServerSpecializeArgs_v1 :=
  {| s_uid := s32 (s_uid n); s_gid := s32 (s_gid n); s_gids := s_gids n;
     s_runtime_flags := s32 (s_runtime_flags n);
     s_permitted_capabilities := signed 64 (s_permitted_capabilities n);
     s_effective_capabilities := signed 64 (s_effective_capabilities n) |}.
(** What the arguments are after a module of a version left them as [new]. *)
Definition assign (api_version : Z) (old new : args_t) : args_t :=
  match old, new with
  | App o, App n => App (assign_app (given api_version) o n)
  | Server _, Server n => Server (assign_server n)
  | _, _ => old
  end.

(** [*args->fds_to_ignore = array], where the pointer is not null. *)
Definition point_fds_to_ignore (array : list Z) (a : args_t) : args_t :=
  match a with
  | App a =>
      App {| a_uid := a_uid a; a_gid := a_gid a; a_gids := a_gids a;
             a_runtime_flags := a_runtime_flags a; a_rlimits := a_rlimits a;
             a_mount_external := a_mount_external a; a_se_info := a_se_info a;
             a_nice_name := a_nice_name a; a_instruction_set := a_instruction_set a;
             a_app_data_dir := a_app_data_dir a;
             a_fds_to_ignore := match a_fds_to_ignore a with
                                | Some _ => Some (Some array)
                                | None => None
                                end;
             a_is_child_zygote := a_is_child_zygote a; a_is_top_app := a_is_top_app a;
             a_pkg_data_info_list := a_pkg_data_info_list a;
             a_whitelisted_data_info_list := a_whitelisted_data_info_list a;
             a_mount_data_dirs := a_mount_data_dirs a;
             a_mount_storage_dirs := a_mount_storage_dirs a;
             a_mount_sysprop_overrides := a_mount_sysprop_overrides a |}
  | Server _ => a
  end.

(** ** Facts: frames *)

Definition field_types (a : args_t) : list jtype :=
  map snd (match a with App _ => app_fields | Server _ => server_fields end).
(** The arguments have the types of the fields. *)
Definition slot_typed (t : jtype) (v : option jvalue) : bool :=
  match v with Some v => has_type t v | None => true end.
Definition typed_args (a : args_t) : Prop :=
  Forall2 (fun t v => slot_typed t v = true) (field_types a) (slots a).

Definition null {X} (v : option X) : bool := match v with Some _ => false | None => true end.
(** The kind of the arguments and which pointers are null never change, and neither does that
    they are well typed. *)
Definition keeps (a a' : args_t) : Prop :=
  field_types a' = field_types a /\ map null (slots a') = map null (slots a) /\
  (typed_args a -> typed_args a').

Lemma keeps_refl a : keeps a a.
Proof. done. Qed.
Lemma keeps_trans a b c : keeps a b -> keeps b c -> keeps a c.
Proof. intros (H1 & H2 & H3) (H4 & H5 & H6). split_and!; [congruence|congruence|tauto]. Qed.

Lemma signed_range w n : 0 < w -> in_range (- 2 ^ (w - 1)) (2 ^ (w - 1)) (signed w n) = true.
Proof.
  intros Hw. unfold in_range, signed.
  assert (2 ^ w = 2 * 2 ^ (w - 1)) as E by (rewrite <- Z.pow_succ_r by lia; f_equal; lia).
  pose proof (Z.mod_pos_bound (n + 2 ^ (w - 1)) (2 ^ w) ltac:(lia)).
  apply andb_true_intro. split; [apply Z.leb_le|apply Z.ltb_lt]; lia.
Qed.
Lemma s32_typed n : has_type Jint (VInt (s32 n)) = true.
Proof. exact (signed_range 32 n eq_refl). Qed.
Lemma signed64_typed n : has_type Jlong (VLong (signed 64 n)) = true.
Proof. exact (signed_range 64 n eq_refl). Qed.
Lemma u8_typed n : has_type Jboolean (VBool (u8 n)) = true.
Proof.
  pose proof (wrap_bound 8 n). unfold has_type, in_range, u8. lia.
Qed.

Lemma pick_typed {X} (f : X -> jvalue) t fields field old new :
  has_type t (f new) = true -> slot_typed t (Some (f old)) = true ->
  slot_typed t (Some (f (pick fields field old new))) = true.
Proof. unfold pick. by destruct (existsb _ _). Qed.
Lemma behind_typed {X} (f : X -> jvalue) t fields field old new :
  (forall x, new = Some x -> has_type t (f x) = true) ->
  slot_typed t (option_map f old) = true ->
  slot_typed t (option_map f (behind fields field old new)) = true.
Proof.
  unfold behind. destruct old as [x|]; [|done]. intros Hn Ho. cbn [option_map].
  apply pick_typed; [|done]. destruct new; [by apply Hn|done].
Qed.
Lemma null_behind {X} (f : X -> jvalue) fields field old new :
  null (option_map f (behind fields field old new)) = null (option_map f old).
Proof. by destruct old. Qed.
Lemma u8_some t new x : t = Jboolean -> option_map u8 new = Some x -> has_type t (VBool x) = true.
Proof. intros ->. destruct new; intros [= <-]. apply u8_typed. Qed.

Lemma assign_keeps v old new : keeps old (assign v old new).
Proof.
  destruct old as [o|o], new as [n|n]; cbn [assign]; try apply keeps_refl.
  - split; [done|]. split.
    + cbn [slots map]. cbn [assign_app a_fds_to_ignore a_is_child_zygote a_is_top_app
        a_pkg_data_info_list a_whitelisted_data_info_list a_mount_data_dirs a_mount_storage_dirs
        a_mount_sysprop_overrides]. by rewrite !null_behind.
    + unfold typed_args. cbn [field_types app_fields map snd slots]. intros H.
      repeat match goal with
      | H : Forall2 _ (_ :: _) (_ :: _) |- _ => apply Forall2_cons in H as [? H]
      end.
      repeat apply Forall2_cons_2; try apply Forall2_nil_2;
        first [apply pick_typed; [first [apply s32_typed|done]|assumption]
              |apply behind_typed; [intros; first [by eapply u8_some|done]|assumption]].
  - split; [done|]. split; [done|]. intros _.
    repeat apply Forall2_cons_2; try apply Forall2_nil_2;
      first [apply s32_typed|apply signed64_typed|done].
Qed.

Lemma point_keeps array a : keeps a (point_fds_to_ignore array a).
Proof.
  destruct a as [a|a]; [|apply keeps_refl]. split; [done|]. split.
  - cbn. by destruct (a_fds_to_ignore a).
  - unfold typed_args. cbn [field_types app_fields map snd slots]. intros H.
    repeat match goal with
    | H : Forall2 _ (_ :: _) (_ :: _) |- _ => apply Forall2_cons in H as [? H]
    end.
    repeat apply Forall2_cons_2; try apply Forall2_nil_2; try done.
    cbn. by destruct (a_fds_to_ignore a).
Qed.

Definition typed_frame (ps : list (string * jtype)) (fr : frame) : Prop :=
  Forall2 (fun p b => fst b = fst p /\ has_type (snd p) (snd b) = true) ps fr.
Definition type_of_var (ps : list (string * jtype)) (x : string) : option jtype :=
  match find (fun p => String.eqb (fst p) x) ps with Some p => Some (snd p) | None => None end.

Lemma combine_typed ps vs :
  Forall2 (fun p v => has_type (snd p) v = true) ps vs -> typed_frame ps (combine (map fst ps) vs).
Proof. induction 1; cbn; [constructor|]. constructor; [by split|done]. Qed.

Lemma var_typed ps fr x t :
  typed_frame ps fr -> type_of_var ps x = Some t -> exists v, var fr x = Some v /\ has_type t v = true.
Proof.
  unfold var, type_of_var. induction 1 as [|[y u] [z v] ps fr [Hn Hv] H IH]; cbn in *; [done|].
  subst z. destruct (String.eqb y x); [|exact IH]. intros [= <-]. by exists v.
Qed.

Lemma set_var_typed ps fr x t v :
  typed_frame ps fr -> NoDup (map fst ps) -> type_of_var ps x = Some t -> has_type t v = true ->
  typed_frame ps (set_var x v fr).
Proof.
  unfold type_of_var, set_var. induction 1 as [|[y u] [z w] ps fr [Hn Hw] H IH]; cbn in *; [by constructor|].
  subst z. intros [Hy Hnd]%NoDup_cons Ht Hv. destruct (String.eqb_spec y x) as [->|Hne].
  - injection Ht as ->. constructor; [done|]. clear IH.
    assert (map (fun b => if String.eqb b.1 x then (x, v) else b) fr = fr) as ->; [|exact H].
    clear -H Hy. revert Hy. induction H as [|[y u'] [z w'] ps fr [Hn Hw] H IH]; cbn in *; [done|].
    subst z. intros [Hne Hy]%not_elem_of_cons. rewrite IH by done.
    destruct (String.eqb_spec y x) as [->|]; done.
  - constructor; [done|]. by apply IH.
Qed.

Lemma var_set_same fr x v w : var fr x = Some w -> var (set_var x v fr) x = Some v.
Proof.
  unfold var, set_var. induction fr as [|[y u] fr IH]; cbn; [done|].
  destruct (String.eqb_spec y x) as [->|Hne]; cbn; [by rewrite String.eqb_refl|].
  destruct (String.eqb_spec y x); done.
Qed.
Lemma var_set_other fr x y v : x <> y -> var (set_var x v fr) y = var fr y.
Proof.
  intros Hne. unfold var, set_var. induction fr as [|[z u] fr IH]; cbn; [done|].
  destruct (String.eqb_spec z x) as [->|Hz]; cbn.
  - destruct (String.eqb_spec x y); done.
  - by destruct (String.eqb z y).
Qed.

(** Reading all parameters in order. *)
Lemma vars_in_order fr : NoDup (map fst fr) -> mapM (var fr) (map fst fr) = Some (map snd fr).
Proof.
  intros Hnd. apply mapM_Some_2.
  assert (forall b, b ∈ fr -> var fr b.1 = Some b.2) as H.
  { intros [x v] Hin. unfold var. induction fr as [|[y u] fr IH]; [by apply elem_of_nil in Hin|].
    cbn in *. apply NoDup_cons in Hnd as [Hy Hnd]. apply elem_of_cons in Hin as [[= -> ->]|Hin].
    - by rewrite String.eqb_refl.
    - destruct (String.eqb_spec y x) as [->|]; [|by apply IH].
      destruct Hy. change x with (fst (x, v)). by apply list_elem_of_fmap_2. }
  clear Hnd. revert H. generalize (var fr) as g. intros g H.
  induction fr as [|b fr IH]; cbn; [constructor|].
  constructor; [apply H; by left|]. apply IH. intros c Hc. apply H. by right.
Qed.

Lemma typed_frame_names ps fr : typed_frame ps fr -> map fst fr = map fst ps.
Proof. induction 1 as [|p b ps fr [Hn _] H IH]; cbn; [done|]. by rewrite Hn, IH. Qed.
Lemma typed_frame_values ps fr :
  typed_frame ps fr -> Forall2 (fun p v => has_type (snd p) v = true) ps (map snd fr).
Proof. induction 1 as [|p b ps fr [_ Hv] H IH]; cbn; by constructor. Qed.

(** A structure of these field types that refers to parameters of the same types, each to one
    of its own. *)
Definition slot_refers (ps : list (string * jtype)) (t : jtype) (f : string * option string) : Prop :=
  match snd f with Some x => type_of_var ps x = Some t | None => True end.
#[export] Instance slot_refers_dec ps t f : Decision (slot_refers ps t f).
Proof. unfold slot_refers. destruct (snd f); apply _. Defined.
Definition refers (ps : list (string * jtype)) (ts : list jtype) (s : struct) : Prop :=
  Forall2 (slot_refers ps) ts s.
#[export] Instance refers_dec ps ts s : Decision (refers ps ts s).
Proof. unfold refers. apply _. Defined.
Definition aliased (s : struct) : list string := omap snd s.

Lemma read_slots_typed ps ts s fr :
  refers ps ts s -> typed_frame ps fr ->
  Forall2 (fun t v => slot_typed t v = true) ts (read_slots s fr) /\
  map null (read_slots s fr) = map (fun f => null (snd f)) s.
Proof.
  intros Hs Hfr. induction Hs as [|t [f [x|]] ts s Ht Hs [IH1 IH2]]; cbn; [by split; [constructor|]| |].
  - destruct (var_typed _ _ _ _ Hfr Ht) as (v & -> & Hv). split; [by constructor|].
    cbn. by f_equal.
  - split; [by constructor|]. by f_equal.
Qed.

Lemma write_slots_typed ps ts s vs fr :
  NoDup (map fst ps) -> refers ps ts s -> Forall2 (fun t v => slot_typed t v = true) ts vs ->
  typed_frame ps fr -> typed_frame ps (write_slots s vs fr).
Proof.
  intros Hnd Hs. unfold write_slots. revert vs fr.
  induction Hs as [|t [f [x|]] ts s Ht Hs IH]; intros vs fr Hvs Hfr; [done| |];
    apply Forall2_cons_inv_l in Hvs as (v & vs' & Hv & Hvs & ->); cbn; apply IH; try done.
  unfold write_slot. cbn. destruct v as [v|]; [|done]. exact (set_var_typed _ _ _ _ _ Hfr Hnd Ht Hv).
Qed.

Lemma var_write_other s vs fr x : x ∉ aliased s -> var (write_slots s vs fr) x = var fr x.
Proof.
  unfold write_slots, aliased. revert vs fr. induction s as [|[f [y|]] s IH]; intros [|v vs] fr Hx; cbn in *; try done.
  - apply not_elem_of_cons in Hx as [Hne Hx]. rewrite IH by done. unfold write_slot. cbn.
    destruct v; [|done]. by apply var_set_other.
  - by rewrite IH.
Qed.

(** What is assigned through the structure is what is read through it: as far as its pointers
    are not null. *)
Lemma read_write_slots s vs fr :
  NoDup (aliased s) -> List.length vs = List.length s ->
  (forall x, x ∈ aliased s -> exists v, var fr x = Some v) ->
  map null vs = map (fun f => null (snd f)) s ->
  read_slots s (write_slots s vs fr) = vs.
Proof.
  unfold read_slots, write_slots, aliased. revert vs fr.
  induction s as [|[f y] s IH]; intros [|v vs] fr Hnd Hlen Hvar Hnull; cbn in *; try done.
  injection Hlen as Hlen. injection Hnull as Hn Hnull. destruct y as [y|], v as [v|]; try done; cbn in *.
  - apply NoDup_cons in Hnd as [Hy Hnd]. rewrite IH; [|done|done| |done].
    + f_equal. change (var (write_slots s vs (set_var y v fr)) y = Some v).
      rewrite var_write_other by done. destruct (Hvar y) as [w Hw]; [by left|]. by eapply var_set_same.
    + intros x Hx. rewrite var_set_other by (by intros ->). apply Hvar. by right.
  - by rewrite IH.
Qed.

(** Typed slots are those of arguments, and only of them. *)
Section Slots.
Context {X : Type} (inj : X -> jvalue) (as_ : jvalue -> option X) (t : jtype).
Context (inj_as : forall x, as_ (inj x) = Some x).
Context (as_inj : forall v, has_type t v = true -> exists x, v = inj x).

Lemma ptr_map x : ptr as_ (option_map inj x) = Some x.
Proof. destruct x as [x|]; [|done]. cbn. by rewrite inj_as. Qed.
Lemma ptr_typed v : slot_typed t v = true -> exists x, v = option_map inj x.
Proof.
  destruct v as [v|]; [|by exists None]. intros H. destruct (as_inj v H) as [x ->]. by exists (Some x).
Qed.
End Slots.

Lemma ptr_ints x : ptr as_ints (option_map VInts x) = Some x.
Proof. by apply ptr_map. Qed.
Lemma ptr_bool x : ptr as_bool (option_map VBool x) = Some x.
Proof. by apply ptr_map. Qed.
Lemma ptr_objects x : ptr as_objects (option_map VObjects x) = Some x.
Proof. by apply ptr_map. Qed.

Lemma app_of_slots a : app_of (slots (App a)) = Some (App a).
Proof. cbn [slots app_of]. rewrite ptr_ints, !ptr_bool, !ptr_objects. by destruct a. Qed.
Lemma server_of_slots a : server_of (slots (Server a)) = Some (Server a).
Proof. by destruct a. Qed.

Ltac typed_slots :=
  repeat match goal with
  | H : Forall2 _ (_ :: _) _ |- _ => apply Forall2_cons_inv_l in H as (? & ? & ? & H & ->)
  | H : Forall2 _ [] _ |- _ => apply Forall2_nil_inv_l in H as ->
  end.
Ltac a_reference v := destruct v as [[]|]; try discriminate.
Lemma int_ptr v : slot_typed JintArray v = true -> exists x, v = option_map VInts x.
Proof. apply ptr_typed. intros []; try done. by eexists. Qed.
Lemma bool_ptr v : slot_typed Jboolean v = true -> exists x, v = option_map VBool x.
Proof. apply ptr_typed. intros []; try done. by eexists. Qed.
Lemma object_ptr v : slot_typed JobjectArray v = true -> exists x, v = option_map VObjects x.
Proof. apply ptr_typed. intros []; try done. by eexists. Qed.

Lemma app_slots_typed l :
  Forall2 (fun t v => slot_typed t v = true) (map snd app_fields) l ->
  firstn 10 (map null l) = repeat false 10 -> exists a, l = slots (App a).
Proof.
  cbn [app_fields map snd]. intros H Hn. typed_slots. cbn [map firstn repeat] in Hn.
  injection Hn as.
  repeat match goal with
  | H : slot_typed JintArray ?v = true |- _ => is_var v; apply int_ptr in H as [? ->]
  | H : slot_typed Jboolean ?v = true |- _ => is_var v; apply bool_ptr in H as [? ->]
  | H : slot_typed JobjectArray ?v = true |- _ => is_var v; apply object_ptr in H as [? ->]
  | H : null ?v = false |- _ => is_var v; a_reference v
  | H : null (option_map _ ?v) = false |- _ => destruct v; [clear H|discriminate]
  end.
  by eexists (Build_AppSpecializeArgs_v5 _ _ _ _ _ _ _ _ _ _ _ _ _ _ _ _ _ _).
Qed.
Lemma server_slots_typed l :
  Forall2 (fun t v => slot_typed t v = true) (map snd server_fields) l ->
  map null l = repeat false 6 -> exists a, l = slots (Server a).
Proof.
  cbn [server_fields map snd]. intros H Hn. typed_slots. cbn [map repeat] in Hn.
  injection Hn as.
  repeat match goal with H : null ?v = false |- _ => is_var v; a_reference v end.
  by eexists (Build_ServerSpecializeArgs_v1 _ _ _ _ _ _).
Qed.
