(* ===== verification/JniHooks.v ===== *)
(** * The hooked methods of zygote

    injector/jni_hooks.hpp: for every signature Android versions and vendors gave the three
    native methods that fork or specialize a process, the function that takes its place. *)
From Stdlib Require Import ZArith Lia List String Ascii Bool.
From stdpp Require Import base list strings.
From S2P Require Import Prelude.
From S2P Require Import Args.
Open Scope string_scope.
Open Scope list_scope.
Open Scope Z_scope.

(** ** The generated functions

    All have the same shape. Their differences: the entry's name and signature, the parameters
    and the return type, the structure that is built and the pointers then set, the pair of
    context methods called around the original, the type the original's address is cast to and
    its place in the table, the arguments it is called with, and whether the context's pid is
    returned. *)
Inductive hook_kind := ForkAndSpecialize | SpecializeAppProcess | ForkSystemServer.
Record jni_hook := {
  base_name : string; signature : string; params : list (string * jtype);
  returns : option jtype; built : struct; pointers : list (string * string);
  around : hook_kind; cast : list jtype; cast_returns : option jtype; original : nat;
  passed : list string; returns_pid : bool }.

Definition fas_l : jni_hook :=
  {| base_name := "nativeForkAndSpecialize";
     signature := "(II[II[[IILjava/lang/String;Ljava/lang/String;[ILjava/lang/String;Ljava/lang/String;)I";
     params := [("uid", Jint); ("gid", Jint); ("gids", JintArray); ("runtime_flags", Jint);
                ("rlimits", JobjectArray); ("mount_external", Jint); ("se_info", JString);
                ("nice_name", JString); ("fds_to_close", JintArray);
                ("instruction_set", JString); ("app_data_dir", JString)];
     returns := Some Jint;
     built :=
       AppSpecializeArgs_v5_new "uid" "gid" "gids" "runtime_flags" "rlimits" "mount_external"
       "se_info" "nice_name" "instruction_set" "app_data_dir";
     pointers := [];
     around := ForkAndSpecialize;
     cast := [Jint; Jint; JintArray; Jint; JobjectArray; Jint; JString; JString; JintArray;
              JString; JString];
     cast_returns := Some Jint;
     original := 0;
     passed := ["uid"; "gid"; "gids"; "runtime_flags"; "rlimits"; "mount_external"; "se_info";
                "nice_name"; "fds_to_close"; "instruction_set"; "app_data_dir"];
     returns_pid := true |}.
Definition fas_o : jni_hook :=
  {| base_name := "nativeForkAndSpecialize";
     signature := "(II[II[[IILjava/lang/String;Ljava/lang/String;[I[ILjava/lang/String;Ljava/lang/String;)I";
     params := [("uid", Jint); ("gid", Jint); ("gids", JintArray); ("runtime_flags", Jint);
                ("rlimits", JobjectArray); ("mount_external", Jint); ("se_info", JString);
                ("nice_name", JString); ("fds_to_close", JintArray);
                ("fds_to_ignore", JintArray); ("instruction_set", JString);
                ("app_data_dir", JString)];
     returns := Some Jint;
     built :=
       AppSpecializeArgs_v5_new "uid" "gid" "gids" "runtime_flags" "rlimits" "mount_external"
       "se_info" "nice_name" "instruction_set" "app_data_dir";
     pointers := [("fds_to_ignore", "fds_to_ignore")];
     around := ForkAndSpecialize;
     cast := [Jint; Jint; JintArray; Jint; JobjectArray; Jint; JString; JString; JintArray;
              JintArray; JString; JString];
     cast_returns := Some Jint;
     original := 1;
     passed := ["uid"; "gid"; "gids"; "runtime_flags"; "rlimits"; "mount_external"; "se_info";
                "nice_name"; "fds_to_close"; "fds_to_ignore"; "instruction_set"; "app_data_dir"];
     returns_pid := true |}.
Definition fas_p : jni_hook :=
  {| base_name := "nativeForkAndSpecialize";
     signature := "(II[II[[IILjava/lang/String;Ljava/lang/String;[I[IZLjava/lang/String;Ljava/lang/String;)I";
     params := [("uid", Jint); ("gid", Jint); ("gids", JintArray); ("runtime_flags", Jint);
                ("rlimits", JobjectArray); ("mount_external", Jint); ("se_info", JString);
                ("nice_name", JString); ("fds_to_close", JintArray);
                ("fds_to_ignore", JintArray); ("is_child_zygote", Jboolean);
                ("instruction_set", JString); ("app_data_dir", JString)];
     returns := Some Jint;
     built :=
       AppSpecializeArgs_v5_new "uid" "gid" "gids" "runtime_flags" "rlimits" "mount_external"
       "se_info" "nice_name" "instruction_set" "app_data_dir";
     pointers := [("fds_to_ignore", "fds_to_ignore"); ("is_child_zygote", "is_child_zygote")];
     around := ForkAndSpecialize;
     cast := [Jint; Jint; JintArray; Jint; JobjectArray; Jint; JString; JString; JintArray;
              JintArray; Jboolean; JString; JString];
     cast_returns := Some Jint;
     original := 2;
     passed := ["uid"; "gid"; "gids"; "runtime_flags"; "rlimits"; "mount_external"; "se_info";
                "nice_name"; "fds_to_close"; "fds_to_ignore"; "is_child_zygote";
                "instruction_set"; "app_data_dir"];
     returns_pid := true |}.
Definition fas_q_alt : jni_hook :=
  {| base_name := "nativeForkAndSpecialize";
     signature := "(II[II[[IILjava/lang/String;Ljava/lang/String;[I[IZLjava/lang/String;Ljava/lang/String;Z)I";
     params := [("uid", Jint); ("gid", Jint); ("gids", JintArray); ("runtime_flags", Jint);
                ("rlimits", JobjectArray); ("mount_external", Jint); ("se_info", JString);
                ("nice_name", JString); ("fds_to_close", JintArray);
                ("fds_to_ignore", JintArray); ("is_child_zygote", Jboolean);
                ("instruction_set", JString); ("app_data_dir", JString);
                ("is_top_app", Jboolean)];
     returns := Some Jint;
     built :=
       AppSpecializeArgs_v5_new "uid" "gid" "gids" "runtime_flags" "rlimits" "mount_external"
       "se_info" "nice_name" "instruction_set" "app_data_dir";
     pointers := [("fds_to_ignore", "fds_to_ignore"); ("is_child_zygote", "is_child_zygote");
                  ("is_top_app", "is_top_app")];
     around := ForkAndSpecialize;
     cast := [Jint; Jint; JintArray; Jint; JobjectArray; Jint; JString; JString; JintArray;
              JintArray; Jboolean; JString; JString; Jboolean];
     cast_returns := Some Jint;
     original := 3;
     passed := ["uid"; "gid"; "gids"; "runtime_flags"; "rlimits"; "mount_external"; "se_info";
                "nice_name"; "fds_to_close"; "fds_to_ignore"; "is_child_zygote";
                "instruction_set"; "app_data_dir"; "is_top_app"];
     returns_pid := true |}.
Definition fas_r : jni_hook :=
  {| base_name := "nativeForkAndSpecialize";
     signature := "(II[II[[IILjava/lang/String;Ljava/lang/String;[I[IZLjava/lang/String;Ljava/lang/String;Z[Ljava/lang/String;[Ljava/lang/String;ZZ)I";
     params := [("uid", Jint); ("gid", Jint); ("gids", JintArray); ("runtime_flags", Jint);
                ("rlimits", JobjectArray); ("mount_external", Jint); ("se_info", JString);
                ("nice_name", JString); ("fds_to_close", JintArray);
                ("fds_to_ignore", JintArray); ("is_child_zygote", Jboolean);
                ("instruction_set", JString); ("app_data_dir", JString);
                ("is_top_app", Jboolean); ("pkg_data_info_list", JobjectArray);
                ("whitelisted_data_info_list", JobjectArray); ("mount_data_dirs", Jboolean);
                ("mount_storage_dirs", Jboolean)];
     returns := Some Jint;
     built :=
       AppSpecializeArgs_v5_new "uid" "gid" "gids" "runtime_flags" "rlimits" "mount_external"
       "se_info" "nice_name" "instruction_set" "app_data_dir";
     pointers := [("fds_to_ignore", "fds_to_ignore"); ("is_child_zygote", "is_child_zygote");
                  ("is_top_app", "is_top_app"); ("pkg_data_info_list", "pkg_data_info_list");
                  ("whitelisted_data_info_list", "whitelisted_data_info_list");
                  ("mount_data_dirs", "mount_data_dirs");
                  ("mount_storage_dirs", "mount_storage_dirs")];
     around := ForkAndSpecialize;
     cast := [Jint; Jint; JintArray; Jint; JobjectArray; Jint; JString; JString; JintArray;
              JintArray; Jboolean; JString; JString; Jboolean; JobjectArray; JobjectArray;
              Jboolean; Jboolean];
     cast_returns := Some Jint;
     original := 4;
     passed := ["uid"; "gid"; "gids"; "runtime_flags"; "rlimits"; "mount_external"; "se_info";
                "nice_name"; "fds_to_close"; "fds_to_ignore"; "is_child_zygote";
                "instruction_set"; "app_data_dir"; "is_top_app"; "pkg_data_info_list";
                "whitelisted_data_info_list"; "mount_data_dirs"; "mount_storage_dirs"];
     returns_pid := true |}.
Definition fas_u : jni_hook :=
  {| base_name := "nativeForkAndSpecialize";
     signature := "(II[II[[IILjava/lang/String;Ljava/lang/String;[I[IZLjava/lang/String;Ljava/lang/String;Z[Ljava/lang/String;[Ljava/lang/String;ZZZ)I";
     params := [("uid", Jint); ("gid", Jint); ("gids", JintArray); ("runtime_flags", Jint);
                ("rlimits", JobjectArray); ("mount_external", Jint); ("se_info", JString);
                ("nice_name", JString); ("fds_to_close", JintArray);
                ("fds_to_ignore", JintArray); ("is_child_zygote", Jboolean);
                ("instruction_set", JString); ("app_data_dir", JString);
                ("is_top_app", Jboolean); ("pkg_data_info_list", JobjectArray);
                ("whitelisted_data_info_list", JobjectArray); ("mount_data_dirs", Jboolean);
                ("mount_storage_dirs", Jboolean); ("mount_sysprop_overrides", Jboolean)];
     returns := Some Jint;
     built :=
       AppSpecializeArgs_v5_new "uid" "gid" "gids" "runtime_flags" "rlimits" "mount_external"
       "se_info" "nice_name" "instruction_set" "app_data_dir";
     pointers := [("fds_to_ignore", "fds_to_ignore"); ("is_child_zygote", "is_child_zygote");
                  ("is_top_app", "is_top_app"); ("pkg_data_info_list", "pkg_data_info_list");
                  ("whitelisted_data_info_list", "whitelisted_data_info_list");
                  ("mount_data_dirs", "mount_data_dirs");
                  ("mount_storage_dirs", "mount_storage_dirs");
                  ("mount_sysprop_overrides", "mount_sysprop_overrides")];
     around := ForkAndSpecialize;
     cast := [Jint; Jint; JintArray; Jint; JobjectArray; Jint; JString; JString; JintArray;
              JintArray; Jboolean; JString; JString; Jboolean; JobjectArray; JobjectArray;
              Jboolean; Jboolean; Jboolean];
     cast_returns := Some Jint;
     original := 5;
     passed := ["uid"; "gid"; "gids"; "runtime_flags"; "rlimits"; "mount_external"; "se_info";
                "nice_name"; "fds_to_close"; "fds_to_ignore"; "is_child_zygote";
                "instruction_set"; "app_data_dir"; "is_top_app"; "pkg_data_info_list";
                "whitelisted_data_info_list"; "mount_data_dirs"; "mount_storage_dirs";
                "mount_sysprop_overrides"];
     returns_pid := true |}.
Definition fas_c : jni_hook :=
  {| base_name := "nativeForkAndSpecialize";
     signature := "(II[II[[IILjava/lang/String;Ljava/lang/String;[I[IZLjava/lang/String;Ljava/lang/String;ZZ[Ljava/lang/String;[Ljava/lang/String;ZZZ)I";
     params := [("uid", Jint); ("gid", Jint); ("gids", JintArray); ("runtime_flags", Jint);
                ("rlimits", JobjectArray); ("mount_external", Jint); ("se_info", JString);
                ("nice_name", JString); ("fds_to_close", JintArray);
                ("fds_to_ignore", JintArray); ("is_child_zygote", Jboolean);
                ("instruction_set", JString); ("app_data_dir", JString);
                ("is_top_app", Jboolean); ("use_fifo_ui", Jboolean);
                ("pkg_data_info_list", JobjectArray);
                ("whitelisted_data_info_list", JobjectArray); ("mount_data_dirs", Jboolean);
                ("mount_storage_dirs", Jboolean); ("mount_sysprop_overrides", Jboolean)];
     returns := Some Jint;
     built :=
       AppSpecializeArgs_v5_new "uid" "gid" "gids" "runtime_flags" "rlimits" "mount_external"
       "se_info" "nice_name" "instruction_set" "app_data_dir";
     pointers := [("fds_to_ignore", "fds_to_ignore"); ("is_child_zygote", "is_child_zygote");
                  ("is_top_app", "is_top_app"); ("pkg_data_info_list", "pkg_data_info_list");
                  ("whitelisted_data_info_list", "whitelisted_data_info_list");
                  ("mount_data_dirs", "mount_data_dirs");
                  ("mount_storage_dirs", "mount_storage_dirs");
                  ("mount_sysprop_overrides", "mount_sysprop_overrides")];
     around := ForkAndSpecialize;
     cast := [Jint; Jint; JintArray; Jint; JobjectArray; Jint; JString; JString; JintArray;
              JintArray; Jboolean; JString; JString; Jboolean; Jboolean; JobjectArray;
              JobjectArray; Jboolean; Jboolean; Jboolean];
     cast_returns := Some Jint;
     original := 6;
     passed := ["uid"; "gid"; "gids"; "runtime_flags"; "rlimits"; "mount_external"; "se_info";
                "nice_name"; "fds_to_close"; "fds_to_ignore"; "is_child_zygote";
                "instruction_set"; "app_data_dir"; "is_top_app"; "use_fifo_ui";
                "pkg_data_info_list"; "whitelisted_data_info_list"; "mount_data_dirs";
                "mount_storage_dirs"; "mount_sysprop_overrides"];
     returns_pid := true |}.
Definition fas_c_qpr2 : jni_hook :=
  {| base_name := "nativeForkAndSpecialize";
     signature := "(III[II[[IILjava/lang/String;Ljava/lang/String;[I[IZLjava/lang/String;Ljava/lang/String;ZZ[Ljava/lang/String;[Ljava/lang/String;ZZZ)I";
     params := [("uid", Jint); ("cgroup_uid", Jint); ("gid", Jint); ("gids", JintArray);
                ("runtime_flags", Jint); ("rlimits", JobjectArray); ("mount_external", Jint);
                ("se_info", JString); ("nice_name", JString); ("fds_to_close", JintArray);
                ("fds_to_ignore", JintArray); ("is_child_zygote", Jboolean);
                ("instruction_set", JString); ("app_data_dir", JString);
                ("is_top_app", Jboolean); ("use_fifo_ui", Jboolean);
                ("pkg_data_info_list", JobjectArray);
                ("whitelisted_data_info_list", JobjectArray); ("mount_data_dirs", Jboolean);
                ("mount_storage_dirs", Jboolean); ("mount_sysprop_overrides", Jboolean)];
     returns := Some Jint;
     built :=
       AppSpecializeArgs_v5_new "uid" "gid" "gids" "runtime_flags" "rlimits" "mount_external"
       "se_info" "nice_name" "instruction_set" "app_data_dir";
     pointers := [("fds_to_ignore", "fds_to_ignore"); ("is_child_zygote", "is_child_zygote");
                  ("is_top_app", "is_top_app"); ("pkg_data_info_list", "pkg_data_info_list");
                  ("whitelisted_data_info_list", "whitelisted_data_info_list");
                  ("mount_data_dirs", "mount_data_dirs");
                  ("mount_storage_dirs", "mount_storage_dirs");
                  ("mount_sysprop_overrides", "mount_sysprop_overrides")];
     around := ForkAndSpecialize;
     cast := [Jint; Jint; Jint; JintArray; Jint; JobjectArray; Jint; JString; JString;
              JintArray; JintArray; Jboolean; JString; JString; Jboolean; Jboolean;
              JobjectArray; JobjectArray; Jboolean; Jboolean; Jboolean];
     cast_returns := Some Jint;
     original := 7;
     passed := ["uid"; "cgroup_uid"; "gid"; "gids"; "runtime_flags"; "rlimits";
                "mount_external"; "se_info"; "nice_name"; "fds_to_close"; "fds_to_ignore";
                "is_child_zygote"; "instruction_set"; "app_data_dir"; "is_top_app";
                "use_fifo_ui"; "pkg_data_info_list"; "whitelisted_data_info_list";
                "mount_data_dirs"; "mount_storage_dirs"; "mount_sysprop_overrides"];
     returns_pid := true |}.
Definition fas_samsung_m : jni_hook :=
  {| base_name := "nativeForkAndSpecialize";
     signature := "(II[II[[IILjava/lang/String;IILjava/lang/String;[ILjava/lang/String;Ljava/lang/String;)I";
     params := [("uid", Jint); ("gid", Jint); ("gids", JintArray); ("runtime_flags", Jint);
                ("rlimits", JobjectArray); ("mount_external", Jint); ("se_info", JString);
                ("_0", Jint); ("_1", Jint); ("nice_name", JString); ("fds_to_close", JintArray);
                ("instruction_set", JString); ("app_data_dir", JString)];
     returns := Some Jint;
     built :=
       AppSpecializeArgs_v5_new "uid" "gid" "gids" "runtime_flags" "rlimits" "mount_external"
       "se_info" "nice_name" "instruction_set" "app_data_dir";
     pointers := [];
     around := ForkAndSpecialize;
     cast := [Jint; Jint; JintArray; Jint; JobjectArray; Jint; JString; Jint; Jint; JString;
              JintArray; JString; JString];
     cast_returns := Some Jint;
     original := 8;
     passed := ["uid"; "gid"; "gids"; "runtime_flags"; "rlimits"; "mount_external"; "se_info";
                "_0"; "_1"; "nice_name"; "fds_to_close"; "instruction_set"; "app_data_dir"];
     returns_pid := true |}.
Definition fas_samsung_n : jni_hook :=
  {| base_name := "nativeForkAndSpecialize";
     signature := "(II[II[[IILjava/lang/String;IILjava/lang/String;[ILjava/lang/String;Ljava/lang/String;I)I";
     params := [("uid", Jint); ("gid", Jint); ("gids", JintArray); ("runtime_flags", Jint);
                ("rlimits", JobjectArray); ("mount_external", Jint); ("se_info", JString);
                ("_2", Jint); ("_3", Jint); ("nice_name", JString); ("fds_to_close", JintArray);
                ("instruction_set", JString); ("app_data_dir", JString); ("_4", Jint)];
     returns := Some Jint;
     built :=
       AppSpecializeArgs_v5_new "uid" "gid" "gids" "runtime_flags" "rlimits" "mount_external"
       "se_info" "nice_name" "instruction_set" "app_data_dir";
     pointers := [];
     around := ForkAndSpecialize;
     cast := [Jint; Jint; JintArray; Jint; JobjectArray; Jint; JString; Jint; Jint; JString;
              JintArray; JString; JString; Jint];
     cast_returns := Some Jint;
     original := 9;
     passed := ["uid"; "gid"; "gids"; "runtime_flags"; "rlimits"; "mount_external"; "se_info";
                "_2"; "_3"; "nice_name"; "fds_to_close"; "instruction_set"; "app_data_dir";
                "_4"];
     returns_pid := true |}.
Definition fas_samsung_o : jni_hook :=
  {| base_name := "nativeForkAndSpecialize";
     signature := "(II[II[[IILjava/lang/String;IILjava/lang/String;[I[ILjava/lang/String;Ljava/lang/String;)I";
     params := [("uid", Jint); ("gid", Jint); ("gids", JintArray); ("runtime_flags", Jint);
                ("rlimits", JobjectArray); ("mount_external", Jint); ("se_info", JString);
                ("_5", Jint); ("_6", Jint); ("nice_name", JString); ("fds_to_close", JintArray);
                ("fds_to_ignore", JintArray); ("instruction_set", JString);
                ("app_data_dir", JString)];
     returns := Some Jint;
     built :=
       AppSpecializeArgs_v5_new "uid" "gid" "gids" "runtime_flags" "rlimits" "mount_external"
       "se_info" "nice_name" "instruction_set" "app_data_dir";
     pointers := [("fds_to_ignore", "fds_to_ignore")];
     around := ForkAndSpecialize;
     cast := [Jint; Jint; JintArray; Jint; JobjectArray; Jint; JString; Jint; Jint; JString;
              JintArray; JintArray; JString; JString];
     cast_returns := Some Jint;
     original := 10;
     passed := ["uid"; "gid"; "gids"; "runtime_flags"; "rlimits"; "mount_external"; "se_info";
                "_5"; "_6"; "nice_name"; "fds_to_close"; "fds_to_ignore"; "instruction_set";
                "app_data_dir"];
     returns_pid := true |}.
Definition fas_samsung_p : jni_hook :=
  {| base_name := "nativeForkAndSpecialize";
     signature := "(II[II[[IILjava/lang/String;IILjava/lang/String;[I[IZLjava/lang/String;Ljava/lang/String;)I";
     params := [("uid", Jint); ("gid", Jint); ("gids", JintArray); ("runtime_flags", Jint);
                ("rlimits", JobjectArray); ("mount_external", Jint); ("se_info", JString);
                ("_7", Jint); ("_8", Jint); ("nice_name", JString); ("fds_to_close", JintArray);
                ("fds_to_ignore", JintArray); ("is_child_zygote", Jboolean);
                ("instruction_set", JString); ("app_data_dir", JString)];
     returns := Some Jint;
     built :=
       AppSpecializeArgs_v5_new "uid" "gid" "gids" "runtime_flags" "rlimits" "mount_external"
       "se_info" "nice_name" "instruction_set" "app_data_dir";
     pointers := [("fds_to_ignore", "fds_to_ignore"); ("is_child_zygote", "is_child_zygote")];
     around := ForkAndSpecialize;
     cast := [Jint; Jint; JintArray; Jint; JobjectArray; Jint; JString; Jint; Jint; JString;
              JintArray; JintArray; Jboolean; JString; JString];
     cast_returns := Some Jint;
     original := 11;
     passed := ["uid"; "gid"; "gids"; "runtime_flags"; "rlimits"; "mount_external"; "se_info";
                "_7"; "_8"; "nice_name"; "fds_to_close"; "fds_to_ignore"; "is_child_zygote";
                "instruction_set"; "app_data_dir"];
     returns_pid := true |}.
Definition fas_grapheneos_u : jni_hook :=
  {| base_name := "nativeForkAndSpecialize";
     signature := "(II[II[[IILjava/lang/String;Ljava/lang/String;[I[IZLjava/lang/String;Ljava/lang/String;Z[Ljava/lang/String;[Ljava/lang/String;ZZZ[J)I";
     params := [("uid", Jint); ("gid", Jint); ("gids", JintArray); ("runtime_flags", Jint);
                ("rlimits", JobjectArray); ("mount_external", Jint); ("se_info", JString);
                ("nice_name", JString); ("fds_to_close", JintArray);
                ("fds_to_ignore", JintArray); ("is_child_zygote", Jboolean);
                ("instruction_set", JString); ("app_data_dir", JString);
                ("is_top_app", Jboolean); ("pkg_data_info_list", JobjectArray);
                ("whitelisted_data_info_list", JobjectArray); ("mount_data_dirs", Jboolean);
                ("mount_storage_dirs", Jboolean); ("mount_sysprop_overrides", Jboolean);
                ("_9", JlongArray)];
     returns := Some Jint;
     built :=
       AppSpecializeArgs_v5_new "uid" "gid" "gids" "runtime_flags" "rlimits" "mount_external"
       "se_info" "nice_name" "instruction_set" "app_data_dir";
     pointers := [("fds_to_ignore", "fds_to_ignore"); ("is_child_zygote", "is_child_zygote");
                  ("is_top_app", "is_top_app"); ("pkg_data_info_list", "pkg_data_info_list");
                  ("whitelisted_data_info_list", "whitelisted_data_info_list");
                  ("mount_data_dirs", "mount_data_dirs");
                  ("mount_storage_dirs", "mount_storage_dirs");
                  ("mount_sysprop_overrides", "mount_sysprop_overrides")];
     around := ForkAndSpecialize;
     cast := [Jint; Jint; JintArray; Jint; JobjectArray; Jint; JString; JString; JintArray;
              JintArray; Jboolean; JString; JString; Jboolean; JobjectArray; JobjectArray;
              Jboolean; Jboolean; Jboolean; JlongArray];
     cast_returns := Some Jint;
     original := 12;
     passed := ["uid"; "gid"; "gids"; "runtime_flags"; "rlimits"; "mount_external"; "se_info";
                "nice_name"; "fds_to_close"; "fds_to_ignore"; "is_child_zygote";
                "instruction_set"; "app_data_dir"; "is_top_app"; "pkg_data_info_list";
                "whitelisted_data_info_list"; "mount_data_dirs"; "mount_storage_dirs";
                "mount_sysprop_overrides"; "_9"];
     returns_pid := true |}.
Definition fas_grapheneos_17 : jni_hook :=
  {| base_name := "nativeForkAndSpecialize";
     signature := "([JII[II[[IILjava/lang/String;Ljava/lang/String;[I[IZLjava/lang/String;Ljava/lang/String;ZZ[Ljava/lang/String;[Ljava/lang/String;ZZZ)I";
     params := [("_10", JlongArray); ("uid", Jint); ("gid", Jint); ("gids", JintArray);
                ("runtime_flags", Jint); ("rlimits", JobjectArray); ("mount_external", Jint);
                ("se_info", JString); ("nice_name", JString); ("fds_to_close", JintArray);
                ("fds_to_ignore", JintArray); ("is_child_zygote", Jboolean);
                ("instruction_set", JString); ("app_data_dir", JString);
                ("is_top_app", Jboolean); ("_11", Jboolean);
                ("pkg_data_info_list", JobjectArray);
                ("whitelisted_data_info_list", JobjectArray); ("mount_data_dirs", Jboolean);
                ("mount_storage_dirs", Jboolean); ("mount_sysprop_overrides", Jboolean)];
     returns := Some Jint;
     built :=
       AppSpecializeArgs_v5_new "uid" "gid" "gids" "runtime_flags" "rlimits" "mount_external"
       "se_info" "nice_name" "instruction_set" "app_data_dir";
     pointers := [("fds_to_ignore", "fds_to_ignore"); ("is_child_zygote", "is_child_zygote");
                  ("is_top_app", "is_top_app"); ("pkg_data_info_list", "pkg_data_info_list");
                  ("whitelisted_data_info_list", "whitelisted_data_info_list");
                  ("mount_data_dirs", "mount_data_dirs");
                  ("mount_storage_dirs", "mount_storage_dirs");
                  ("mount_sysprop_overrides", "mount_sysprop_overrides")];
     around := ForkAndSpecialize;
     cast := [JlongArray; Jint; Jint; JintArray; Jint; JobjectArray; Jint; JString; JString;
              JintArray; JintArray; Jboolean; JString; JString; Jboolean; Jboolean;
              JobjectArray; JobjectArray; Jboolean; Jboolean; Jboolean];
     cast_returns := Some Jint;
     original := 13;
     passed := ["_10"; "uid"; "gid"; "gids"; "runtime_flags"; "rlimits"; "mount_external";
                "se_info"; "nice_name"; "fds_to_close"; "fds_to_ignore"; "is_child_zygote";
                "instruction_set"; "app_data_dir"; "is_top_app"; "_11"; "pkg_data_info_list";
                "whitelisted_data_info_list"; "mount_data_dirs"; "mount_storage_dirs";
                "mount_sysprop_overrides"];
     returns_pid := true |}.
Definition spec_q : jni_hook :=
  {| base_name := "nativeSpecializeAppProcess";
     signature := "(II[II[[IILjava/lang/String;Ljava/lang/String;ZLjava/lang/String;Ljava/lang/String;)V";
     params := [("uid", Jint); ("gid", Jint); ("gids", JintArray); ("runtime_flags", Jint);
                ("rlimits", JobjectArray); ("mount_external", Jint); ("se_info", JString);
                ("nice_name", JString); ("is_child_zygote", Jboolean);
                ("instruction_set", JString); ("app_data_dir", JString)];
     returns := None;
     built :=
       AppSpecializeArgs_v5_new "uid" "gid" "gids" "runtime_flags" "rlimits" "mount_external"
       "se_info" "nice_name" "instruction_set" "app_data_dir";
     pointers := [("is_child_zygote", "is_child_zygote")];
     around := SpecializeAppProcess;
     cast := [Jint; Jint; JintArray; Jint; JobjectArray; Jint; JString; JString; Jboolean;
              JString; JString];
     cast_returns := None;
     original := 14;
     passed := ["uid"; "gid"; "gids"; "runtime_flags"; "rlimits"; "mount_external"; "se_info";
                "nice_name"; "is_child_zygote"; "instruction_set"; "app_data_dir"];
     returns_pid := false |}.
Definition spec_q_alt : jni_hook :=
  {| base_name := "nativeSpecializeAppProcess";
     signature := "(II[II[[IILjava/lang/String;Ljava/lang/String;ZLjava/lang/String;Ljava/lang/String;Z)V";
     params := [("uid", Jint); ("gid", Jint); ("gids", JintArray); ("runtime_flags", Jint);
                ("rlimits", JobjectArray); ("mount_external", Jint); ("se_info", JString);
                ("nice_name", JString); ("is_child_zygote", Jboolean);
                ("instruction_set", JString); ("app_data_dir", JString);
                ("is_top_app", Jboolean)];
     returns := None;
     built :=
       AppSpecializeArgs_v5_new "uid" "gid" "gids" "runtime_flags" "rlimits" "mount_external"
       "se_info" "nice_name" "instruction_set" "app_data_dir";
     pointers := [("is_child_zygote", "is_child_zygote"); ("is_top_app", "is_top_app")];
     around := SpecializeAppProcess;
     cast := [Jint; Jint; JintArray; Jint; JobjectArray; Jint; JString; JString; Jboolean;
              JString; JString; Jboolean];
     cast_returns := None;
     original := 15;
     passed := ["uid"; "gid"; "gids"; "runtime_flags"; "rlimits"; "mount_external"; "se_info";
                "nice_name"; "is_child_zygote"; "instruction_set"; "app_data_dir"; "is_top_app"];
     returns_pid := false |}.
Definition spec_r : jni_hook :=
  {| base_name := "nativeSpecializeAppProcess";
     signature := "(II[II[[IILjava/lang/String;Ljava/lang/String;ZLjava/lang/String;Ljava/lang/String;Z[Ljava/lang/String;[Ljava/lang/String;ZZ)V";
     params := [("uid", Jint); ("gid", Jint); ("gids", JintArray); ("runtime_flags", Jint);
                ("rlimits", JobjectArray); ("mount_external", Jint); ("se_info", JString);
                ("nice_name", JString); ("is_child_zygote", Jboolean);
                ("instruction_set", JString); ("app_data_dir", JString);
                ("is_top_app", Jboolean); ("pkg_data_info_list", JobjectArray);
                ("whitelisted_data_info_list", JobjectArray); ("mount_data_dirs", Jboolean);
                ("mount_storage_dirs", Jboolean)];
     returns := None;
     built :=
       AppSpecializeArgs_v5_new "uid" "gid" "gids" "runtime_flags" "rlimits" "mount_external"
       "se_info" "nice_name" "instruction_set" "app_data_dir";
     pointers := [("is_child_zygote", "is_child_zygote"); ("is_top_app", "is_top_app");
                  ("pkg_data_info_list", "pkg_data_info_list");
                  ("whitelisted_data_info_list", "whitelisted_data_info_list");
                  ("mount_data_dirs", "mount_data_dirs");
                  ("mount_storage_dirs", "mount_storage_dirs")];
     around := SpecializeAppProcess;
     cast := [Jint; Jint; JintArray; Jint; JobjectArray; Jint; JString; JString; Jboolean;
              JString; JString; Jboolean; JobjectArray; JobjectArray; Jboolean; Jboolean];
     cast_returns := None;
     original := 16;
     passed := ["uid"; "gid"; "gids"; "runtime_flags"; "rlimits"; "mount_external"; "se_info";
                "nice_name"; "is_child_zygote"; "instruction_set"; "app_data_dir"; "is_top_app";
                "pkg_data_info_list"; "whitelisted_data_info_list"; "mount_data_dirs";
                "mount_storage_dirs"];
     returns_pid := false |}.
Definition spec_u : jni_hook :=
  {| base_name := "nativeSpecializeAppProcess";
     signature := "(II[II[[IILjava/lang/String;Ljava/lang/String;ZLjava/lang/String;Ljava/lang/String;Z[Ljava/lang/String;[Ljava/lang/String;ZZZ)V";
     params := [("uid", Jint); ("gid", Jint); ("gids", JintArray); ("runtime_flags", Jint);
                ("rlimits", JobjectArray); ("mount_external", Jint); ("se_info", JString);
                ("nice_name", JString); ("is_child_zygote", Jboolean);
                ("instruction_set", JString); ("app_data_dir", JString);
                ("is_top_app", Jboolean); ("pkg_data_info_list", JobjectArray);
                ("whitelisted_data_info_list", JobjectArray); ("mount_data_dirs", Jboolean);
                ("mount_storage_dirs", Jboolean); ("mount_sysprop_overrides", Jboolean)];
     returns := None;
     built :=
       AppSpecializeArgs_v5_new "uid" "gid" "gids" "runtime_flags" "rlimits" "mount_external"
       "se_info" "nice_name" "instruction_set" "app_data_dir";
     pointers := [("is_child_zygote", "is_child_zygote"); ("is_top_app", "is_top_app");
                  ("pkg_data_info_list", "pkg_data_info_list");
                  ("whitelisted_data_info_list", "whitelisted_data_info_list");
                  ("mount_data_dirs", "mount_data_dirs");
                  ("mount_storage_dirs", "mount_storage_dirs");
                  ("mount_sysprop_overrides", "mount_sysprop_overrides")];
     around := SpecializeAppProcess;
     cast := [Jint; Jint; JintArray; Jint; JobjectArray; Jint; JString; JString; Jboolean;
              JString; JString; Jboolean; JobjectArray; JobjectArray; Jboolean; Jboolean;
              Jboolean];
     cast_returns := None;
     original := 17;
     passed := ["uid"; "gid"; "gids"; "runtime_flags"; "rlimits"; "mount_external"; "se_info";
                "nice_name"; "is_child_zygote"; "instruction_set"; "app_data_dir"; "is_top_app";
                "pkg_data_info_list"; "whitelisted_data_info_list"; "mount_data_dirs";
                "mount_storage_dirs"; "mount_sysprop_overrides"];
     returns_pid := false |}.
Definition spec_c_qpr2 : jni_hook :=
  {| base_name := "nativeSpecializeAppProcess";
     signature := "(III[II[[IILjava/lang/String;Ljava/lang/String;ZLjava/lang/String;Ljava/lang/String;Z[Ljava/lang/String;[Ljava/lang/String;ZZZ)V";
     params := [("uid", Jint); ("cgroup_uid", Jint); ("gid", Jint); ("gids", JintArray);
                ("runtime_flags", Jint); ("rlimits", JobjectArray); ("mount_external", Jint);
                ("se_info", JString); ("nice_name", JString); ("is_child_zygote", Jboolean);
                ("instruction_set", JString); ("app_data_dir", JString);
                ("is_top_app", Jboolean); ("pkg_data_info_list", JobjectArray);
                ("whitelisted_data_info_list", JobjectArray); ("mount_data_dirs", Jboolean);
                ("mount_storage_dirs", Jboolean); ("mount_sysprop_overrides", Jboolean)];
     returns := None;
     built :=
       AppSpecializeArgs_v5_new "uid" "gid" "gids" "runtime_flags" "rlimits" "mount_external"
       "se_info" "nice_name" "instruction_set" "app_data_dir";
     pointers := [("is_child_zygote", "is_child_zygote"); ("is_top_app", "is_top_app");
                  ("pkg_data_info_list", "pkg_data_info_list");
                  ("whitelisted_data_info_list", "whitelisted_data_info_list");
                  ("mount_data_dirs", "mount_data_dirs");
                  ("mount_storage_dirs", "mount_storage_dirs");
                  ("mount_sysprop_overrides", "mount_sysprop_overrides")];
     around := SpecializeAppProcess;
     cast := [Jint; Jint; Jint; JintArray; Jint; JobjectArray; Jint; JString; JString;
              Jboolean; JString; JString; Jboolean; JobjectArray; JobjectArray; Jboolean;
              Jboolean; Jboolean];
     cast_returns := None;
     original := 18;
     passed := ["uid"; "cgroup_uid"; "gid"; "gids"; "runtime_flags"; "rlimits";
                "mount_external"; "se_info"; "nice_name"; "is_child_zygote"; "instruction_set";
                "app_data_dir"; "is_top_app"; "pkg_data_info_list";
                "whitelisted_data_info_list"; "mount_data_dirs"; "mount_storage_dirs";
                "mount_sysprop_overrides"];
     returns_pid := false |}.
Definition spec_samsung_q : jni_hook :=
  {| base_name := "nativeSpecializeAppProcess";
     signature := "(II[II[[IILjava/lang/String;IILjava/lang/String;ZLjava/lang/String;Ljava/lang/String;)V";
     params := [("uid", Jint); ("gid", Jint); ("gids", JintArray); ("runtime_flags", Jint);
                ("rlimits", JobjectArray); ("mount_external", Jint); ("se_info", JString);
                ("_12", Jint); ("_13", Jint); ("nice_name", JString);
                ("is_child_zygote", Jboolean); ("instruction_set", JString);
                ("app_data_dir", JString)];
     returns := None;
     built :=
       AppSpecializeArgs_v5_new "uid" "gid" "gids" "runtime_flags" "rlimits" "mount_external"
       "se_info" "nice_name" "instruction_set" "app_data_dir";
     pointers := [("is_child_zygote", "is_child_zygote")];
     around := SpecializeAppProcess;
     cast := [Jint; Jint; JintArray; Jint; JobjectArray; Jint; JString; Jint; Jint; JString;
              Jboolean; JString; JString];
     cast_returns := None;
     original := 19;
     passed := ["uid"; "gid"; "gids"; "runtime_flags"; "rlimits"; "mount_external"; "se_info";
                "_12"; "_13"; "nice_name"; "is_child_zygote"; "instruction_set"; "app_data_dir"];
     returns_pid := false |}.
Definition spec_grapheneos_u : jni_hook :=
  {| base_name := "nativeSpecializeAppProcess";
     signature := "(II[II[[IILjava/lang/String;Ljava/lang/String;ZLjava/lang/String;Ljava/lang/String;Z[Ljava/lang/String;[Ljava/lang/String;ZZZ[J)V";
     params := [("uid", Jint); ("gid", Jint); ("gids", JintArray); ("runtime_flags", Jint);
                ("rlimits", JobjectArray); ("mount_external", Jint); ("se_info", JString);
                ("nice_name", JString); ("is_child_zygote", Jboolean);
                ("instruction_set", JString); ("app_data_dir", JString);
                ("is_top_app", Jboolean); ("pkg_data_info_list", JobjectArray);
                ("whitelisted_data_info_list", JobjectArray); ("mount_data_dirs", Jboolean);
                ("mount_storage_dirs", Jboolean); ("mount_sysprop_overrides", Jboolean);
                ("_14", JlongArray)];
     returns := None;
     built :=
       AppSpecializeArgs_v5_new "uid" "gid" "gids" "runtime_flags" "rlimits" "mount_external"
       "se_info" "nice_name" "instruction_set" "app_data_dir";
     pointers := [("is_child_zygote", "is_child_zygote"); ("is_top_app", "is_top_app");
                  ("pkg_data_info_list", "pkg_data_info_list");
                  ("whitelisted_data_info_list", "whitelisted_data_info_list");
                  ("mount_data_dirs", "mount_data_dirs");
                  ("mount_storage_dirs", "mount_storage_dirs");
                  ("mount_sysprop_overrides", "mount_sysprop_overrides")];
     around := SpecializeAppProcess;
     cast := [Jint; Jint; JintArray; Jint; JobjectArray; Jint; JString; JString; Jboolean;
              JString; JString; Jboolean; JobjectArray; JobjectArray; Jboolean; Jboolean;
              Jboolean; JlongArray];
     cast_returns := None;
     original := 20;
     passed := ["uid"; "gid"; "gids"; "runtime_flags"; "rlimits"; "mount_external"; "se_info";
                "nice_name"; "is_child_zygote"; "instruction_set"; "app_data_dir"; "is_top_app";
                "pkg_data_info_list"; "whitelisted_data_info_list"; "mount_data_dirs";
                "mount_storage_dirs"; "mount_sysprop_overrides"; "_14"];
     returns_pid := false |}.
Definition spec_grapheneos_17 : jni_hook :=
  {| base_name := "nativeSpecializeAppProcess";
     signature := "([JII[II[[IILjava/lang/String;Ljava/lang/String;ZLjava/lang/String;Ljava/lang/String;Z[Ljava/lang/String;[Ljava/lang/String;ZZZ)V";
     params := [("_15", JlongArray); ("uid", Jint); ("gid", Jint); ("gids", JintArray);
                ("runtime_flags", Jint); ("rlimits", JobjectArray); ("mount_external", Jint);
                ("se_info", JString); ("nice_name", JString); ("is_child_zygote", Jboolean);
                ("instruction_set", JString); ("app_data_dir", JString);
                ("is_top_app", Jboolean); ("pkg_data_info_list", JobjectArray);
                ("whitelisted_data_info_list", JobjectArray); ("mount_data_dirs", Jboolean);
                ("mount_storage_dirs", Jboolean); ("mount_sysprop_overrides", Jboolean)];
     returns := None;
     built :=
       AppSpecializeArgs_v5_new "uid" "gid" "gids" "runtime_flags" "rlimits" "mount_external"
       "se_info" "nice_name" "instruction_set" "app_data_dir";
     pointers := [("is_child_zygote", "is_child_zygote"); ("is_top_app", "is_top_app");
                  ("pkg_data_info_list", "pkg_data_info_list");
                  ("whitelisted_data_info_list", "whitelisted_data_info_list");
                  ("mount_data_dirs", "mount_data_dirs");
                  ("mount_storage_dirs", "mount_storage_dirs");
                  ("mount_sysprop_overrides", "mount_sysprop_overrides")];
     around := SpecializeAppProcess;
     cast := [JlongArray; Jint; Jint; JintArray; Jint; JobjectArray; Jint; JString; JString;
              Jboolean; JString; JString; Jboolean; JobjectArray; JobjectArray; Jboolean;
              Jboolean; Jboolean];
     cast_returns := None;
     original := 21;
     passed := ["_15"; "uid"; "gid"; "gids"; "runtime_flags"; "rlimits"; "mount_external";
                "se_info"; "nice_name"; "is_child_zygote"; "instruction_set"; "app_data_dir";
                "is_top_app"; "pkg_data_info_list"; "whitelisted_data_info_list";
                "mount_data_dirs"; "mount_storage_dirs"; "mount_sysprop_overrides"];
     returns_pid := false |}.
Definition server_l : jni_hook :=
  {| base_name := "nativeForkSystemServer";
     signature := "(II[II[[IJJ)I";
     params := [("uid", Jint); ("gid", Jint); ("gids", JintArray); ("runtime_flags", Jint);
                ("rlimits", JobjectArray); ("permitted_capabilities", Jlong);
                ("effective_capabilities", Jlong)];
     returns := Some Jint;
     built :=
       ServerSpecializeArgs_v1_new "uid" "gid" "gids" "runtime_flags" "permitted_capabilities"
       "effective_capabilities";
     pointers := [];
     around := ForkSystemServer;
     cast := [Jint; Jint; JintArray; Jint; JobjectArray; Jlong; Jlong];
     cast_returns := Some Jint;
     original := 22;
     passed := ["uid"; "gid"; "gids"; "runtime_flags"; "rlimits"; "permitted_capabilities";
                "effective_capabilities"];
     returns_pid := true |}.
Definition server_samsung_q : jni_hook :=
  {| base_name := "nativeForkSystemServer";
     signature := "(II[IIII[[IJJ)I";
     params := [("uid", Jint); ("gid", Jint); ("gids", JintArray); ("runtime_flags", Jint);
                ("_16", Jint); ("_17", Jint); ("rlimits", JobjectArray);
                ("permitted_capabilities", Jlong); ("effective_capabilities", Jlong)];
     returns := Some Jint;
     built :=
       ServerSpecializeArgs_v1_new "uid" "gid" "gids" "runtime_flags" "permitted_capabilities"
       "effective_capabilities";
     pointers := [];
     around := ForkSystemServer;
     cast := [Jint; Jint; JintArray; Jint; Jint; Jint; JobjectArray; Jlong; Jlong];
     cast_returns := Some Jint;
     original := 23;
     passed := ["uid"; "gid"; "gids"; "runtime_flags"; "_16"; "_17"; "rlimits";
                "permitted_capabilities"; "effective_capabilities"];
     returns_pid := true |}.

Definition zygote_hooks : list jni_hook :=
  [fas_l; fas_o; fas_p; fas_q_alt; fas_r; fas_u; fas_c; fas_c_qpr2; fas_samsung_m; fas_samsung_n;
   fas_samsung_o; fas_samsung_p; fas_grapheneos_u; fas_grapheneos_17; spec_q; spec_q_alt; spec_r;
   spec_u; spec_c_qpr2; spec_samsung_q; spec_grapheneos_u; spec_grapheneos_17; server_l;
   server_samsung_q].

(** The structure once its pointers are set. *)
Definition struct_of (h : jni_hook) : struct :=
  fold_left (fun s p => set_pointer (fst p) (snd p) s) (pointers h) (built h).
(** The parameters as a frame, and the structure's view of it. *)
Definition frame_of (h : jni_hook) (java : list jvalue) : frame := combine (map fst (params h)) java.
Definition args_of (h : jni_hook) (fr : frame) : option args_t :=
  match around h with
  | ForkSystemServer => server_of (read_slots (struct_of h) fr)
  | _ => app_of (read_slots (struct_of h) fr)
  end.
(** The variables after the context and its modules assigned to them, and the arguments the
    original is then called with. *)
Definition frame_after (h : jni_hook) (a : args_t) (fr : frame) : frame :=
  write_slots (struct_of h) (slots a) fr.
Definition passed_on (h : jni_hook) (fr : frame) : option (list jvalue) := mapM (var fr) (passed h).

(** ** Descriptors

    The signatures of the Java native interface: a primitive is a letter, a class is [L], its
    name and a semicolon, an array is a bracket and its elements' type. *)
Inductive jdesc := Primitive (c : ascii) | Class (name : string) | Array (elements : jdesc).

(** Up to the semicolon, and what follows it. *)
Fixpoint until_semicolon (s : list ascii) : option (list ascii * list ascii) :=
  match s with
  | [] => None
  | c :: s =>
      if Ascii.eqb c ";" then Some ([], s)
      else '(name, rest) ← until_semicolon s; Some (c :: name, rest)
  end.
Fixpoint parse_desc (fuel : nat) (s : list ascii) : option (jdesc * list ascii) :=
  match fuel, s with
  | S fuel, c :: s =>
      if Ascii.eqb c "[" then '(d, rest) ← parse_desc fuel s; Some (Array d, rest)
      else if Ascii.eqb c "L" then
        '(name, rest) ← until_semicolon s; Some (Class (string_of_list_ascii name), rest)
      else if existsb (Ascii.eqb c) (list_ascii_of_string "ZBCSIJFD") then Some (Primitive c, s)
      else None
  | _, _ => None
  end.
Fixpoint parse_params (fuel : nat) (s : list ascii) : option (list jdesc * list ascii) :=
  match fuel, s with
  | S fuel, c :: s' =>
      if Ascii.eqb c ")" then Some ([], s')
      else
        '(d, rest) ← parse_desc (List.length s) s;
        '(ds, rest) ← parse_params fuel rest; Some (d :: ds, rest)
  | _, _ => None
  end.
(** The parameters, and what is returned; [V] is nothing. *)
Definition parse_signature (s : string) : option (list jdesc * option jdesc) :=
  match list_ascii_of_string s with
  | c :: s =>
      if Ascii.eqb c "(" then
        '(ds, rest) ← parse_params (S (List.length s)) s;
        match rest with
        | ["V"%char] => Some (ds, None)
        | _ => '(d, rest) ← parse_desc (List.length rest) rest;
               match rest with [] => Some (ds, Some d) | _ => None end
        end
      else None
  | [] => None
  end.

(** The C++ type of a descriptor, of those that occur. *)
Definition ctype (d : jdesc) : option jtype :=
  match d with
  | Primitive "I" => Some Jint
  | Primitive "J" => Some Jlong
  | Primitive "Z" => Some Jboolean
  | Primitive _ => None
  | Class name => if String.eqb name "java/lang/String" then Some JString else None
  | Array (Primitive "I") => Some JintArray
  | Array (Primitive "J") => Some JlongArray
  | Array (Primitive "Z") => Some JbooleanArray
  | Array (Primitive _) => None
  | Array (Class _) | Array (Array _) => Some JobjectArray
  end.
(** The types a signature gives the function registered for it. *)
Definition native_type (s : string) : option (list jtype * option jtype) :=
  '(ds, r) ← parse_signature s;
  ts ← mapM ctype ds;
  match r with
  | None => Some (ts, None)
  | Some d => r ← ctype d; Some (ts, Some r)
  end.

(** ** Facts: the table *)

Definition fields_of (k : hook_kind) : list jtype :=
  map snd (match k with ForkSystemServer => server_fields | _ => app_fields end).
(** The references come first, and the pointers after them. *)
Definition references (k : hook_kind) : nat := match k with ForkSystemServer => 6 | _ => 10 end.

(** A function that is registered under its own type, builds a structure of its own parameters,
    and calls an original of the same type with all of them. *)
Record fits_signature (h : jni_hook) : Prop := {
  fits_native : native_type (signature h) = Some (map snd (params h), returns h);
  fits_cast : cast h = map snd (params h) /\ cast_returns h = returns h;
  fits_passed : passed h = map fst (params h);
  fits_names : NoDup (map fst (params h));
  fits_struct : refers (params h) (fields_of (around h)) (struct_of h);
  fits_aliased : NoDup (aliased (struct_of h));
  fits_references : firstn (references (around h)) (map (fun f => null (snd f)) (struct_of h)) =
                    repeat false (references (around h));
  fits_return : returns h = if returns_pid h then Some Jint else None }.

Lemma zygote_hooks_fit : Forall fits_signature zygote_hooks.
Proof.
  repeat apply Forall_cons_2; try apply Forall_nil_2;
    (constructor; [vm_compute; reflexivity|split; reflexivity|reflexivity
      |apply (bool_decide_unpack _); vm_compute; exact I
      |apply (bool_decide_unpack _); vm_compute; exact I
      |apply (bool_decide_unpack _); vm_compute; exact I
      |vm_compute; reflexivity|reflexivity]).
Qed.

(** Each entry calls the original that its own place in the table remembers. *)
Lemma zygote_hooks_index : map original zygote_hooks = seq 0 24.
Proof. reflexivity. Qed.
Lemma zygote_hooks_place h : h ∈ zygote_hooks -> zygote_hooks !! original h = Some h.
Proof.
  intros [i Hi]%list_elem_of_lookup.
  assert (map original zygote_hooks !! i = Some (original h)) as Ho
    by by rewrite list_lookup_fmap, Hi.
  rewrite zygote_hooks_index in Ho. apply lookup_seq in Ho as [-> _]. exact Hi.
Qed.

(** No two entries hook the same method, so that a class has each of them at most once. *)
Lemma zygote_hooks_nodup : NoDup (map (fun h => (base_name h, signature h)) zygote_hooks).
Proof. apply (bool_decide_unpack _). vm_compute. exact I. Qed.

(** ** Facts: what the original is called with *)

Section Passed.
Context (h : jni_hook) (Hh : fits_signature h) (java : list jvalue).
Context (Hjava : Forall2 (fun p v => has_type (snd p) v = true) (params h) java).

Lemma frame_typed : typed_frame (params h) (frame_of h java).
Proof. by apply combine_typed. Qed.

(** The view exists, and is the slots' own. *)
Lemma args_of_frame fr : typed_frame (params h) fr ->
  exists a, args_of h fr = Some a /\ slots a = read_slots (struct_of h) fr /\ typed_args a /\
    field_types a = fields_of (around h).
Proof.
  intros Hfr. destruct (read_slots_typed _ _ _ _ (fits_struct h Hh) Hfr) as [Ht Hn].
  pose proof (fits_references h Hh) as Hr. rewrite <- Hn in Hr. unfold args_of, fields_of, references in *.
  destruct (around h).
  1,2: destruct (app_slots_typed _ Ht Hr) as [a Ha]; exists (App a); unfold typed_args;
    rewrite Ha in *; by rewrite app_of_slots.
  destruct (server_slots_typed _ Ht) as [a Ha].
  { rewrite <- Hr, firstn_all2; [done|]. rewrite length_map. by rewrite <- (Forall2_length _ _ _ Ht). }
  exists (Server a). unfold typed_args. rewrite Ha in *. by rewrite server_of_slots.
Qed.

Lemma args_of_slots fr a :
  field_types a = fields_of (around h) -> read_slots (struct_of h) fr = slots a ->
  args_of h fr = Some a.
Proof.
  unfold args_of, field_types, fields_of. intros Hk ->.
  destruct a, (around h); try discriminate; first [apply app_of_slots|apply server_of_slots].
Qed.

(** What the original gets when the arguments are left as [a]: values of its parameters' types,
    of which the structure shows exactly [a], and the others are Java's. *)
Definition passes (a : args_t) (vs : list jvalue) : Prop :=
  Forall2 (fun p v => has_type (snd p) v = true) (params h) vs /\
  args_of h (frame_of h vs) = Some a /\
  forall x, x ∉ aliased (struct_of h) -> var (frame_of h vs) x = var (frame_of h java) x.

Lemma frame_of_values fr : typed_frame (params h) fr -> frame_of h (map snd fr) = fr.
Proof.
  intros Hfr. unfold frame_of. rewrite <- (typed_frame_names _ _ Hfr). clear.
  induction fr as [|[x v] fr IH]; cbn; [done|]. by rewrite IH.
Qed.

Lemma passed_on_passes a0 a :
  args_of h (frame_of h java) = Some a0 -> keeps a0 a ->
  exists vs, passed_on h (frame_after h a (frame_of h java)) = Some vs /\ passes a vs.
Proof.
  intros Ha0 (Hk1 & Hk2 & Hk3).
  destruct (args_of_frame _ frame_typed) as (a1 & Ha1 & Hs1 & Ht1 & Hf1).
  rewrite Ha1 in Ha0. injection Ha0 as ->.
  destruct (read_slots_typed _ _ _ _ (fits_struct h Hh) frame_typed) as [Ht Hn].
  assert (Forall2 (fun t v => slot_typed t v = true) (fields_of (around h)) (slots a)) as Hts.
  { rewrite <- Hf1, <- Hk1. by apply Hk3. }
  assert (typed_frame (params h) (frame_after h a (frame_of h java))) as Hfr.
  { eapply write_slots_typed; [apply Hh|apply Hh|exact Hts|exact frame_typed]. }
  exists (map snd (frame_after h a (frame_of h java))). split; [|split; [|split]].
  - unfold passed_on. rewrite (fits_passed h Hh), <- (typed_frame_names _ _ Hfr).
    apply vars_in_order. rewrite (typed_frame_names _ _ Hfr). apply Hh.
  - by apply typed_frame_values.
  - rewrite frame_of_values by done. apply args_of_slots; [congruence|]. apply read_write_slots.
    + apply Hh.
    + rewrite <- (Forall2_length _ _ _ Hts). apply (Forall2_length _ _ _ (fits_struct h Hh)).
    + intros x Hx. apply list_elem_of_omap in Hx as (f & Hf & Hx).
      apply list_elem_of_lookup in Hf as [i Hi].
      destruct (Forall2_lookup_r _ _ _ _ _ (fits_struct h Hh) Hi) as (t & _ & Hr).
      unfold slot_refers in Hr. rewrite Hx in Hr.
      destruct (var_typed _ _ _ _ frame_typed Hr) as (v & Hv & _). by exists v.
    + by rewrite Hk2, Hs1, Hn.
  - intros x Hx. rewrite frame_of_values by done. by apply var_write_other.
Qed.

Lemma map_eq_elem {A B} (f g : A -> B) l x : map f l = map g l -> x ∈ l -> f x = g x.
Proof.
  induction l as [|y l IH]; cbn; [by intros _ ?%elem_of_nil|]. intros [= H1 H2] [->|Hx]%elem_of_cons; auto.
Qed.

(** Arguments left alone are Java's own. *)
Lemma passes_unchanged a vs :
  args_of h (frame_of h java) = Some a -> passes a vs -> vs = java.
Proof.
  intros Ha (Hvs & Ha' & Hother).
  destruct (args_of_frame _ frame_typed) as (a1 & Ha1 & Hs1 & _).
  destruct (args_of_frame _ (combine_typed _ _ Hvs)) as (a2 & Ha2 & Hs2 & _).
  fold (frame_of h vs) in Ha2, Hs2.
  assert (read_slots (struct_of h) (frame_of h vs) = read_slots (struct_of h) (frame_of h java)) as Hr
    by congruence.
  assert (forall x, var (frame_of h vs) x = var (frame_of h java) x) as Hvar.
  { intros x. destruct (decide (x ∈ aliased (struct_of h))) as [Hx|Hx]; [|by apply Hother].
    apply list_elem_of_omap in Hx as (f & Hf & Hx). pose proof (map_eq_elem _ _ _ _ Hr Hf) as He.
    cbn beta in He. by rewrite Hx in He. }
  pose proof (typed_frame_names _ _ frame_typed) as Hn1.
  pose proof (typed_frame_names _ _ (combine_typed _ _ Hvs)) as Hn2. fold (frame_of h vs) in Hn2.
  pose proof (vars_in_order (frame_of h vs)) as H1. pose proof (vars_in_order (frame_of h java)) as H2.
  rewrite Hn2 in H1. rewrite Hn1 in H2.
  assert (mapM (var (frame_of h vs)) (map fst (params h)) = mapM (var (frame_of h java)) (map fst (params h))) as Hm.
  { by apply mapM_ext. }
  rewrite H1, H2 in Hm; [|apply Hh..]. injection Hm as Hm.
  unfold frame_of in Hm.
  assert (forall l : list jvalue, List.length (params h) = List.length l ->
    map snd (combine (map fst (params h)) l) = l) as Hc.
  { intros l. generalize (params h) as ps. clear. induction l as [|v l IH]; intros [|p ps] Hl; try done.
    cbn in *. rewrite IH; [done|lia]. }
  rewrite !Hc in Hm; [done|by eapply Forall2_length..].
Qed.
End Passed.
