(* ===== verification/HookGen.v ===== *)
(** * The generator of the hooked methods

    injector/gen_jni_hooks.py: from the parameters of each variant of a method, in order, the
    entry of the table that injector/jni_hooks.hpp holds. The text it prints is represented by
    what it declares. *)
From Stdlib Require Import ZArith Lia List String Ascii Bool.
From stdpp Require Import base list strings.
From S2P Require Import Prelude.
From S2P Require Import Args.
From S2P Require Import JniHooks.
Open Scope string_scope.
Open Scope list_scope.

(** ** Types and arguments *)

(** A C++ type and its descriptor. *)
Record JType := { cpp : jtype; jni : string }.
Definition primitives : list jtype := [Jint; Jboolean; Jlong].
(** [type.cpp + 'Array'] for a primitive. *)
Definition primitive_array (t : jtype) : jtype :=
  match t with Jint => JintArray | Jboolean => JbooleanArray | _ => JlongArray end.
Definition JArray (type : JType) : JType :=
  {| cpp := if bool_decide (cpp type ∈ primitives) then primitive_array (cpp type) else JobjectArray;
     jni := String.append "[" (jni type) |}.

Definition jint := {| cpp := Jint; jni := "I" |}.
Definition jintArray := JArray jint.
Definition jstring := {| cpp := JString; jni := "Ljava/lang/String;" |}.
Definition jboolean := {| cpp := Jboolean; jni := "Z" |}.
Definition jlong := {| cpp := Jlong; jni := "J" |}.
Definition jlongArray := JArray jlong.

(** An argument; the name of an anonymous one is the count of those made before it. *)
Record Argument := { arg_name : string; type : JType; set_arg : bool }.
Inductive declared := Named (a : Argument) | Anon (t : JType).
Definition argument (name : string) (t : JType) : declared :=
  Named {| arg_name := name; type := t; set_arg := false |}.
Definition pointer (name : string) (t : JType) : declared :=
  Named {| arg_name := name; type := t; set_arg := true |}.

Fixpoint number (cnt : nat) (ds : list declared) : list Argument * nat :=
  match ds with
  | [] => ([], cnt)
  | Named a :: ds => let '(args, cnt) := number cnt ds in (a :: args, cnt)
  | Anon t :: ds =>
      let name := String.append "_" (to_string (Z.of_nat cnt)) in
      let '(args, cnt) := number (S cnt) ds in
      ({| arg_name := name; type := t; set_arg := false |} :: args, cnt)
  end.

(** ** Methods *)

(** The classes [ForkAndSpec], [SpecApp] and [ForkServer]. *)
Definition base_name_of (k : hook_kind) : string :=
  match k with
  | ForkAndSpecialize => "nativeForkAndSpecialize"
  | SpecializeAppProcess => "nativeSpecializeAppProcess"
  | ForkSystemServer => "nativeForkSystemServer"
  end.
Definition ret_of (k : hook_kind) : bool * option jtype :=
  match k with SpecializeAppProcess => (false, None) | _ => (true, Some Jint) end.
Definition init_args (k : hook_kind) : struct :=
  match k with
  | ForkSystemServer =>
      ServerSpecializeArgs_v1_new "uid" "gid" "gids" "runtime_flags" "permitted_capabilities"
        "effective_capabilities"
  | _ =>
      AppSpecializeArgs_v5_new "uid" "gid" "gids" "runtime_flags" "rlimits" "mount_external"
        "se_info" "nice_name" "instruction_set" "app_data_dir"
  end.
(** [jni]. *)
Definition jni_of (k : hook_kind) (args : list Argument) : string :=
  let r := match snd (ret_of k) with Some _ => "I" | None => "V" end in
  String.append "(" (String.append (String.concat "" (map (fun a => jni (type a)) args))
    (String.append ")" r)).

(** [gen_jni_def] with [body] and [orig_method], for the [i]th method. *)
Definition gen_jni_def (i : nat) (k : hook_kind) (args : list Argument) : jni_hook :=
  let types := map (fun a => cpp (type a)) args in
  let names := map arg_name args in
  {| base_name := base_name_of k;
     signature := jni_of k args;
     params := combine names types;
     returns := snd (ret_of k);
     built := init_args k;
     pointers := map (fun a => (arg_name a, arg_name a)) (List.filter set_arg args);
     around := k;
     cast := types;
     cast_returns := snd (ret_of k);
     original := i;
     passed := names;
     returns_pid := fst (ret_of k) |}.

Fixpoint gen_from (i cnt : nat) (ms : list (hook_kind * list declared)) : list jni_hook :=
  match ms with
  | [] => []
  | (k, ds) :: ms =>
      let '(args, cnt) := number cnt ds in
      gen_jni_def i k args :: gen_from (S i) cnt ms
  end.

(** ** The methods

    In the order in which the script defines them, which is also the order of its table. *)
Definition uid := argument "uid" jint.
Definition gid := argument "gid" jint.
Definition gids := argument "gids" jintArray.
Definition runtime_flags := argument "runtime_flags" jint.
Definition rlimits := argument "rlimits" (JArray jintArray).
Definition mount_external := argument "mount_external" jint.
Definition se_info := argument "se_info" jstring.
Definition nice_name := argument "nice_name" jstring.
Definition fds_to_close := argument "fds_to_close" jintArray.
Definition instruction_set := argument "instruction_set" jstring.
Definition app_data_dir := argument "app_data_dir" jstring.
Definition fds_to_ignore := pointer "fds_to_ignore" jintArray.
Definition is_child_zygote := pointer "is_child_zygote" jboolean.
Definition is_top_app := pointer "is_top_app" jboolean.
Definition pkg_data_info_list := pointer "pkg_data_info_list" (JArray jstring).
Definition whitelisted_data_info_list := pointer "whitelisted_data_info_list" (JArray jstring).
Definition mount_data_dirs := pointer "mount_data_dirs" jboolean.
Definition mount_storage_dirs := pointer "mount_storage_dirs" jboolean.
Definition mount_sysprop_overrides := pointer "mount_sysprop_overrides" jboolean.
Definition use_fifo_ui := argument "use_fifo_ui" jboolean.
Definition cgroup_uid := argument "cgroup_uid" jint.
Definition permitted_capabilities := argument "permitted_capabilities" jlong.
Definition effective_capabilities := argument "effective_capabilities" jlong.

Definition methods : list (hook_kind * list declared) :=
  [ (* fas_l *) (ForkAndSpecialize,
     [uid; gid; gids; runtime_flags; rlimits; mount_external; se_info; nice_name;
      fds_to_close; instruction_set; app_data_dir]);
   (* fas_o *) (ForkAndSpecialize,
     [uid; gid; gids; runtime_flags; rlimits; mount_external; se_info; nice_name;
      fds_to_close; fds_to_ignore; instruction_set; app_data_dir]);
   (* fas_p *) (ForkAndSpecialize,
     [uid; gid; gids; runtime_flags; rlimits; mount_external; se_info; nice_name;
      fds_to_close; fds_to_ignore; is_child_zygote; instruction_set; app_data_dir]);
   (* fas_q_alt *) (ForkAndSpecialize,
     [uid; gid; gids; runtime_flags; rlimits; mount_external; se_info; nice_name;
      fds_to_close; fds_to_ignore; is_child_zygote; instruction_set; app_data_dir; is_top_app]);
   (* fas_r *) (ForkAndSpecialize,
     [uid; gid; gids; runtime_flags; rlimits; mount_external; se_info; nice_name;
      fds_to_close; fds_to_ignore; is_child_zygote; instruction_set; app_data_dir; is_top_app;
      pkg_data_info_list; whitelisted_data_info_list; mount_data_dirs; mount_storage_dirs]);
   (* fas_u *) (ForkAndSpecialize,
     [uid; gid; gids; runtime_flags; rlimits; mount_external; se_info; nice_name;
      fds_to_close; fds_to_ignore; is_child_zygote; instruction_set; app_data_dir; is_top_app;
      pkg_data_info_list; whitelisted_data_info_list; mount_data_dirs; mount_storage_dirs;
      mount_sysprop_overrides]);
   (* fas_c *) (ForkAndSpecialize,
     [uid; gid; gids; runtime_flags; rlimits; mount_external; se_info; nice_name;
      fds_to_close; fds_to_ignore; is_child_zygote; instruction_set; app_data_dir; is_top_app;
      use_fifo_ui; pkg_data_info_list; whitelisted_data_info_list; mount_data_dirs;
      mount_storage_dirs; mount_sysprop_overrides]);
   (* fas_c_qpr2 *) (ForkAndSpecialize,
     [uid; cgroup_uid; gid; gids; runtime_flags; rlimits; mount_external; se_info; nice_name;
      fds_to_close; fds_to_ignore; is_child_zygote; instruction_set; app_data_dir; is_top_app;
      use_fifo_ui; pkg_data_info_list; whitelisted_data_info_list; mount_data_dirs;
      mount_storage_dirs; mount_sysprop_overrides]);
   (* fas_samsung_m *) (ForkAndSpecialize,
     [uid; gid; gids; runtime_flags; rlimits; mount_external; se_info; Anon jint; Anon jint;
      nice_name; fds_to_close; instruction_set; app_data_dir]);
   (* fas_samsung_n *) (ForkAndSpecialize,
     [uid; gid; gids; runtime_flags; rlimits; mount_external; se_info; Anon jint; Anon jint;
      nice_name; fds_to_close; instruction_set; app_data_dir; Anon jint]);
   (* fas_samsung_o *) (ForkAndSpecialize,
     [uid; gid; gids; runtime_flags; rlimits; mount_external; se_info; Anon jint; Anon jint;
      nice_name; fds_to_close; fds_to_ignore; instruction_set; app_data_dir]);
   (* fas_samsung_p *) (ForkAndSpecialize,
     [uid; gid; gids; runtime_flags; rlimits; mount_external; se_info; Anon jint; Anon jint;
      nice_name; fds_to_close; fds_to_ignore; is_child_zygote; instruction_set; app_data_dir]);
   (* fas_grapheneos_u *) (ForkAndSpecialize,
     [uid; gid; gids; runtime_flags; rlimits; mount_external; se_info; nice_name;
      fds_to_close; fds_to_ignore; is_child_zygote; instruction_set; app_data_dir; is_top_app;
      pkg_data_info_list; whitelisted_data_info_list; mount_data_dirs; mount_storage_dirs;
      mount_sysprop_overrides; Anon jlongArray]);
   (* fas_grapheneos_17 *) (ForkAndSpecialize,
     [Anon jlongArray; uid; gid; gids; runtime_flags; rlimits; mount_external; se_info;
      nice_name; fds_to_close; fds_to_ignore; is_child_zygote; instruction_set; app_data_dir;
      is_top_app; Anon jboolean; pkg_data_info_list; whitelisted_data_info_list;
      mount_data_dirs; mount_storage_dirs; mount_sysprop_overrides]);
   (* spec_q *) (SpecializeAppProcess,
     [uid; gid; gids; runtime_flags; rlimits; mount_external; se_info; nice_name;
      is_child_zygote; instruction_set; app_data_dir]);
   (* spec_q_alt *) (SpecializeAppProcess,
     [uid; gid; gids; runtime_flags; rlimits; mount_external; se_info; nice_name;
      is_child_zygote; instruction_set; app_data_dir; is_top_app]);
   (* spec_r *) (SpecializeAppProcess,
     [uid; gid; gids; runtime_flags; rlimits; mount_external; se_info; nice_name;
      is_child_zygote; instruction_set; app_data_dir; is_top_app; pkg_data_info_list;
      whitelisted_data_info_list; mount_data_dirs; mount_storage_dirs]);
   (* spec_u *) (SpecializeAppProcess,
     [uid; gid; gids; runtime_flags; rlimits; mount_external; se_info; nice_name;
      is_child_zygote; instruction_set; app_data_dir; is_top_app; pkg_data_info_list;
      whitelisted_data_info_list; mount_data_dirs; mount_storage_dirs; mount_sysprop_overrides]);
   (* spec_c_qpr2 *) (SpecializeAppProcess,
     [uid; cgroup_uid; gid; gids; runtime_flags; rlimits; mount_external; se_info; nice_name;
      is_child_zygote; instruction_set; app_data_dir; is_top_app; pkg_data_info_list;
      whitelisted_data_info_list; mount_data_dirs; mount_storage_dirs; mount_sysprop_overrides]);
   (* spec_samsung_q *) (SpecializeAppProcess,
     [uid; gid; gids; runtime_flags; rlimits; mount_external; se_info; Anon jint; Anon jint;
      nice_name; is_child_zygote; instruction_set; app_data_dir]);
   (* spec_grapheneos_u *) (SpecializeAppProcess,
     [uid; gid; gids; runtime_flags; rlimits; mount_external; se_info; nice_name;
      is_child_zygote; instruction_set; app_data_dir; is_top_app; pkg_data_info_list;
      whitelisted_data_info_list; mount_data_dirs; mount_storage_dirs;
      mount_sysprop_overrides; Anon jlongArray]);
   (* spec_grapheneos_17 *) (SpecializeAppProcess,
     [Anon jlongArray; uid; gid; gids; runtime_flags; rlimits; mount_external; se_info;
      nice_name; is_child_zygote; instruction_set; app_data_dir; is_top_app;
      pkg_data_info_list; whitelisted_data_info_list; mount_data_dirs; mount_storage_dirs;
      mount_sysprop_overrides]);
   (* server_l *) (ForkSystemServer,
     [uid; gid; gids; runtime_flags; rlimits; permitted_capabilities; effective_capabilities]);
   (* server_samsung_q *) (ForkSystemServer,
     [uid; gid; gids; runtime_flags; Anon jint; Anon jint; rlimits; permitted_capabilities;
      effective_capabilities])].

Definition generated : list jni_hook := gen_from 0 0 methods.

(** The file in the tree is what the script generates. *)
Lemma zygote_hooks_generated : generated = zygote_hooks.
Proof. vm_compute. reflexivity. Qed.
