(* ===== verification/InjState.v ===== *)
(** * The state and the calls of the injected library

    injector/module.hpp and the globals of injector/hook.cpp: the context that lives while
    zygote forks and specializes a process, the modules it loads, the context of the hooks, and
    the calls all of them make. Modules are third-party code: running one is a series of
    calls that tell it the answer of its last API call and learn what it does next. *)
From Stdlib Require Import ZArith Lia List String Ascii Bool.
From stdpp Require Import base list strings.
From S2P Require Import Prelude.
From S2P Require Import Scan.
From S2P Require Import Elf.
From S2P Require Import Fossil.
From S2P Require Import Mounts.
From S2P Require Import Daemon.
From S2P Require Import Atexit.
From S2P Require Import Solist.
From S2P Require Import Sys.
From S2P Require Import Seccomp.
From S2P Require Import JniEnv.
From S2P Require Import Jni.
From S2P Require Import Spoof.
From S2P Require Import Args.
From S2P Require Import JniHooks.
Open Scope string_scope.
Open Scope list_scope.
Open Scope Z_scope.

Definition ZYGISK_API_VERSION : Z := 5.
Definition AID_ISOLATED_START : Z := 90000.
Definition AID_ISOLATED_END : Z := 99999.

(** The flags of a context. *)
Definition POST_SPECIALIZE : Z := Z.shiftl 1 0.
Definition APP_FORK_AND_SPECIALIZE : Z := Z.shiftl 1 1.
Definition APP_SPECIALIZE : Z := Z.shiftl 1 2.
Definition SERVER_FORK_AND_SPECIALIZE : Z := Z.shiftl 1 3.
Definition DO_REVERT_UNMOUNT : Z := Z.shiftl 1 4.
Definition SKIP_CLOSE_LOG_PIPE : Z := Z.shiftl 1 5.

(** ** Data *)

(** The functions the API table can hold. *)
Inductive api_fn :=
| hookJniNativeMethods_ | pltHookRegister_ | pltHookExclude_ | pltHookCommit_
| connectCompanion_ | setOption_ | getModuleDir_ | getFlags_
| pltHookRegister4_ | exemptFd_ | pltHookCommit4_.
#[export] Instance api_fn_eq_dec : EqDecision api_fn.
Proof. solve_decision. Defined.

(** A call of the API by a module. *)
Inductive api_call :=
| RegisterModule (module : option Z)     (* the version it was built against, or a null pointer *)
| HookJni (clz : string) (methods : list JNINativeMethod)
| PltHookRegister (regex symbol : option string) (fn backup : Z)
| PltHookExclude (regex symbol : option string)
| PltHookCommit
| ConnectCompanionCall
| SetOption (opt : Z)
| GetModuleDirCall
| GetFlags
| PltHookRegister4 (dev inode : Z) (symbol : option string) (fn backup : Z)
| ExemptFd (fd : Z)
| PltHookCommit4.

(** What a call answers; [AMethods] is the array [hookJniNativeMethods] leaves. *)
Inductive api_answer :=
| ANothing | ABool (b : bool) | AInt (n : Z) | AMethods (methods : list JNINativeMethod).
(** What the code of a module does next, from its entry or from the answer of its last call. *)
Inductive module_act := Calls (c : api_call) | Leaves (new : args_t) | Returns.

(** A module: [m_api] is the version behind [mod], null until it registers. *)
Record ZygiskModule := {
  m_id : Z; m_handle : Z; m_unload : bool; m_table : list (option api_fn); m_api : option Z }.

Record RegisterInfo := {
  ri_regex : string; ri_symbol : string; ri_callback : Z; ri_backup : Z }.
Record IgnoreInfo := { ii_regex : string; ii_symbol : string }.

Record ZygiskContext := {
  args : args_t; process : option string; modules : list ZygiskModule; pid : Z; flags : Z;
  info_flags : Z; allowed_fds : list bool; exempted_fds : list Z;
  register_info : list RegisterInfo; ignore_info : list IgnoreInfo }.

(** An installed PLT hook: where, and which of our functions replaced the original. *)
Inductive plt_fn := Pfork | Punshare | Pstrdup | Pproperty_get | Psetstacksize.
#[export] Instance plt_fn_eq_dec : EqDecision plt_fn.
Proof. solve_decision. Defined.
Record PltHook := { h_dev : Z; h_inode : Z; h_fn : plt_fn }.

Record HookContext := {
  zygote_methods : list JNINativeMethod; start_addr : Z; block_size : Z;
  should_spoof_maps : bool; should_unmap : bool; skip_hooking_unloader : bool;
  zygote_unmounted : bool; MODIFIER_NATIVE : Z; member_getModifiers : Z;
  cached_map_infos : list LMap; plt_backup : list PltHook; zygote_traces : list mount_info }.

(** The table as the library is loaded: the generated functions, wherever their code is. *)
Definition native_methods (code : nat -> Z) : list JNINativeMethod :=
  imap (fun i h => {| jm_name := base_name h; jm_signature := signature h; fnPtr := code i |})
    zygote_hooks.

(** The globals: [g_ctx] points to the context while [z_active]. *)
Record zygote := {
  z_active : bool; z_ctx : ZygiskContext; z_hook : option HookContext; z_linker : linker_state;
  z_art : art_state;
  z_freed : list ZygiskModule }.   (* the modules of the last context, as they were freed *)

(** ** Calls *)

Inductive hook_point := OnLoad | PreApp | PostApp | PreServer | PostServer.

(** <android/dlext.h>, as far as it is filled in. *)
Record android_dlextinfo := {
  ext_flags : Z; reserved_addr : Z; reserved_size : Z; relro_fd : Z; library_fd : Z;
  library_fd_offset : Z; library_namespace : Z }.

Inductive inj : Type -> Type :=
| Net {X} (e : net X) : inj X
| Libc {X} (e : libc LoadedImage X) : inj X
| Lnk {X} (e : lnk LoadedImage X) : inj X
| Jni {X} (e : jni X) : inj X
| Vm {X} (e : vm X) : inj X
| Scmp {X} (e : scmp X) : inj X
| OldFork : inj Z
| BlockSigchld (block : bool) : inj unit
| OpenFdDir : inj (option (Z * list string))          (* its descriptor, and the names in it *)
| CloseFd (fd : Z) : inj unit
| ReadLinkAt (name : string) (size : Z) : inj (option string)
| Umount (target : string) : inj bool
| SetNs (fd : Z) : inj bool
| OldUnshare (flags : Z) : inj Z
| StatUid (path : string) : inj (option Z)
| Setenv (name value : string) : inj unit
| GetPid : inj Z
| GetTid : inj Z
| Mountinfo : inj (option string)                     (* /proc/self/mountinfo *)
| StringChars (s : string) : inj bool                 (* whether the JVM gave the characters *)
| ReleaseChars (chars : option string) : inj unit
| NewIntArray (len : Z) : inj bool
| AndroidDlopenExt (filename : string) (flags : Z) (info : android_dlextinfo) : inj Z
| Dlsym (handle : Z) (symbol : string) : inj Z
| Dlclose (handle : Z) : inj bool
| RunModule (id : Z) (at_ : hook_point) (answer : api_answer) : inj module_act
| Regcomp (pattern : string) : inj bool
| Regexec (pattern path : string) : inj bool
| LspltRegister (dev inode : Z) (symbol : string) (callback backup : Z) : inj bool
| LspltHook (h : PltHook) (restore : bool) : inj bool (* ours; or the original put back *)
| LspltCommit (restore : bool) : inj bool
| LspltScan : inj (list LMap)
| Hooked (f : plt_fn) : inj bool                      (* whether lsplt filled in the original *)
| ReadRange (start len : Z) : inj (list ascii)
| WriteRange (start : Z) (bytes : list ascii) : inj unit
| Munmap (start len : Z) : inj Z
| OldSetStackSize : inj Z
| Dlopen (path : string) : inj Z
| CreatedVM (fn : Z) : inj Z                          (* the virtual machine, 0 for none *)
| VMEnv (vm : Z) : inj (Z * bool)                     (* the environment, and JNI_EDETACHED *)
| AttachThread (vm : Z) : inj Z
| DetachThread (vm : Z) : inj unit
| Getrlimit : inj (option Z)                          (* rlim_max of RLIMIT_NOFILE *)
| GetUid : inj Z
| GetGid : inj Z
| GetGroups (size : Z) : inj (Z * list Z)             (* the count, and what was stored *)
| CapGet : inj (option (Z * Z * Z * Z))               (* permitted and effective, low then high *)
| DeleteLocalRef : inj unit
| PthreadCreate : inj Z
| PthreadDetach : inj unit
| Original (fn : Z) (arguments : list jvalue) : inj (list (plt_fn * Z)).
                                                      (* the hooked functions zygote called *)

(** State passing: every operation reads and returns the globals. *)
Definition M (A : Type) : Type := zygote -> prog inj (A * zygote).
Definition ret {A} (a : A) : M A := fun z => Ret (a, z).
Definition mbind {A B} (m : M A) (f : A -> M B) : M B := fun z => bind (m z) (fun '(a, z) => f a z).
Definition stop {A} (why : string) : M A := fun _ => Halt (Undefined why).
Definition do_ {X} (e : inj X) : M X := fun z => bind (call e) (fun x => Ret (x, z)).
Definition embed {E A} (h : forall X, E X -> inj X) (p : prog E A) : M A :=
  fun z => bind (lift h p) (fun a => Ret (a, z)).
Definition gets {A} (f : zygote -> A) : M A := fun z => Ret (f z, z).
Definition modify (f : zygote -> zygote) : M unit := fun z => Ret (tt, f z).

Declare Scope m_scope.
Delimit Scope m_scope with m.
Notation "'let!' x := m 'in' k" := (mbind m (fun x => k))
  (at level 100, x strict pattern, m at next level, right associativity) : m_scope.
Notation "m >> k" := (mbind m (fun _ => k)) (at level 100, right associativity) : m_scope.
Open Scope m_scope.

Definition when (b : bool) (m : M unit) : M unit := if b then m else ret tt.
Fixpoint each {A} (l : list A) (body : A -> M unit) : M unit :=
  match l with [] => ret tt | x :: l => body x >> each l body end.
(** The elements a body answers true for, and how many they are not. *)
Fixpoint keep_if {A} (l : list A) (body : A -> M bool) : M (list A) :=
  match l with
  | [] => ret []
  | x :: l => let! k := body x in let! rest := keep_if l body in ret (if k : bool then x :: rest else rest)
  end.

(** ** Updates *)

Definition on_ctx (f : ZygiskContext -> ZygiskContext) (z : zygote) : zygote :=
  {| z_active := z_active z; z_ctx := f (z_ctx z); z_hook := z_hook z; z_linker := z_linker z;
     z_art := z_art z; z_freed := z_freed z |}.
Definition on_hook (f : HookContext -> HookContext) (z : zygote) : zygote :=
  {| z_active := z_active z; z_ctx := z_ctx z; z_hook := option_map f (z_hook z);
     z_linker := z_linker z; z_art := z_art z; z_freed := z_freed z |}.
Definition set_linker (l : linker_state) (z : zygote) : zygote :=
  {| z_active := z_active z; z_ctx := z_ctx z; z_hook := z_hook z; z_linker := l; z_art := z_art z; z_freed := z_freed z |}.
Definition set_active (b : bool) (z : zygote) : zygote :=
  {| z_active := b; z_ctx := z_ctx z; z_hook := z_hook z; z_linker := z_linker z;
     z_art := z_art z; z_freed := z_freed z |}.
Definition set_hook (h : option HookContext) (z : zygote) : zygote :=
  {| z_active := z_active z; z_ctx := z_ctx z; z_hook := h; z_linker := z_linker z;
     z_art := z_art z; z_freed := z_freed z |}.

Definition set_art (a : art_state) (z : zygote) : zygote :=
  {| z_active := z_active z; z_ctx := z_ctx z; z_hook := z_hook z; z_linker := z_linker z;
     z_art := a; z_freed := z_freed z |}.
Definition set_freed (ms : list ZygiskModule) (z : zygote) : zygote :=
  {| z_active := z_active z; z_ctx := z_ctx z; z_hook := z_hook z; z_linker := z_linker z;
     z_art := z_art z; z_freed := ms |}.

Definition set_args (a : args_t) (c : ZygiskContext) : ZygiskContext :=
  {| args := a; process := process c; modules := modules c; pid := pid c; flags := flags c;
     info_flags := info_flags c; allowed_fds := allowed_fds c; exempted_fds := exempted_fds c;
     register_info := register_info c; ignore_info := ignore_info c |}.
Definition set_process (p : option string) (c : ZygiskContext) : ZygiskContext :=
  {| args := args c; process := p; modules := modules c; pid := pid c; flags := flags c;
     info_flags := info_flags c; allowed_fds := allowed_fds c; exempted_fds := exempted_fds c;
     register_info := register_info c; ignore_info := ignore_info c |}.
Definition set_modules (ms : list ZygiskModule) (c : ZygiskContext) : ZygiskContext :=
  {| args := args c; process := process c; modules := ms; pid := pid c; flags := flags c;
     info_flags := info_flags c; allowed_fds := allowed_fds c; exempted_fds := exempted_fds c;
     register_info := register_info c; ignore_info := ignore_info c |}.
Definition set_pid (p : Z) (c : ZygiskContext) : ZygiskContext :=
  {| args := args c; process := process c; modules := modules c; pid := p; flags := flags c;
     info_flags := info_flags c; allowed_fds := allowed_fds c; exempted_fds := exempted_fds c;
     register_info := register_info c; ignore_info := ignore_info c |}.
Definition add_flag (m : Z) (c : ZygiskContext) : ZygiskContext :=
  {| args := args c; process := process c; modules := modules c; pid := pid c;
     flags := Z.lor (flags c) m;
     info_flags := info_flags c; allowed_fds := allowed_fds c; exempted_fds := exempted_fds c;
     register_info := register_info c; ignore_info := ignore_info c |}.
Definition set_info_flags (m : Z) (c : ZygiskContext) : ZygiskContext :=
  {| args := args c; process := process c; modules := modules c; pid := pid c; flags := flags c;
     info_flags := m; allowed_fds := allowed_fds c; exempted_fds := exempted_fds c;
     register_info := register_info c; ignore_info := ignore_info c |}.
Definition set_fds (allowed : list bool) (exempted : list Z) (c : ZygiskContext) : ZygiskContext :=
  {| args := args c; process := process c; modules := modules c; pid := pid c; flags := flags c;
     info_flags := info_flags c; allowed_fds := allowed; exempted_fds := exempted;
     register_info := register_info c; ignore_info := ignore_info c |}.
Definition set_regexes (r : list RegisterInfo) (i : list IgnoreInfo) (c : ZygiskContext) : ZygiskContext :=
  {| args := args c; process := process c; modules := modules c; pid := pid c; flags := flags c;
     info_flags := info_flags c; allowed_fds := allowed_fds c; exempted_fds := exempted_fds c;
     register_info := r; ignore_info := i |}.

(** ** Facts: running operations *)

Lemma mbind_seq {A B} (m : M A) (f : A -> M B) z (S : list (event inj) -> res (A * zygote) -> Prop) Q :
  every_run (m z) S ->
  (forall tr h, S tr (Stop h) -> Q tr (Stop h)) ->
  (forall tr a z', S tr (Val (a, z')) -> every_run (f a z') (fun tr' r' => Q (tr ++ tr') r')) ->
  every_run (mbind m f z) Q.
Proof.
  intros HS Hh Hv. eapply every_run_seq; [exact HS|exact Hh|]. intros tr [a z'] Ha. by apply Hv.
Qed.

Lemma mbind_do {X B} (e : inj X) (f : X -> M B) z Q :
  (forall x, every_run (f x z) (fun tr r => Q (Ev e x :: tr) r)) -> every_run (mbind (do_ e) f z) Q.
Proof. intros H x. exact (H x). Qed.

Lemma mbind_gets {A B} (g : zygote -> A) (f : A -> M B) z Q :
  every_run (f (g z) z) Q -> every_run (mbind (gets g) f z) Q.
Proof. done. Qed.

Lemma mbind_modify {B} g (f : unit -> M B) z Q :
  every_run (f tt (g z)) Q -> every_run (mbind (modify g) f z) Q.
Proof. done. Qed.

(** A part's own program changes nothing of the state, whatever its events. *)
Lemma mbind_embed {E A B} (h : forall X, E X -> inj X) (p : prog E A) (f : A -> M B) z Q :
  (forall tr x, Q (map (lift_event h) tr) (Stop x)) ->
  (forall tr a, exec p tr (Val a) ->
     every_run (f a z) (fun tr' r => Q (map (lift_event h) tr ++ tr') r)) ->
  every_run (mbind (embed h p) f z) Q.
Proof.
  intros Hh Hv. unfold mbind, embed. apply bind_bind, every_run_bind, every_run_lift.
  apply every_run_exec. intros tr [a|x] He; [|apply Hh]. exact (Hv tr a He).
Qed.

Lemma omap_lifted {E X} (h : forall X, E X -> inj X) (f : event inj -> option X) tr :
  (forall ev, f (lift_event h ev) = None) -> omap f (map (lift_event h) tr) = [].
Proof. intros Hf. induction tr as [|ev tr IH]; cbn; [done|]. by rewrite Hf. Qed.

(** What an operation leaves alone, and the calls it makes. *)
Definition memits {A} (P : event inj -> bool) (m : M A) : Prop := forall z, emits P (m z).

Lemma memits_ret {A} P (a : A) : memits P (ret a).
Proof. done. Qed.
Lemma memits_stop {A} P why : memits P (stop (A := A) why).
Proof. done. Qed.
Lemma memits_gets {A} P (f : zygote -> A) : memits P (gets f).
Proof. done. Qed.
Lemma memits_modify P f : memits P (modify f).
Proof. done. Qed.
Lemma memits_do {X} P (e : inj X) : (forall x, P (Ev e x) = true) -> memits P (do_ e).
Proof. intros H z x. cbn. by rewrite H. Qed.
Lemma memits_bind {A B} P (m : M A) (f : A -> M B) :
  memits P m -> (forall a, memits P (f a)) -> memits P (mbind m f).
Proof. intros Hm Hf z. apply emits_bind; [apply Hm|]. intros [a z']. apply Hf. Qed.
Lemma memits_each {A} P (l : list A) body : (forall x, memits P (body x)) -> memits P (each l body).
Proof. intros H. induction l as [|x l IH]; cbn; [done|]. by apply memits_bind. Qed.
Lemma memits_keep_if {A} P (l : list A) body :
  (forall x, memits P (body x)) -> memits P (keep_if l body).
Proof.
  intros H. induction l as [|x l IH]; cbn; [done|]. apply memits_bind; [done|]. intros k.
  by apply memits_bind.
Qed.
Lemma memits_when P b m : memits P m -> memits P (when b m).
Proof. by destruct b. Qed.
Lemma memits_embed {E A} P (h : forall X, E X -> inj X) (p : prog E A) :
  emits (fun ev => P (lift_event h ev)) p -> memits P (embed h p).
Proof. intros H z. apply emits_bind; [by apply emits_lift|done]. Qed.

(** An invariant of the state, and the kind of the calls, together. *)
Definition minv {A} (I : zygote -> Prop) (P : event inj -> bool) (m : M A) : Prop :=
  forall z, I z -> every_run (m z) (fun tr r =>
    forallb P tr = true /\ match r with Val r => I (snd r) | Stop _ => True end).

Section Minv.
Context (I : zygote -> Prop) (P : event inj -> bool).

Lemma minv_ret {A} (a : A) : minv I P (ret a).
Proof. done. Qed.
Lemma minv_stop {A} why : minv I P (stop (A := A) why).
Proof. done. Qed.
Lemma minv_gets {A} (f : zygote -> A) : minv I P (gets f).
Proof. done. Qed.
Lemma minv_modify f : (forall z, I z -> I (f z)) -> minv I P (modify f).
Proof. intros H z Hz. by split; [|apply H]. Qed.
Lemma minv_do {X} (e : inj X) : (forall x, P (Ev e x) = true) -> minv I P (do_ e).
Proof. intros H z Hz x. cbn. by rewrite H. Qed.
Lemma minv_bind {A B} (m : M A) (f : A -> M B) :
  minv I P m -> (forall a, minv I P (f a)) -> minv I P (mbind m f).
Proof.
  intros Hm Hf z Hz. eapply mbind_seq; [by apply Hm|done|]. intros tr a z' [Htr Hz'].
  eapply every_run_mono; [|by apply Hf]. intros tr' r [Htr' Hr]. by rewrite forallb_app, Htr, Htr'.
Qed.
(** What was read is known of the state that follows. *)
Lemma minv_read {A B} (g : zygote -> A) (f : A -> M B) :
  (forall z, I z -> minv I P (f (g z))) -> minv I P (mbind (gets g) f).
Proof. intros H z Hz. apply mbind_gets. by apply (H z). Qed.
Lemma minv_each {A} (l : list A) body : (forall x, minv I P (body x)) -> minv I P (each l body).
Proof. intros H. induction l as [|x l IH]; cbn [each]; [done|]. by apply minv_bind. Qed.
Lemma minv_keep_if {A} (l : list A) body :
  (forall x, minv I P (body x)) -> minv I P (keep_if l body).
Proof.
  intros H. induction l as [|x l IH]; cbn [keep_if]; [done|]. apply minv_bind; [done|]. intros k.
  by apply minv_bind.
Qed.
Lemma minv_when b m : minv I P m -> minv I P (when b m).
Proof. by destruct b. Qed.
Lemma minv_embed {E A} (h : forall X, E X -> inj X) (p : prog E A) :
  (forall ev, P (lift_event h ev) = true) -> minv I P (embed h p).
Proof.
  intros HP z Hz. apply every_run_bind, every_run_lift, every_run_trivial.
  assert (forall tr, forallb P (map (lift_event h) tr) = true) as H.
  { intros tr. induction tr as [|ev tr IH]; [done|]. cbn. by rewrite HP. }
  intros tr [a|x]; [|done]. cbn. by rewrite forallb_app, H.
Qed.
End Minv.

(** Walks an operation; [upd] settles what is left of the invariant after an update. *)
Ltac minv_tac upd :=
  repeat first
    [ solve [eauto 2 with neo]
    | apply minv_ret | apply minv_stop | apply minv_gets
    | apply minv_modify; solve [upd]
    | apply minv_do; intros; reflexivity
    | apply minv_embed; intros []; reflexivity
    | apply minv_bind; [|intros]
    | apply minv_each; intros | apply minv_keep_if; intros | apply minv_when
    | match goal with
      | |- minv _ _ (if ?b then _ else _) => destruct b
      | |- minv _ _ (match ?x with _ => _ end) => destruct x
      | |- minv _ _ (let _ := _ in _) => cbv zeta
      end ].

Ltac memits_tac :=
  repeat first
    [ apply memits_ret | apply memits_stop | apply memits_gets | apply memits_modify
    | apply memits_do; intros; reflexivity
    | solve [eauto with neo]
    | apply memits_bind; [|intros]
    | apply memits_each; intros | apply memits_keep_if; intros | apply memits_when
    | match goal with
      | |- memits _ (if ?b then _ else _) => destruct b
      | |- memits _ (match ?x with _ => _ end) => destruct x
      | |- memits _ (let _ := _ in _) => cbv zeta
      end ].

(** ** A sample process, for examples

    A world in which every call does what is hoped of it; the daemon answers that the device
    is rooted with KernelSU, and one mount is busy. *)
Definition calm_net (X : Type) (e : net X) : X :=
  match e with
  | Socket => 5
  | ConnectTo _ _ => true
  | Write _ bs => Wrote (List.length bs)
  | Read _ n => Got (if Nat.eqb n 4 then [0; 0; 0; 0x20] else repeat 1 n)
  | RecvMsg _ => Some 9
  | SleepSec _ | Close _ => tt
  end.
Definition calm_libc (X : Type) (e : libc LoadedImage X) : X :=
  match e with
  | OpenLibc => None
  | ReadArray _ => {| array_ := 0; entries := []; size_ := 0; extracted_count_ := 0;
                      capacity_ := 0; total_appends_ := 0 |}
  | TryLock _ => true
  | Mprotect _ _ _ => 0
  | StoreEntries _ _ | StoreCounters _ _ _ _ | Unlock _ | SchedYield | Madvise _ _ => tt
  end.
Definition calm_lnk (X : Type) (e : lnk LoadedImage X) : X :=
  match e with
  | OpenLinker => None
  | ReadWord _ | ReadByte _ | ReadU64 _ => 0
  | ReadCStr _ => ""
  | ReadStdString _ => (O, "")
  | GetRealpath _ _ => None
  | WriteWord _ _ | WriteU64 _ _ | GuardEnter _ | GuardLeave _ | SoinfoFree _ _
  | SoinfoUnload _ _ => tt
  end.
Definition calm_jni (X : Type) (e : jni X) : X :=
  match e with
  | FindClass _ | GetMethodID _ _ _ _ | GetFieldID _ _ _ _ | ToReflectedMethod _ _ _
  | CallObjectMethod _ _ | ReadPtr _ _ | GetObjectField _ _ | NewObject _ _ | NewStringUTF _
  | GetStringUTFChars _ => 1
  | CallIntMethod _ _ | GetStaticIntField _ _ => 0x100
  | GetArrayLength _ => 2
  | GetObjectArrayElement _ i => 1 + i
  | GetLongField obj _ => 0x1000 * obj
  | ExceptionCheck | CallBooleanMethod _ _ => false
  | CallVoidMethod _ _ | SetObjectField _ _ _ | ReleaseStringUTFChars _ _ | ExceptionDescribe | ExceptionClear | RegisterNatives _ _ | DeleteLocal _ => tt
  end.
Definition calm_vm (X : Type) (e : vm X) : X :=
  match e with
  | ScanMaps => []
  | MmapAnon _ _ => None
  | Protect _ _ _ | MremapFixed _ _ _ | NameAnon _ _ _ => true
  | Memcpy _ _ _ | Unmap _ _ => tt
  end.
Definition calm_scmp (X : Type) (e : scmp X) : X :=
  match e with
  | Kernel e => idle _ e
  | OpenRandom => true
  | ReadRandom => Some (1, 2, 3, 4)
  | SetFilter _ => true
  | ExitGroup _ => tt
  end.
Definition calm (n : nat) (X : Type) (e : inj X) : X :=
  match e with
  | Net e => calm_net _ e
  | Libc e => calm_libc _ e
  | Lnk e => calm_lnk _ e
  | Jni e => calm_jni _ e
  | Vm e => calm_vm _ e
  | Scmp e => calm_scmp _ e
  | OldFork => 100
  | OpenFdDir => Some (3, ["."; ".."; "0"; "1"; "2"; "3"])
  | ReadLinkAt _ _ => Some "/dev/null"
  | Umount t => negb (String.eqb t "/odm")
  | SetNs _ | StringChars _ | NewIntArray _ | Dlclose _ | Regcomp _ | Regexec _ _
  | LspltRegister _ _ _ _ _ | LspltHook _ _ | LspltCommit _ | Hooked _ => true
  | OldUnshare _ | Munmap _ _ | OldSetStackSize => 0
  | StatUid _ => Some 10123
  | GetPid | GetTid => 100
  | Mountinfo => Some Mounts.sample
  | AndroidDlopenExt _ _ _ | Dlsym _ _ | Dlopen _ | CreatedVM _ | AttachThread _ => 1
  | RunModule _ _ _ => Returns
  | LspltScan => []
  | ReadRange _ _ => []
  | VMEnv _ => (1, false)
  | Getrlimit => Some 8
  | Original _ _ => []
  | BlockSigchld _ | CloseFd _ | Setenv _ _ | WriteRange _ _ | DetachThread _
  | DeleteLocalRef | PthreadDetach | ReleaseChars _ => tt
  | GetUid | GetGid => 1000
  | GetGroups _ => (2, [1001; 3003])
  | CapGet => Some (1, 2, 3, 4)
  | PthreadCreate => 0
  end.

Definition sample_args : AppSpecializeArgs_v5 :=
  {| a_uid := 10123; a_gid := 10123; a_gids := Some [3003]; a_runtime_flags := 0; a_rlimits := 7;
     a_mount_external := 0; a_se_info := Some "default"; a_nice_name := Some "app";
     a_instruction_set := None; a_app_data_dir := None; a_fds_to_ignore := None;
     a_is_child_zygote := None; a_is_top_app := None; a_pkg_data_info_list := None;
     a_whitelisted_data_info_list := None; a_mount_data_dirs := None;
     a_mount_storage_dirs := None; a_mount_sysprop_overrides := None |}.
Definition sample_context : ZygiskContext :=
  {| args := App sample_args;
     process := None; modules := []; pid := -1; flags := DO_REVERT_UNMOUNT; info_flags := 0;
     allowed_fds := repeat false 8; exempted_fds := []; register_info := []; ignore_info := [] |}.
Definition sample_hook : HookContext :=
  {| zygote_methods := native_methods (fun i => 0x7100 + Z.of_nat i); start_addr := 0x7000; block_size := 0x1000; should_spoof_maps := false;
     should_unmap := true; skip_hooking_unloader := true; zygote_unmounted := false;
     MODIFIER_NATIVE := 0x100; member_getModifiers := 1; cached_map_infos := [];
     plt_backup := [{| h_dev := 1; h_inode := 2; h_fn := Pfork |};
                    {| h_dev := 1; h_inode := 2; h_fn := Punshare |}]; zygote_traces := [] |}.
Definition sample_zygote : zygote :=
  {| z_active := true; z_ctx := sample_context; z_hook := Some sample_hook;
     z_linker := fresh_linker; z_art := sample_art; z_freed := [] |}.
