(* ===== verification/Module.v ===== *)
(** * Modules and specialization

    injector/module.cpp: loading modules, the API they are given, and what happens to
    descriptors, mounts and namespaces around the fork and the specialization of a process. *)
From Stdlib Require Import ZArith Lia List String Ascii Bool.
From stdpp Require Import base list strings.
From S2P Require Import Prelude.
From S2P Require Import Scan.
From S2P Require Import Elf.
From S2P Require Import Fossil.
From S2P Require Import Mounts.
From S2P Require Import Daemon.
From S2P Require Import Atexit.
From S2P Require Import Solist.
From S2P Require Import JniEnv.
From S2P Require Import Jni.
From S2P Require Import Spoof.
From S2P Require Import Args.
From S2P Require Import InjState.
Open Scope string_scope.
Open Scope list_scope.
Open Scope Z_scope.
Open Scope m_scope.

(** ** The API table *)

(** The table is a union of the tables of all versions: eight slots. *)
Definition empty_table : list (option api_fn) := repeat None 8.
Definition fill (t : list (option api_fn)) (i : nat) (f : api_fn) : list (option api_fn) :=
  <[i := Some f]> t.

(** [RegisterModuleImpl], for a module pointer and the table it was called on: the table after,
    the version [mod] then points to, and the answer. *)
Definition RegisterModuleImpl (t : list (option api_fn)) (api : option Z) (module : option Z) :
    list (option api_fn) * option Z * bool :=
  match module with
  | None => (t, api, false)
  | Some api_version =>
      if ZYGISK_API_VERSION <? api_version then (t, api, false)
      else
        let t := if 1 <=? api_version then
                   fill (fill (fill (fill (fill (fill t 0 hookJniNativeMethods_)
                     1 pltHookRegister_) 2 pltHookExclude_) 3 pltHookCommit_)
                     4 connectCompanion_) 5 setOption_
                 else t in
        let t := if 2 <=? api_version then fill (fill t 6 getModuleDir_) 7 getFlags_ else t in
        let t := if 4 <=? api_version then
                   fill (fill (fill t 3 pltHookCommit4_) 1 pltHookRegister4_) 2 exemptFd_
                 else t in
        (t, Some api_version, true)
  end.

(** [valid], which nothing calls; the five pointers of the module's own table are its
    [complete]. *)
Definition valid (api : option Z) (complete : bool) : bool :=
  match api with
  | None => false
  | Some v => (1 <=? v) && (v <=? 5) && complete
  end.

(** ** Descriptors *)

Definition is_child (c : ZygiskContext) : bool := pid c <=? 0.

Definition kAllowedFdTargets : list string :=
  ["/dev/null"; "/sys/kernel/debug/tracing/trace_marker"; "/sys/kernel/tracing/trace_marker";
   "/system/framework/framework-res.apk"; "/dev/urandom"; "/dev/ion"; "/dev/dri/renderD129";
   "/dev/stune/foreground/tasks"; "/dev/blkio/tasks"; "/metadata/aconfig/maps/system.package.map";
   "/metadata/aconfig/maps/system.flag.map"; "/metadata/aconfig/boot/system.val"].
Definition kFdTargetMax : Z := 256.
Definition is_allowed_fd_target (target : string) : bool :=
  existsb (String.eqb target) kAllowedFdTargets.

Definition fds_to_ignore (c : ZygiskContext) : option (option (list Z)) :=
  match args c with App a => a_fds_to_ignore a | Server _ => None end.
(** [*args.app->fds_to_ignore = array], once [can_exempt_fd] has seen the pointer is not null. *)
Definition set_fds_to_ignore (array : list Z) (c : ZygiskContext) : ZygiskContext :=
  set_args (point_fds_to_ignore array (args c)) c.

Definition can_exempt_fd (c : ZygiskContext) : bool :=
  has_flag (flags c) APP_FORK_AND_SPECIALIZE &&
  match fds_to_ignore c with Some _ => true | None => false end.

Definition exempt_fd (fd : Z) (c : ZygiskContext) : ZygiskContext * bool :=
  if has_flag (flags c) POST_SPECIALIZE || has_flag (flags c) SKIP_CLOSE_LOG_PIPE then (c, true)
  else if negb (can_exempt_fd c) then (c, false)
  else (set_fds (allowed_fds c) (exempted_fds c ++ [fd]) c, true).

(** Sets the bits of the descriptors that have one. *)
Definition allow_fd (allowed : list bool) (fd : Z) : list bool :=
  if (0 <=? fd) && (fd <? Z.of_nat (List.length allowed)) then <[Z.to_nat fd := true]> allowed
  else allowed.
Definition allow_fds (allowed : list bool) (fds : list Z) : list bool := fold_left allow_fd fds allowed.
Definition fd_allowed (allowed : list bool) (fd : Z) : bool :=
  (0 <=? fd) && (fd <? Z.of_nat (List.length allowed)) && nth (Z.to_nat fd) allowed false.

(** The first part of [sanitize_fds]: the exempted descriptors join the array to ignore. *)
Definition update_fd_array (old : list Z) : M unit :=
  let! c := gets z_ctx in
  let! array := do_ (NewIntArray (Z.of_nat (List.length old + List.length (exempted_fds c)))) in
  when array
    (modify (on_ctx (fun c =>
       set_fds_to_ignore (old ++ exempted_fds c)
         (set_fds (allow_fds (allowed_fds c) (exempted_fds c)) (exempted_fds c) c)))).
Definition merge_exempted : M unit :=
  let! c := gets z_ctx in
  match fds_to_ignore c with
  | Some (Some arr) =>
      modify (on_ctx (fun c => set_fds (allow_fds (allowed_fds c) arr) (exempted_fds c) c)) >>
      update_fd_array arr
  | _ => update_fd_array []
  end.

(** The body of the loop over /proc/self/fd. *)
Definition close_forbidden (allowed : list bool) (dfd : Z) (name : string) : M unit :=
  let fd := parse_int name in
  if (fd <? 0) || (fd =? dfd) then ret tt
  else if fd_allowed allowed fd then ret tt
  else
    let! target := do_ (ReadLinkAt name (kFdTargetMax - 1)) in
    let target := match target with Some t => c_str t | None => "<unreadable>" end in
    if is_allowed_fd_target target then ret tt else do_ (CloseFd fd).

Definition sanitize_fds : M unit :=
  let! c := gets z_ctx in
  if negb (is_child c) then ret tt
  else
    when (can_exempt_fd c && match exempted_fds c with [] => false | _ => true end) merge_exempted >>
    let! c := gets z_ctx in
    let! dir := do_ OpenFdDir in
    match dir with
    | None => ret tt
    | Some (dfd, names) =>
        each names (close_forbidden (allowed_fds c) dfd) >>
        do_ (CloseFd dfd)
    end.

(** The body of [fork_pre]'s loop. *)
Definition record_fd (name : string) : M unit :=
  let! c := gets z_ctx in
  let fd := parse_int name in
  if (fd <? 0) || (Z.of_nat (List.length (allowed_fds c)) <=? fd) then do_ (CloseFd fd)
  else modify (on_ctx (fun c => set_fds (allow_fd (allowed_fds c) fd) (exempted_fds c) c)).

Definition fork_pre : M unit :=
  do_ (BlockSigchld true) >>
  let! p := do_ OldFork in
  modify (on_ctx (set_pid p)) >>
  if negb (p <=? 0) then ret tt
  else
    let! dir := do_ OpenFdDir in
    match dir with
    | None => stop "readdir of a null pointer"
    | Some (dfd, names) =>
        each names record_fd >>
        let! c := gets z_ctx in
        if (0 <=? dfd) && (dfd <? Z.of_nat (List.length (allowed_fds c))) then
          modify (on_ctx (fun c => set_fds (<[Z.to_nat dfd := false]> (allowed_fds c)) (exempted_fds c) c)) >>
          do_ (CloseFd dfd)
        else stop "allowed_fds indexed out of range"
    end.

Definition fork_post : M unit := do_ (BlockSigchld false).

(** ** PLT hooks asked for by modules *)

Definition plt_hook_register (regex symbol : option string) (fn backup : Z) : M unit :=
  match regex, symbol with
  | Some regex, Some symbol =>
      if fn =? 0 then ret tt
      else
        let! ok := do_ (Regcomp regex) in
        when ok (modify (on_ctx (fun c =>
          set_regexes (register_info c ++ [{| ri_regex := regex; ri_symbol := symbol;
                                              ri_callback := fn; ri_backup := backup |}])
            (ignore_info c) c)))
  | _, _ => ret tt
  end.

Definition plt_hook_exclude (regex symbol : option string) : M unit :=
  match regex with
  | None => ret tt
  | Some regex =>
      let! ok := do_ (Regcomp regex) in
      when ok (modify (on_ctx (fun c =>
        set_regexes (register_info c)
          (ignore_info c ++ [{| ii_regex := regex;
                                ii_symbol := match symbol with Some s => s | None => "" end |}]) c)))
  end.

Fixpoint ignored (ign : list IgnoreInfo) (symbol path : string) : M bool :=
  match ign with
  | [] => ret false
  | i :: ign =>
      let! hit := do_ (Regexec (ii_regex i) path) in
      if hit && (is_empty (ii_symbol i) || String.eqb (ii_symbol i) symbol) then ret true
      else ignored ign symbol path
  end.

Definition plt_hook_process_regex : M unit :=
  let! c := gets z_ctx in
  match register_info c with
  | [] => ret tt
  | _ =>
      let! h := gets z_hook in
      match h with
      | None => stop "g_hook is null"
      | Some h =>
          each (cached_map_infos h) (fun map =>
            if negb (l_offset map =? 0) || negb (l_private map) || negb (has_flag (l_perms map) PROT_READ)
            then ret tt
            else
              each (register_info c) (fun reg =>
                let! hit := do_ (Regexec (ri_regex reg) (l_path map)) in
                when hit
                  (let! skip := ignored (ignore_info c) (ri_symbol reg) (l_path map) in
                   when (negb skip)
                     (let! _ := do_ (LspltRegister (l_dev map) (l_inode map) (ri_symbol reg)
                                       (ri_callback reg) (ri_backup reg)) in ret tt))))
      end
  end.

(** [lsplt::CommitHook(g_hook->cached_map_infos)]. *)
Definition commit_hooks : M bool :=
  let! h := gets z_hook in
  match h with
  | None => stop "g_hook is null"
  | Some _ => do_ (LspltCommit false)
  end.

Definition plt_hook_commit : M bool :=
  plt_hook_process_regex >>
  modify (on_ctx (set_regexes [] [])) >>
  commit_hooks.

(** hook.cpp's [hookJniNativeMethods]. *)
Definition hookJniNativeMethods (clz : string) (methods : list JNINativeMethod) :
    M (list JNINativeMethod) :=
  let! h := gets z_hook in
  match h with
  | None => stop "g_hook is null"
  | Some h =>
      let! art := gets z_art in
      embed (@Jni) (hook_jni_methods (MODIFIER_NATIVE h) (member_getModifiers h) art clz methods)
  end.

(** ** The API *)

Section Api.
(** The daemon's client needs fuel for its transfers, the word size and the socket's place. *)
Context (w page_size : Z) (fuel word : nat) (tmp_path : string).

Definition update_module (i : nat) (f : ZygiskModule -> ZygiskModule) : M unit :=
  modify (on_ctx (fun c => set_modules (alter f i (modules c)) c)).
Definition set_table (t : list (option api_fn)) (api : option Z) (m : ZygiskModule) : ZygiskModule :=
  {| m_id := m_id m; m_handle := m_handle m; m_unload := m_unload m; m_table := t; m_api := api |}.
Definition set_unload (m : ZygiskModule) : ZygiskModule :=
  {| m_id := m_id m; m_handle := m_handle m; m_unload := true; m_table := m_table m; m_api := m_api m |}.

Definition FORCE_DENYLIST_UNMOUNT : Z := 0.
Definition DLCLOSE_MODULE_LIBRARY : Z := 1.
(** [if (g_ctx)]. *)
Definition if_ctx (body : M unit) : M unit :=
  let! active := gets z_active in when active body.
Definition setOption (i : nat) (opt : Z) : M unit :=
  if_ctx (
    if opt =? FORCE_DENYLIST_UNMOUNT then modify (on_ctx (add_flag DO_REVERT_UNMOUNT))
    else if opt =? DLCLOSE_MODULE_LIBRARY then update_module i set_unload
    else ret tt).
Definition getFlags (z : zygote) : Z :=
  if z_active z then Z.land (info_flags (z_ctx z)) (u32 (Z.lnot PRIVATE_MASK)) else 0.

(** [if (g_ctx)] and [g_ctx &&], with an answer. *)
Definition nothing (body : M unit) : M api_answer := body >> ret ANothing.
Definition and_ctx (body : M bool) : M api_answer :=
  let! active := gets z_active in
  if active then let! b := body in ret (ABool b) else ret (ABool false).

(** The functions the table is filled with, for the [i]th module. *)
Definition api_body (i : nat) (m : ZygiskModule) (c : api_call) : M api_answer :=
  match c with
  | RegisterModule module =>
      let '(t, api, ok) := RegisterModuleImpl (m_table m) (m_api m) module in
      update_module i (set_table t api) >> ret (ABool ok)
  | HookJni clz ms => let! ms := hookJniNativeMethods clz ms in ret (AMethods ms)
  | PltHookRegister regex symbol fn backup =>
      nothing (if_ctx (plt_hook_register regex symbol fn backup))
  | PltHookExclude regex symbol => nothing (if_ctx (plt_hook_exclude regex symbol))
  | PltHookCommit => and_ctx plt_hook_commit
  | ConnectCompanionCall =>
      let! fd := embed (@Net) (ConnectCompanion fuel word tmp_path (m_id m)) in ret (AInt fd)
  | SetOption opt => nothing (setOption i opt)
  | GetModuleDirCall =>
      let! fd := embed (@Net) (GetModuleDir fuel word tmp_path (m_id m)) in ret (AInt fd)
  | GetFlags => let! fl := gets getFlags in ret (AInt fl)
  | PltHookRegister4 dev inode symbol fn backup =>
      match symbol with
      | None => ret ANothing
      | Some symbol =>
          if (dev =? 0) || (inode =? 0) || (fn =? 0) then ret ANothing
          else let! _ := do_ (LspltRegister dev inode symbol fn backup) in ret ANothing
      end
  | ExemptFd fd =>
      and_ctx
        (let! c := gets z_ctx in
         modify (on_ctx (fun c => fst (exempt_fd fd c))) >> ret (snd (exempt_fd fd c)))
  | PltHookCommit4 => let! ok := commit_hooks in ret (ABool ok)
  end.

(** The slot a call goes through, and the function it takes to be there; [registerModule] has a
    slot of its own, which is always filled. *)
Definition api_slot (c : api_call) : option (nat * api_fn) :=
  match c with
  | RegisterModule _ => None
  | HookJni _ _ => Some (0%nat, hookJniNativeMethods_)
  | PltHookRegister _ _ _ _ => Some (1%nat, pltHookRegister_)
  | PltHookExclude _ _ => Some (2%nat, pltHookExclude_)
  | PltHookCommit => Some (3%nat, pltHookCommit_)
  | ConnectCompanionCall => Some (4%nat, connectCompanion_)
  | SetOption _ => Some (5%nat, setOption_)
  | GetModuleDirCall => Some (6%nat, getModuleDir_)
  | GetFlags => Some (7%nat, getFlags_)
  | PltHookRegister4 _ _ _ _ _ => Some (1%nat, pltHookRegister4_)
  | ExemptFd _ => Some (2%nat, exemptFd_)
  | PltHookCommit4 => Some (3%nat, pltHookCommit4_)
  end.

Definition api_step (i : nat) (c : api_call) : M api_answer :=
  let! ctx := gets z_ctx in
  match modules ctx !! i with
  | None => stop "a call of a module that is gone"
  | Some m =>
      match api_slot c with
      | None => api_body i m c
      | Some (slot, f) =>
          match m_table m !! slot with
          | Some (Some g) =>
              if decide (g = f) then api_body i m c
              else stop "a call of a function of another type"
          | _ => stop "a call through a null slot"
          end
      end
  end.

(** ** Running modules *)

(** The module's code at one of its entry points: it calls its API and rewrites the arguments,
    as far as [reach] lets it, until it returns. The fuel bounds how many times. *)
Fixpoint run_from (n : nat) (i : nat) (m : ZygiskModule) (p : hook_point)
    (reach : args_t -> args_t -> args_t) (last : api_answer) : M unit :=
  match n with
  | O => fun _ => Halt NoFuel
  | S n =>
      let! act := do_ (RunModule (m_id m) p last) in
      match act with
      | Returns => ret tt
      | Leaves new =>
          modify (on_ctx (fun c => set_args (reach (args c) new) c)) >>
          run_from n i m p reach ANothing
      | Calls c => let! answer := api_step i c in run_from n i m p reach answer
      end
  end.
Definition run_module (i : nat) (m : ZygiskModule) (p : hook_point)
    (reach : args_t -> args_t -> args_t) : M unit := run_from fuel i m p reach ANothing.

(** [call_app]: nothing for a version without a case, and [mod] is dereferenced unchecked. *)
Definition call_app (i : nat) (p : hook_point) : M unit :=
  let! c := gets z_ctx in
  match modules c !! i with
  | None => ret tt
  | Some m =>
      match m_api m with
      | None => stop "mod is null"
      | Some v => if (1 <=? v) && (v <=? 5) then run_module i m p (assign v) else ret tt
      end
  end.
(** The server entry points, called whatever the version. *)
Definition call_server (i : nat) (p : hook_point) : M unit :=
  let! c := gets z_ctx in
  match modules c !! i with
  | None => ret tt
  | Some m =>
      match m_api m with None => stop "mod is null" | Some v => run_module i m p (assign v) end
  end.

Definition call_specialize (i : nat) (app server : hook_point) : M unit :=
  let! c := gets z_ctx in
  if has_flag (flags c) APP_SPECIALIZE then call_app i app
  else if has_flag (flags c) SERVER_FORK_AND_SPECIALIZE then call_server i server
  else ret tt.

(** The module is not given the arguments yet. *)
Definition onLoad (i : nat) : M unit :=
  let! c := gets z_ctx in
  match modules c !! i with
  | None => ret tt
  | Some m => run_module i m OnLoad (fun old _ => old)
  end.

(** The constructor. *)
Definition new_module (id handle : Z) : ZygiskModule :=
  {| m_id := id; m_handle := handle; m_unload := false; m_table := empty_table; m_api := None |}.

(** common/dl.cpp: a library from a descriptor, under a name that does not stand out. *)
Definition JIT_CACHE_NAME : string := "/jit-cache-zygisk".
Definition ANDROID_DLEXT_USE_LIBRARY_FD : Z := 0x10.
Definition RTLD_NOW : Z := 2.
Definition DlopenMem (fd flags : Z) : M Z :=
  do_ (AndroidDlopenExt JIT_CACHE_NAME flags
         {| ext_flags := ANDROID_DLEXT_USE_LIBRARY_FD; reserved_addr := 0; reserved_size := 0;
            relro_fd := 0; library_fd := fd; library_fd_offset := 0; library_namespace := 0 |}).

Fixpoint load_modules (i : Z) (ms : list (string * Z)) : M unit :=
  match ms with
  | [] => ret tt
  | (_, memfd) :: ms =>
      let! handle := DlopenMem memfd RTLD_NOW in
      let! entry := (if handle =? 0 then ret 0 else do_ (Dlsym handle "zygisk_module_entry")) in
      when (negb (entry =? 0))
        (modify (on_ctx (fun c => set_modules (modules c ++ [new_module i handle]) c))) >>
      load_modules (i + 1) ms
  end.

Definition run_modules_pre : M unit :=
  let! ms := embed (@Net) (ReadModules fuel word tmp_path) in
  load_modules 0 ms >>
  let! c := gets z_ctx in
  each (seq 0 (List.length (modules c))) (fun i => onLoad i >> call_specialize i PreApp PreServer) >>
  each (rev ms) (fun '(_, memfd) => when (0 <=? memfd) (do_ (CloseFd memfd))).

(** [tryUnload]. *)
Definition tryUnload (m : ZygiskModule) : M bool :=
  if m_unload m then do_ (Dlclose (m_handle m)) else ret false.

Definition clean_linker (path : string) (loaded unloaded : Z) (unload_soinfo : bool)
    (outs : option (Z * Z)) : M (option (Z * Z)) :=
  let! l := gets z_linker in
  let! r := embed (@Lnk) (clean_linker_trace w fuel l path loaded unloaded unload_soinfo outs) in
  let '(l, outs) := r in
  modify (set_linker l) >> ret outs.

Definition set_should_spoof_maps (b : bool) (h : HookContext) : HookContext :=
  {| zygote_methods := zygote_methods h; start_addr := start_addr h; block_size := block_size h;
     should_spoof_maps := b; should_unmap := should_unmap h;
     skip_hooking_unloader := skip_hooking_unloader h; zygote_unmounted := zygote_unmounted h;
     MODIFIER_NATIVE := MODIFIER_NATIVE h; member_getModifiers := member_getModifiers h;
     cached_map_infos := cached_map_infos h; plt_backup := plt_backup h;
     zygote_traces := zygote_traces h |}.

Definition run_modules_post : M unit :=
  modify (on_ctx (add_flag POST_SPECIALIZE)) >>
  let! c := gets z_ctx in
  each (seq 0 (List.length (modules c))) (fun i => call_specialize i PostApp PostServer) >>
  let! c := gets z_ctx in
  let! gone := keep_if (rev (modules c)) tryUnload in
  let loaded := Z.of_nat (List.length (modules c)) in
  let unloaded := Z.of_nat (List.length gone) in
  let! h := gets z_hook in
  match h with
  | None => ret tt
  | Some _ =>
      when (0 <? loaded)
        (when (loaded =? unloaded) (embed (@Libc) (clean_libc_trace w page_size)) >>
         let! _ := clean_linker "zygisk-module" loaded unloaded true None in
         modify (on_hook (set_should_spoof_maps
           (has_flag (flags c) APP_SPECIALIZE && (0 <? loaded - unloaded)))))
  end.

(** ** Specialization *)

Definition app_args (c : ZygiskContext) : option AppSpecializeArgs_v5 :=
  match args c with App a => Some a | Server _ => None end.

(** The uid the daemon is asked about: that of the data directory for an isolated process. *)
Definition effective_uid (a : AppSpecializeArgs_v5) (isolated : bool) : M Z :=
  match isolated, a_app_data_dir a with
  | true, Some dir =>
      let! got := do_ (StringChars dir) in
      if negb got then ret (a_uid a)
      else
        let! st := do_ (StatUid dir) in
        do_ (ReleaseChars (Some dir)) >>
        ret (match st with Some u => u | None => a_uid a end)
  | _, _ => ret (a_uid a)
  end.

Definition app_specialize_pre : M unit :=
  let! c := gets z_ctx in
  match app_args c with
  | None => stop "args.app of the server"
  | Some a =>
      let is_isolated_aid := (AID_ISOLATED_START <=? u32 (a_uid a)) && (u32 (a_uid a) <=? AID_ISOLATED_END) in
      let! uid := effective_uid a is_isolated_aid in
      let! skip_zygiskd :=
        (if is_isolated_aid then
           embed (@Net) (fd <- Connect word tmp_path 1 ;; drop_fd fd ;;; Ret (fd =? -1))%prog
         else ret false) in
      when (negb skip_zygiskd && (info_flags c =? 0))
        (let! f := embed (@Net) (GetProcessFlags fuel word tmp_path (u32 uid)) in
         modify (on_ctx (set_info_flags f))) >>
      let! c := gets z_ctx in
      when (Z.land (info_flags c) UNMOUNT_MASK =? UNMOUNT_MASK)
        (modify (on_ctx (add_flag DO_REVERT_UNMOUNT))) >>
      when (match process c with Some p => String.eqb p "webview_zygote" | None => false end)
        (modify (on_ctx (add_flag DO_REVERT_UNMOUNT))) >>
      modify (on_ctx (add_flag APP_SPECIALIZE)) >>
      when (negb skip_zygiskd) run_modules_pre
  end.

Definition app_specialize_post : M unit :=
  run_modules_post >>
  let! c := gets z_ctx in
  when (Z.land (info_flags c) PROCESS_IS_MANAGER =? PROCESS_IS_MANAGER)
    (do_ (Setenv "ZYGISK_ENABLED" "1")) >>
  do_ (ReleaseChars (process c)).

Definition server_specialize_pre : M unit :=
  run_modules_pre >>
  embed (@Net) (SystemServerStarted fuel word tmp_path).
Definition server_specialize_post : M unit := run_modules_post.

(** [process = env->GetStringUTFChars(args.app->nice_name)]. *)
Definition read_process : M unit :=
  let! c := gets z_ctx in
  match app_args c with
  | None => stop "args.app of the server"
  | Some a =>
      match a_nice_name a with
      | None => stop "the characters of a null string"
      | Some name =>
          let! got := do_ (StringChars name) in
          modify (on_ctx (set_process (if got : bool then Some name else None)))
      end
  end.

Definition nativeSpecializeAppProcess_pre : M unit :=
  read_process >>
  modify (on_ctx (add_flag SKIP_CLOSE_LOG_PIPE)) >>
  app_specialize_pre.
Definition nativeSpecializeAppProcess_post : M unit := app_specialize_post.

(** ** Forking the system server *)

Definition is_main_stack (map : LMap) : bool :=
  (l_dev map =? 0) && (l_inode map =? 0) && (l_offset map =? 0) && l_private map &&
  String.eqb (l_path map) "[anon:stack_and_tls:main]".

(** [spoof_zygote_fossil] on the memory of a mapping. *)
Definition spoof_stack (map : LMap) : M unit :=
  let len := l_end map - l_start map in
  let! mem := do_ (ReadRange (l_start map) len) in
  let limit := Z.to_nat len in
  match Fossil.find mem limit with
  | None => ret tt
  | Some m =>
      if contains (m_target m) "ref_profiles" then ret tt
      else
        let! content := do_ Mountinfo in
        match spoof_zygote_fossil mem limit "ref_profiles" content with
        | Val mem' => do_ (WriteRange (l_start map) mem')
        | Stop h => fun _ => Halt h
        end
  end.

Fixpoint spoof_first_stack (maps : list LMap) : M unit :=
  match maps with
  | [] => ret tt
  | map :: maps =>
      if is_main_stack map && has_flag (l_perms map) PROT_READ then spoof_stack map
      else spoof_first_stack maps
  end.

Definition nativeForkSystemServer_pre : M unit :=
  modify (on_ctx (add_flag SERVER_FORK_AND_SPECIALIZE)) >>
  let! h := gets z_hook in
  match h with
  | None => stop "g_hook is null"
  | Some h =>
      spoof_first_stack (cached_map_infos h) >>
      fork_pre >>
      let! c := gets z_ctx in
      when (is_child c)
        (server_specialize_pre >>
         let! p := do_ GetPid in
         embed (@Net) (CacheMountNamespace fuel word tmp_path p)) >>
      sanitize_fds
  end.
Definition nativeForkSystemServer_post : M unit :=
  let! c := gets z_ctx in
  when (is_child c) server_specialize_post >>
  fork_post.

(** ** Forking an app *)

Definition set_mounts (unmounted : bool) (traces : list mount_info) (h : HookContext) : HookContext :=
  {| zygote_methods := zygote_methods h; start_addr := start_addr h; block_size := block_size h;
     should_spoof_maps := should_spoof_maps h; should_unmap := should_unmap h;
     skip_hooking_unloader := skip_hooking_unloader h; zygote_unmounted := unmounted;
     MODIFIER_NATIVE := MODIFIER_NATIVE h; member_getModifiers := member_getModifiers h;
     cached_map_infos := cached_map_infos h; plt_backup := plt_backup h; zygote_traces := traces |}.

(** Takes the mounts away from zygote, once: the traces left are those that would not go. *)
Definition unmount_zygote : M unit :=
  let! h := gets z_hook in
  match h with
  | None => stop "g_hook is null"
  | Some h =>
      when (negb (zygote_unmounted h) && match zygote_traces h with [] => true | _ => false end)
        (let! c := gets z_ctx in
         match app_args c with
         | None => stop "args.app of the server"
         | Some a =>
             let! f := embed (@Net) (GetProcessFlags fuel word tmp_path (u32 (a_uid a))) in
             modify (on_ctx (set_info_flags f)) >>
             let! content := do_ Mountinfo in
             let traces := check_zygote_traces f content in
             modify (on_hook (set_mounts false traces)) >>
             when (negb (abort_zygote_unmount traces f))
               (let! remaining := keep_if traces (fun t =>
                  let! gone := do_ (Umount (Mounts.target t)) in ret (negb gone)) in
                modify (on_hook (set_mounts true remaining)))
         end)
  end.

Definition nativeForkAndSpecialize_pre : M unit :=
  read_process >>
  modify (on_ctx (add_flag APP_FORK_AND_SPECIALIZE)) >>
  unmount_zygote >>
  fork_pre >>
  let! c := gets z_ctx in
  when (is_child c) app_specialize_pre >>
  sanitize_fds.
Definition nativeForkAndSpecialize_post : M unit :=
  let! c := gets z_ctx in
  when (is_child c) app_specialize_post >>
  fork_post.

Definition update_mount_namespace (namespace_type : MountNamespace) : M bool :=
  let! ns_fd := embed (@Net) (UpdateMountNamespace fuel word tmp_path namespace_type) in
  if ns_fd <? 0 then ret false
  else
    let! ok := do_ (SetNs ns_fd) in
    do_ (CloseFd ns_fd) >> ret ok.
End Api.

(** ** Facts: the API table *)

(** The tables of the ABI, version by version (include/api.hpp and module.hpp). *)
Definition abi (version : Z) : list (option api_fn) :=
  if version <? 1 then repeat None 8
  else if version <? 2 then
    map Some [hookJniNativeMethods_; pltHookRegister_; pltHookExclude_; pltHookCommit_;
              connectCompanion_; setOption_] ++ [None; None]
  else if version <? 4 then
    map Some [hookJniNativeMethods_; pltHookRegister_; pltHookExclude_; pltHookCommit_;
              connectCompanion_; setOption_; getModuleDir_; getFlags_]
  else
    map Some [hookJniNativeMethods_; pltHookRegister4_; exemptFd_; pltHookCommit4_;
              connectCompanion_; setOption_; getModuleDir_; getFlags_].

(** A module gets the table of its own version. Registering with a version the loader
    knows fills the empty table exactly as that version's ABI lays it out, makes [mod] point to
    the version and succeeds; a newer version or a null pointer is refused, with nothing
    filled in and [mod] as it was. *)
Lemma register_fills_abi api module :
  RegisterModuleImpl empty_table api module =
    match module with
    | None => (empty_table, api, false)
    | Some v => if v <=? 5 then (abi v, Some v, true) else (empty_table, api, false)
    end.
Proof.
  destruct module as [v|]; [|done]. unfold RegisterModuleImpl, abi, ZYGISK_API_VERSION.
  destruct (Z.ltb_spec 5 v), (Z.leb_spec v 5); try lia; [done|].
  destruct (Z.leb_spec 1 v), (Z.ltb_spec v 1); try lia;
    destruct (Z.leb_spec 2 v), (Z.ltb_spec v 2); try lia;
    destruct (Z.leb_spec 4 v), (Z.ltb_spec v 4); try lia; reflexivity.
Qed.

(** A refused module is run all the same: nothing asks [valid], and [mod] is null. *)
Lemma refused_module_dereferenced i m p z :
  modules (z_ctx z) !! i = Some m -> m_api m = None ->
  valid (m_api m) true = false /\
  forall fuel word tmp, call_app fuel word tmp i p z = Halt (Undefined "mod is null").
Proof.
  intros Hm Ha. rewrite Ha. split; [done|]. intros. unfold call_app, mbind, gets. cbn.
  by rewrite Hm, Ha.
Qed.

(** Without a hook context, as in a system server injected late, hooking JNI methods or
    committing PLT hooks dereferences a null pointer. *)
Lemma no_hook_context clz ms z :
  z_hook z = None ->
  hookJniNativeMethods clz ms z = Halt (Undefined "g_hook is null") /\
  commit_hooks z = Halt (Undefined "g_hook is null").
Proof. intros Hz. unfold hookJniNativeMethods, commit_hooks, mbind, gets. cbn. by rewrite Hz. Qed.

(** A fork that failed counts as the child. *)
Lemma failed_fork_is_child c : is_child (set_pid (-1) c) = true.
Proof. done. Qed.

(** The characters of the name that a fork read are given back in the child alone: zygote keeps
    a copy for every app it forks. *)
Lemma zygote_keeps_the_name w page_size fuel word tmp z :
  is_child (z_ctx z) = false ->
  nativeForkAndSpecialize_post w page_size fuel word tmp z = do_ (BlockSigchld false) z.
Proof. intros Hc. unfold nativeForkAndSpecialize_post, mbind, gets. cbn [bind]. by rewrite Hc. Qed.

(** ** Facts: descriptors *)

Definition closes (ev : event inj) : option Z :=
  match ev with Ev (CloseFd fd) _ => Some fd | _ => None end.

(** What the loop does about one name. *)
Definition sanitized (allowed : list bool) (dfd : Z) (name : string) (tr : list (event inj)) : Prop :=
  let fd := parse_int name in
  if (fd <? 0) || (fd =? dfd) || fd_allowed allowed fd then tr = []
  else exists target : option string,
    tr = Ev (ReadLinkAt name (kFdTargetMax - 1)) target ::
         (if is_allowed_fd_target (match target with Some t => c_str t | None => "<unreadable>" end)
          then [] else [Ev (CloseFd fd) tt]).

Lemma close_forbidden_spec allowed dfd name z :
  every_run (close_forbidden allowed dfd name z) (fun tr r =>
    r = Val (tt, z) /\ sanitized allowed dfd name tr).
Proof.
  unfold close_forbidden, sanitized. cbv zeta.
  destruct ((parse_int name <? 0) || (parse_int name =? dfd)); cbn [orb]; [done|].
  destruct (fd_allowed allowed (parse_int name)); [done|]. apply mbind_do. intros target.
  set (t := match target with Some t => c_str t | None => "<unreadable>" end).
  destruct (is_allowed_fd_target t) eqn:E; [|intros []];
    (split; [done|]; exists target; fold t; by rewrite E).
Qed.

Lemma sanitize_loop allowed dfd names z :
  every_run (each names (close_forbidden allowed dfd) z) (fun tr r =>
    r = Val (tt, z) /\ exists parts, Forall2 (sanitized allowed dfd) names parts /\ tr = concat parts).
Proof.
  induction names as [|name names IH]; cbn [each].
  { split; [done|]. exists []. by split; [constructor|]. }
  eapply mbind_seq; [apply close_forbidden_spec|by intros ? ? [? _]|].
  intros tr [] z' [Hz Hs]. injection Hz as ->. eapply every_run_mono; [|exact IH].
  intros tr' r [-> (parts & Hp & ->)]. split; [done|]. exists (tr :: parts). by split; [constructor|].
Qed.

Lemma allow_fd_length allowed fd : List.length (allow_fd allowed fd) = List.length allowed.
Proof. unfold allow_fd. destruct (_ && _); [|done]. apply length_insert. Qed.
Lemma allow_fds_length fds allowed : List.length (allow_fds allowed fds) = List.length allowed.
Proof.
  revert allowed. induction fds as [|fd fds IH]; intros allowed; [done|]. cbn.
  change (fold_left allow_fd fds ?a) with (allow_fds a fds). by rewrite IH, allow_fd_length.
Qed.

(** Allowing adds the descriptors that have a slot, and no other. *)
Definition has_slot (allowed : list bool) (fd : Z) : Prop := 0 <= fd < Z.of_nat (List.length allowed).

Lemma allow_fd_iff allowed fd fd' :
  fd_allowed (allow_fd allowed fd) fd' = true <->
  fd_allowed allowed fd' = true \/ fd' = fd /\ has_slot allowed fd.
Proof.
  unfold fd_allowed, has_slot. rewrite allow_fd_length. unfold allow_fd.
  rewrite !andb_true_iff, Z.leb_le, Z.ltb_lt.
  destruct (Z.leb_spec 0 fd), (Z.ltb_spec fd (Z.of_nat (List.length allowed))); cbn [andb];
    try (intuition lia).
  destruct (Z.eq_dec fd' fd) as [->|Hne].
  - rewrite nth_lookup, list_lookup_insert_eq by lia. cbn. intuition lia.
  - rewrite !nth_lookup. split; [|intros [H'|[? _]]; [|done]].
    + intros [[? ?] Hn]. rewrite list_lookup_insert_ne in Hn by lia. auto.
    + destruct H' as [[? ?] Hn]. rewrite list_lookup_insert_ne by lia. auto.
Qed.

Lemma allow_fds_iff fds allowed fd :
  fd_allowed (allow_fds allowed fds) fd = true <->
  fd_allowed allowed fd = true \/ fd ∈ fds /\ has_slot allowed fd.
Proof.
  revert allowed. induction fds as [|f fds IH]; intros allowed.
  - cbn. rewrite elem_of_nil. tauto.
  - cbn. change (fold_left allow_fd fds ?a) with (allow_fds a fds).
    rewrite IH, allow_fd_iff, elem_of_cons. unfold has_slot. rewrite allow_fd_length.
    intuition (subst; auto).
Qed.

(** Descriptors a module exempted, or the framework asked to ignore, with a slot of their own. *)
Definition spared (c : ZygiskContext) (array_ok : bool) (fd : Z) : Prop :=
  has_slot (allowed_fds c) fd /\
  (fd ∈ exempted_fds c /\ array_ok = true \/
   exists arr, fds_to_ignore c = Some (Some arr) /\ fd ∈ arr).
Definition made_array (tr : list (event inj)) : bool :=
  existsb (fun ev =>
    match ev with
    | Ev e x => match e in inj X return X -> bool with NewIntArray _ => fun ok => ok | _ => fun _ => false end x
    end) tr.

Lemma update_fd_array_spec old z :
  every_run (update_fd_array old z) (fun tr r =>
    omap closes tr = [] /\ exists z', r = Val (tt, z') /\
      allowed_fds (z_ctx z') =
        (if made_array tr then allow_fds (allowed_fds (z_ctx z)) (exempted_fds (z_ctx z))
         else allowed_fds (z_ctx z))).
Proof.
  unfold update_fd_array. apply mbind_gets. apply mbind_do. intros [].
  - split; [done|]. eexists. split; [reflexivity|]. done.
  - split; [done|]. by eexists.
Qed.

Lemma merge_exempted_spec z :
  every_run (merge_exempted z) (fun tr r =>
    omap closes tr = [] /\ exists z', r = Val (tt, z') /\
      forall fd, fd_allowed (allowed_fds (z_ctx z')) fd = true <->
        fd_allowed (allowed_fds (z_ctx z)) fd = true \/ spared (z_ctx z) (made_array tr) fd).
Proof.
  unfold merge_exempted. apply mbind_gets. unfold spared.
  assert (forall fd, (exists arr, fds_to_ignore (z_ctx z) = Some (Some arr) /\ fd ∈ arr) <->
            match fds_to_ignore (z_ctx z) with Some (Some arr) => fd ∈ arr | _ => False end) as Harr.
  { intros fd. destruct (fds_to_ignore (z_ctx z)) as [[arr|]|];
      [|split; [by intros (? & ? & _)|done]..].
    split; [by intros (? & [= <-] & ?)|by exists arr]. }
  revert Harr. destruct (fds_to_ignore (z_ctx z)) as [[arr|]|] eqn:Ef; intros Harr;
    [apply mbind_modify|..];
    (eapply every_run_mono; [|apply update_fd_array_spec]);
    intros tr r (Hc & z' & -> & Ha); (split; [done|]); exists z'; (split; [done|]); rewrite Ha; cbn -[allow_fds];
    intros fd; rewrite Harr; destruct (made_array tr); rewrite ?allow_fds_iff; unfold has_slot;
    rewrite ?allow_fds_length; clear; intuition congruence.
Qed.

Definition merges (c : ZygiskContext) : bool :=
  can_exempt_fd c && match exempted_fds c with [] => false | _ => true end.

(** C26: the parent's descriptors are left alone, and the child loses exactly the strays. In the
    parent nothing happens. In the child, every name listed in /proc/self/fd is taken in
    order: a descriptor that is the listing's own or is allowed is not touched, any other has
    its target read and is closed unless the target is one AOSP allows; then the listing is
    closed; without a listing nothing is. Allowed are the descriptors that were, and no others
    unless this is a fork of an app that a module exempted some for: then also, of those that
    have a slot, the ones the framework's array has and, if the array that joins the two could
    be made, the exempted ones. *)
Theorem sanitize_fds_exact z :
  every_run (sanitize_fds z) (fun tr r =>
    if negb (is_child (z_ctx z)) then r = Val (tt, z) /\ tr = []
    else exists z' pre, r = Val (tt, z') /\ omap closes pre = [] /\
      (forall fd, fd_allowed (allowed_fds (z_ctx z')) fd = true <->
         fd_allowed (allowed_fds (z_ctx z)) fd = true \/
         merges (z_ctx z) = true /\ spared (z_ctx z) (made_array pre) fd) /\
      (tr = pre ++ [Ev OpenFdDir None] \/
       exists dfd names parts,
         tr = pre ++ Ev OpenFdDir (Some (dfd, names)) :: concat parts ++ [Ev (CloseFd dfd) tt] /\
         Forall2 (sanitized (allowed_fds (z_ctx z')) dfd) names parts)).
Proof.
  unfold sanitize_fds. apply mbind_gets. destruct (is_child (z_ctx z)); cbn [negb]; [|done].
  fold (merges (z_ctx z)).
  assert (every_run (when (merges (z_ctx z)) merge_exempted z) (fun tr r =>
    omap closes tr = [] /\ exists z', r = Val (tt, z') /\
      forall fd, fd_allowed (allowed_fds (z_ctx z')) fd = true <->
        fd_allowed (allowed_fds (z_ctx z)) fd = true \/
        merges (z_ctx z) = true /\ spared (z_ctx z) (made_array tr) fd)) as Hmerge.
  { destruct (merges (z_ctx z)); cbn [when].
    - eapply every_run_mono; [|apply merge_exempted_spec]. intros tr r (? & z' & ? & Hiff).
      split; [done|]. exists z'. split; [done|]. intros fd. rewrite Hiff. tauto.
    - split; [done|]. exists z. split; [done|]. intuition congruence. }
  eapply mbind_seq; [exact Hmerge|by intros tr h (_ & ? & ? & _)|].
  intros pre [] z' (Hpre & z'' & [= <-] & Hiff). apply mbind_gets. apply mbind_do.
  intros [[dfd names]|].
  - eapply mbind_seq; [apply sanitize_loop|by intros ? ? [? _]|].
    intros tr [] z2 [Hz (parts & Hparts & ->)]. injection Hz as ->. intros [].
    exists z', pre. do 3 (split; [done|]). right. exists dfd, names, parts. split; [|exact Hparts].
    by rewrite app_nil_r || done.
  - exists z', pre. do 3 (split; [done|]). by left.
Qed.

(** ** Facts: the mounts of zygote *)

Definition umount_answer (ev : event inj) : option (string * bool) :=
  match ev with
  | Ev e x => match e in inj X return X -> option (string * bool) with
              | Umount t => fun ok => Some (t, ok)
              | _ => fun _ => None
              end x
  end.
(** The traces whose answer was a failure, in order. *)
Definition refused (traces : list mount_info) (answers : list (string * bool)) : list mount_info :=
  map fst (List.filter (fun p => negb (snd (snd p))) (combine traces answers)).

Lemma umount_loop traces z :
  every_run (keep_if traces (fun t =>
      let! gone := do_ (Umount (Mounts.target t)) in ret (negb gone)) z) (fun tr r =>
    map fst (omap umount_answer tr) = map Mounts.target traces /\
    r = Val (refused traces (omap umount_answer tr), z)).
Proof.
  induction traces as [|t traces IH]; cbn [keep_if]; [done|].
  intros gone. eapply mbind_seq; [exact IH|by intros ? ? [_ ?]|].
  intros tr rest z' [Hm Hr]. injection Hr as -> ->. unfold refused.
  destruct gone; cbn; rewrite app_nil_r, Hm; done.
Qed.

Definition mountinfo_answer (ev : event inj) : option (option string) :=
  match ev with
  | Ev e x => match e in inj X return X -> option (option string) with
              | Mountinfo => fun c => Some c
              | _ => fun _ => None
              end x
  end.

Lemma umount_reads traces z :
  every_run (keep_if traces (fun t =>
      let! gone := do_ (Umount (Mounts.target t)) in ret (negb gone)) z)
    (fun tr _ => omap mountinfo_answer tr = []).
Proof.
  revert z. induction traces as [|t traces IH]; intros z; [done|].
  intros gone. eapply mbind_seq; [apply IH|done|].
  intros tr rest z' Hm. cbn. by rewrite app_nil_r.
Qed.

Definition untouched (h : HookContext) : bool :=
  negb (zygote_unmounted h) && match zygote_traces h with [] => true | _ => false end.

Lemma flags_quiet {B} (P : event inj -> option B) fuel word tmp uid :
  (forall X (e : net X) x, P (Ev (Net e) x) = None) ->
  every_run (lift (@Net) (GetProcessFlags fuel word tmp uid)) (fun tr _ => omap P tr = []).
Proof.
  intros HP. apply every_run_lift. apply every_run_trivial. intros tr _.
  induction tr as [|[X e x] tr IH]; [done|]. cbn. by rewrite HP.
Qed.

(** C29: zygote's mounts are taken away at most once, and what stays is remembered. Once a pass
    has unmounted, or has found traces it must not touch, later forks do not unmount. A
    pass asks for the traces in order, newest mount first, and none when there are none or a
    target is prohibited; afterwards the traces left are exactly those whose unmount failed,
    and zygote counts as unmounted exactly when the pass asked. *)
Theorem unmount_zygote_once fuel word tmp h z :
  z_hook z = Some h ->
  every_run (unmount_zygote fuel word tmp z) (on_return (fun tr r =>
    exists h', z_hook r.2 = Some h' /\
    if untouched h then
      exists content,
        let info := info_flags (z_ctx r.2) in
        let traces := check_zygote_traces info content in
        omap mountinfo_answer tr = [content] /\
        if abort_zygote_unmount traces info then
          omap umount_answer tr = [] /\ zygote_traces h' = traces /\ zygote_unmounted h' = false
        else
          map fst (omap umount_answer tr) = map Mounts.target traces /\
          zygote_traces h' = refused traces (omap umount_answer tr) /\ zygote_unmounted h' = true
    else tr = [] /\ h' = h)).
Proof.
  intros Hz. unfold unmount_zygote. apply mbind_gets. rewrite Hz. fold (untouched h).
  destruct (untouched h); cbn [when]; [|by exists h].
  apply mbind_gets. destruct (app_args (z_ctx z)) as [a|]; [|done].
  eapply mbind_seq with (S := fun tr r => (omap umount_answer tr = [] /\ omap mountinfo_answer tr = []) /\
    forall f z', r = Val (f, z') -> z' = z).
  { eapply every_run_seq.
    - apply every_run_and; [apply (flags_quiet umount_answer)|apply (flags_quiet mountinfo_answer)]; done.
    - intros tr x Hq. by split.
    - intros tr f Hq. cbn. rewrite app_nil_r. split; [done|]. by intros f' z' [= -> ->]. }
  { done. }
  intros tr f z' [[Hq Hq'] Hz']. rewrite (Hz' f z' eq_refl). clear Hz' z'. apply mbind_modify.
  apply mbind_do. intros content. cbv zeta. apply mbind_modify.
  set (traces := check_zygote_traces f content).
  destruct (abort_zygote_unmount traces f) eqn:Ea; cbn [negb when].
  - eexists. split; [cbn; by rewrite Hz|]. exists content. cbn. fold traces. rewrite Ea.
    rewrite !omap_app, Hq, Hq'. done.
  - eapply mbind_seq; [apply (every_run_and _ _ _ (umount_loop traces _) (umount_reads traces _))
                      |by intros ? ? [[_ ?] _]|].
    intros tr' remaining z' [[Hm Hr] Hm']. injection Hr as -> ->.
    eexists. split; [cbn; by rewrite Hz|]. exists content. rewrite !omap_app, Hq, Hq'.
    cbn. rewrite !app_nil_r, Hm'. split; [done|]. fold traces. rewrite Ea. by split_and!.
Qed.

(** ** Witness *)

Definition unmount_run := run calm 0 (unmount_zygote 20 8 "/tmp" sample_zygote).

Lemma unmount_zygote_once_witness :
  omap umount_answer unmount_run.1 =
    [("/odm", false); ("/vendor/lib", true); ("/data/adb/modules", true); ("/system/etc", true)] /\
  exists h, z_hook (match unmount_run.2 with Val r => snd r | Stop _ => sample_zygote end) = Some h /\
    map Mounts.target (zygote_traces h) = ["/odm"] /\ zygote_unmounted h = true.
Proof.
  split; [vm_compute; reflexivity|].
  pose proof (every_run_run _ _ calm 0 (unmount_zygote_once 20 8 "/tmp" sample_hook sample_zygote eq_refl)) as H.
  fold unmount_run in H. destruct unmount_run.2 as [r|] eqn:Hr; [|vm_compute in Hr; discriminate].
  destruct H as (h & Hz & _). exists h. split; [exact Hz|].
  vm_compute in Hr. injection Hr as <-.
  vm_compute in Hz. injection Hz as <-. split; vm_compute; reflexivity.
Defined.
