(* ===== verification/Hook.v ===== *)
(** * The hooks

    injector/hook.cpp, and the entry points of injector/jni_hooks.hpp: the functions of zygote
    that are replaced, how they are installed and taken out again, how the library unloads
    itself, and the life of a context around the original specialization. *)
From Stdlib Require Import ZArith Lia List String Ascii Bool.
From stdpp Require Import base list strings.
From S2P Require Import Prelude.
From S2P Require Import Scan.
From S2P Require Import Elf.
From S2P Require Import Mounts.
From S2P Require Import Daemon.
From S2P Require Import Solist.
From S2P Require Import JniEnv.
From S2P Require Import Jni.
From S2P Require Import Spoof.
From S2P Require Import Args.
From S2P Require Import JniHooks.
From S2P Require Import InjState.
From S2P Require Import Module.
Open Scope string_scope.
Open Scope list_scope.
Open Scope Z_scope.
Open Scope m_scope.

Definition kZygoteInit : string := "com.android.internal.os.ZygoteInit".
Definition kZygote : string := "com/android/internal/os/Zygote".
Definition CLONE_NEWNS : Z := 0x20000.

(** ** Updates of the hook context *)

Definition set_maps (ms : list LMap) (h : HookContext) : HookContext :=
  {| zygote_methods := zygote_methods h; start_addr := start_addr h; block_size := block_size h;
     should_spoof_maps := should_spoof_maps h; should_unmap := should_unmap h;
     skip_hooking_unloader := skip_hooking_unloader h; zygote_unmounted := zygote_unmounted h;
     MODIFIER_NATIVE := MODIFIER_NATIVE h; member_getModifiers := member_getModifiers h;
     cached_map_infos := ms; plt_backup := plt_backup h; zygote_traces := zygote_traces h |}.
Definition set_backup (b : list PltHook) (h : HookContext) : HookContext :=
  {| zygote_methods := zygote_methods h; start_addr := start_addr h; block_size := block_size h;
     should_spoof_maps := should_spoof_maps h; should_unmap := should_unmap h;
     skip_hooking_unloader := skip_hooking_unloader h; zygote_unmounted := zygote_unmounted h;
     MODIFIER_NATIVE := MODIFIER_NATIVE h; member_getModifiers := member_getModifiers h;
     cached_map_infos := cached_map_infos h; plt_backup := b; zygote_traces := zygote_traces h |}.
Definition set_unmap (b : bool) (h : HookContext) : HookContext :=
  {| zygote_methods := zygote_methods h; start_addr := start_addr h; block_size := block_size h;
     should_spoof_maps := should_spoof_maps h; should_unmap := b;
     skip_hooking_unloader := skip_hooking_unloader h; zygote_unmounted := zygote_unmounted h;
     MODIFIER_NATIVE := MODIFIER_NATIVE h; member_getModifiers := member_getModifiers h;
     cached_map_infos := cached_map_infos h; plt_backup := plt_backup h;
     zygote_traces := zygote_traces h |}.
Definition set_skip (b : bool) (h : HookContext) : HookContext :=
  {| zygote_methods := zygote_methods h; start_addr := start_addr h; block_size := block_size h;
     should_spoof_maps := should_spoof_maps h; should_unmap := should_unmap h;
     skip_hooking_unloader := b; zygote_unmounted := zygote_unmounted h;
     MODIFIER_NATIVE := MODIFIER_NATIVE h; member_getModifiers := member_getModifiers h;
     cached_map_infos := cached_map_infos h; plt_backup := plt_backup h;
     zygote_traces := zygote_traces h |}.
Definition set_block_size (n : Z) (h : HookContext) : HookContext :=
  {| zygote_methods := zygote_methods h; start_addr := start_addr h; block_size := n;
     should_spoof_maps := should_spoof_maps h; should_unmap := should_unmap h;
     skip_hooking_unloader := skip_hooking_unloader h; zygote_unmounted := zygote_unmounted h;
     MODIFIER_NATIVE := MODIFIER_NATIVE h; member_getModifiers := member_getModifiers h;
     cached_map_infos := cached_map_infos h; plt_backup := plt_backup h;
     zygote_traces := zygote_traces h |}.
Definition set_jni (ms : list JNINativeMethod) (native modifiers : Z) (h : HookContext) :
    HookContext :=
  {| zygote_methods := ms; start_addr := start_addr h; block_size := block_size h;
     should_spoof_maps := should_spoof_maps h; should_unmap := should_unmap h;
     skip_hooking_unloader := skip_hooking_unloader h; zygote_unmounted := zygote_unmounted h;
     MODIFIER_NATIVE := native; member_getModifiers := modifiers;
     cached_map_infos := cached_map_infos h; plt_backup := plt_backup h;
     zygote_traces := zygote_traces h |}.

(** [g_hook->], on a pointer that may be null. *)
Definition the_hook : M HookContext :=
  let! h := gets z_hook in
  match h with Some h => ret h | None => stop "g_hook is null or freed" end.

(** ** Installing and restoring PLT hooks *)

Definition symbol_of (f : plt_fn) : string :=
  match f with
  | Pfork => "fork" | Punshare => "unshare" | Pstrdup => "strdup" | Pproperty_get => "property_get"
  | Psetstacksize => "pthread_attr_setstacksize"
  end.

Definition register_hook (hook : PltHook) : M unit :=
  let! ok := do_ (LspltHook hook false) in
  when ok (modify (on_hook (fun h => set_backup (plt_backup h ++ [hook]) h))).

(** The last mapping of the runtime, zero when there is none. *)
Definition runtime_of (maps : list LMap) : Z * Z :=
  match find (fun m => ends_with (l_path m) "/libandroid_runtime.so") (rev maps) with
  | Some m => (l_dev m, l_inode m)
  | None => (0, 0)
  end.
Definition art_of (maps : list LMap) : Z * Z :=
  match find (fun m => ends_with (l_path m) "/libart.so") maps with
  | Some m => (l_dev m, l_inode m)
  | None => (0, 0)
  end.

Definition hook_plt : M unit :=
  let! maps := do_ LspltScan in
  modify (on_hook (set_maps maps)) >>
  let '(dev, inode) := runtime_of maps in
  each [Pfork; Punshare; Pstrdup; Pproperty_get]
    (fun f => register_hook {| h_dev := dev; h_inode := inode; h_fn := f |}) >>
  let! _ := do_ (LspltCommit false) in
  let! h := the_hook in
  let! filled := keep_if (plt_backup h) (fun b => do_ (Hooked (h_fn b))) in
  modify (on_hook (set_backup filled)).

Definition hook_unloader : M unit :=
  let! maps := do_ LspltScan in
  modify (on_hook (set_maps maps)) >>
  let '(dev, inode) := art_of maps in
  register_hook {| h_dev := dev; h_inode := inode; h_fn := Psetstacksize |} >>
  let! _ := do_ (LspltCommit false) in ret tt.

Definition restore_one (b : PltHook) : M unit :=
  let! ok := do_ (LspltHook b true) in
  when (negb ok) (modify (on_hook (set_unmap false))).
Definition restore_plt_hook : M unit :=
  let! h := the_hook in
  each (plt_backup h) restore_one >>
  let! ok := do_ (LspltCommit true) in
  when (negb ok) (modify (on_hook (set_unmap false))).

(** ** JNI *)

(** The symbol from the global scope, or from the library that exports it. *)
Fixpoint vms_from_maps (maps : list LMap) : M Z :=
  match maps with
  | [] => ret 0
  | m :: maps =>
      if negb (ends_with (l_path m) "/libnativehelper.so") then vms_from_maps maps
      else
        let! h := do_ (Dlopen (l_path m)) in
        if h =? 0 then ret 0
        else
          let! fn := do_ (Dlsym h "JNI_GetCreatedJavaVMs") in
          let! _ := do_ (Dlclose h) in ret fn
  end.
Definition get_created_java_vms : M Z :=
  let! fn := do_ (Dlsym 0 "JNI_GetCreatedJavaVMs") in
  if fn =? 0 then let! h := the_hook in vms_from_maps (cached_map_infos h) else ret fn.

Definition hook_zygote_methods : M unit :=
  let! h := the_hook in
  let! art := gets z_art in
  let! ms := embed (@Jni) (hook_jni_methods (MODIFIER_NATIVE h) (member_getModifiers h) art kZygote
                             (zygote_methods h)) in
  modify (on_hook (fun h => set_jni ms (MODIFIER_NATIVE h) (member_getModifiers h) h)).

(** A reference owned until the end of a function. *)
Definition owning (ref : Z) (body : M unit) : M unit :=
  body >> embed (@Jni) (ScopedLocalRef_destroy ref).
Section Init.
Context (w : Z).
(** What is found of the classes Member and Modifier, and of ART, before the methods are hooked. *)
Definition find_member (classMember : Z) : M unit :=
  when (negb (classMember =? 0))
    (let! id := embed (@Jni) (safe_GetMethodID classMember "getModifiers" "()I") in
     modify (on_hook (fun h => set_jni (zygote_methods h) (MODIFIER_NATIVE h) id h))).
Definition find_modifier (classModifier : Z) : M unit :=
  when (negb (classModifier =? 0))
    (let! field := embed (@Jni) (safe_GetStaticFieldID classModifier "NATIVE" "I") in
     when (negb (field =? 0))
       (let! native := embed (@Jni) (safe_GetStaticIntField classModifier field) in
        modify (on_hook (fun h => set_jni (zygote_methods h) native (member_getModifiers h) h)))).
Definition init_art : M bool :=
  let! art := gets z_art in
  let! r := embed (@Jni) (Init w art) in
  let '(ok, art) := r in
  modify (set_art art) >> ret ok.

Definition hook_zygote_jni : M unit :=
  let! fn := get_created_java_vms in
  if fn =? 0 then ret tt
  else
    let! vm := do_ (CreatedVM fn) in
    if vm =? 0 then ret tt
    else
      let! env := do_ (VMEnv vm) in
      if fst env =? 0 then ret tt
      else
        let! classMember := embed (@Jni) (safe_FindClass "java/lang/reflect/Member") in
        owning classMember (
          find_member classMember >>
          let! classModifier := embed (@Jni) (safe_FindClass "java/lang/reflect/Modifier") in
          owning classModifier (
            find_modifier classModifier >>
            let! h := the_hook in
            if (member_getModifiers h =? 0) || (MODIFIER_NATIVE h =? 0) then ret tt
            else
              let! ok := init_art in
              if negb ok then ret tt else hook_zygote_methods)).
End Init.
Definition restore_zygote_hook : M unit := hook_zygote_methods.

(** ** The replacements *)

(** The call of the original through [old_f], null unless lsplt filled it in. *)
Definition call_old (f : plt_fn) : M unit :=
  let! filled := do_ (Hooked f) in
  if filled : bool then ret tt else stop "a call through a null pointer".

Section Hooks.
Context (w page_size : Z) (fuel word : nat) (tmp_path : string).

Definition new_strdup (str : string) : M unit :=
  when (String.eqb kZygoteInit str)
    (hook_zygote_jni w >>
     let! maps := do_ LspltScan in
     modify (on_hook (set_maps maps))) >>
  call_old Pstrdup.

Definition new_fork : M Z :=
  let! active := gets z_active in
  let! c := gets z_ctx in
  if active && (0 <=? pid c) then ret (pid c) else do_ OldFork.

(** The namespace a process about to unshare is moved into, if any. *)
Definition switch_namespace (unshare_flags : Z) : M unit :=
  let! active := gets z_active in
  let! c := gets z_ctx in
  if active && has_flag unshare_flags CLONE_NEWNS && negb (has_flag (flags c) SERVER_FORK_AND_SPECIALIZE)
  then
    let should_unmount :=
      negb (has_flag (info_flags c) (Z.lor PROCESS_IS_MANAGER PROCESS_GRANTED_ROOT)) &&
      has_flag (flags c) DO_REVERT_UNMOUNT in
    let! h := the_hook in
    when (negb should_unmount && zygote_unmounted h)
      (let! _ := update_mount_namespace fuel word tmp_path Root in ret tt) >>
    let! h := the_hook in
    let is_zygote_clean :=
      zygote_unmounted h && match zygote_traces h with [] => true | _ => false end in
    when (should_unmount && negb is_zygote_clean)
      (let! _ := update_mount_namespace fuel word tmp_path Clean in ret tt)
  else ret tt.
Definition new_unshare (unshare_flags : Z) : M Z :=
  switch_namespace unshare_flags >>
  do_ (OldUnshare unshare_flags).

(** The last backup whose original is [property_get]'s is put back and forgotten. *)
Fixpoint unhook_property (bs : list PltHook) : M (list PltHook) :=
  match bs with
  | [] => ret []
  | b :: bs =>
      if bool_decide (h_fn b = Pproperty_get) then
        let! ok := do_ (LspltHook b true) in
        if negb ok then ret (b :: bs)
        else
          let! ok := do_ (LspltCommit true) in
          ret (if ok : bool then bs else b :: bs)
      else let! bs := unhook_property bs in ret (b :: bs)
  end.
Definition new_property_get : M unit :=
  let! h := the_hook in
  when (negb (skip_hooking_unloader h))
    (hook_unloader >>
     modify (on_hook (set_skip true)) >>
     let! h := the_hook in
     let! bs := unhook_property (rev (plt_backup h)) in
     modify (on_hook (set_backup (rev bs)))) >>
  call_old Pproperty_get.

Definition new_pthread_attr_setstacksize : M Z :=
  let! res := do_ OldSetStackSize in
  let! h := the_hook in
  if negb (should_unmap h) then ret res
  else
    let! tid := do_ GetTid in
    let! p := do_ GetPid in
    if negb (tid =? p) then ret res
    else
      restore_plt_hook >>
      let! h := the_hook in
      if should_unmap h then
        when (should_spoof_maps h) (embed (@Vm) (spoof_virtual_maps "zygisk-module" true)) >>
        modify (set_hook None) >>
        do_ (Munmap (start_addr h) (block_size h))
      else modify (set_hook None) >> ret res.

(** A call zygote makes of one of the functions that are hooked. *)
Definition plt_call (c : plt_fn * Z) : M unit :=
  match c with
  | (Pfork, _) => let! _ := new_fork in ret tt
  | (Punshare, fl) => let! _ := new_unshare fl in ret tt
  | (Pstrdup, main) => new_strdup (if main =? 0 then "" else kZygoteInit)
  | (Pproperty_get, _) => new_property_get
  | (Psetstacksize, _) => let! _ := new_pthread_attr_setstacksize in ret tt
  end.

Definition trigger_zygote_hooks : M unit := new_strdup kZygoteInit >> new_property_get.

(** ** The life of a context *)

(** When the call fails the limit it was to fill in keeps its first value. *)
Definition get_fd_max : M Z :=
  let! r := do_ Getrlimit in ret (default 32768 r).

Definition new_context (a : args_t) (fd_max : Z) : ZygiskContext :=
  {| args := a; process := None; modules := []; pid := -1; flags := 0; info_flags := 0;
     allowed_fds := repeat false (Z.to_nat fd_max); exempted_fds := []; register_info := [];
     ignore_info := [] |}.
Definition construct (a : args_t) : M unit :=
  let! n := get_fd_max in
  modify (fun z => set_active true (on_ctx (fun _ => new_context a n) z)).

(** [clearApi]: no function is left in any table. *)
Definition clear_api (m : ZygiskModule) : ZygiskModule := set_table empty_table (m_api m) m.
Definition destruct_body : M unit :=
  modify (set_active false) >>
  let! c := gets z_ctx in
  if negb (is_child c) then ret tt
  else
    modify (on_ctx (fun c => set_modules (map clear_api (modules c)) c)) >>
    let! h := gets z_hook in
    match h with
    | None => ret tt
    | Some _ => modify (on_hook (set_unmap true)) >> restore_zygote_hook
    end.

(** The members go with the context: its modules, and the tables in them, are freed. *)
Definition free_members (z : zygote) : zygote :=
  on_ctx (set_modules []) (set_freed (modules (z_ctx z)) z).
Definition destruct_ : M unit := destruct_body >> modify free_members.

(** The middle of a generated function: the original its place in the table remembers, called
    with its parameters as they are by then; zygote's code calls hooked functions. *)
Definition call_original (h : jni_hook) (fr : frame) : M unit :=
  let! hook := the_hook in
  match zygote_methods hook !! original h with
  | None => stop "an index outside the table"
  | Some m =>
      if fnPtr m =? 0 then stop "a call of a null pointer"
      else
        let! c := gets z_ctx in
        match passed_on h (frame_after h (args c) fr) with
        | None => stop "an argument that is no parameter"
        | Some arguments =>
            let! calls := do_ (Original (fnPtr m) arguments) in
            each calls plt_call
        end
  end.
(** A generated function, called by the virtual machine. The context's [args] are the parameters
    the structure refers to, from the moment it is built until the original is called. *)
Definition entry_point (h : jni_hook) (java : list jvalue) (pre post : M unit) : M Z :=
  let fr := frame_of h java in
  match args_of h fr with
  | None => stop "parameters of other types"
  | Some a =>
      construct a >>
      pre >>
      call_original h fr >>
      post >>
      let! c := gets z_ctx in
      destruct_ >>
      ret (pid c)
  end.
Definition hooked (h : jni_hook) (java : list jvalue) : M Z :=
  match around h with
  | ForkAndSpecialize =>
      entry_point h java (nativeForkAndSpecialize_pre fuel word tmp_path)
        (nativeForkAndSpecialize_post w page_size fuel word tmp_path)
  | SpecializeAppProcess =>
      entry_point h java (nativeSpecializeAppProcess_pre fuel word tmp_path)
        (nativeSpecializeAppProcess_post w page_size fuel word tmp_path)
  | ForkSystemServer =>
      entry_point h java (nativeForkSystemServer_pre fuel word tmp_path)
        (nativeForkSystemServer_post w page_size fuel word tmp_path)
  end.

(** ** The bootstrap *)

Definition new_hook_context (code : nat -> Z) (start size : Z) : HookContext :=
  {| zygote_methods := native_methods code; start_addr := start; block_size := size;
     should_spoof_maps := false; should_unmap := false; skip_hooking_unloader := false;
     zygote_unmounted := false; MODIFIER_NATIVE := 0; member_getModifiers := 0;
     cached_map_infos := []; plt_backup := []; zygote_traces := [] |}.

(** What is unmapped in the end: the linker's figure when its base agrees and it is larger. *)
Definition hook_entry (code : nat -> Z) (start size : Z) : M unit :=
  modify (set_hook (Some (new_hook_context code start size))) >>
  hook_plt >>
  let! outs := clean_linker w fuel tmp_path 1 0 true (Some (0, 0)) in
  match outs with
  | Some (reserved_base, reserved_size) =>
      when ((reserved_base =? start) && (size <? reserved_size))
        (modify (on_hook (set_block_size reserved_size)))
  | None => ret tt
  end.
End Hooks.

(** ** Facts: unloading *)

Definition unmapped (ev : event inj) : option (Z * Z) :=
  match ev with Ev (Munmap start len) _ => Some (start, len) | _ => None end.
(** Originals successfully asked back, and a successful commit of them. *)
Definition put_back (ev : event inj) : option PltHook :=
  match ev with
  | Ev e x => match e in inj X return X -> option PltHook with
              | LspltHook b restore => fun ok => if restore && ok then Some b else None
              | _ => fun _ => None
              end x
  end.
Definition committed (ev : event inj) : bool :=
  match ev with
  | Ev e x => match e in inj X return X -> bool with
              | LspltCommit restore => fun ok => restore && ok
              | _ => fun _ => false
              end x
  end.

(** The hook context a run of restorations leaves. *)
Definition restoring (h : HookContext) (bs : list PltHook) (tr : list (event inj)) (z : zygote) : Prop :=
  exists h', z_hook z = Some h' /\ start_addr h' = start_addr h /\ block_size h' = block_size h /\
    omap unmapped tr = [] /\
    (should_unmap h' = true -> should_unmap h = true /\ omap put_back tr = bs).

Lemma mbind_the_hook {B} (f : HookContext -> M B) h z Q :
  z_hook z = Some h -> every_run (f h z) Q -> every_run (mbind the_hook f z) Q.
Proof. intros Hz H. unfold mbind, the_hook, mbind, gets. cbn. by rewrite Hz. Qed.

Lemma restore_one_spec b h z :
  z_hook z = Some h ->
  every_run (restore_one b z) (fun tr r => exists z', r = Val (tt, z') /\ restoring h [b] tr z').
Proof.
  intros Hz [].
  - exists z. split; [done|]. by exists h.
  - eexists. split; [reflexivity|]. exists (set_unmap false h). cbn. by rewrite Hz.
Qed.

Lemma restore_loop bs h z :
  z_hook z = Some h ->
  every_run (each bs restore_one z) (fun tr r => exists z', r = Val (tt, z') /\ restoring h bs tr z').
Proof.
  revert h z. induction bs as [|b bs IH]; intros h z Hz; cbn [each].
  { exists z. split; [done|]. by exists h. }
  eapply mbind_seq; [by apply (restore_one_spec b h)|by intros ? ? (? & ? & _)|].
  intros tr [] z1 (z1' & Hz1 & h1 & Hh1 & Hs1 & Hb1 & Hu1 & Hr1). injection Hz1 as <-.
  eapply every_run_mono; [|by apply (IH h1)].
  intros tr' r (z' & -> & h' & Hz' & Hs & Hb & Hu & Hr). exists z'. split; [done|]. exists h'.
  rewrite !omap_app, Hu1, Hu. do 4 (split; [by try congruence|]).
  intros Hu'. destruct (Hr Hu') as [H1 H2]. destruct (Hr1 H1) as [H3 H4]. by rewrite H2, H4.
Qed.

Lemma restore_plt_hook_spec h z :
  z_hook z = Some h ->
  every_run (restore_plt_hook z) (fun tr r => exists z', r = Val (tt, z') /\
    restoring h (plt_backup h) tr z' /\
    (forall h', z_hook z' = Some h' -> should_unmap h' = true -> existsb committed tr = true)).
Proof.
  intros Hz. unfold restore_plt_hook. apply (mbind_the_hook _ h); [done|].
  eapply mbind_seq; [by apply (restore_loop (plt_backup h) h)|by intros ? ? (? & ? & _)|].
  intros tr [] z' (z1 & Hz1 & h' & Hh' & Hs & Hb & Hu & Hr). injection Hz1 as <-.
  apply mbind_do. intros ok. destruct ok; cbn [negb when].
  - exists z'. split; [done|]. split.
    + exists h'. rewrite !omap_app, Hu. do 4 (split; [done|]). intros H1. destruct (Hr H1) as [? ->].
      by rewrite app_nil_r.
    + intros. rewrite existsb_app. apply orb_true_r.
  - eexists. split; [reflexivity|]. cbn. rewrite Hh'. split.
    + eexists. cbn. rewrite Hh'. split; [reflexivity|]. by rewrite omap_app, Hu.
    + by intros ? [= <-].
Qed.

(** C28: the library is unmapped only when nothing points into it any more. A call of
    pthread_attr_setstacksize unmaps, besides copies made while hiding mappings, at most one
    range, the library's, as its last act, and
    only if unloading was asked for, the original of every installed hook was put back, in
    order, and the commit of them succeeded. *)
Theorem unmap_after_restore h z :
  z_hook z = Some h ->
  every_run (new_pthread_attr_setstacksize z) (fun tr r =>
    omap unmapped tr = [] \/
    (omap unmapped tr = [(start_addr h, block_size h)] /\
     last_is (fun ev => match unmapped ev with Some _ => true | None => false end) tr = true /\
     should_unmap h = true /\ omap put_back tr = plt_backup h /\ existsb committed tr = true)).
Proof.
  intros Hz. unfold new_pthread_attr_setstacksize. apply mbind_do. intros res.
  apply (mbind_the_hook _ h); [done|].
  destruct (should_unmap h) eqn:Hu; cbn [negb]; [|by left].
  apply mbind_do. intros tid. apply mbind_do. intros p.
  destruct (tid =? p); cbn [negb]; [|by left].
  eapply mbind_seq; [by apply restore_plt_hook_spec|by intros ? ? (? & ? & _)|].
  intros tr [] z' (z1 & Hz1 & (h' & Hh' & Hs & Hb & Hun & Hr) & Hc). injection Hz1 as <-.
  apply (mbind_the_hook _ h'); [done|].
  destruct (should_unmap h') eqn:Hu'.
  2: { left. cbn. by rewrite omap_app, Hun. }
  destruct (Hr eq_refl) as [_ Hback]. pose proof (Hc h' Hh' Hu') as Hcommit.
  assert (forall spoof : list (event inj), omap unmapped spoof = [] -> omap put_back spoof = [] -> forall (x : Z),
    let tr' := Ev OldSetStackSize res :: Ev GetTid tid :: Ev GetPid p :: tr ++ spoof ++
               [Ev (Munmap (start_addr h') (block_size h')) x] in
    omap unmapped tr' = [(start_addr h, block_size h)] /\
    last_is (fun ev => match unmapped ev with Some _ => true | None => false end) tr' = true /\
    true = true /\ omap put_back tr' = plt_backup h /\ existsb committed tr' = true) as Hend.
  { intros spoof H1 H2 x. cbv zeta. rewrite Hs, Hb. cbn. rewrite !omap_app, Hun, H1, H2, Hback. cbn.
    rewrite app_nil_r, existsb_app, Hcommit. split_and!; try done.
    change (?a :: ?b :: ?c :: ?l) with ([a; b; c] ++ l). do 2 apply last_is_app. by apply last_is_app. }
  destruct (should_spoof_maps h'); cbn [when].
  - apply mbind_embed; intros spoof; [|intros []].
    + intros x. left. cbn. rewrite omap_app, Hun, omap_lifted; [done|]. by intros [].
    + intros _ x. right. apply (Hend (map (lift_event (@Vm)) spoof)); apply omap_lifted; by intros [].
  - intros x. right. by apply (Hend []).
Qed.

(** ** Facts: namespaces *)

(** An app may keep the root view when it was granted root or is the manager; one to be
    reverted gets the clean view unless zygote itself is clean already. *)
Definition entitled (c : ZygiskContext) : bool :=
  has_flag (info_flags c) (Z.lor PROCESS_IS_MANAGER PROCESS_GRANTED_ROOT).
Definition clean_zygote (h : HookContext) : bool :=
  zygote_unmounted h && match zygote_traces h with [] => true | _ => false end.
Definition wanted_namespace (z : zygote) (h : HookContext) (unshare_flags : Z) : option MountNamespace :=
  let c := z_ctx z in
  if negb (z_active z) || negb (has_flag unshare_flags CLONE_NEWNS) ||
     has_flag (flags c) SERVER_FORK_AND_SPECIALIZE then None
  else if has_flag (flags c) DO_REVERT_UNMOUNT && negb (entitled c) then
    if clean_zygote h then None else Some Clean
  else if zygote_unmounted h then Some Root else None.

Lemma update_mount_namespace_state fuel word tmp ns z :
  every_run (update_mount_namespace fuel word tmp ns z) (fun tr r =>
    exec (update_mount_namespace fuel word tmp ns z) tr r /\
    forall ok z', r = Val (ok, z') -> z' = z).
Proof.
  apply every_run_and; [by apply every_run_exec|]. unfold update_mount_namespace.
  eapply mbind_seq with (S := fun _ r => forall n z', r = Val (n, z') -> z' = z).
  - apply every_run_bind, every_run_trivial. intros tr [n|h]; [|done]. by intros n' z' [= _ ->].
  - done.
  - intros tr ns_fd z' Hz. rewrite (Hz ns_fd z' eq_refl). destruct (ns_fd <? 0).
    + by intros ok z1 [= _ ->].
    + apply mbind_do. intros ok. intros [] ok' z1 [= _ ->]. done.
Qed.

Lemma switch_one fuel word tmp ns z (Q : list (event inj) -> res (unit * zygote) -> Prop) :
  (forall tr ok, exec (update_mount_namespace fuel word tmp ns z) tr (Val (ok, z)) -> Q tr (Val (tt, z))) ->
  (forall tr h, Q tr (Stop h)) ->
  every_run (mbind (update_mount_namespace fuel word tmp ns) (fun _ => ret tt) z) Q.
Proof.
  intros HQ Hh. eapply mbind_seq; [apply update_mount_namespace_state|by intros|].
  intros tr ok z' [He Hz]. pose proof (Hz ok z' eq_refl) as ->. cbn. rewrite app_nil_r. by eapply HQ.
Qed.

Definition switched fuel word tmp (z : zygote) (ns : option MountNamespace) (tr : list (event inj)) : Prop :=
  match ns with
  | None => tr = []
  | Some ns => exists ok, exec (update_mount_namespace fuel word tmp ns z) tr (Val (ok, z))
  end.

Lemma switch_namespace_spec fuel word tmp fl h z :
  z_hook z = Some h ->
  every_run (switch_namespace fuel word tmp fl z) (on_return (fun tr r =>
    r = (tt, z) /\ switched fuel word tmp z (wanted_namespace z h fl) tr)).
Proof.
  intros Hz. unfold switch_namespace. do 2 apply mbind_gets. unfold wanted_namespace.
  fold (entitled (z_ctx z)).
  destruct (z_active z); [|done]. destruct (has_flag fl CLONE_NEWNS); [|done].
  destruct (has_flag (flags (z_ctx z)) SERVER_FORK_AND_SPECIALIZE); [done|]. cbn [negb orb andb].
  cbv zeta. apply (mbind_the_hook _ h); [done|].
  destruct (entitled (z_ctx z)), (has_flag (flags (z_ctx z)) DO_REVERT_UNMOUNT); cbn [negb andb].
  4: { destruct (zygote_unmounted h) eqn:Hu; cbn [when].
    - eapply mbind_seq with (S := on_return (fun tr r => r = (tt, z) /\ switched fuel word tmp z (Some Root) tr));
        [apply switch_one; [intros tr ok He; split; [done|by exists ok]|done]|done|].
      intros tr [] z' [[= <-] Hs]. apply (mbind_the_hook _ h); [done|]. cbn. by rewrite app_nil_r.
    - apply (mbind_the_hook _ h); [done|]. done. }
  3: { change (every_run (mbind the_hook (fun h0 => when (negb (zygote_unmounted h0 &&
         match zygote_traces h0 with [] => true | _ => false end))
         (mbind (update_mount_namespace fuel word tmp Clean) (fun _ => ret tt))) z)
         (on_return (fun tr r => r = (tt, z) /\
            switched fuel word tmp z (if clean_zygote h then None else Some Clean) tr))).
       apply (mbind_the_hook _ h); [done|]. fold (clean_zygote h).
       destruct (clean_zygote h); cbn [negb when]; [done|].
       apply switch_one; [intros tr ok He; split; [done|by exists ok]|done]. }
  all: destruct (zygote_unmounted h) eqn:Hu; cbn [when];
    [eapply mbind_seq with (S := on_return (fun tr r => r = (tt, z) /\ switched fuel word tmp z (Some Root) tr));
       [apply switch_one; [intros tr ok He; split; [done|by exists ok]|done]|done|];
     intros tr [] z' [[= <-] Hs]; apply (mbind_the_hook _ h); [done|]; cbn; by rewrite app_nil_r
    |apply (mbind_the_hook _ h); done].
Qed.

(** A process is moved to the namespace it is meant to see, at most once, before it
    unshares. Whenever the hooked unshare returns, its last act was the original call, whose
    answer it passes on, and nothing of the state changed; before it there is exactly one
    request to the daemon for the wanted namespace, or nothing when none is wanted: the system
    server and calls without a new mount namespace want none, an app to be reverted wants the
    clean one unless zygote is clean, and any other the root one if zygote was unmounted. *)
Lemma unshare_switches_once fuel word tmp fl h z :
  z_hook z = Some h ->
  every_run (new_unshare fuel word tmp fl z) (on_return (fun tr r =>
    exists before, tr = before ++ [Ev (OldUnshare fl) (fst r)] /\ snd r = z /\
      switched fuel word tmp z (wanted_namespace z h fl) before)).
Proof.
  intros Hz. unfold new_unshare. eapply mbind_seq; [by apply (switch_namespace_spec _ _ _ fl h)|done|].
  intros tr [] z' [[= <-] Hs] x. exists tr. done.
Qed.

(** A failed restoration leaves hooks installed and [g_hook] deleted: the next call of a hooked
    function uses it. *)
Lemma use_after_failed_restore z :
  z_hook z = None ->
  every_run (new_pthread_attr_setstacksize z) (fun _ r =>
    r = Stop (Undefined "g_hook is null or freed")).
Proof.
  intros Hz. unfold new_pthread_attr_setstacksize. apply mbind_do. intros res.
  unfold mbind, the_hook, mbind, gets. cbn. by rewrite Hz.
Qed.

(** ** Witnesses *)

Definition unload_run := run calm 0 (new_pthread_attr_setstacksize sample_zygote).

Lemma unmap_after_restore_witness :
  omap unmapped unload_run.1 = [(0x7000, 0x1000)] /\ omap put_back unload_run.1 = plt_backup sample_hook.
Proof.
  destruct (every_run_run _ _ calm 0 (unmap_after_restore sample_hook sample_zygote eq_refl))
    as [H|(H1 & _ & _ & H2 & _)]; [vm_compute in H; discriminate|].
  split; [exact H1|exact H2].
Defined.

Definition unshare_run := run calm 0 (new_unshare 20 8 "/tmp" CLONE_NEWNS sample_zygote).

Lemma unshare_switches_once_witness :
  wanted_namespace sample_zygote sample_hook CLONE_NEWNS = Some Clean /\
  exists before, unshare_run.1 = before ++ [Ev (OldUnshare CLONE_NEWNS) 0] /\
    switched 20 8 "/tmp" sample_zygote (Some Clean) before.
Proof.
  split; [reflexivity|].
  destruct (every_run_run _ _ calm 0
    (unshare_switches_once 20 8 "/tmp" CLONE_NEWNS sample_hook sample_zygote eq_refl))
    as (before & H1 & _ & H2).
  by exists before.
Defined.
