(* ===== verification/PltLock.v ===== *)
(** * PLT hooks asked for by several threads

    injector/module.cpp's [plt_hook_register], [plt_hook_exclude] and [plt_hook_commit] share two
    vectors behind [hook_info_lock], taken by the [mutex_guard] of include/misc.hpp. Here the
    threads of a module call them at once, one memory access at a time, and any interleaving is
    shown to do what Module.v's functions do one call after another. *)
From Stdlib Require Import ZArith Lia List String Ascii Bool Wellfounded.
From stdpp Require Import base list strings.
From S2P Require Import Prelude.
From S2P Require Import Spoof.
From S2P Require Import InjState.
From S2P Require Import Module.
From S2P Require Import Hook.
Open Scope string_scope.
Open Scope list_scope.
Open Scope Z_scope.
Open Scope m_scope.

(** ** The mutex and its guard *)

(** A default mutex: free, or held by a thread. *)
Definition mutex : Type := option nat.
(** [None]: the thread waits. *)
Definition pthread_mutex_lock (i : nat) (m : mutex) : option mutex :=
  match m with None => Some (Some i) | Some _ => None end.
Definition pthread_mutex_unlock (i : nat) (m : mutex) : res mutex :=
  match m with
  | Some j => if Nat.eqb j i then Val None else Stop (Undefined "a mutex of another thread")
  | None => Stop (Undefined "a mutex that is not locked")
  end.

(** The guard's pointer, null or to the mutex. *)
Record mutex_guard := { guards : bool }.
Definition mutex_guard_new (i : nat) (m : mutex) : option (mutex * mutex_guard) :=
  match pthread_mutex_lock i m with
  | Some m => Some (m, {| guards := true |})
  | None => None
  end.
Definition mutex_guard_drop (i : nat) (m : mutex) (g : mutex_guard) : res mutex :=
  if guards g then pthread_mutex_unlock i m else Val m.
(** [mutex_guard::unlock], which nothing calls. *)
Definition mutex_guard_unlock (i : nat) (m : mutex) (g : mutex_guard) : res (mutex * mutex_guard) :=
  if guards g then
    match pthread_mutex_unlock i m with
    | Val m => Val (m, {| guards := false |})
    | Stop h => Stop h
    end
  else Val (m, g).

(** However often it was unlocked by hand, a guard gives the mutex back once: when another thread
    has taken it since, it stays with that thread. *)
Lemma mutex_guard_once i m m' g g' j :
  mutex_guard_new i m = Some (m', g) -> mutex_guard_unlock i m' g = Val (None, g') ->
  mutex_guard_drop i (Some j) g' = Val (Some j).
Proof.
  unfold mutex_guard_new, mutex_guard_unlock, mutex_guard_drop.
  destruct m; cbn; [done|]. intros [= <- <-]. cbn. rewrite Nat.eqb_refl. by intros [= <-].
Qed.
Lemma mutex_guard_scope i m m' g :
  mutex_guard_new i m = Some (m', g) -> mutex_guard_drop i m' g = Val m.
Proof.
  unfold mutex_guard_new, mutex_guard_drop. destruct m; cbn; [done|]. intros [= <- <-]. cbn.
  by rewrite Nat.eqb_refl.
Qed.

(** ** What a commit asks of lsplt *)

Record request := {
  rq_dev : Z; rq_inode : Z; rq_symbol : string; rq_callback : Z; rq_backup : Z }.

(** The two vectors, and what lsplt was asked for. *)
Record lists := {
  l_regs : list RegisterInfo; l_igns : list IgnoreInfo; l_asked : list request }.

Section Threads.
(** [regcomp] and [regexec] depend on their arguments alone; the mappings are
    [g_hook->cached_map_infos], which no call changes. *)
Context (compiles : string -> bool) (matches : string -> string -> bool) (maps : list LMap).

Definition hookable (map : LMap) : bool :=
  (l_offset map =? 0) && l_private map && has_flag (l_perms map) PROT_READ.
Definition excluded (igns : list IgnoreInfo) (symbol path : string) : bool :=
  existsb (fun i => matches (ii_regex i) path &&
                    (is_empty (ii_symbol i) || String.eqb (ii_symbol i) symbol)) igns.
Definition request_of (igns : list IgnoreInfo) (map : LMap) (reg : RegisterInfo) : list request :=
  if matches (ri_regex reg) (l_path map) && negb (excluded igns (ri_symbol reg) (l_path map)) then
    [{| rq_dev := l_dev map; rq_inode := l_inode map; rq_symbol := ri_symbol reg;
        rq_callback := ri_callback reg; rq_backup := ri_backup reg |}]
  else [].
Definition requests (regs : list RegisterInfo) (igns : list IgnoreInfo) : list request :=
  flat_map (fun map => if hookable map then flat_map (request_of igns map) regs else []) maps.

(** ** Calls and threads *)

Inductive plt_call :=
| Register (regex symbol : option string) (fn backup : Z)
| Exclude (regex symbol : option string)
| Commit.
Definition is_commit (c : plt_call) : bool := match c with Commit => true | _ => false end.

(** What a call does to the vectors under the lock. *)
Inductive access := AddRegister (x : RegisterInfo) | AddIgnore (x : IgnoreInfo) | Process.
(** Its arguments are checked and its pattern is compiled before. *)
Definition prepare (c : plt_call) : option access :=
  match c with
  | Register (Some regex) (Some symbol) fn backup =>
      if (fn =? 0) || negb (compiles regex) then None
      else Some (AddRegister {| ri_regex := regex; ri_symbol := symbol; ri_callback := fn;
                                ri_backup := backup |})
  | Exclude (Some regex) symbol =>
      if compiles regex then
        Some (AddIgnore {| ii_regex := regex; ii_symbol := match symbol with Some s => s | None => "" end |})
      else None
  | Commit => Some Process
  | _ => None
  end.

(** Where a thread is: a vector grows by reading it and by writing it back with one element
    more, and a commit asks lsplt for one hook at a time. *)
Inductive phase :=
| Idle
| Locking (a : access)
| Reading (a : access)
| Growing (x : RegisterInfo) (seen : list RegisterInfo)
| Ignoring (x : IgnoreInfo) (seen : list IgnoreInfo)
| Matching (seen : list RegisterInfo)
| Requesting (todo : list request)
| Clearing
| ClearingIgnored
| Leaving (a : access)
| Committing.

Record thread := { calls : list plt_call; at_ : phase; guard : mutex_guard }.
Record shared := { hook_info_lock : mutex; data : lists; commits : nat }.
Record system := { shr : shared; threads : list thread }.

Definition goto (p : phase) (t : thread) : thread :=
  {| calls := calls t; at_ := p; guard := guard t |}.
Definition store (l : lists) (s : shared) : shared :=
  {| hook_info_lock := hook_info_lock s; data := l; commits := commits s |}.
Definition no_guard : mutex_guard := {| guards := false |}.

(** One step of thread [i], [None] when it waits or has nothing left to do; a call that ends
    is told. *)
Definition tstep (i : nat) (s : shared) (t : thread) :
    option (res (shared * thread * option plt_call)) :=
  let d := data s in
  let move s p := Some (Val (s, goto p t, None)) in
  match at_ t with
  | Idle =>
      match calls t with
      | [] => None
      | c :: rest =>
          match prepare c with
          | None => Some (Val (s, {| calls := rest; at_ := Idle; guard := guard t |}, Some c))
          | Some a => move s (Locking a)
          end
      end
  | Locking a =>
      match mutex_guard_new i (hook_info_lock s) with
      | None => None
      | Some (m, g) =>
          Some (Val ({| hook_info_lock := m; data := d; commits := commits s |},
                     {| calls := calls t; at_ := Reading a; guard := g |}, None))
      end
  | Reading (AddRegister x) => move s (Growing x (l_regs d))
  | Reading (AddIgnore x) => move s (Ignoring x (l_igns d))
  | Reading Process => move s (Matching (l_regs d))
  | Growing x seen =>
      move (store {| l_regs := seen ++ [x]; l_igns := l_igns d; l_asked := l_asked d |} s)
        (Leaving (AddRegister x))
  | Ignoring x seen =>
      move (store {| l_regs := l_regs d; l_igns := seen ++ [x]; l_asked := l_asked d |} s)
        (Leaving (AddIgnore x))
  | Matching seen => move s (Requesting (requests seen (l_igns d)))
  | Requesting (r :: todo) =>
      move (store {| l_regs := l_regs d; l_igns := l_igns d; l_asked := l_asked d ++ [r] |} s)
        (Requesting todo)
  | Requesting [] => move s Clearing
  | Clearing =>
      move (store {| l_regs := []; l_igns := l_igns d; l_asked := l_asked d |} s) ClearingIgnored
  | ClearingIgnored =>
      move (store {| l_regs := l_regs d; l_igns := []; l_asked := l_asked d |} s) (Leaving Process)
  | Leaving a =>
      match calls t, mutex_guard_drop i (hook_info_lock s) (guard t) with
      | c :: rest, Val m =>
          Some (Val ({| hook_info_lock := m; data := d; commits := commits s |},
                     {| calls := rest; at_ := if is_commit c then Committing else Idle;
                        guard := no_guard |}, Some c))
      | _, Stop h => Some (Stop h)
      | [], _ => None
      end
  | Committing =>
      move {| hook_info_lock := hook_info_lock s; data := d; commits := S (commits s) |} Idle
  end.

(** Any thread may be the next; a label names the call that ended and its thread. *)
Inductive step : system -> option (nat * plt_call) -> system -> Prop :=
| step_thread st i t s t' c :
    threads st !! i = Some t -> tstep i (shr st) t = Some (Val (s, t', c)) ->
    step st (option_map (pair i) c) {| shr := s; threads := <[i := t']> (threads st) |}.

Definition ended (label : option (nat * plt_call)) : list (nat * plt_call) :=
  match label with Some x => [x] | None => [] end.
(** [steps st h st']: the calls that ended between [st] and [st'], in that order. *)
Inductive steps (st : system) : list (nat * plt_call) -> system -> Prop :=
| steps_refl : steps st [] st
| steps_step h st1 label st2 :
    steps st h st1 -> step st1 label st2 -> steps st (h ++ ended label) st2.

Definition start (l : lists) (programs : list (list plt_call)) : system :=
  {| shr := {| hook_info_lock := None; data := l; commits := 0 |};
     threads := map (fun p => {| calls := p; at_ := Idle; guard := no_guard |}) programs |}.

(** The calls of one thread. *)
Definition calls_by (i : nat) (h : list (nat * plt_call)) : list plt_call :=
  omap (fun '(j, c) => if Nat.eqb j i then Some c else None) h.

(** ** One call after another *)

Definition perform (a : access) (l : lists) : lists :=
  match a with
  | AddRegister x => {| l_regs := l_regs l ++ [x]; l_igns := l_igns l; l_asked := l_asked l |}
  | AddIgnore x => {| l_regs := l_regs l; l_igns := l_igns l ++ [x]; l_asked := l_asked l |}
  | Process =>
      {| l_regs := []; l_igns := []; l_asked := l_asked l ++ requests (l_regs l) (l_igns l) |}
  end.
Definition effect (l : lists) (c : plt_call) : lists :=
  match prepare c with Some a => perform a l | None => l end.
Definition effects (l : lists) (cs : list plt_call) : lists := foldl effect l cs.

(** The same calls in Module.v. *)
Definition module_call (c : plt_call) : M unit :=
  match c with
  | Register regex symbol fn backup => plt_hook_register regex symbol fn backup
  | Exclude regex symbol => plt_hook_exclude regex symbol
  | Commit => let! _ := plt_hook_commit in ret tt
  end.

(** *** Module.v's functions have these effects *)

(** [regcomp] and [regexec] answered as they do. *)
Definition answered (ev : event inj) : Prop :=
  match ev with
  | Ev e x =>
      match e in inj X return X -> Prop with
      | Regcomp p => fun b => b = compiles p
      | Regexec p s => fun b => b = matches p s
      | _ => fun _ => True
      end x
  end.
Definition requested (ev : event inj) : option request :=
  match ev with
  | Ev (LspltRegister dev inode symbol callback backup) _ =>
      Some {| rq_dev := dev; rq_inode := inode; rq_symbol := symbol; rq_callback := callback;
              rq_backup := backup |}
  | _ => None
  end.
Definition committed (ev : event inj) : option unit :=
  match ev with Ev (LspltCommit false) _ => Some tt | _ => None end.

(** A run with such answers returns a value in [P] and the state [z'], having asked for [rq] and
    committed [n] times. *)
Definition does {A} (m : M A) (z : zygote) (P : A -> Prop) (z' : zygote)
    (rq : list request) (n : nat) : Prop :=
  forall tr r, exec (m z) tr r -> Forall answered tr ->
    exists a, r = Val (a, z') /\ P a /\ omap requested tr = rq /\
              List.length (omap committed tr) = n.

Lemma does_ret {A} (a : A) z (P : A -> Prop) : P a -> does (ret a) z P z [] 0.
Proof. intros Ha tr r [-> ->] _. by exists a. Qed.

Lemma does_bind {A B} (m : M A) (f : A -> M B) z z1 z2 P Q rq1 rq2 n1 n2 :
  does m z P z1 rq1 n1 -> (forall a, P a -> does (f a) z1 Q z2 rq2 n2) ->
  does (mbind m f) z Q z2 (rq1 ++ rq2) (n1 + n2).
Proof.
  intros Hm Hf.
  refine (proj1 (every_run_exec _ (fun tr r => Forall answered tr -> exists b, r = Val (b, z2) /\
    Q b /\ omap requested tr = rq1 ++ rq2 /\
    List.length (omap committed tr) = (n1 + n2)%nat)) _).
  apply every_run_bind, every_run_exec. intros tr r Hr. destruct r as [[a z']|h].
  - apply every_run_exec. intros tr' r' Hr' [Ht Ht']%Forall_app.
    destruct (Hm _ _ Hr Ht) as (a' & [= <- <-] & Ha & <- & <-).
    destruct (Hf a Ha _ _ Hr' Ht') as (b & -> & Hb & <- & <-).
    exists b. by rewrite !omap_app, length_app.
  - intros Ht. by destruct (Hm _ _ Hr Ht) as (? & [=] & _).
Qed.

Lemma does_do {X} (e : inj X) z (P : X -> Prop) rq n :
  (forall x, answered (Ev e x) ->
     P x /\ omap requested [Ev e x] = rq /\ List.length (omap committed [Ev e x]) = n) ->
  does (do_ e) z P z rq n.
Proof.
  intros H tr r (x & tr' & -> & -> & ->) Ht. inversion_clear Ht as [|? ? Hx].
  destruct (H x Hx) as (? & ? & ?). by exists x.
Qed.

Lemma does_gets {A B} (g : zygote -> A) (f : A -> M B) z P z' rq n :
  does (f (g z)) z P z' rq n -> does (mbind (gets g) f) z P z' rq n.
Proof. exact id. Qed.
Lemma does_modify g z : does (modify g) z (fun _ => True) (g z) [] 0.
Proof. intros tr r [-> ->] _. by exists tt. Qed.

Lemma does_each {A} (l : list A) body z f :
  (forall x, does (body x) z (fun _ => True) z (f x) 0) ->
  does (each l body) z (fun _ => True) z (flat_map f l) 0.
Proof.
  intros H. induction l as [|x l IH]; cbn; [by apply does_ret|].
  exact (does_bind _ _ _ _ _ _ _ _ _ 0 0 (H x) (fun _ _ => IH)).
Qed.

Lemma does_when b (m : M unit) z rq :
  (b = true -> does m z (fun _ => True) z rq 0) ->
  does (when b m) z (fun _ => True) z (if b then rq else []) 0.
Proof. destruct b; cbn; intros H; [by apply H|by apply does_ret]. Qed.

Lemma ignored_does igns symbol path z :
  does (ignored igns symbol path) z (fun b => b = excluded igns symbol path) z [] 0.
Proof.
  induction igns as [|i igns IH]; cbn; [by apply does_ret|].
  eapply (does_bind _ _ _ _ _ (fun b => b = matches (ii_regex i) path) _ [] [] 0 0);
    [by apply does_do|].
  intros hit ->. destruct (_ && _); [by apply does_ret|exact IH].
Qed.

Lemma request_does igns map reg z :
  does (let! hit := do_ (Regexec (ri_regex reg) (l_path map)) in
        when hit
          (let! skip := ignored igns (ri_symbol reg) (l_path map) in
           when (negb skip)
             (let! _ := do_ (LspltRegister (l_dev map) (l_inode map) (ri_symbol reg)
                               (ri_callback reg) (ri_backup reg)) in ret tt)))
    z (fun _ => True) z (request_of igns map reg) 0.
Proof.
  eapply (does_bind _ _ _ _ _ (fun b => b = matches (ri_regex reg) (l_path map)) _ [] _ 0 0);
    [by apply does_do|].
  intros hit ->. unfold request_of. destruct (matches _ _); cbn [andb when]; [|by apply does_ret].
  eapply (does_bind _ _ _ _ _ _ _ [] _ 0 0); [apply ignored_does|].
  intros skip ->. apply does_when. intros _.
  rewrite <- (app_nil_r [_]).
  eapply (does_bind _ _ _ _ _ (fun _ => True) _ _ [] 0 0); [by apply does_do|].
  intros _ _. by apply does_ret.
Qed.

Lemma requests_nil igns : requests [] igns = [].
Proof. unfold requests. induction maps as [|m ms IH]; cbn; [done|]. by destruct (hookable m). Qed.

Section Serial.
Context (hk : HookContext) (Hmaps : cached_map_infos hk = maps).

Lemma process_does z :
  z_hook z = Some hk ->
  does plt_hook_process_regex z (fun _ => True) z
    (requests (register_info (z_ctx z)) (ignore_info (z_ctx z))) 0.
Proof.
  intros Hz. unfold plt_hook_process_regex. apply does_gets.
  destruct (register_info (z_ctx z)) as [|r regs] eqn:E.
  - rewrite requests_nil. by apply does_ret.
  - apply does_gets. rewrite Hz, Hmaps, <- E. apply does_each. intros map.
    unfold hookable.
    destruct (l_offset map =? 0), (l_private map), (has_flag _ _); cbn [negb orb andb];
      try by apply does_ret.
    apply does_each. intros reg. apply request_does.
Qed.

Definition holds (l : lists) (z : zygote) : Prop :=
  z_hook z = Some hk /\ register_info (z_ctx z) = l_regs l /\ ignore_info (z_ctx z) = l_igns l.
Lemma holds_set l z l' : holds l z -> holds l' (on_ctx (set_regexes (l_regs l') (l_igns l')) z).
Proof. by intros (? & _). Qed.

Lemma add_does (ok : bool) pattern z g :
  ok = compiles pattern ->
  does (let! ok := do_ (Regcomp pattern) in when ok (modify g)) z (fun _ => True)
    (if ok then g z else z) [] 0.
Proof.
  intros ->.
  eapply (does_bind _ _ _ _ _ (fun b => b = compiles pattern) _ [] [] 0 0); [by apply does_do|].
  intros b ->. destruct (compiles pattern); [apply does_modify|by apply does_ret].
Qed.

Lemma module_call_does c l z :
  holds l z ->
  exists z' rq, holds (effect l c) z' /\ l_asked (effect l c) = l_asked l ++ rq /\
    does (module_call c) z (fun _ => True) z' rq (if is_commit c then 1 else 0).
Proof.
  intros (Hh & Hr & Hi).
  assert (Hstay : exists z' rq, holds l z' /\ l_asked l = l_asked l ++ rq /\
            does (ret tt) z (fun _ => True) z' rq 0).
  { exists z, []. rewrite app_nil_r. by repeat split; [..|apply does_ret]. }
  destruct c as [[re|] [sy|] fn bk|[re|] sy|]; try exact Hstay; unfold effect; cbn [prepare].
  - cbn [module_call plt_hook_register is_commit]. destruct (fn =? 0); [exact Hstay|]. cbn [orb].
    eexists _, []. rewrite app_nil_r. split; [|split; [|by eapply add_does]].
    + destruct (compiles re); cbn; [|done]. repeat split; cbn; [done|by rewrite Hr|done].
    + by destruct (compiles re).
  - cbn [module_call plt_hook_exclude is_commit].
    eexists _, []. rewrite app_nil_r. split; [|split; [|by eapply add_does]].
    + destruct (compiles re); cbn; [|done]. repeat split; cbn; [done|done|by rewrite Hi].
    + by destruct (compiles re).
  - exists (on_ctx (set_regexes [] []) z), (requests (l_regs l) (l_igns l)).
    split; [done|split; [done|]]. cbn [module_call is_commit]. rewrite <- Hr, <- Hi.
    rewrite <- (app_nil_r (requests _ _)).
    eapply (does_bind _ _ _ _ _ (fun _ => True) _ _ [] 1 0); [|intros; by apply does_ret].
    rewrite <- (app_nil_r (requests _ _)).
    eapply (does_bind _ _ _ _ _ _ _ _ [] 0 1); [by apply process_does|]. intros _ _.
    eapply (does_bind _ _ _ _ _ _ _ [] [] 0 1); [apply does_modify|]. intros _ _.
    apply does_gets. cbn. rewrite Hh. by apply does_do.
Qed.

Lemma module_calls_do cs l z :
  holds l z ->
  exists z' rq, holds (effects l cs) z' /\ l_asked (effects l cs) = l_asked l ++ rq /\
    does (each cs module_call) z (fun _ => True) z' rq (List.length (List.filter is_commit cs)).
Proof.
  revert l z. induction cs as [|c cs IH]; intros l z Hl.
  - exists z, []. rewrite app_nil_r. by repeat split; [apply Hl..|apply does_ret].
  - destruct (module_call_does c l z Hl) as (z1 & rq1 & Hl1 & Ha1 & Hd1).
    destruct (IH _ _ Hl1) as (z2 & rq2 & Hl2 & Ha2 & Hd2).
    exists z2, (rq1 ++ rq2). split; [done|]. cbn [effects foldl].
    split; [unfold effects in Ha2; by rewrite Ha2, Ha1, app_assoc|].
    replace (List.length _) with
      ((if is_commit c then 1 else 0) + List.length (List.filter is_commit cs))%nat
      by (cbn; by destruct (is_commit c)).
    eapply does_bind; [exact Hd1|]. by intros _ _.
Qed.
End Serial.

(** ** Interleavings *)

Definition in_section (p : phase) : bool :=
  match p with Idle | Locking _ | Committing => false | _ => true end.
Definition phase_access (p : phase) : option access :=
  match p with
  | Idle | Committing => None
  | Locking a | Reading a | Leaving a => Some a
  | Growing x _ => Some (AddRegister x)
  | Ignoring x _ => Some (AddIgnore x)
  | _ => Some Process
  end.

(** A thread's phase fits the call it makes, and it has a live guard exactly inside the section. *)
Definition thread_ok (t : thread) : Prop :=
  guards (guard t) = in_section (at_ t) /\
  match phase_access (at_ t) with
  | Some a => exists c rest, calls t = c :: rest /\ prepare c = Some a
  | None => True
  end.

(** What the holder of the lock has made of the vectors it found. *)
Definition progress (p : phase) (base cur : lists) : Prop :=
  match p with
  | Reading _ => cur = base
  | Growing _ seen | Matching seen => cur = base /\ seen = l_regs base
  | Ignoring _ seen => cur = base /\ seen = l_igns base
  | Requesting todo =>
      exists done, done ++ todo = requests (l_regs base) (l_igns base) /\
        cur = {| l_regs := l_regs base; l_igns := l_igns base; l_asked := l_asked base ++ done |}
  | Clearing =>
      cur = {| l_regs := l_regs base; l_igns := l_igns base;
               l_asked := l_asked base ++ requests (l_regs base) (l_igns base) |}
  | ClearingIgnored =>
      cur = {| l_regs := []; l_igns := l_igns base;
               l_asked := l_asked base ++ requests (l_regs base) (l_igns base) |}
  | Leaving a => cur = perform a base
  | Idle | Locking _ | Committing => False
  end.

Definition pending (t : thread) : nat := match at_ t with Committing => 1 | _ => 0 end.
Definition sum_of (f : thread -> nat) (ts : list thread) : nat := list_sum (map f ts).

Section Interleaved.
Context (base : lists) (programs : list (list plt_call)).

(** After the calls [h] the vectors are those of the calls made one after another, or on the way
    from there to the next: at most the holder of the lock is inside the section. *)
Record serialized (h : list (nat * plt_call)) (st : system) : Prop := {
  sz_programs : List.length (threads st) = List.length programs;
  sz_named : Forall (fun x => fst x < List.length programs)%nat h;
  sz_calls : forall i t, threads st !! i = Some t ->
    thread_ok t /\ programs !! i = Some (calls_by i h ++ calls t);
  sz_holder : forall i t, threads st !! i = Some t ->
    in_section (at_ t) = true <-> hook_info_lock (shr st) = Some i;
  sz_held : forall i, hook_info_lock (shr st) = Some i -> exists t, threads st !! i = Some t /\
    progress (at_ t) (effects base (map snd h)) (data (shr st));
  sz_free : hook_info_lock (shr st) = None -> data (shr st) = effects base (map snd h);
  sz_commits : (commits (shr st) + sum_of pending (threads st))%nat =
    List.length (List.filter is_commit (map snd h)) }.

Lemma sum_of_insert f (ts : list thread) i t t' :
  ts !! i = Some t -> (sum_of f (<[i := t']> ts) + f t = sum_of f ts + f t')%nat.
Proof.
  unfold sum_of. revert i. induction ts as [|u ts IH]; intros [|i]; cbn; try done.
  - intros [= ->]. unfold list_sum. cbn. lia.
  - intros Hi. specialize (IH i Hi). unfold list_sum in *. cbn in *. unfold insert in *. lia.
Qed.

Lemma calls_by_app i h h' : calls_by i (h ++ h') = calls_by i h ++ calls_by i h'.
Proof. apply omap_app. Qed.

(** A thread that finishes a call, or none. *)
Lemma own_calls i j c : calls_by j (ended (option_map (pair i) c)) =
  match c with Some c => if Nat.eqb i j then [c] else [] | None => [] end.
Proof. destruct c; cbn; [|done]. by destruct (Nat.eqb i j). Qed.
Lemma ended_calls i c : map snd (ended (option_map (pair i) c)) =
  match c with Some c => [c] | None => [] end.
Proof. by destruct c. Qed.

Lemma serialized_start : serialized [] (start base programs).
Proof.
  split; cbn.
  - apply length_map.
  - constructor.
  - intros i t Hi. rewrite list_lookup_fmap in Hi.
    destruct (programs !! i) eqn:E; [|done]. injection Hi as <-. by repeat split.
  - intros i t Hi. rewrite list_lookup_fmap in Hi.
    destruct (programs !! i) eqn:E; [|done]. by injection Hi as <-.
  - done.
  - done.
  - unfold sum_of. clear. by induction programs.
Qed.

(** What a step of thread [i] does to its own part and to everyone else's. *)
Definition after (l : lists) (c : option plt_call) : lists :=
  match c with Some c => effect l c | None => l end.
Record local_step (i : nat) (l : lists) (s : shared) (t : thread) (s' : shared) (t' : thread)
    (c : option plt_call) : Prop := {
  lo_ok : thread_ok t';
  lo_calls : calls t = match c with Some c => [c] | None => [] end ++ calls t';
  lo_mine : in_section (at_ t') = true <-> hook_info_lock s' = Some i;
  lo_others : forall j, j <> i -> hook_info_lock s' = Some j <-> hook_info_lock s = Some j;
  lo_held : hook_info_lock s' = Some i -> progress (at_ t') (after l c) (data s');
  lo_alone : forall j, j <> i -> hook_info_lock s' = Some j -> data s' = data s /\ after l c = l;
  lo_free : hook_info_lock s' = None -> data s' = after l c;
  lo_commits : (commits s' + pending t' = commits s + pending t +
    match c with Some c => if is_commit c then 1 else 0 | None => 0 end)%nat }.

(** A step outside the section: the lock may be taken when it is free, nothing else is touched. *)
Lemma outside_step i l s t s' t' c :
  thread_ok t -> in_section (at_ t) = false -> hook_info_lock s <> Some i ->
  (hook_info_lock s = None -> data s = l) ->
  tstep i s t = Some (Val (s', t', c)) -> local_step i l s t s' t' c.
Proof.
  destruct t as [cs p g], s as [m d n]. intros [Hg Hc] Hp Hm Hfree. cbn in Hg, Hm, Hfree.
  destruct p; cbn in Hp; try done; unfold tstep; cbn in *.
  - destruct cs as [|x rest]; [done|]. destruct (prepare x) eqn:E; intros [= <- <- <-].
    + split; cbn; try done; try lia. split; [done|cbn; by eauto].
    + assert (is_commit x = false) as Hx by (by destruct x).
      split; cbn; unfold effect; rewrite ?E, ?Hx; try done; lia.
  - unfold mutex_guard_new, pthread_mutex_lock. destruct m; [done|]. intros [= <- <- <-].
    split; cbn; try done; try lia; try congruence; [intros j Hj; split; congruence|auto].
  - intros [= <- <- <-]. split; cbn; try done. lia.
Qed.

(** Closes what a step leaves plainly as it was. *)
Ltac plain_step :=
  split; cbn; try done; try lia; try (split; cbn; [done|by eauto]); try (split; congruence).

(** A step of the holder: only the last gives the lock back, and by then its call is done. *)
Lemma inside_step i l s t s' t' c :
  thread_ok t -> in_section (at_ t) = true -> hook_info_lock s = Some i ->
  progress (at_ t) l (data s) ->
  tstep i s t = Some (Val (s', t', c)) -> local_step i l s t s' t' c.
Proof.
  destruct t as [cs p g], s as [m d n]. intros [Hg Hc] Hp Hm Hd. cbn in Hg, Hm, Hd. subst m.
  destruct p as [| |a|x seen|x seen|seen|todo| | |a|]; cbn in Hp; try done; cbn in Hc;
    destruct Hc as (x' & rest & -> & Hx'); unfold tstep; cbn.
  - destruct a; intros [= <- <- <-]; plain_step.
  - destruct Hd as [-> ->]. intros [= <- <- <-]; plain_step.
  - destruct Hd as [-> ->]. intros [= <- <- <-]; plain_step.
  - destruct Hd as [-> ->]. intros [= <- <- <-]; plain_step.
    intros _. exists []. rewrite app_nil_r. by destruct l.
  - destruct Hd as (done_ & Hdone & ->).
    destruct todo as [|r todo]; intros [= <- <- <-]; plain_step; intros _.
    + rewrite app_nil_r in Hdone. by rewrite Hdone.
    + exists (done_ ++ [r]). by rewrite <- !app_assoc.
  - cbn in Hd. subst d. intros [= <- <- <-]; plain_step.
  - cbn in Hd. subst d. intros [= <- <- <-]; plain_step.
  - cbn in Hd. subst d. unfold mutex_guard_drop, pthread_mutex_unlock. rewrite Hg, Nat.eqb_refl.
    intros [= <- <- <-]. assert (effect l x' = perform a l) as He by (unfold effect; by rewrite Hx').
    destruct (is_commit x') eqn:Ex; split; cbn; rewrite ?Ex, ?He; try done; try lia;
      split; try done; congruence.
Qed.

Lemma effects_after h i c :
  effects base (map snd (h ++ ended (option_map (pair i) c))) =
  after (effects base (map snd h)) c.
Proof. unfold effects. rewrite map_app, foldl_app, ended_calls. by destruct c. Qed.

Lemma step_local h st i t s' t' c :
  serialized h st -> threads st !! i = Some t -> tstep i (shr st) t = Some (Val (s', t', c)) ->
  local_step i (effects base (map snd h)) (shr st) t s' t' c.
Proof.
  intros H Hi Ht. destruct (sz_calls _ _ H _ _ Hi) as [Hok _].
  pose proof (sz_holder _ _ H _ _ Hi) as Hh. destruct (in_section (at_ t)) eqn:E.
  - assert (hook_info_lock (shr st) = Some i) as Hl by (by apply Hh).
    destruct (sz_held _ _ H _ Hl) as (t0 & Ht0 & Hd). rewrite Hi in Ht0. injection Ht0 as <-.
    by apply inside_step.
  - apply outside_step; try done; [|apply H]. intros Hl. by apply Hh in Hl.
Qed.

Lemma serialized_step h st label st' :
  serialized h st -> step st label st' -> serialized (h ++ ended label) st'.
Proof.
  intros H Hs. destruct Hs as [st i t s' t' c Hi Ht].
  pose proof (step_local _ _ _ _ _ _ _ H Hi Ht) as L.
  assert (Hlt : (i < List.length (threads st))%nat) by (by eapply lookup_lt_Some).
  split; cbn [shr threads].
  - rewrite length_insert. apply H.
  - apply Forall_app. split; [apply H|]. rewrite (sz_programs _ _ H) in Hlt.
    destruct c; repeat constructor; done.
  - intros j u. rewrite calls_by_app, own_calls.
    destruct (decide (i = j)) as [<-|Hne].
    + rewrite list_lookup_insert_eq by done. intros [= <-]. split; [apply L|].
      rewrite Nat.eqb_refl, <- app_assoc, <- (lo_calls _ _ _ _ _ _ _ L). by apply H.
    + rewrite list_lookup_insert_ne by done. intros Hu.
      apply Nat.eqb_neq in Hne. rewrite Hne. destruct c; rewrite app_nil_r; by apply H.
  - intros j u. destruct (decide (i = j)) as [<-|Hne].
    + rewrite list_lookup_insert_eq by done. intros [= <-]. apply L.
    + rewrite list_lookup_insert_ne by done. intros Hu.
      rewrite (lo_others _ _ _ _ _ _ _ L) by done. by apply H.
  - intros j Hj. rewrite effects_after. destruct (decide (i = j)) as [<-|Hne].
    + exists t'. rewrite list_lookup_insert_eq by done. split; [done|]. by apply L.
    + rewrite list_lookup_insert_ne by done.
      destruct (lo_alone _ _ _ _ _ _ _ L j) as [-> ->]; [done..|].
      apply (sz_held _ _ H). by apply (lo_others _ _ _ _ _ _ _ L).
  - rewrite effects_after. apply L.
  - cbn [commits shr threads]. pose proof (sum_of_insert pending _ _ _ t' Hi). pose proof (sz_commits _ _ H) as Hc.
    pose proof (lo_commits _ _ _ _ _ _ _ L).
    rewrite map_app, List.filter_app, length_app, <- Hc, ended_calls.
    destruct c as [c|]; cbn [after map List.filter List.length] in *;
      [destruct (is_commit c)|]; cbn [List.length] in *; lia.
Qed.

Lemma serialized_steps h st :
  steps (start base programs) h st -> serialized h st.
Proof. induction 1; [apply serialized_start|by eapply serialized_step]. Qed.

(** *** No thread waits forever, none uses the mutex wrongly *)

Lemma section_steps h st i t :
  serialized h st -> threads st !! i = Some t -> in_section (at_ t) = true ->
  exists x, tstep i (shr st) t = Some (Val x).
Proof.
  intros H Hi Hp. destruct (sz_calls _ _ H _ _ Hi) as [[Hg Hc] _].
  apply (sz_holder _ _ H _ _ Hi) in Hp as Hm. destruct t as [cs p g]. cbn in Hg, Hc, Hp.
  unfold tstep. cbn. destruct p as [| |[]| | | |[]| | |a|]; cbn in Hp, Hc; try done; eauto.
  destruct Hc as (c & rest & -> & _). unfold mutex_guard_drop, pthread_mutex_unlock.
  rewrite Hg, Hm, Nat.eqb_refl. eauto.
Qed.

Lemma free_steps h st i t :
  serialized h st -> threads st !! i = Some t -> hook_info_lock (shr st) = None ->
  at_ t = Idle /\ calls t = [] \/ exists x, tstep i (shr st) t = Some (Val x).
Proof.
  intros H Hi Hm. destruct (in_section (at_ t)) eqn:Hp.
  { apply (sz_holder _ _ H _ _ Hi) in Hp. congruence. }
  destruct t as [cs p g]. cbn in Hp. unfold tstep. cbn. destruct p; try done.
  - destruct cs as [|c rest]; [by left|right]. destruct (prepare c); eauto.
  - rewrite Hm. cbn. eauto.
  - eauto.
Qed.

Definition final (st : system) : Prop := forall label st', ~ step st label st'.

Lemma final_done h st :
  serialized h st -> final st ->
  hook_info_lock (shr st) = None /\
  forall i t, threads st !! i = Some t -> at_ t = Idle /\ calls t = [].
Proof.
  intros H Hf.
  assert (Hno : forall i t x, threads st !! i = Some t -> tstep i (shr st) t <> Some (Val x)).
  { intros i t [[s' t'] c] Hi Ht. by eapply Hf, step_thread. }
  assert (Hm : hook_info_lock (shr st) = None).
  { destruct (hook_info_lock (shr st)) as [i|] eqn:E; [|done].
    destruct (sz_held _ _ H _ E) as (t & Hi & _). apply (sz_holder _ _ H _ _ Hi) in E.
    destruct (section_steps _ _ _ _ H Hi E) as [x Hx]. by apply Hno in Hx. }
  split; [done|]. intros i t Hi. destruct (free_steps _ _ _ _ H Hi Hm) as [?|[x Hx]]; [done|].
  by apply Hno in Hx.
Qed.

Definition remaining (t : thread) : nat := List.length (calls t).
Definition rank (t : thread) : nat :=
  match at_ t with Committing => 3 | Idle => 2 | Locking _ => 1 | _ => 0 end.
Definition work (d : lists) (p : phase) : nat :=
  match p with
  | Reading _ => 6 + List.length (requests (l_regs d) (l_igns d))
  | Matching seen => 5 + List.length (requests seen (l_igns d))
  | Requesting todo => 4 + List.length todo
  | Clearing => 3
  | ClearingIgnored | Growing _ _ | Ignoring _ _ => 2
  | Leaving _ => 1
  | Idle | Locking _ | Committing => 0
  end.
Definition held_work (st : system) : nat :=
  match hook_info_lock (shr st) with
  | Some i => match threads st !! i with Some t => work (data (shr st)) (at_ t) | None => 0 end
  | None => 0
  end.

Lemma tstep_shrinks i s t s' t' c :
  tstep i s t = Some (Val (s', t', c)) ->
  (remaining t' < remaining t)%nat \/
  remaining t' = remaining t /\ ((rank t' < rank t)%nat \/
    rank t' = rank t /\ in_section (at_ t) = true /\ in_section (at_ t') = true /\
    (work (data s') (at_ t') < work (data s) (at_ t))%nat).
Proof.
  destruct t as [cs p g]. unfold tstep, remaining, rank. cbn.
  destruct p as [| |[]| | | |[]| | |a|]; cbn; try (intros [= <- <- <-]; cbn; lia).
  - destruct cs as [|x rest]; [done|]. destruct (prepare x); intros [= <- <- <-]; cbn; lia.
  - destruct (mutex_guard_new _ _) as [[m g']|]; [|done]. intros [= <- <- <-]. cbn. lia.
  - destruct cs as [|x rest], (mutex_guard_drop _ _ _); try done.
    intros [= <- <- <-]. cbn. lia.
Qed.

Lemma step_shrinks h st label st' :
  serialized h st -> step st label st' ->
  (sum_of remaining (threads st') < sum_of remaining (threads st))%nat \/
  sum_of remaining (threads st') = sum_of remaining (threads st) /\
    ((sum_of rank (threads st') < sum_of rank (threads st))%nat \/
     sum_of rank (threads st') = sum_of rank (threads st) /\ (held_work st' < held_work st)%nat).
Proof.
  intros H Hs. pose proof (serialized_step _ _ _ _ H Hs) as H'.
  destruct Hs as [st i t s' t' c Hi Ht]. cbn [threads].
  pose proof (sum_of_insert remaining _ _ _ t' Hi).
  pose proof (sum_of_insert rank _ _ _ t' Hi).
  destruct (tstep_shrinks _ _ _ _ _ _ Ht) as [?|[? [?|(? & Hp & Hp' & Hw)]]]; [lia|lia|].
  right. split; [lia|]. right. split; [lia|].
  assert (Hi' : <[i:=t']> (threads st) !! i = Some t')
    by (apply list_lookup_insert_eq; by eapply lookup_lt_Some).
  apply (sz_holder _ _ H _ _ Hi) in Hp. apply (sz_holder _ _ H' _ _ Hi') in Hp'.
  unfold held_work. cbn in Hp' |- *. by rewrite Hp, Hp', Hi, Hi'.
Qed.

Lemma schedules_end h st :
  serialized h st -> Acc (fun b a => exists label, step a label b) st.
Proof.
  remember (sum_of remaining (threads st)) as n1 eqn:E1.
  remember (sum_of rank (threads st)) as n2 eqn:E2. remember (held_work st) as n3 eqn:E3.
  revert n2 n3 h st E1 E2 E3. induction n1 as [n1 IH1] using lt_wf_ind.
  induction n2 as [n2 IH2] using lt_wf_ind. induction n3 as [n3 IH3] using lt_wf_ind.
  intros h st -> -> -> H. constructor. intros st' [label Hs].
  pose proof (serialized_step _ _ _ _ H Hs) as H'.
  destruct (step_shrinks _ _ _ _ H Hs) as [?|[E1 [?|[E2 ?]]]].
  - by eapply IH1.
  - by eapply IH2.
  - by eapply IH3.
Qed.

Lemma calls_by_none i n h :
  Forall (fun x : nat * plt_call => fst x < n)%nat h -> (n <= i)%nat -> calls_by i h = [].
Proof.
  induction 1 as [|[j c] h Hj _ IH]; intros Hn; [done|]. cbn in Hj |- *.
  destruct (Nat.eqb_spec j i); [lia|by apply IH].
Qed.
Lemma final_calls h st i :
  serialized h st -> (forall j t, threads st !! j = Some t -> at_ t = Idle /\ calls t = []) ->
  calls_by i h = default [] (programs !! i).
Proof.
  intros H Hd. destruct (threads st !! i) as [t|] eqn:Hi.
  - destruct (sz_calls _ _ H _ _ Hi) as [_ ->]. destruct (Hd _ _ Hi) as [_ ->].
    by rewrite app_nil_r.
  - apply lookup_ge_None in Hi. rewrite (sz_programs _ _ H) in Hi.
    assert (programs !! i = None) as -> by (by apply lookup_ge_None). cbn.
    by eapply calls_by_none; [apply H|].
Qed.

Lemma final_commits h st :
  serialized h st -> (forall j t, threads st !! j = Some t -> at_ t = Idle /\ calls t = []) ->
  commits (shr st) = List.length (List.filter is_commit (map snd h)).
Proof.
  intros H Hd. rewrite <- (sz_commits _ _ H). enough (sum_of pending (threads st) = 0%nat) by lia.
  assert (Hz : Forall (fun t => pending t = 0%nat) (threads st)).
  { apply Forall_lookup. intros j t Hj. destruct (Hd _ _ Hj) as [E _]. unfold pending. by rewrite E. }
  clear -Hz. unfold sum_of. induction Hz as [|t ts Ht _ IH]; cbn; [done|]. by rewrite Ht.
Qed.
End Interleaved.
End Threads.

(** C11: However the threads of a process interleave their calls that register, exclude and
    commit PLT hooks, every schedule ends, and when no thread can go on each has made all its
    calls, the lock is free, and the vectors, the hooks lsplt was asked for and the number of
    commits are those of Module.v's functions called one after another, in an order that keeps
    each thread's own. *)
Theorem plt_hooks_serialized compiles matches hk z programs :
  z_hook z = Some hk ->
  let next := step compiles matches (cached_map_infos hk) in
  let init := start {| l_regs := register_info (z_ctx z); l_igns := ignore_info (z_ctx z);
                       l_asked := [] |} programs in
  Acc (fun b a => exists label, next a label b) init /\
  forall h st, steps compiles matches (cached_map_infos hk) init h st ->
    (forall label st', ~ next st label st') ->
    hook_info_lock (shr st) = None /\
    (forall i, calls_by i h = default [] (programs !! i)) /\
    forall tr r, exec (each (map snd h) module_call z) tr r -> Forall (answered compiles matches) tr ->
      exists z', r = Val (tt, z') /\
        register_info (z_ctx z') = l_regs (data (shr st)) /\
        ignore_info (z_ctx z') = l_igns (data (shr st)) /\
        omap requested tr = l_asked (data (shr st)) /\
        List.length (omap committed tr) = commits (shr st).
Proof.
  intros Hz next init. set (base := Build_lists _ _ _) in init.
  split; [by apply (schedules_end _ _ _ base programs []), serialized_start|].
  intros h st Hs Hf. apply serialized_steps in Hs as H.
  destruct (final_done _ _ _ _ _ _ _ H Hf) as [Hm Hd]. split; [done|split].
  - intros i. by eapply final_calls.
  - intros tr r Hr Ht.
    destruct (module_calls_do compiles matches (cached_map_infos hk) hk eq_refl (map snd h) base z)
      as (z' & rq & (_ & Hr' & Hi') & Ha & Hdo); [done|].
    destruct (Hdo tr r Hr Ht) as ([] & -> & _ & Hq & Hn). exists z'.
    rewrite (sz_free _ _ _ _ _ _ _ H Hm). repeat split; [done|done|by rewrite Hq, Ha|].
    rewrite Hn. symmetry. by eapply final_commits.
Qed.

(** *** A schedule *)

(** The threads named in [order] take a step each, as far as they can. *)
Fixpoint play (compiles : string -> bool) (matches : string -> string -> bool) (maps : list LMap)
    (order : list nat) (h : list (nat * plt_call)) (st : system) : list (nat * plt_call) * system :=
  match order with
  | [] => (h, st)
  | i :: order =>
      match threads st !! i with
      | Some t =>
          match tstep compiles matches maps i (shr st) t with
          | Some (Val (s, t', c)) =>
              play compiles matches maps order (h ++ ended (option_map (pair i) c))
                {| shr := s; threads := <[i := t']> (threads st) |}
          | _ => play compiles matches maps order h st
          end
      | None => play compiles matches maps order h st
      end
  end.

Lemma play_steps compiles matches maps init order h st :
  steps compiles matches maps init h st ->
  steps compiles matches maps init (play compiles matches maps order h st).1
    (play compiles matches maps order h st).2.
Proof.
  revert h st. induction order as [|i order IH]; intros h st H; cbn; [done|].
  destruct (threads st !! i) as [t|] eqn:Hi; [|by apply IH].
  destruct (tstep _ _ _ _ _ _) as [[[[s t'] c]|]|] eqn:Ht; try by apply IH.
  apply IH. eapply steps_step; [done|]. by econstructor.
Qed.

(** Two threads of a module: while the first registers a hook of [fork], the second excludes
    [fork] from one library and commits. *)
Definition sample_maps : list LMap :=
  let lib path inode := {| l_start := 4096; l_end := 8192; l_perms := PROT_READ; l_private := true;
    l_offset := 0; l_dev := 1; l_inode := inode; l_path := path |} in
  [lib "/system/lib64/libart.so" 10; lib "/apex/libc.so" 11].
Definition sample_caller : zygote := set_hook (Some (set_maps sample_maps sample_hook)) sample_zygote.
Definition sample_programs : list (list plt_call) :=
  [[Register (Some "lib") (Some "fork") 0x5000 0x6000; Commit];
   [Exclude (Some "libc") (Some "fork"); Commit]].
Definition sample_start : system :=
  start {| l_regs := []; l_igns := []; l_asked := [] |} sample_programs.
Definition found (pattern path : string) : bool := contains path pattern.
(** Turn and turn about, then whoever is left. *)
Definition sample_run : list (nat * plt_call) * system :=
  play (fun _ => true) found sample_maps (concat (repeat [0; 1; 0; 0; 1; 0]%nat 12)) [] sample_start.

(** The second thread's call is under way before the first's is done, and waits for it. *)
Example sample_overlaps :
  let st := (play (fun _ => true) found sample_maps [0; 0; 1; 1; 0]%nat [] sample_start).2 in
  map at_ (threads st) =
    [Growing {| ri_regex := "lib"; ri_symbol := "fork"; ri_callback := 0x5000; ri_backup := 0x6000 |} [];
     Locking (AddIgnore {| ii_regex := "libc"; ii_symbol := "fork" |})].
Proof. vm_compute. reflexivity. Qed.

Lemma sample_final label st' : ~ step (fun _ => true) found sample_maps sample_run.2 label st'.
Proof.
  intros Hs. remember sample_run.2 as st eqn:E. vm_compute in E.
  destruct Hs as [st [|[|i]] t s t' c Hi Ht]; subst st; cbn in Hi;
    [injection Hi as <-; discriminate Ht..|]. by destruct i.
Qed.

Lemma plt_hooks_serialized_witness :
  Acc (fun b a => exists label, step (fun _ => true) found sample_maps a label b) sample_start /\
  hook_info_lock (shr sample_run.2) = None /\ commits (shr sample_run.2) = 2%nat /\
  map rq_inode (l_asked (data (shr sample_run.2))) = [10].
Proof.
  destruct (plt_hooks_serialized (fun _ => true) found (set_maps sample_maps sample_hook)
    sample_caller sample_programs eq_refl) as [Hend H].
  split; [exact Hend|].
  destruct (H sample_run.1 sample_run.2) as [Hm _].
  - apply play_steps. constructor.
  - exact sample_final.
  - split; [exact Hm|]. split; vm_compute; reflexivity.
Defined.
