(* ===== verification/Hygiene.v ===== *)
(** * The use of the Java native interface

    The loader's own use of a JNIEnv, in the operations of Hook.v and Module.v: the machine of
    JniEnv.v follows the calls that go through it, whatever else is done between them. *)
From Stdlib Require Import ZArith Lia List String Ascii Bool.
From stdpp Require Import base gmap list strings.
From S2P Require Import Prelude.
From S2P Require Import JniEnv.
From S2P Require Import Jni.
From S2P Require Import InjState.
From S2P Require Import Module.
From S2P Require Import Hook.
Open Scope string_scope.
Open Scope list_scope.
Open Scope Z_scope.
Open Scope m_scope.

(** What a call of the interface is, among all calls. *)
Definition jni_call {X} (e : inj X) : option (jni X) :=
  match e with Jni e => Some e | _ => None end.

Section Hygiene.
Context (len : Z -> Z).

(** The weakest precondition of [JniEnv.wp], of programs that make other calls as well. *)
Fixpoint uses_well {A} (p : prog inj A) (m : env_state) (Q : env_state -> res A -> Prop) : Prop :=
  match p with
  | Ret a => Q m (Val a)
  | Halt h => Q m (Stop h)
  | Vis e k =>
      match jni_call e with
      | Some e => allowed m e /\ forall x m', steps len m e x m' -> uses_well (k x) m' Q
      | None => forall x, uses_well (k x) m Q
      end
  end.

Lemma uses_bind {A B} (p : prog inj A) (f : A -> prog inj B) m Q :
  uses_well p m (fun m' r => match r with Val a => uses_well (f a) m' Q | Stop h => Q m' (Stop h) end) ->
  uses_well (bind p f) m Q.
Proof.
  revert m. induction p as [a|h|X e k IH]; intros m; cbn; [done|done|].
  destruct (jni_call e) as [e'|]; [|intros Hk x; by apply IH].
  intros [He Hk]. split; [done|]. intros x m' Hx. by apply IH, Hk.
Qed.
Lemma uses_mono {A} (p : prog inj A) m (Q Q' : env_state -> res A -> Prop) :
  (forall m r, Q m r -> Q' m r) -> uses_well p m Q -> uses_well p m Q'.
Proof.
  intros HQ. revert m. induction p as [a|h|X e k IH]; intros m; cbn; [apply HQ..|].
  destruct (jni_call e) as [e'|]; [|intros Hk x; by apply IH].
  intros [He Hk]. split; [done|]. intros x m' Hx. by apply IH, Hk.
Qed.
Lemma uses_lift_jni {A} (p : prog jni A) m Q : wp len p m Q -> uses_well (lift (@Jni) p) m Q.
Proof.
  revert m. induction p as [a|h|X e k IH]; intros m; cbn; [done|done|].
  intros [He Hk]. split; [done|]. intros x m' Hx. by apply IH, Hk.
Qed.

(** The same of operations. *)
Definition mwp {A} (op : M A) (m : env_state) (Q : env_state -> A -> Prop) : Prop :=
  forall z, uses_well (op z) m (fun m' r => match r with Val r => Q m' (fst r) | Stop _ => True end).

Lemma mwp_bind {A B} (op : M A) (f : A -> M B) m Q :
  mwp op m (fun m' a => mwp (f a) m' Q) -> mwp (mbind op f) m Q.
Proof.
  intros H z. apply uses_bind. eapply uses_mono; [|apply (H z)].
  intros m' [[a z']|h]; [|done]. intros Hf. apply Hf.
Qed.
Lemma mwp_ret {A} (a : A) m (Q : env_state -> A -> Prop) : Q m a -> mwp (ret a) m Q.
Proof. by intros H z. Qed.
Lemma mwp_stop {A} why m (Q : env_state -> A -> Prop) : mwp (stop why) m Q.
Proof. by intros z. Qed.
Lemma mwp_gets {A} (f : zygote -> A) m (Q : env_state -> A -> Prop) : (forall a, Q m a) -> mwp (gets f) m Q.
Proof. intros H z. apply H. Qed.
Lemma mwp_modify f m (Q : env_state -> unit -> Prop) : Q m tt -> mwp (modify f) m Q.
Proof. by intros H z. Qed.
(** Calls that are not the interface's. *)
Lemma mwp_do {X} (e : inj X) m (Q : env_state -> X -> Prop) :
  jni_call e = None -> (forall x, Q m x) -> mwp (do_ e) m Q.
Proof. intros He H z. cbn. rewrite He. intros x. apply H. Qed.
Lemma mwp_jni {A} (p : prog jni A) m (Q : env_state -> A -> Prop) :
  wp len p m (fun m' r => match r with Val a => Q m' a | Stop _ => True end) -> mwp (embed (@Jni) p) m Q.
Proof.
  intros H z. apply uses_bind, uses_lift_jni. eapply wp_mono; [|exact H]. by intros m' [a|h].
Qed.
Lemma mwp_mono {A} (op : M A) m (Q Q' : env_state -> A -> Prop) :
  (forall m a, Q m a -> Q' m a) -> mwp op m Q -> mwp op m Q'.
Proof. intros HQ H z. eapply uses_mono; [|apply (H z)]. intros m' [r|h]; [apply HQ|done]. Qed.
Lemma mwp_when (b : bool) op m (Q : env_state -> unit -> Prop) :
  Q m tt -> (b = true -> mwp op m Q) -> mwp (when b op) m Q.
Proof. destruct b; cbn; [auto|]. by intros H _ z. Qed.

Ltac quiet_step :=
  first [ apply mwp_bind | apply mwp_ret | apply mwp_stop | apply mwp_gets; intros | apply mwp_modify
        | apply mwp_do; [done|intros] ].

(** At most the reference to one class is left behind. *)
Definition leaks (L : gset Z) (m : env_state) : Prop :=
  held m = L \/ exists clazz, clazz ∉ L /\ held m = {[clazz]} ∪ L.

Lemma mwp_calm {A} (p : prog jni A) L m (Q : env_state -> A -> Prop) :
  wp len p m (leaves L) -> (forall m' a, calm_state L m' -> Q m' a) -> mwp (embed (@Jni) p) m Q.
Proof. intros Hp HQ. apply mwp_jni. eapply wp_mono; [|exact Hp]. intros m' [a|h]; [apply HQ|done]. Qed.

Lemma hook_zygote_methods_leaks L m : calm_state L m -> mwp hook_zygote_methods m (fun m' _ => leaks L m').
Proof.
  intros Hc. unfold hook_zygote_methods, the_hook. repeat quiet_step.
  match goal with |- mwp (match ?h with _ => _ end) _ _ => destruct h end; repeat quiet_step.
  apply mwp_jni. eapply wp_mono; [|by apply (wp_hook_jni_methods len)].
  intros m' [ms|h']; [|done]. intros H. by apply mwp_modify.
Qed.

Lemma owning_leaks ref (body : M unit) L m :
  made L m (Val ref) ->
  (forall L', calm_state L' m -> L ⊆ L' -> owned L' ref -> mwp body m (fun m' _ => leaks L' m')) ->
  mwp (owning ref body) m (fun m' _ => leaks L m').
Proof.
  intros Hm Hbody. unfold owning. apply mwp_bind. destruct Hm as [[Hc ->]|(Hx & Hin & Hc)].
  - eapply mwp_mono; [|apply (Hbody L); [done|done|by left]]. intros m' [] Hl. by apply mwp_jni.
  - eapply mwp_mono; [|apply (Hbody ({[ref]} ∪ L)); [done|set_solver|right; set_solver]].
    intros m' [] Hl. apply mwp_jni. unfold ScopedLocalRef_destroy, ScopedLocalRef_reset.
    destruct (Z.eqb_spec ref 0) as [|_]; [done|]. cbn. split.
    + destruct Hl as [-> |(clazz & _ & ->)]; set_solver.
    + intros [] m2 ->. unfold leaks. cbn. destruct Hl as [-> |(clazz & Hc' & ->)].
      * left. set_solver.
      * right. exists clazz. split; set_solver.
Qed.

(** The lookups hand a calm state to what follows. *)
Lemma find_member_calm ref L m : calm_state L m -> owned L ref ->
  mwp (find_member ref) m (fun m' _ => calm_state L m').
Proof.
  intros Hc Ho. unfold find_member. apply mwp_when; [done|intros _]. apply mwp_bind.
  apply (mwp_calm _ L).
  - apply (wp_SafeInvoke_value len m _ 0 L); [split; [apply Hc|by eapply owned_usable]|apply Hc| |done].
    intros x m' ->. apply Hc.
  - intros m' id Hc'. by apply mwp_modify.
Qed.
Lemma find_modifier_calm ref L m : calm_state L m -> owned L ref ->
  mwp (find_modifier ref) m (fun m' _ => calm_state L m').
Proof.
  intros Hc Ho. unfold find_modifier. apply mwp_when; [done|intros _]. apply mwp_bind.
  apply (mwp_calm _ L).
  - apply (wp_SafeInvoke_value len m _ 0 L); [split; [apply Hc|by eapply owned_usable]|apply Hc| |done].
    intros x m' ->. apply Hc.
  - intros m' field Hc'. apply mwp_when; [done|intros _]. apply mwp_bind. apply (mwp_calm _ L).
    + apply (wp_SafeInvoke_value len m' _ 0 L); [split; [apply Hc'|by eapply owned_usable]|apply Hc'| |done].
      intros x m2 [b ->]. apply Hc'.
    + intros m2 n Hc2. by apply mwp_modify.
Qed.
Lemma init_art_calm w L m : calm_state L m -> mwp (init_art w) m (fun m' _ => calm_state L m').
Proof.
  intros Hc. unfold init_art. repeat quiet_step. apply (mwp_calm _ L); [by apply wp_Init|].
  intros m' [ok art] Hc'. repeat quiet_step. exact Hc'.
Qed.
Lemma find_class_made name L m : calm_state L m ->
  mwp (embed (@Jni) (safe_FindClass name)) m (fun m' x => made L m' (Val x)).
Proof.
  intros Hc. apply mwp_jni. apply (wp_SafeInvoke_ref len m _ L); [apply Hc|done| |done].
  intros x m' [? _]. by left.
Qed.

Lemma vms_from_maps_quiet maps m (Q : env_state -> Z -> Prop) :
  (forall x, Q m x) -> mwp (vms_from_maps maps) m Q.
Proof.
  intros HQ. induction maps as [|map maps IH]; cbn [vms_from_maps]; [apply mwp_ret, HQ|].
  destruct (negb _); [done|]. repeat quiet_step. destruct (_ =? 0); repeat quiet_step; apply HQ.
Qed.

Lemma created_vms_quiet m (Q : env_state -> Z -> Prop) :
  (forall x, Q m x) -> mwp get_created_java_vms m Q.
Proof.
  intros HQ. unfold get_created_java_vms, the_hook. repeat quiet_step.
  destruct (_ =? 0); repeat quiet_step; [|apply HQ].
  match goal with |- mwp (match ?h with _ => _ end) _ _ => destruct h end; repeat quiet_step.
  by apply vms_from_maps_quiet.
Qed.

(** C12: the loader uses the Java interface by its rules. Whatever the virtual machine answers,
    from a state without a pending exception: finding the classes and ART's layout and hooking
    zygote's methods, restoring them, and hooking methods for a module make no call while an
    exception is pending, use no reference that was deleted and delete only references they
    hold; when they return they hold what they held, but for the reference to the class whose
    methods were hooked, which is never given back. *)
Theorem jni_used_by_its_rules w L m :
  calm_state L m ->
  mwp (hook_zygote_jni w) m (fun m' _ => leaks L m') /\
  mwp restore_zygote_hook m (fun m' _ => leaks L m') /\
  (forall clz methods, mwp (hookJniNativeMethods clz methods) m (fun m' _ => leaks L m')).
Proof.
  intros Hc. assert (leaks L m) as Hl by (left; apply Hc). split; [|split].
  - unfold hook_zygote_jni. apply mwp_bind.
    apply created_vms_quiet. intros fn. destruct (fn =? 0); [by apply mwp_ret|]. repeat quiet_step.
    destruct (_ =? 0); [by apply mwp_ret|]. repeat quiet_step. destruct (fst _ =? 0); [by apply mwp_ret|].
    apply mwp_bind. eapply mwp_mono; [|by apply (find_class_made _ L)]. intros m1 member Hm1.
    apply owning_leaks; [done|]. intros L1 Hc1 HL1 Ho1.
    apply mwp_bind. eapply mwp_mono; [|by apply (find_member_calm _ L1)]. intros m2 [] Hc2.
    apply mwp_bind. eapply mwp_mono; [|by apply (find_class_made _ L1)]. intros m3 modifier Hm3.
    apply owning_leaks; [done|]. intros L2 Hc3 HL2 Ho2.
    apply mwp_bind. eapply mwp_mono; [|by apply (find_modifier_calm _ L2)]. intros m4 [] Hc4.
    assert (leaks L2 m4) as Hl4 by (left; apply Hc4).
    unfold the_hook. repeat quiet_step. match goal with |- mwp (match ?h with _ => _ end) _ _ => destruct h end;
      repeat quiet_step. destruct (_ || _); [by apply mwp_ret|].
    apply mwp_bind. eapply mwp_mono; [|by apply (init_art_calm w L2)]. intros m5 ok Hc5.
    destruct (negb ok); [apply mwp_ret; left; apply Hc5|]. by apply hook_zygote_methods_leaks.
  - by apply hook_zygote_methods_leaks.
  - intros clz methods. unfold hookJniNativeMethods. repeat quiet_step.
    match goal with |- mwp (match ?h with _ => _ end) _ _ => destruct h end; repeat quiet_step.
    apply mwp_jni. eapply wp_mono; [|by apply (wp_hook_jni_methods len)]. by intros m' [ms|x].
Qed.
End Hygiene.

(** ** Witness *)

Definition idle_env : env_state := {| pending := false; held := ∅ |}.
Lemma jni_used_by_its_rules_witness :
  mwp (fun _ => 2) (hook_zygote_jni 64) idle_env (fun m' _ => leaks ∅ m').
Proof. apply (jni_used_by_its_rules (fun _ => 2) 64 ∅ idle_env). by split. Defined.
