(* ===== verification/Lifecycle.v ===== *)
(** * The life of a process

    What holds over whole runs of the entry points of Hook.v: invariants of the operations of
    Module.v and Hook.v, proved once for every invariant their updates respect, and what they
    say of zygote and of its children. *)
From Stdlib Require Import ZArith Lia List String Ascii Bool.
From stdpp Require Import base list strings.
From S2P Require Import Prelude.
From S2P Require Import Scan.
From S2P Require Import Elf.
From S2P Require Import Fossil.
From S2P Require Import Mounts.
From S2P Require Import Daemon.
From S2P Require Import Atexit.
From S2P Require Import Solist.
From S2P Require Import JniEnv.
From S2P Require Import Jni.
From S2P Require Import Spoof.
From S2P Require Import Args.
From S2P Require Import JniHooks.
From S2P Require Import InjState.
From S2P Require Import Module.
From S2P Require Import Hook.
Open Scope string_scope.
Open Scope list_scope.
Open Scope Z_scope.
Open Scope m_scope.

(** Calls of the steps around a specialization: none that installs a hook of ours, unmaps the
    library, forks, changes a thread's attachment or runs a hooked method's original. *)
Definition ordinary (ev : event inj) : bool :=
  match ev with
  | Ev (Original _ _) _ | Ev (LspltHook _ _) _ | Ev (Munmap _ _) _ | Ev (AttachThread _) _ | Ev (DetachThread _) _
  | Ev OldFork _ => false
  | _ => true
  end.
(** Calls of the hooked functions: none that loads or runs a module. *)
Definition moduleless (ev : event inj) : bool :=
  match ev with
  | Ev (RunModule _ _ _) _ | Ev (AndroidDlopenExt _ _ _) _ | Ev (Setenv _ _) _ => false
  | _ => true
  end.

Definition runs_original (ev : event inj) : bool :=
  match ev with Ev (Original _ _) _ => true | _ => false end.

Section Invariants.
(** An invariant that no update of the context touches that leaves its pid and the shape and the
    types of its arguments, none of the hook context other than of the library's range or the
    table of methods, and none of the linker's records. *)
Context (I : zygote -> Prop) (P : event inj -> bool).
Context (I_ctx : forall f z,
  (forall c, pid (f c) = pid c /\ keeps (args c) (args (f c))) -> I z -> I (on_ctx f z)).
Context (I_hook : forall f z,
  (forall h, start_addr (f h) = start_addr h /\ block_size (f h) = block_size h /\
             zygote_methods (f h) = zygote_methods h) ->
  I z -> I (on_hook f z)).
Context (I_linker : forall l z, I z -> I (set_linker l z)).
Context (I_art : forall a z, I z -> I (set_art a z)).
Context (I_active : forall b z, I z -> I (set_active b z)).
Context (I_freed : forall ms z, I z -> I (set_freed ms z)).
Context (I_methods : forall ms z, I z ->
  I (on_hook (fun h => set_jni ms (MODIFIER_NATIVE h) (member_getModifiers h) h) z)).

Ltac kept :=
  intros; first
    [ apply I_ctx; [intros c; split;
                      [first [reflexivity|unfold exempt_fd; repeat case_match; reflexivity]
                      |first [apply keeps_refl|exact (point_keeps _ _)|solve [cbn; auto]
                             |unfold exempt_fd; repeat case_match; apply keeps_refl]]
                   |assumption]
    | apply I_hook; [by split_and!|assumption] | by apply I_linker | by apply I_art | by apply I_active
    | by apply I_freed | by apply I_methods | auto ].
Ltac walk :=
  repeat first
    [ progress minv_tac ltac:(kept)
    | apply minv_do; intros; solve [auto]
    | apply minv_embed; intros []; solve [auto] ].

(** Steps that are neither about modules nor about hooks of ours. *)
Context (P_plain : forall ev, ordinary ev = true -> moduleless ev = true -> P ev = true).

Lemma inv_the_hook : minv I P the_hook.
Proof. unfold the_hook. walk. Qed.
#[local] Hint Resolve inv_the_hook : neo.
Lemma inv_sanitize_fds : minv I P sanitize_fds.
Proof. unfold sanitize_fds, merge_exempted, update_fd_array, close_forbidden. walk. Qed.
Lemma inv_fork_post : minv I P fork_post.
Proof. unfold fork_post. walk. Qed.
Lemma inv_read_process : minv I P read_process.
Proof. unfold read_process. walk. Qed.
Lemma inv_unmount_zygote fuel word tmp : minv I P (unmount_zygote fuel word tmp).
Proof. unfold unmount_zygote. walk. Qed.
Lemma inv_spoof_first_stack maps : minv I P (spoof_first_stack maps).
Proof. induction maps as [|map maps IH]; cbn [spoof_first_stack]; unfold spoof_stack; walk; done. Qed.
Lemma inv_hook_zygote_methods : minv I P hook_zygote_methods.
Proof. unfold hook_zygote_methods. walk. Qed.
#[local] Hint Resolve inv_hook_zygote_methods : neo.
Lemma inv_destruct : minv I P destruct_.
Proof.
  unfold destruct_, destruct_body, restore_zygote_hook. walk.
  apply minv_modify. intros z Hz. apply I_ctx; [|by apply I_freed].
  intros c. split; [done|apply keeps_refl].
Qed.

Section Steps.
Context (P_ordinary : forall ev, ordinary ev = true -> P ev = true).
Context (w page_size : Z) (fuel word : nat) (tmp : string).

Lemma inv_ignored ign symbol path : minv I P (ignored ign symbol path).
Proof. induction ign; cbn [ignored]; walk. Qed.
#[local] Hint Resolve inv_ignored : neo.
Lemma inv_plt_hook_process_regex : minv I P plt_hook_process_regex.
Proof. unfold plt_hook_process_regex. walk. Qed.
#[local] Hint Resolve inv_plt_hook_process_regex : neo.
Lemma inv_plt_hook_commit : minv I P plt_hook_commit.
Proof. unfold plt_hook_commit, commit_hooks. walk. Qed.
#[local] Hint Resolve inv_plt_hook_commit : neo.

Lemma inv_update_module i f : minv I P (update_module i f).
Proof. unfold update_module. walk. Qed.
#[local] Hint Resolve inv_update_module : neo.
Lemma inv_api_body i m c : minv I P (api_body fuel word tmp i m c).
Proof.
  destruct c; cbn [api_body]; unfold nothing, and_ctx, if_ctx, setOption, hookJniNativeMethods,
    plt_hook_register, plt_hook_exclude, commit_hooks; walk.
Qed.
#[local] Hint Resolve inv_api_body : neo.
Lemma inv_api_step i c : minv I P (api_step fuel word tmp i c).
Proof. unfold api_step. walk. Qed.
#[local] Hint Resolve inv_api_step : neo.
Lemma inv_run_module i m p reach :
  (forall old new, keeps old (reach old new)) -> minv I P (run_module fuel word tmp i m p reach).
Proof.
  intros Hreach. unfold run_module. generalize ANothing at 1.
  generalize fuel at 2. intros n. induction n as [|n IH]; intros last; cbn [run_from]; [by intros z|].
  walk; apply IH.
Qed.
Lemma inv_run_assigned i m p v : minv I P (run_module fuel word tmp i m p (assign v)).
Proof. apply inv_run_module. intros. apply assign_keeps. Qed.
Lemma inv_onLoad i : minv I P (onLoad fuel word tmp i).
Proof. unfold onLoad. walk. apply inv_run_module. intros. apply keeps_refl. Qed.
#[local] Hint Resolve inv_run_assigned inv_onLoad : neo.
Lemma inv_call_specialize i p q : minv I P (call_specialize fuel word tmp i p q).
Proof. unfold call_specialize, call_app, call_server. walk. Qed.
#[local] Hint Resolve inv_call_specialize : neo.
Lemma inv_load_modules i ms : minv I P (load_modules i ms).
Proof. revert i. induction ms as [|[? memfd] ms IH]; intros i; cbn [load_modules]; walk. Qed.
#[local] Hint Resolve inv_load_modules : neo.
Lemma inv_run_modules_pre : minv I P (run_modules_pre fuel word tmp).
Proof. unfold run_modules_pre. walk. Qed.
#[local] Hint Resolve inv_run_modules_pre : neo.
Lemma inv_clean_linker path loaded unloaded unload outs :
  minv I P (clean_linker w fuel path loaded unloaded unload outs).
Proof. unfold clean_linker. walk. Qed.
#[local] Hint Resolve inv_clean_linker : neo.
Lemma inv_run_modules_post : minv I P (run_modules_post w page_size fuel word tmp).
Proof. unfold run_modules_post, tryUnload. walk. Qed.
#[local] Hint Resolve inv_run_modules_post : neo.

Lemma inv_app_specialize_pre : minv I P (app_specialize_pre fuel word tmp).
Proof. unfold app_specialize_pre, effective_uid. walk. Qed.
Lemma inv_app_specialize_post : minv I P (app_specialize_post w page_size fuel word tmp).
Proof. unfold app_specialize_post. walk. Qed.
Lemma inv_server_specialize_pre : minv I P (server_specialize_pre fuel word tmp).
Proof. unfold server_specialize_pre. walk. Qed.
Lemma inv_server_specialize_post : minv I P (server_specialize_post w page_size fuel word tmp).
Proof. apply inv_run_modules_post. Qed.
End Steps.

Section Replacements.
Context (P_moduleless : forall ev, moduleless ev = true -> runs_original ev = false -> P ev = true).
Context (I_deleted : forall z, I z -> I (set_hook None z)).
Context (fuel word : nat) (tmp : string).

Lemma inv_register_hook b : minv I P (register_hook b).
Proof. unfold register_hook. walk. Qed.
#[local] Hint Resolve inv_register_hook : neo.
Lemma inv_hook_plt : minv I P hook_plt.
Proof. unfold hook_plt. walk. Qed.
Lemma inv_hook_unloader : minv I P hook_unloader.
Proof. unfold hook_unloader. walk. Qed.
Lemma inv_restore_plt_hook : minv I P restore_plt_hook.
Proof. unfold restore_plt_hook, restore_one. walk. Qed.
Lemma inv_unhook_property bs : minv I P (unhook_property bs).
Proof. induction bs as [|b bs IH]; cbn [unhook_property]; walk. Qed.
#[local] Hint Resolve inv_hook_plt inv_hook_unloader inv_restore_plt_hook inv_unhook_property : neo.
Lemma inv_vms_from_maps maps : minv I P (vms_from_maps maps).
Proof. induction maps as [|m maps IH]; cbn [vms_from_maps]; walk. Qed.
#[local] Hint Resolve inv_vms_from_maps : neo.
Lemma inv_hook_zygote_jni w : minv I P (hook_zygote_jni w).
Proof.
  unfold hook_zygote_jni, get_created_java_vms, find_member, find_modifier, init_art, owning,
    hook_zygote_methods. walk.
Qed.
#[local] Hint Resolve inv_hook_zygote_jni : neo.
Lemma inv_new_strdup w str : minv I P (new_strdup w str).
Proof. unfold new_strdup. walk. Qed.
Lemma inv_new_property_get : minv I P new_property_get.
Proof. unfold new_property_get. walk. Qed.
Lemma inv_new_unshare fl : minv I P (new_unshare fuel word tmp fl).
Proof. unfold new_unshare, switch_namespace, update_mount_namespace. walk. Qed.
Lemma inv_new_setstacksize : minv I P new_pthread_attr_setstacksize.
Proof. unfold new_pthread_attr_setstacksize. walk. Qed.
#[local] Hint Resolve inv_new_strdup inv_new_property_get inv_new_unshare inv_new_setstacksize : neo.
Lemma inv_plt_call w c : minv I P (plt_call w fuel word tmp c).
Proof. destruct c as [[] n]; cbn [plt_call]; unfold new_fork; walk. Qed.
#[local] Hint Resolve inv_plt_call : neo.
Lemma inv_call_original w h fr :
  (forall fn arguments calls, P (Ev (Original fn arguments) calls) = true) -> minv I P (call_original w fuel word tmp h fr).
Proof. intros P_original. unfold call_original. walk. Qed.
End Replacements.
End Invariants.

(** ** Parent and child

    Once the fork has answered [p], the context's pid stays [p]; the rest of a run of the
    parent is without modules. *)

Definition has_pid (p : Z) (z : zygote) : Prop := pid (z_ctx z) = p.
Definition side (p : Z) (ev : event inj) : bool := (p <=? 0) || moduleless ev.

Lemma has_pid_ctx p f z :
  (forall c, pid (f c) = pid c /\ keeps (args c) (args (f c))) -> has_pid p z -> has_pid p (on_ctx f z).
Proof. unfold has_pid. cbn. intros H. by destruct (H (z_ctx z)) as [-> _]. Qed.
Lemma side_plain p ev : moduleless ev = true -> side p ev = true.
Proof. unfold side. intros ->. apply orb_true_r. Qed.

Definition sided {A} (m : M A) : Prop := forall p, minv (has_pid p) (side p) m.

Lemma sided_bind {A B} (m : M A) (f : A -> M B) : sided m -> (forall a, sided (f a)) -> sided (mbind m f).
Proof. intros Hm Hf p. apply minv_bind; [apply Hm|]. intros a. apply Hf. Qed.
Lemma sided_each {A} (l : list A) body : (forall x, sided (body x)) -> sided (each l body).
Proof. intros H p. apply minv_each. intros x. apply H. Qed.

(** A step only the child takes can be anything that respects the pid. *)
Lemma sided_child (m k : M unit) :
  (forall p, minv (has_pid p) (fun _ => true) m) -> sided k ->
  sided (let! c := gets z_ctx in when (is_child c) m >> k).
Proof.
  intros Hm Hk p. apply minv_read. intros z Hz. apply minv_bind; [|intros _; apply Hk].
  unfold is_child. rewrite Hz. unfold side. destruct (p <=? 0); cbn [orb when]; [apply Hm|done].
Qed.

Ltac by_pid lemma :=
  match goal with |- minv _ _ _ => idtac | _ => intros ? end;
  apply lemma; intros; first [done|assumption|by apply has_pid_ctx|by apply side_plain].

(** The steps up to the fork make no call about modules; what follows is sided. *)
Definition forked {A} (m : M A) : Prop := forall z,
  every_run (m z) (on_return (fun tr r => forallb (side (pid (z_ctx r.2))) tr = true)).

Lemma forallb_side p tr : forallb moduleless tr = true -> forallb (side p) tr = true.
Proof. rewrite !forallb_forall. intros H ev Hev. by apply side_plain, H. Qed.

Lemma forked_skip {A B} (m : M A) (f : A -> M B) :
  memits moduleless m -> (forall a, forked (f a)) -> forked (mbind m f).
Proof.
  intros Hm Hf z. eapply mbind_seq; [apply Hm|done|]. intros tr a z' Htr.
  eapply every_run_mono; [|apply (Hf a z')]. intros tr' [r|x]; [|done]. cbn. intros Htr'.
  by rewrite forallb_app, Htr', forallb_side.
Qed.

Lemma forked_then {A B} (m : M A) (f : A -> M B) :
  forked m -> (forall a, sided (f a)) -> forked (mbind m f).
Proof.
  intros Hm Hf z. eapply mbind_seq; [apply Hm|done|]. intros tr a z' Htr. cbn in Htr.
  eapply every_run_mono; [|by apply (Hf a (pid (z_ctx z')) z')].
  intros tr' [r|x]; [|done]. intros [Htr' Hp]. unfold has_pid in Hp. cbn. rewrite Hp.
  by rewrite forallb_app, Htr, Htr'.
Qed.

Lemma forked_plain {A} (m : M A) : memits moduleless m -> forked m.
Proof.
  intros Hm z. eapply every_run_mono; [|apply Hm]. intros tr [r|x]; [|done]. apply forallb_side.
Qed.

Lemma minv_memits {A} P (m : M A) : minv (fun _ => True) P m -> memits P m.
Proof. intros H z. eapply every_run_mono; [|by apply H]. by intros tr r [? _]. Qed.

Section Sides.
Context (w page_size : Z) (fuel word : nat) (tmp : string).

Lemma fork_pre_plain : memits moduleless fork_pre.
Proof. unfold fork_pre, record_fd. memits_tac. Qed.
Lemma read_process_plain : memits moduleless read_process.
Proof. unfold read_process. memits_tac. Qed.
Lemma construct_plain a : memits moduleless (construct a).
Proof. unfold construct. memits_tac. Qed.
Lemma unmount_zygote_plain : memits moduleless (unmount_zygote fuel word tmp).
Proof. apply minv_memits, inv_unmount_zygote; by intros. Qed.
Lemma spoof_first_stack_plain maps : memits moduleless (spoof_first_stack maps).
Proof. apply minv_memits, inv_spoof_first_stack; by intros. Qed.

Lemma sided_sanitize : sided sanitize_fds.
Proof. by_pid inv_sanitize_fds. Qed.
Lemma sided_fork_post : sided fork_post.
Proof. by_pid inv_fork_post. Qed.
Lemma sided_original h fr : sided (call_original w fuel word tmp h fr).
Proof. by_pid inv_call_original. Qed.
Lemma sided_destruct : sided destruct_.
Proof. by_pid inv_destruct. Qed.
Lemma sided_app_post : sided (nativeForkAndSpecialize_post w page_size fuel word tmp).
Proof.
  apply sided_child; [|apply sided_fork_post]. by_pid inv_app_specialize_post.
Qed.
Lemma sided_server_post : sided (nativeForkSystemServer_post w page_size fuel word tmp).
Proof.
  apply sided_child; [|apply sided_fork_post]. by_pid inv_server_specialize_post.
Qed.

Lemma forked_app_pre : forked (nativeForkAndSpecialize_pre fuel word tmp).
Proof.
  unfold nativeForkAndSpecialize_pre. apply forked_skip; [apply read_process_plain|intros _].
  apply forked_skip; [apply memits_modify|intros _].
  apply forked_skip; [apply unmount_zygote_plain|intros _].
  apply forked_then; [apply forked_plain, fork_pre_plain|intros _].
  apply sided_child; [|apply sided_sanitize]. by_pid inv_app_specialize_pre.
Qed.

Lemma forked_server_pre : forked (nativeForkSystemServer_pre fuel word tmp).
Proof.
  unfold nativeForkSystemServer_pre. apply forked_skip; [apply memits_modify|intros _].
  apply forked_skip; [apply memits_gets|]. intros [h|]; [|by apply forked_plain, memits_stop].
  apply forked_skip; [apply spoof_first_stack_plain|intros _].
  apply forked_then; [apply forked_plain, fork_pre_plain|intros _].
  apply sided_child; [|apply sided_sanitize]. intros p. apply minv_bind.
  - by_pid inv_server_specialize_pre.
  - intros _. apply minv_bind; [by apply minv_do|]. intros pd. by apply minv_embed.
Qed.

Lemma forked_entry h java pre post :
  forked pre -> sided post -> forked (entry_point w fuel word tmp h java pre post).
Proof.
  intros Hpre Hpost. unfold entry_point. destruct (args_of h _) as [a|]; [|by apply forked_plain, memits_stop].
  apply forked_skip; [apply construct_plain|intros _].
  apply forked_then; [done|intros _]. apply sided_bind; [apply sided_original|intros _].
  apply sided_bind; [done|intros _]. apply sided_bind; [by intros p; apply minv_gets|]. intros c.
  apply sided_bind; [apply sided_destruct|by intros _ p; apply minv_ret].
Qed.
End Sides.

(** ** The end of a context *)

Lemma mbind_returns {A B} (m : M A) (f : A -> M B) z (P : B * zygote -> Prop) :
  (forall a z', every_run (f a z') (on_return (fun _ r => P r))) ->
  every_run (mbind m f z) (on_return (fun _ r => P r)).
Proof.
  intros H. eapply mbind_seq with (S := fun _ _ => True); [by apply every_run_trivial|done|].
  intros tr a z' _. eapply every_run_mono; [|apply H]. by intros tr' [r|x].
Qed.

(** When the modules were freed no function of ours was left in their tables, and the library is
    to be unmapped. *)
Definition torn_down (z : zygote) : Prop :=
  modules (z_ctx z) = [] /\ Forall (fun m => m_table m = empty_table) (z_freed z) /\
  forall h, z_hook z = Some h -> should_unmap h = true.
Definition over (c : ZygiskContext) (z : zygote) : Prop :=
  z_active z = false /\ pid (z_ctx z) = pid c /\ (is_child c = true -> torn_down z).

Lemma tables_cleared ms : Forall (fun m => m_table m = empty_table) (map clear_api ms).
Proof. induction ms; cbn; by constructor. Qed.

(** The body, before the modules are freed. *)
Lemma destruct_body_spec z :
  every_run (destruct_body z) (on_return (fun _ r => let z' := snd r in
    z_active z' = false /\ pid (z_ctx z') = pid (z_ctx z) /\
    (is_child (z_ctx z) = true ->
       Forall (fun m => m_table m = empty_table) (modules (z_ctx z')) /\
       forall h, z_hook z' = Some h -> should_unmap h = true))).
Proof.
  apply mbind_modify, mbind_gets. cbn [z_ctx set_active].
  destruct (is_child (z_ctx z)) eqn:E; cbn [negb].
  2: { split; [done|]. split; [done|]. done. }
  apply mbind_modify, mbind_gets. cbn [z_hook set_active on_ctx].
  destruct (z_hook z) as [h|] eqn:Hh.
  2: { split; [done|]. split; [done|]. intros _. split; [apply tables_cleared|]. cbn. by rewrite Hh. }
  apply mbind_modify. unfold restore_zygote_hook, hook_zygote_methods.
  apply (mbind_the_hook _ (set_unmap true h)); [cbn; by rewrite Hh|].
  apply mbind_embed; [done|]. intros tr ms _. split; [done|]. split; [done|]. intros _.
  split; [apply tables_cleared|]. cbn. rewrite Hh. by intros h' [= <-].
Qed.
Lemma destruct_over z : every_run (destruct_ z) (on_return (fun _ r => over (z_ctx z) (snd r))).
Proof.
  eapply mbind_seq; [apply destruct_body_spec|done|]. intros tr [] z' (Ha & Hp & Hc).
  split; [exact Ha|]. split; [exact Hp|]. intros Hz. destruct (Hc Hz) as [Ht Hu].
  by split_and!.
Qed.

Lemma entry_over w fuel word tmp h java pre post z :
  every_run (entry_point w fuel word tmp h java pre post z) (on_return (fun _ r =>
    z_active (snd r) = false /\ pid (z_ctx (snd r)) = fst r /\ (fst r <= 0 -> torn_down (snd r)))).
Proof.
  unfold entry_point. destruct (args_of h _) as [a|]; [|done].
  do 4 (apply mbind_returns; intros). apply mbind_gets.
  eapply mbind_seq; [apply destruct_over|done|]. intros tr [] z1 (H1 & H2 & H3).
  split; [done|]. split; [done|]. intros Hp. apply H3. unfold is_child. cbn in *. lia.
Qed.

Lemma unforked_pid w page_size fuel word tmp h java z :
  every_run (entry_point w fuel word tmp h java (nativeSpecializeAppProcess_pre fuel word tmp)
      (nativeSpecializeAppProcess_post w page_size fuel word tmp) z)
    (on_return (fun _ r => has_pid (-1) (snd r))).
Proof.
  unfold entry_point. destruct (args_of h _) as [a|]; [|done].
  eapply mbind_seq with (S := on_return (fun _ r => has_pid (-1) (snd r))); [by intros n|done|].
  intros tr0 [] z1 Hz1.
  match goal with |- every_run (?m ?z') _ =>
    assert (minv (has_pid (-1)) (fun _ => true) m) as H end.
  { apply minv_bind.
    - unfold nativeSpecializeAppProcess_pre. apply minv_bind; [by_pid inv_read_process|intros _].
      apply minv_bind; [by apply minv_modify|intros _]. by_pid inv_app_specialize_pre.
    - intros _. apply minv_bind; [by_pid inv_call_original|intros _].
      apply minv_bind; [by_pid inv_app_specialize_post|intros _].
      apply minv_bind; [done|]. intros c. apply minv_bind; [by_pid inv_destruct|done]. }
  eapply every_run_mono; [|by apply H]. by intros tr [r|x] [_ Hr].
Qed.

(** C2: zygote stays clean beside its children, and they clean up. Whenever one of the generated
    functions that fork returns, its context is gone. If it returns a child's pid, which is
    zygote after a fork that succeeded, then no module was loaded or run and no environment
    variable was set in that run. If it returns anything else, which is the child, and zygote
    itself after a fork that failed ([failed_fork_is_child]), the tables of the modules it
    freed held no function of ours any more, and the library is marked to be unmapped. A
    function that specializes without forking leaves its process the same way. *)
Theorem zygote_runs_no_module w page_size fuel word tmp h java z :
  every_run (hooked w page_size fuel word tmp h java z) (on_return (fun tr r =>
    z_active (snd r) = false /\
    match around h with
    | SpecializeAppProcess => fst r = -1 /\ torn_down (snd r)
    | ForkAndSpecialize | ForkSystemServer =>
        (0 < fst r -> forallb moduleless tr = true) /\ (fst r <= 0 -> torn_down (snd r))
    end)).
Proof.
  unfold hooked. destruct (around h).
  1,3: eapply every_run_mono; [|apply every_run_and; [apply forked_entry|apply entry_over]];
    [|first [apply forked_app_pre|apply forked_server_pre]
     |first [apply sided_app_post|apply sided_server_post]];
    intros tr [[p z']|x]; [|done]; cbn; intros [Hs (H1 & H2 & H3)]; rewrite H2 in Hs;
    (split; [done|]); (split; [|done]); intros Hp; unfold side in Hs;
    by destruct (Z.leb_spec p 0); [lia|].
  eapply every_run_mono; [|apply every_run_and; [apply unforked_pid|apply entry_over]].
  intros tr [[p z']|x]; [|done]. cbn. intros [Hp (H1 & H2 & H3)]. unfold has_pid in Hp.
  split; [done|]. split; [lia|]. apply H3. lia.
Qed.

(** ** Examples: both sides of a fork, on a device whose daemon is away *)

Definition alone_net (X : Type) (e : net X) : X :=
  match e with
  | ConnectTo _ _ => false
  | Read _ _ => Got []
  | e => calm_net _ e
  end.
Definition alone (answer : Z) (n : nat) (X : Type) (e : inj X) : X :=
  match e with
  | OldFork => answer
  | VMEnv _ => (0, true)
  | Net e => alone_net _ e
  | e => calm n _ e
  end.
Definition java_args : list jvalue :=
  [VInt 10123; VInt 10123; VInts (Some [3003]); VInt 0; VObjects 7; VInt 0; VString (Some "default");
   VString (Some "app"); VInts None; VString None; VString None].
Definition fork_run (answer : Z) :=
  run (alone answer) 0 (hooked 64 4096 20 8 "/tmp" fas_l java_args sample_zygote).
Definition fork_result (answer : Z) : option Z :=
  match (fork_run answer).2 with Val r => Some (fst r) | Stop _ => None end.

Example parent_returns : fork_result 100 = Some 100.
Proof. vm_compute. reflexivity. Qed.
Example child_returns : fork_result 0 = Some 0.
Proof. vm_compute. reflexivity. Qed.
