(* ===== verification/Originals.v ===== *)
(** * What the originals are called with

    The generated functions of JniHooks.v stand between the virtual machine and zygote's native
    methods: the original must get arguments of its own types, Java's except where a module or
    the context assigned through the structure, and in zygote, after a fork that succeeded,
    exactly Java's. *)
From Stdlib Require Import ZArith Lia List String Ascii Bool.
From stdpp Require Import base list strings.
From S2P Require Import Prelude.
From S2P Require Import Elf.
From S2P Require Import Mounts.
From S2P Require Import JniEnv.
From S2P Require Import Jni.
From S2P Require Import Spoof.
From S2P Require Import Args.
From S2P Require Import JniHooks.
From S2P Require Import InjState.
From S2P Require Import Module.
From S2P Require Import Hook.
From S2P Require Import Lifecycle.
Open Scope string_scope.
Open Scope list_scope.
Open Scope Z_scope.
Open Scope m_scope.

(** ** The calls of originals *)

Definition original_call (ev : event inj) : option (Z * list jvalue) :=
  match ev with Ev (Original fn arguments) _ => Some (fn, arguments) | _ => None end.
Definition quiet (ev : event inj) : bool := negb (runs_original ev).

Lemma quiet_originals tr : forallb quiet tr = true -> omap original_call tr = [].
Proof.
  induction tr as [|[X e x] tr IH]; [done|]. cbn. intros [H1 H2]%andb_prop. by destruct e; cbn; auto.
Qed.
Lemma ordinary_quiet ev : ordinary ev = true -> quiet ev = true.
Proof. destruct ev as [X e x]. by destruct e. Qed.
Lemma replacing_quiet ev : moduleless ev = true -> runs_original ev = false -> quiet ev = true.
Proof. unfold quiet. by intros _ ->. Qed.

(** ** Before the original

    The arguments keep their shape and their types; on the side of the parent they stay as they
    are. *)
Definition given_args (a : args_t) (z : zygote) : Prop := args (z_ctx z) = a.
Definition kept_args (a : args_t) (z : zygote) : Prop := keeps a (args (z_ctx z)).

Lemma kept_args_ctx a f z :
  (forall c, pid (f c) = pid c /\ keeps (args c) (args (f c))) -> kept_args a z -> kept_args a (on_ctx f z).
Proof. intros H Hz. eapply keeps_trans; [exact Hz|]. apply H. Qed.

Ltac by_kept lemma :=
  match goal with |- minv _ _ _ => idtac | _ => intros ? end;
  apply lemma; intros;
  first [assumption|by apply kept_args_ctx|by apply has_pid_ctx|by apply ordinary_quiet|by apply replacing_quiet|done].

(** The table of methods zygote's hook context remembers. *)
Definition has_methods (ms : option (list JNINativeMethod)) (z : zygote) : Prop :=
  option_map zygote_methods (z_hook z) = ms.
Lemma has_methods_hook ms f z :
  (forall h, start_addr (f h) = start_addr h /\ block_size (f h) = block_size h /\
             zygote_methods (f h) = zygote_methods h) ->
  has_methods ms z -> has_methods ms (on_hook f z).
Proof.
  intros Hf. unfold has_methods. cbn. intros <-. destruct (z_hook z) as [h|]; [|done]. cbn.
  by destruct (Hf h) as (_ & _ & ->).
Qed.
Ltac by_methods lemma := apply lemma; intros; first [assumption|by apply has_methods_hook|done].

(** What a first part leaves: unchanged arguments in the parent. *)
Definition prepared (a : args_t) {A} (m : M A) : Prop := forall z, given_args a z ->
  every_run (m z) (fun tr r => forallb quiet tr = true /\
    match r with
    | Val r => kept_args a (snd r) /\ (0 < pid (z_ctx (snd r)) -> given_args a (snd r))
    | Stop _ => True
    end).

Lemma prepared_skip {A B} a (m : M A) (f : A -> M B) :
  minv (given_args a) quiet m -> (forall x, prepared a (f x)) -> prepared a (mbind m f).
Proof.
  intros Hm Hf z Hz. eapply mbind_seq; [by apply Hm|done|]. intros tr x z' [Htr Hz'].
  eapply every_run_mono; [|by apply Hf]. intros tr' r [Htr' Hr]. by rewrite forallb_app, Htr, Htr'.
Qed.

Lemma minv_and {A} I J P P' (m : M A) :
  minv I P m -> minv J P' m -> minv (fun z => I z /\ J z) P m.
Proof.
  intros HI HJ z [H1 H2]. eapply every_run_mono; [|exact (every_run_and _ _ _ (HI z H1) (HJ z H2))].
  intros tr [r|x] [[? ?] [_ ?]]; by split.
Qed.

(** After the fork, the child may assign to the arguments and the parent does nothing. *)
Lemma prepared_child a (m k : M unit) :
  minv (kept_args a) quiet m -> minv (kept_args a) quiet k ->
  (forall p, minv (has_pid p) (fun _ => true) m) -> (forall p, minv (has_pid p) (fun _ => true) k) ->
  (forall z, 0 < pid (z_ctx z) -> k z = Ret (tt, z)) ->
  prepared a (let! c := gets z_ctx in when (is_child c) m >> k).
Proof.
  intros Hm Hk Hmp Hkp Hpar z Hz. apply mbind_gets. unfold is_child.
  assert (kept_args a z) as Ha by (unfold kept_args; rewrite Hz; apply keeps_refl).
  destruct (Z.leb_spec (pid (z_ctx z)) 0) as [Hp|Hp]; cbn [when].
  - eapply every_run_mono; [|apply (minv_bind (fun z' => kept_args a z' /\ has_pid (pid (z_ctx z)) z') quiet);
      [exact (minv_and _ _ _ _ m Hm (Hmp _))|intros _; exact (minv_and _ _ _ _ k Hk (Hkp _))|by split]].
    intros tr [r|x]; [|by intros [? _]]. intros (? & Hr & Hpid). split; [done|]. split; [done|].
    intros Hp'. unfold has_pid in Hpid. lia.
  - change ((ret tt >> k) z) with (k z). by rewrite (Hpar z Hp).
Qed.

Section Before.
Context (w page_size : Z) (fuel word : nat) (tmp : string).

Lemma given_read_process a : minv (given_args a) quiet read_process.
Proof. unfold read_process. minv_tac ltac:(done). Qed.
Lemma given_unmount_zygote a : minv (given_args a) quiet (unmount_zygote fuel word tmp).
Proof. unfold unmount_zygote. minv_tac ltac:(done). Qed.
Lemma given_spoof a maps : minv (given_args a) quiet (spoof_first_stack maps).
Proof.
  induction maps as [|map maps IH]; cbn [spoof_first_stack]; unfold spoof_stack; minv_tac ltac:(done).
  done.
Qed.
Lemma given_fork_pre a : minv (given_args a) quiet fork_pre.
Proof. unfold fork_pre, record_fd. minv_tac ltac:(done). Qed.

Lemma sanitize_parent z : 0 < pid (z_ctx z) -> sanitize_fds z = Ret (tt, z).
Proof.
  intros Hp. unfold sanitize_fds, mbind, gets, is_child. cbn.
  destruct (Z.leb_spec (pid (z_ctx z)) 0); [lia|done].
Qed.

Lemma prepared_fork_app a : prepared a (nativeForkAndSpecialize_pre fuel word tmp).
Proof.
  unfold nativeForkAndSpecialize_pre.
  apply prepared_skip; [apply given_read_process|intros _].
  apply prepared_skip; [by apply minv_modify|intros _].
  apply prepared_skip; [apply given_unmount_zygote|intros _].
  apply prepared_skip; [apply given_fork_pre|intros _].
  apply prepared_child.
  - by_kept inv_app_specialize_pre.
  - by_kept inv_sanitize_fds.
  - by_pid inv_app_specialize_pre.
  - by_pid inv_sanitize_fds.
  - apply sanitize_parent.
Qed.

Lemma prepared_server a : prepared a (nativeForkSystemServer_pre fuel word tmp).
Proof.
  unfold nativeForkSystemServer_pre. apply prepared_skip; [by apply minv_modify|intros _].
  apply prepared_skip; [apply minv_gets|]. intros [h|]; [|by intros z Hz].
  apply prepared_skip; [apply given_spoof|intros _].
  apply prepared_skip; [apply given_fork_pre|intros _].
  apply prepared_child.
  - apply minv_bind; [by_kept inv_server_specialize_pre|intros _].
    apply minv_bind; [by apply minv_do|intros p]. apply minv_embed; by intros [].
  - by_kept inv_sanitize_fds.
  - intros q. apply minv_bind; [by_pid inv_server_specialize_pre|intros _].
    apply minv_bind; [by apply minv_do|intros p]. by apply minv_embed.
  - by_pid inv_sanitize_fds.
  - apply sanitize_parent.
Qed.

(** None of them changes what is remembered of the originals. *)
Lemma methods_fork_pre ms : minv (has_methods ms) (fun _ => true) fork_pre.
Proof. unfold fork_pre, record_fd. minv_tac ltac:(done). Qed.
Lemma methods_fork_app ms :
  minv (has_methods ms) (fun _ => true) (nativeForkAndSpecialize_pre fuel word tmp).
Proof.
  unfold nativeForkAndSpecialize_pre.
  apply minv_bind; [by_methods inv_read_process|intros _].
  apply minv_bind; [by apply minv_modify|intros _].
  apply minv_bind; [by_methods inv_unmount_zygote|intros _].
  apply minv_bind; [apply methods_fork_pre|intros _].
  apply minv_bind; [apply minv_gets|intros c].
  apply minv_bind; [apply minv_when; by_methods inv_app_specialize_pre|intros _].
  by_methods inv_sanitize_fds.
Qed.
Lemma methods_specialize ms :
  minv (has_methods ms) (fun _ => true) (nativeSpecializeAppProcess_pre fuel word tmp).
Proof.
  unfold nativeSpecializeAppProcess_pre.
  apply minv_bind; [by_methods inv_read_process|intros _].
  apply minv_bind; [by apply minv_modify|intros _]. by_methods inv_app_specialize_pre.
Qed.
Lemma methods_server ms :
  minv (has_methods ms) (fun _ => true) (nativeForkSystemServer_pre fuel word tmp).
Proof.
  unfold nativeForkSystemServer_pre. apply minv_bind; [by apply minv_modify|intros _].
  apply minv_bind; [apply minv_gets|]. intros [h|]; [|by intros z Hz].
  apply minv_bind; [by_methods inv_spoof_first_stack|intros _].
  apply minv_bind; [apply methods_fork_pre|intros _].
  apply minv_bind; [apply minv_gets|intros c].
  apply minv_bind; [|intros _; by_methods inv_sanitize_fds].
  apply minv_when. apply minv_bind; [by_methods inv_server_specialize_pre|intros _].
  apply minv_bind; [by apply minv_do|intros p]. by apply minv_embed.
Qed.

(** Without a fork there is no parent. *)
Definition prepared_alone (a : args_t) {A} (m : M A) : Prop := minv (kept_args a) quiet m.
Lemma prepared_specialize a : prepared_alone a (nativeSpecializeAppProcess_pre fuel word tmp).
Proof.
  unfold prepared_alone, nativeSpecializeAppProcess_pre.
  apply minv_bind; [by_kept inv_read_process|intros _].
  apply minv_bind; [|intros _; by_kept inv_app_specialize_pre].
  apply minv_modify. intros z Hz. by apply kept_args_ctx.
Qed.

Lemma quiet_app_post p : minv (has_pid p) quiet (nativeForkAndSpecialize_post w page_size fuel word tmp).
Proof.
  apply minv_bind; [apply minv_gets|intros c]. apply minv_bind; [|intros _; by_kept inv_fork_post].
  apply minv_when. by_kept inv_app_specialize_post.
Qed.
Lemma quiet_server_post p : minv (has_pid p) quiet (nativeForkSystemServer_post w page_size fuel word tmp).
Proof.
  apply minv_bind; [apply minv_gets|intros c]. apply minv_bind; [|intros _; by_kept inv_fork_post].
  apply minv_when. by_kept inv_server_specialize_post.
Qed.
End Before.

(** ** The whole function *)

Section Whole.
Context (w page_size : Z) (fuel word : nat) (tmp : string).
Context (h : jni_hook) (Hh : fits_signature h) (java : list jvalue).
Context (Hjava : Forall2 (fun p v => has_type (snd p) v = true) (params h) java).

(** The address the table remembers for this function's own place in it. *)
Definition remembers (z : zygote) (fn : Z) : Prop :=
  exists hook m, z_hook z = Some hook /\ zygote_methods hook !! original h = Some m /\ fn = fnPtr m.
Lemma remembers_methods z z' fn :
  has_methods (option_map zygote_methods (z_hook z)) z' -> remembers z' fn -> remembers z fn.
Proof.
  unfold has_methods. intros Hm (hook' & m & Hhk & Hlook & ->). rewrite Hhk in Hm.
  destruct (z_hook z) as [hook|] eqn:E; [|done]. injection Hm as Hm.
  exists hook, m. by rewrite <- Hm.
Qed.

(** The one call of an original, on the arguments as they are. *)
Lemma call_original_spec a0 z :
  args_of h (frame_of h java) = Some a0 -> kept_args a0 z ->
  every_run (call_original w fuel word tmp h (frame_of h java) z) (fun tr r =>
    match omap original_call tr with
    | [] => exists x, r = Stop x
    | [(fn, arguments)] =>
        (fn <> 0 /\ remembers z fn) /\ passes h java (args (z_ctx z)) arguments /\
        forall z', r = Val (tt, z') -> has_pid (pid (z_ctx z)) z'
    | _ => False
    end).
Proof.
  intros Ha0 Hz. unfold call_original.
  destruct (z_hook z) as [hook|] eqn:Hhook.
  2: { unfold mbind at 1, the_hook, mbind, gets. cbn. rewrite Hhook. by eexists. }
  apply (mbind_the_hook _ hook); [done|].
  destruct (zygote_methods hook !! original h) as [m|] eqn:Hm; [|by eexists].
  destruct (Z.eqb_spec (fnPtr m) 0) as [|Hfn]; [by eexists|]. apply mbind_gets.
  destruct (passed_on_passes h Hh java Hjava a0 (args (z_ctx z)) Ha0 Hz) as (vs & -> & Hvs).
  apply mbind_do. intros calls.
  eapply every_run_mono; [|apply (minv_each (has_pid (pid (z_ctx z))) quiet calls); [|done]].
  - intros tr r [Htr Hr]. cbn. rewrite (quiet_originals _ Htr). split; [|split; [done|]].
    + split; [done|]. by exists hook, m.
    + by intros z' ->.
  - intros c. by_kept inv_plt_call.
Qed.

Definition zygote_side (p : Z) : Prop := 0 < p /\ around h <> SpecializeAppProcess.

(** What a run of the whole function shows. *)
Definition called_once (z0 : zygote) (a0 : args_t) (tr : list (event inj)) (r : res (Z * zygote)) :
    Prop :=
  match omap original_call tr with
  | [] => exists x, r = Stop x
  | [(fn, arguments)] =>
      (fn <> 0 /\ remembers z0 fn) /\ exists a, keeps a0 a /\ passes h java a arguments /\
        forall p z, r = Val (p, z) -> zygote_side p -> a = a0
  | _ => False
  end.

Lemma entry_calls pre post a0 z :
  args_of h (frame_of h java) = Some a0 ->
  (forall z, given_args a0 z -> every_run (pre z) (fun tr r => forallb quiet tr = true /\
    match r with
    | Val r => kept_args a0 (snd r) /\ (zygote_side (pid (z_ctx (snd r))) -> given_args a0 (snd r))
    | Stop _ => True
    end)) ->
  (forall ms, minv (has_methods ms) (fun _ => true) pre) ->
  (forall p, minv (has_pid p) quiet post) ->
  every_run (entry_point w fuel word tmp h java pre post z) (called_once z a0).
Proof.
  intros Ha0 Hpre Hpm Hpost. unfold entry_point. rewrite Ha0.
  set (ms := option_map zygote_methods (z_hook z)).
  eapply mbind_seq with (S := fun tr r => forallb quiet tr = true /\
    forall z', r = Val (tt, z') -> given_args a0 z' /\ has_methods ms z').
  { intros n. split; [done|]. by intros z' [= <-]. }
  { intros tr x [Hq _]. unfold called_once. rewrite quiet_originals by done. by eexists. }
  intros tr0 [] z0 [Hq0 Hz0]. destruct (Hz0 z0 eq_refl) as [Hg0 Hm0].
  eapply mbind_seq; [apply every_run_and; [by apply Hpre|by apply (Hpm ms)]| |].
  { intros tr x [[Hq _] _]. unfold called_once. rewrite omap_app, !quiet_originals by done. by eexists. }
  intros tr1 [] z1 [(Hq1 & Hk & Hg) [_ Hm1]].
  eapply mbind_seq; [by apply (call_original_spec a0)| |].
  { intros tr x H. unfold called_once. rewrite !omap_app, (quiet_originals tr0), (quiet_originals tr1) by done.
    cbn [app]. cbn beta in H. destruct (omap original_call tr) as [|[fn vs] [|]]; [by eexists| |done].
    destruct H as ([Hfn Hrem] & Hp & _). split; [split; [done|by eapply remembers_methods]|].
    exists (args (z_ctx z1)). by split_and!. }
  intros tr2 [] z2 H.
  set (done_ := fun (p : Z) (tr : list (event inj)) (r : res (Z * zygote)) =>
    forallb quiet tr = true /\ forall q z', r = Val (q, z') -> q = p).
  assert (every_run ((post >> let! c := gets z_ctx in destruct_ >> ret (pid c)) z2)
            (done_ (pid (z_ctx z2)))) as Hrest.
  { eapply mbind_seq; [by apply (Hpost (pid (z_ctx z2)))|by intros tr x [? _]|].
    intros tr3 [] z3 [Hq3 Hp3]. apply mbind_gets.
    eapply mbind_seq with (S := fun tr _ => forallb quiet tr = true).
    - apply minv_memits. by_kept inv_destruct.
    - intros tr x Hq. split; [by rewrite forallb_app, Hq3|done].
    - intros tr4 [] z4 Hq4. cbn. split; [by rewrite !forallb_app, Hq3, Hq4|].
      intros q z' [= <- _]. exact Hp3. }
  eapply every_run_mono; [|exact Hrest]. intros tr3 r [Hq3 Hr]. unfold called_once.
  rewrite !omap_app, (quiet_originals tr0), (quiet_originals tr1), (quiet_originals tr3), app_nil_r by done.
  cbn [app]. cbn beta in H. destruct (omap original_call tr2) as [|[fn vs] [|]]; [by destruct H| |done].
  destruct H as ([Hfn Hrem] & Hp & Hsame).
  split; [split; [done|by eapply remembers_methods]|]. exists (args (z_ctx z1)). split; [done|].
  split; [done|]. intros p z' -> Hside. apply Hg. rewrite (Hr p z' eq_refl) in Hside.
  by rewrite (Hsame z2 eq_refl) in Hside.
Qed.
End Whole.

(** Every field of the structure a function builds that bears a parameter's name leads to that
    parameter, the others are left null, and the fields are those of the declaration. *)
Definition named_after_parameters (h : jni_hook) : Prop :=
  struct_of h = map (fun f => (f, if existsb (String.eqb f) (map fst (params h))
                                  then Some f else None))
    (map fst (match around h with ForkSystemServer => server_fields | _ => app_fields end)).
Lemma structures_named : Forall named_after_parameters zygote_hooks.
Proof. repeat (apply Forall_cons; split; [vm_compute; reflexivity|]). apply Forall_nil. done. Qed.

(** C3: the original method gets what Java passed, but for what was assigned on purpose. Let one
    of the table's functions be called with values of the types its signature promises. In every
    run it calls an original at most once: the one the hook context remembered for this
    function's own place in the table when the run began, which is not null. It passes values of
    the types of the signature: those its structure does not refer to are Java's, and those it
    refers to, which are the parameters that bear the names of its fields, are typed arguments
    of the same shape, no pointer having become or ceased to be null. A run that returns has
    called it; and one that returns a child's pid, in zygote after a fork that succeeded, has
    called it with exactly Java's arguments. *)
Theorem original_gets_its_types w page_size fuel word tmp h java z :
  h ∈ zygote_hooks ->
  Forall2 (fun p v => has_type (snd p) v = true) (params h) java ->
  zygote_hooks !! original h = Some h /\ named_after_parameters h /\
  exists types a0, native_type (signature h) = Some types /\ args_of h (frame_of h java) = Some a0 /\
  every_run (hooked w page_size fuel word tmp h java z) (fun tr r =>
    match omap original_call tr with
    | [] => exists x, r = Stop x
    | [(fn, arguments)] =>
        fn <> 0 /\
        (exists hook m, z_hook z = Some hook /\ zygote_methods hook !! original h = Some m /\
           fn = fnPtr m) /\
        Forall2 (fun t v => has_type t v = true) (fst types) arguments /\
        (exists a, keeps a0 a /\ passes h java a arguments) /\
        forall p z', r = Val (p, z') -> 0 < p -> around h <> SpecializeAppProcess -> arguments = java
    | _ => False
    end).
Proof.
  intros Hin Hjava. pose proof (proj1 (Forall_forall _ _) zygote_hooks_fit h Hin) as Hh.
  split; [by apply zygote_hooks_place|].
  split; [exact (proj1 (Forall_forall _ _) structures_named h Hin)|].
  destruct (args_of_frame h Hh _ (frame_typed h java Hjava)) as (a0 & Ha0 & _).
  exists (map snd (params h), returns h), a0. split; [apply Hh|]. split; [done|].
  assert (every_run (hooked w page_size fuel word tmp h java z) (called_once h java z a0)) as H.
  { unfold hooked, called_once. destruct (around h) eqn:Hk; apply (entry_calls w fuel word tmp h Hh java Hjava); try done.
    - intros z' Hz'. eapply every_run_mono; [|by apply (prepared_fork_app fuel word tmp a0)].
      intros tr [r|x]; [|done]. intros (? & ? & Hg). split; [done|]. split; [done|]. intros [Hp _]. auto.
    - apply methods_fork_app.
    - intros p. apply quiet_app_post.
    - intros z' Hz'. eapply every_run_mono; [|apply (prepared_specialize fuel word tmp a0)].
      + intros tr [r|x]; [|done]. intros (? & ?). split; [done|]. split; [done|]. intros [_ Hp]. congruence.
      + unfold kept_args. rewrite Hz'. apply keeps_refl.
    - apply methods_specialize.
    - intros p. by_kept inv_app_specialize_post.
    - intros z' Hz'. eapply every_run_mono; [|by apply (prepared_server fuel word tmp a0)].
      intros tr [r|x]; [|done]. intros (? & ? & Hg). split; [done|]. split; [done|]. intros [Hp _]. auto.
    - apply methods_server.
    - intros p. apply quiet_server_post. }
  eapply every_run_mono; [|exact H]. intros tr r. unfold called_once.
  destruct (omap original_call tr) as [|[fn vs] [|]]; [done| |done].
  intros ([Hfn Hrem] & a & Hk & Hp & Hside). split; [done|]. split; [exact Hrem|]. split.
  { destruct Hp as [Hp _]. cbn. clear -Hp. induction Hp; cbn; by constructor. }
  split; [by exists a|]. intros p z' Hr Hpos Har.
  pose proof (Hside p z' Hr (conj Hpos Har)) as ->.
  by eapply passes_unchanged.
Qed.


(** ** Witness *)

Lemma original_gets_its_types_witness :
  exists fn, omap original_call (fork_run 100).1 = [(fn, java_args)].
Proof.
  destruct (original_gets_its_types 64 4096 20 8 "/tmp" fas_l java_args sample_zygote)
    as (_ & _ & types & a0 & _ & _ & H).
  - by left.
  - repeat (apply Forall2_cons_2; [reflexivity|]). apply Forall2_nil_2.
  - pose proof (every_run_run _ _ (alone 100) 0 H) as Hrun. cbn beta in Hrun. fold (fork_run 100) in Hrun.
    pose proof parent_returns as Hret. unfold fork_result in Hret.
    destruct (omap original_call (fork_run 100).1) as [|[fn vs] [|]]; [| |done].
    + destruct Hrun as [x Hx]. by rewrite Hx in Hret.
    + destruct Hrun as (_ & _ & _ & _ & Hval). exists fn. f_equal. f_equal.
      destruct (fork_run 100).2 as [[p z']|x]; [|done]. injection Hret as ->.
      by apply (Hval 100 z').
Defined.
