(* ===== verification/Api.v ===== *)
(** * The modules' side of the API

    include/api.hpp, the header that modules are compiled with: the structures and the table it
    shares with the loader, the registration of a module, and the methods that forward to the
    loader's functions. The header is the loader's own too, so that its layout must agree with
    injector/module.hpp. *)
From Stdlib Require Import ZArith Lia List String Ascii Bool.
From stdpp Require Import base list strings.
From S2P Require Import Prelude.
From S2P Require Import Daemon.
From S2P Require Import Mounts.
From S2P Require Import JniEnv.
From S2P Require Import Jni.
From S2P Require Import Args.
From S2P Require Import InjState.
From S2P Require Import Module.
From S2P Require Import Hook.
From S2P Require Import Lifecycle.
Open Scope string_scope.
Open Scope list_scope.
Open Scope Z_scope.
Open Scope m_scope.

(** ** Layouts *)

(** The fields of the arguments, in order. *)
Definition AppSpecializeArgs : list (string * jtype) :=
  [("uid", Jint); ("gid", Jint); ("gids", JintArray); ("runtime_flags", Jint);
   ("rlimits", JobjectArray); ("mount_external", Jint); ("se_info", JString);
   ("nice_name", JString); ("instruction_set", JString); ("app_data_dir", JString);
   ("fds_to_ignore", JintArray); ("is_child_zygote", Jboolean); ("is_top_app", Jboolean);
   ("pkg_data_info_list", JobjectArray); ("whitelisted_data_info_list", JobjectArray);
   ("mount_data_dirs", Jboolean); ("mount_storage_dirs", Jboolean);
   ("mount_sysprop_overrides", Jboolean)].
Definition ServerSpecializeArgs : list (string * jtype) :=
  [("uid", Jint); ("gid", Jint); ("gids", JintArray); ("runtime_flags", Jint);
   ("permitted_capabilities", Jlong); ("effective_capabilities", Jlong)].

(** What a module shows the loader: its version, its object, and for each entry the method of
    the object it calls. *)
Definition module_abi : list (string * option string) :=
  [("api_version", None); ("impl", None);
   ("preAppSpecialize", Some "preAppSpecialize");
   ("postAppSpecialize", Some "postAppSpecialize");
   ("preServerSpecialize", Some "preServerSpecialize");
   ("postServerSpecialize", Some "postServerSpecialize")].
(** The loader's view of it. *)
Definition module_abi_v1 : list string :=
  ["api_version"; "impl"; "preAppSpecialize"; "postAppSpecialize"; "preServerSpecialize";
   "postServerSpecialize"].

(** The table after its two base fields, and the loader's from version 4 on. *)
Definition api_table : list string :=
  ["hookJniNativeMethods"; "pltHookRegister"; "exemptFd"; "pltHookCommit"; "connectCompanion";
   "setOption"; "getModuleDir"; "getFlags"].
Definition api_abi_v4 : list string :=
  ["hookJniNativeMethods"; "pltHookRegister"; "exemptFd"; "pltHookCommit"; "connectCompanion";
   "setOption"; "getModuleDir"; "getFlags"].
(** The tables before: version 1, and version 2, which adds to it. *)
Definition api_abi_v1 : list string :=
  ["hookJniNativeMethods"; "pltHookRegister"; "pltHookExclude"; "pltHookCommit";
   "connectCompanion"; "setOption"].
Definition api_abi_v2 : list string := api_abi_v1 ++ ["getModuleDir"; "getFlags"].

Definition name_of (f : api_fn) : string :=
  match f with
  | hookJniNativeMethods_ => "hookJniNativeMethods"
  | pltHookRegister_ | pltHookRegister4_ => "pltHookRegister"
  | pltHookExclude_ => "pltHookExclude"
  | pltHookCommit_ | pltHookCommit4_ => "pltHookCommit"
  | connectCompanion_ => "connectCompanion"
  | setOption_ => "setOption"
  | getModuleDir_ => "getModuleDir"
  | getFlags_ => "getFlags"
  | exemptFd_ => "exemptFd"
  end.

(** ** The methods *)




Section Api.
Context (fuel word : nat) (tmp_path : string).



(** ** Facts *)

(** The loader fills the tables as their declarations lay them out. *)
Definition laid_out (version : Z) : list (option string) := map (option_map name_of) (abi version).

Lemma tables_laid_out :
  laid_out 1 = map Some api_abi_v1 ++ [None; None] /\
  (forall v, 2 <= v <= 3 -> laid_out v = map Some api_abi_v2) /\
  (forall v, 4 <= v <= 5 -> laid_out v = map Some api_abi_v4).
Proof.
  split; [reflexivity|]. split; intros v Hv; unfold laid_out, abi.
  - destruct (Z.ltb_spec v 1); [lia|]. destruct (Z.ltb_spec v 2); [lia|].
    destruct (Z.ltb_spec v 4); [done|lia].
  - destruct (Z.ltb_spec v 1); [lia|]. destruct (Z.ltb_spec v 2); [lia|].
    destruct (Z.ltb_spec v 4); [lia|done].
Qed.

(** The two sides agree on every structure that crosses between them. *)
Lemma layouts_agree :
  AppSpecializeArgs = app_fields /\ ServerSpecializeArgs = server_fields /\
  map fst module_abi = module_abi_v1 /\ api_table = api_abi_v4.
Proof. done. Qed.




End Api.

(** ** Witness *)

