(* ===== verification/Entry.v ===== *)
(** * The library's entry

    injector/entry.cpp, where the tracer's remote call arrives, and injector/system_server.cpp,
    which runs the modules in a system server that is already up. *)
From Stdlib Require Import ZArith Lia List String Ascii Bool.
From stdpp Require Import base list strings.
From S2P Require Import Prelude.
From S2P Require Import Scan.
From S2P Require Import Elf.
From S2P Require Import Inject.
From S2P Require Import Mounts.
From S2P Require Import Daemon.
From S2P Require Import Atexit.
From S2P Require Import Solist.
From S2P Require Import Seccomp.
From S2P Require Import JniEnv.
From S2P Require Import Jni.
From S2P Require Import Spoof.
From S2P Require Import Args.
From S2P Require Import JniHooks.
From S2P Require Import InjState.
From S2P Require Import Module.
From S2P Require Import Hook.
From S2P Require Import Lifecycle.
Open Scope string_scope.
Open Scope list_scope.
Open Scope Z_scope.
Open Scope m_scope.

Definition LATE_INJECT : Z := Z.shiftl 1 30.

(** ** The thread in system_server *)

(** A [JniAttachment]: the machine and whether this thread was attached to it, for the
    destructor, and the environment. *)
Record JniAttachment := { vm_ : Z; env_ : Z; attached_ : bool }.
Definition attach : M JniAttachment :=
  let! get_vms := do_ (Dlsym 0 "JNI_GetCreatedJavaVMs") in
  if get_vms =? 0 then ret {| vm_ := 0; env_ := 0; attached_ := false |}
  else
    let! vm := do_ (CreatedVM get_vms) in
    if vm =? 0 then ret {| vm_ := 0; env_ := 0; attached_ := false |}
    else
      let! r := do_ (VMEnv vm) in
      let '(env, detached) := r in
      if detached : bool then
        let! env := do_ (AttachThread vm) in
        ret {| vm_ := vm; env_ := env; attached_ := negb (env =? 0) |}
      else ret {| vm_ := vm; env_ := env; attached_ := false |}.
Definition detach (jni : JniAttachment) : M unit :=
  when (attached_ jni && negb (vm_ jni =? 0)) (do_ (DetachThread (vm_ jni))).

(** The two halves of a capability set, as a [jlong]. *)
Definition join64 (high low : Z) : Z := signed 64 (Z.lor (Z.shiftl high 32) low).
Definition fetch_capabilities : M (Z * Z) :=
  let! r := do_ CapGet in
  match r with
  | Some (permitted0, effective0, permitted1, effective1) =>
      ret (join64 permitted1 permitted0, join64 effective1 effective0)
  | None => ret (0, 0)
  end.

(** The supplementary groups, in a vector of the size first reported. *)
Definition fetch_gids : M (option (list Z)) :=
  let! r := do_ (GetGroups 0) in
  let count := fst r in
  if count <=? 0 then
    let! array := do_ (NewIntArray 0) in ret (if array : bool then Some [] else None)
  else
    let! r := do_ (GetGroups count) in
    let n := Z.to_nat count in
    let gids := firstn n (snd r ++ repeat 0 n) in
    let! array := do_ (NewIntArray count) in
    ret (if array : bool then Some (map s32 gids) else None).

Section Entry.
Context (w page_size NR_exit_group : Z) (fuel word : nat).

(** The lifecycle, on a context of the thread's own. *)
Definition late_lifecycle (tmp_path : string) : M unit :=
  modify (on_ctx (add_flag SERVER_FORK_AND_SPECIALIZE)) >>
  server_specialize_pre fuel word tmp_path >>
  let! pid := do_ GetPid in
  embed (@Net) (CacheMountNamespace fuel word tmp_path pid) >>
  server_specialize_post w page_size fuel word tmp_path.
(** What the thread does once it has an environment. *)
Definition specialize_late (tmp_path : string) : M unit :=
  let! uid := do_ GetUid in
  let! gid := do_ GetGid in
  let! gids := fetch_gids in
  let! caps := fetch_capabilities in
  construct (Server {| s_uid := s32 uid; s_gid := s32 gid; s_gids := gids;
                       s_runtime_flags := LATE_INJECT;
                       s_permitted_capabilities := fst caps;
                       s_effective_capabilities := snd caps |}) >>
  late_lifecycle tmp_path >>
  when (match gids with Some _ => true | None => false end) (do_ DeleteLocalRef) >>
  destruct_.
Definition run_system_server_hooks (tmp_path : string) : M unit :=
  let! jni := attach in
  when (negb (env_ jni =? 0)) (specialize_late tmp_path) >>
  detach jni.

(** The caller's side: the thread runs [run_system_server_hooks] on its own. *)
Definition trigger_system_server_hooks : M unit :=
  let! err := do_ PthreadCreate in
  when (err =? 0) (do_ PthreadDetach).

(** ** The entry point

    [path] is what [Init] stores for the daemon's client. *)
Definition entry (code : nat -> Z) (addr size : Z) (path : string) (mode : TraceMode) :
    M Z :=
  let! answered := embed (@Net) (PingHeartbeat fuel word path) in
  if negb answered then ret 0
  else
    match mode with
    | SYSTEM_SERVER => trigger_system_server_hooks
    | STANDALONE =>
        hook_entry w fuel path code addr size >>
        embed (@Scmp) (send_seccomp_event_if_needed NR_exit_group) >>
        trigger_zygote_hooks w
    | UNKNOWN | SPAWN =>
        hook_entry w fuel path code addr size >>
        embed (@Scmp) (send_seccomp_event_if_needed NR_exit_group)
    end >>
    ret 1.
End Entry.

(** ** Facts: the thread *)

Definition attached (ev : event inj) : option Z :=
  match ev with
  | Ev e x => match e in inj X return X -> option Z with
              | AttachThread vm => fun env => if env =? 0 then None else Some vm
              | _ => fun _ => None
              end x
  end.
Definition detached (ev : event inj) : option Z :=
  match ev with Ev (DetachThread vm) _ => Some vm | _ => None end.
(** None of the things the loader does to zygote: hooks of ours, unmapping, forking. *)
Definition hands_off (ev : event inj) : bool :=
  match ev with Ev (LspltHook _ _) _ | Ev (Munmap _ _) _ | Ev OldFork _ => false | _ => true end.

Lemma ordinary_attached tr : forallb ordinary tr = true ->
  omap attached tr = [] /\ omap detached tr = [] /\ forallb hands_off tr = true.
Proof.
  induction tr as [|[X e x] tr IH]; [done|]. cbn [forallb]. intros [H1 H2]%andb_prop.
  destruct (IH H2) as (IH1 & IH2 & IH3). destruct e; try discriminate; cbn; by rewrite IH1, IH2, IH3.
Qed.

Definition attachment (z : zygote) (tr : list (event inj)) (r : JniAttachment * zygote) : Prop :=
  snd r = z /\ omap detached tr = [] /\ forallb hands_off tr = true /\
  omap attached tr = (if attached_ (fst r) then [vm_ (fst r)] else []) /\
  (attached_ (fst r) = true -> vm_ (fst r) <> 0).

Lemma attach_spec z : every_run (attach z) (on_return (attachment z)).
Proof.
  unfold attach. apply mbind_do. intros fn. destruct (fn =? 0); [by split_and!|].
  apply mbind_do. intros vm. destruct (Z.eqb_spec vm 0); [by split_and!|].
  apply mbind_do. intros [env []]; [|by split_and!].
  apply mbind_do. intros env'. unfold attachment. cbn.
  destruct (env' =? 0); cbn; by split_and!.
Qed.

Definition hookless (z : zygote) : Prop := z_hook z = None.

Lemma hookless_hook f z : hookless z -> hookless (on_hook f z).
Proof. unfold hookless. cbn. by intros ->. Qed.

Ltac by_hookless lemma :=
  match goal with |- minv _ _ _ => idtac | _ => intros ? end;
  apply lemma; intros; first [done|assumption|by apply hookless_hook].

Section Late.
Context (w page_size : Z) (fuel word : nat) (tmp : string).

Lemma late_lifecycle_hookless : minv hookless ordinary (late_lifecycle w page_size fuel word tmp).
Proof.
  unfold late_lifecycle. apply minv_bind; [by apply minv_modify|intros _].
  apply minv_bind; [by_hookless inv_server_specialize_pre|intros _].
  apply minv_bind; [by apply minv_do|intros p]. apply minv_bind; [apply minv_embed; by intros []|intros _].
  by_hookless inv_server_specialize_post.
Qed.

Lemma late_lifecycle_pid p : minv (has_pid p) (fun _ => true) (late_lifecycle w page_size fuel word tmp).
Proof.
  unfold late_lifecycle. apply minv_bind; [by apply minv_modify|intros _].
  apply minv_bind; [by_pid inv_server_specialize_pre|intros _].
  apply minv_bind; [by apply minv_do|intros pd]. apply minv_bind; [by apply minv_embed|intros _].
  by_pid inv_server_specialize_post.
Qed.

Lemma specialize_late_hookless : minv hookless ordinary (specialize_late w page_size fuel word tmp).
Proof.
  unfold specialize_late, fetch_gids, fetch_capabilities, construct.
  do 5 (apply minv_bind; [minv_tac ltac:(by intros)|intros]).
  apply minv_bind; [apply late_lifecycle_hookless|intros _].
  apply minv_bind; [by apply minv_when, minv_do|intros _]. by_hookless inv_destruct.
Qed.

Lemma specialize_late_over z :
  every_run (specialize_late w page_size fuel word tmp z) (on_return (fun _ r =>
    z_active (snd r) = false /\ torn_down (snd r))).
Proof.
  unfold specialize_late. do 4 (apply mbind_returns; intros ? ?).
  eapply mbind_seq with (S := on_return (fun _ r => has_pid (-1) (snd r))); [by intros n|done|].
  intros tr0 [] z1 Hz1.
  eapply mbind_seq; [by apply (late_lifecycle_pid (-1))|done|]. intros tr1 [] z2 [_ Hz2].
  eapply mbind_seq with (S := on_return (fun _ r => snd r = z2));
    [by destruct (match _ with Some _ => true | None => false end); [intros x|]|done|].
  intros tr2 [] z3 Hz3. cbn in Hz3. subst z3.
  eapply every_run_mono; [|apply destruct_over]. intros tr [r|x]; [|done].
  intros (H1 & _ & H3). split; [done|]. apply H3. unfold is_child. unfold has_pid in Hz2. cbn in Hz2. lia.
Qed.

(** C25: the thread in system_server leaves nothing behind. Without a hook context, whenever
    [run_system_server_hooks] returns, the loader has installed no hook of its own, unmapped
    nothing and not forked; there is still no hook context; every attachment of the thread to
    the virtual machine that worked was undone, as the last thing; and unless nothing was done
    to the state at all, the context is gone and no function of ours is left in any module's
    table. *)
Theorem system_server_thread z :
  z_hook z = None ->
  every_run (run_system_server_hooks w page_size fuel word tmp z) (on_return (fun tr r =>
    forallb hands_off tr = true /\ z_hook (snd r) = None /\
    omap detached tr = omap attached tr /\
    (omap attached tr <> [] ->
       last_is (fun ev => match detached ev with Some _ => true | None => false end) tr = true) /\
    (snd r = z \/ z_active (snd r) = false /\ torn_down (snd r)))).
Proof.
  intros Hz. eapply mbind_seq; [apply attach_spec|done|].
  intros tr jni z' (Hz' & Hd & Hq & Ha & Hvm). cbn [fst snd] in *. subst z'.
  eapply mbind_seq with (S := on_return (fun tr r => forallb ordinary tr = true /\ hookless (snd r) /\
    (snd r = z \/ z_active (snd r) = false /\ torn_down (snd r)))).
  { destruct (negb (env_ jni =? 0)); cbn [when].
    - eapply every_run_mono; [|apply every_run_and; [by apply specialize_late_hookless|apply specialize_late_over]].
      intros tr' [r|x]; [|done]. cbn. tauto.
    - split; [done|]. split; [done|]. by left. }
  { done. }
  intros tr' [] z1 (Ho & Hh & Hover). destruct (ordinary_attached tr' Ho) as (Ha' & Hd' & Hq').
  unfold detach. destruct (attached_ jni); cbn [andb].
  - destruct (Z.eqb_spec (vm_ jni) 0) as [E|_]; [by destruct Hvm|]. intros []. cbn [every_run bind on_return fst snd].
    rewrite !forallb_app, !omap_app, Hq, Hq', Ha, Ha', Hd, Hd'. cbn. split_and!; try done.
    intros _. do 2 apply last_is_app. done.
  - cbn [when every_run ret on_return fst snd]. rewrite !forallb_app, !omap_app, Hq, Hq', Ha, Ha', Hd, Hd'. cbn.
    by split_and!.
Qed.
End Late.

(** ** Facts: the entry point *)

(** The hook context knows the range it is to unmap: it starts where the library does and is at
    least as long. *)
Definition has_range (addr size : Z) (z : zygote) : Prop :=
  exists h, z_hook z = Some h /\ start_addr h = addr /\ size <= block_size h.

Lemma has_range_hook addr size f z :
  (forall h, start_addr (f h) = start_addr h /\ block_size (f h) = block_size h /\
             zygote_methods (f h) = zygote_methods h) ->
  has_range addr size z -> has_range addr size (on_hook f z).
Proof.
  intros Hf (h & Hz & Ha & Hs). exists (f h). cbn. rewrite Hz. destruct (Hf h) as (-> & -> & _). done.
Qed.
Lemma has_range_methods addr size ms z :
  has_range addr size z ->
  has_range addr size (on_hook (fun h => set_jni ms (MODIFIER_NATIVE h) (member_getModifiers h) h) z).
Proof.
  intros (h & Hz & Ha & Hs). exists (set_jni ms (MODIFIER_NATIVE h) (member_getModifiers h) h).
  cbn. by rewrite Hz.
Qed.

Ltac by_range lemma :=
  match goal with |- minv _ _ _ => idtac | _ => intros ? end;
  apply lemma; intros; first [done|assumption|by apply has_range_hook|by apply has_range_methods].

Section EntryPoint.
Context (w page_size NR_exit_group : Z) (fuel word : nat).

Definition ranged {A} addr size (m : M A) : Prop := minv (has_range addr size) (fun _ => true) m.

Lemma exec_embed {E A} (f : forall X, E X -> inj X) (p : prog E A) z tr a z' :
  exec (embed f p z) tr (Val (a, z')) ->
  exists tr0, tr = map (lift_event f) tr0 /\ z' = z /\ exec p tr0 (Val a).
Proof.
  assert (every_run (embed f p z) (fun tr r => forall a z', r = Val (a, z') ->
    exists tr0, tr = map (lift_event f) tr0 /\ z' = z /\ exec p tr0 (Val a))) as H.
  { eapply every_run_bind, every_run_lift, every_run_exec. intros tr0 [b|h] Hx; [|done]. cbn.
    intros a1 z1 [= <- <-]. rewrite app_nil_r. by exists tr0. }
  intros Hx. exact (proj1 (every_run_exec _ _) H _ _ Hx a z' eq_refl).
Qed.

(** lsplt was asked for the hooks of fork, unshare, strdup and property_get in the Android runtime
    it found mapped, and to put them in place. *)
Definition asked_for_hooks (tr : list (event inj)) : Prop :=
  exists maps oks committed rest,
    let hook f := {| h_dev := fst (runtime_of maps); h_inode := snd (runtime_of maps); h_fn := f |} in
    List.length oks = 4%nat /\
    tr = Ev LspltScan maps ::
         zip_with (fun f ok => Ev (LspltHook (hook f) false) ok) [Pfork; Punshare; Pstrdup; Pproperty_get] oks
         ++ Ev (LspltCommit false) committed :: rest.
Lemma asked_for_hooks_app tr tr' : asked_for_hooks tr -> asked_for_hooks (tr ++ tr').
Proof.
  intros (maps & oks & c & rest & Hl & ->). exists maps, oks, c, (rest ++ tr'). cbn zeta.
  by rewrite app_comm_cons, <- app_assoc.
Qed.

Lemma each_register d i fs z :
  every_run (each fs (fun f => register_hook {| h_dev := d; h_inode := i; h_fn := f |}) z) (fun tr r =>
    match r with
    | Val _ => exists oks, List.length oks = List.length fs /\
        tr = zip_with (fun f ok => Ev (LspltHook {| h_dev := d; h_inode := i; h_fn := f |} false) ok) fs oks
    | Stop _ => False
    end).
Proof.
  revert z. induction fs as [|f fs IH]; intros z; [by exists []|]. cbn [each].
  eapply mbind_seq with (S := fun tr r => exists ok z',
    tr = [Ev (LspltHook {| h_dev := d; h_inode := i; h_fn := f |} false) ok] /\ r = Val (tt, z')).
  - unfold register_hook. apply mbind_do. intros ok. by destruct ok; do 2 eexists.
  - by intros tr h (ok & z' & _ & ?).
  - intros tr [] z' (ok & z1 & -> & [= <-]). eapply every_run_mono; [|apply IH].
    intros tr' [r|h]; [|done]. intros (oks & Hl & ->). exists (ok :: oks). cbn. by rewrite Hl.
Qed.

Lemma hook_plt_asks z : every_run (hook_plt z) (fun tr r =>
  match r with Val _ => asked_for_hooks tr | Stop _ => True end).
Proof.
  unfold hook_plt. apply mbind_do. intros maps. apply mbind_modify.
  destruct (runtime_of maps) as [d i] eqn:Er.
  eapply mbind_seq; [apply each_register|done|]. intros tr [] z' (oks & Hl & ->).
  apply mbind_do. intros c. apply every_run_trivial. intros tr [r|h]; [|done].
  exists maps, oks, c, tr. rewrite Er. done.
Qed.

Lemma hook_entry_range path code addr size z :
  every_run (hook_entry w fuel path code addr size z) (on_return (fun _ r =>
    has_range addr size (snd r))).
Proof.
  unfold hook_entry. apply mbind_modify. set (z1 := set_hook _ z).
  match goal with |- every_run (?m z1) _ => assert (ranged addr size m) as H end.
  { apply minv_bind; [by_range inv_hook_plt|intros _].
    apply minv_bind; [by_range inv_clean_linker|]. intros [[base reserved]|]; [|done].
    destruct ((base =? addr) && (size <? reserved)) eqn:E; [|done]. apply minv_modify.
    intros z' (h & Hz & Ha & Hs). exists (set_block_size reserved h). cbn. rewrite Hz.
    split; [done|]. split; [done|]. cbn. lia. }
  eapply every_run_mono; [|apply H]; [by intros tr [r|x] [_ Hr]|].
  exists (new_hook_context code addr size). split; [done|]. split; [done|]. cbn. lia.
Qed.

Lemma hook_entry_asks path code addr size z :
  every_run (hook_entry w fuel path code addr size z) (fun tr r =>
    match r with Val _ => asked_for_hooks tr | Stop _ => True end).
Proof.
  unfold hook_entry. apply mbind_modify.
  eapply mbind_seq; [apply hook_plt_asks|done|]. intros tr [] z' Ha. apply every_run_trivial.
  intros tr' [r|h]; [|done]. by apply asked_for_hooks_app.
Qed.

Lemma trigger_range addr size : ranged addr size (trigger_zygote_hooks w).
Proof. apply minv_bind; [by_range inv_new_strdup|intros _]. by_range inv_new_property_get. Qed.

(** What each mode does when the daemon answered, and leaves. *)
Definition entered (mode : TraceMode) (addr size : Z) (z z' : zygote) (tr : list (event inj)) : Prop :=
  match mode with
  | SYSTEM_SERVER => z' = z /\
      exists err, tr = Ev PthreadCreate err :: (if err =? 0 then [Ev PthreadDetach tt] else [])
  | UNKNOWN | SPAWN =>
      has_range addr size z' /\ exists hooking raised,
        tr = hooking ++ map (lift_event (@Scmp)) raised /\ asked_for_hooks hooking /\
        exec (send_seccomp_event_if_needed NR_exit_group) raised (Val tt)
  | STANDALONE =>
      has_range addr size z' /\ exists hooking raised triggered z1,
        tr = hooking ++ map (lift_event (@Scmp)) raised ++ triggered /\ asked_for_hooks hooking /\
        exec (send_seccomp_event_if_needed NR_exit_group) raised (Val tt) /\
        exec (trigger_zygote_hooks w z1) triggered (Val (tt, z'))
  end.

(** The tracer is told whether the daemon answered. [entry] pings the daemon first. Without
    an answer it returns 0 having done nothing else, and the process is as it was; otherwise it
    returns 1: in a system server after asking for the thread and touching nothing; in a zygote
    after asking lsplt for the hooks and raising the seccomp event, with a hook context that
    starts at the library's address and covers at least the size the tracer measured; and in
    one that already runs, after driving the hooks it is past. *)
Theorem entry_reports code addr size path mode z :
  every_run (entry w NR_exit_group fuel word code addr size path mode z) (on_return (fun tr r =>
    exists answered ping rest,
      tr = map (lift_event (@Net)) ping ++ rest /\
      exec (PingHeartbeat fuel word path) ping (Val answered) /\
      fst r = (if answered then 1 else 0) /\
      if answered : bool then entered mode addr size z (snd r) rest
      else rest = [] /\ snd r = z)).
Proof.
  unfold entry. apply mbind_embed; [done|]. intros ping answered Hping.
  destruct answered; cbn [negb].
  2: { exists false, ping, []. done. }
  assert (forall m : M unit, every_run (m z) (on_return (fun tr r => entered mode addr size z (snd r) tr)) ->
    every_run (mbind m (fun _ => ret 1) z) (fun tr r => on_return (fun tr r =>
      exists answered ping rest, tr = map (lift_event (@Net)) ping ++ rest /\
        exec (PingHeartbeat fuel word path) ping (Val answered) /\
        fst r = (if answered then 1 else 0) /\
        if answered : bool then entered mode addr size z (snd r) rest else rest = [] /\ snd r = z)
      (map (lift_event (@Net)) ping ++ tr) r)) as Hgo.
  { intros m Hm. eapply mbind_seq; [exact Hm|done|]. intros tr [] z' He.
    exists true, ping, tr. rewrite app_nil_r. done. }
  apply Hgo. destruct mode.
  4: { apply mbind_do. intros err. destruct (err =? 0) eqn:E; cbn [when].
       - intros []. split; [done|]. exists err. by rewrite E.
       - split; [done|]. exists err. by rewrite E. }
  1,2: eapply mbind_seq; [apply every_run_and; [apply hook_entry_range|apply hook_entry_asks]|done|];
    intros tr [] z' [Hz' Ha]; apply every_run_exec; intros tr2 [[[] z2]|x] Hx; [|done];
    apply exec_embed in Hx as (raised & -> & -> & Hs); (split; [exact Hz'|]); by exists tr, raised.
  eapply mbind_seq; [apply every_run_and; [apply hook_entry_range|apply hook_entry_asks]|done|].
  intros tr [] z1 [Hz1 Ha]. apply mbind_embed; [done|]. intros raised [] Hs.
  eapply every_run_mono; [|apply every_run_and; [by apply trigger_range|apply every_run_self]].
  intros tr' [[[] z2]|x] [[_ Hr] Hx]; [|done]. split; [exact Hr|]. by exists tr, raised, tr', z1.
Qed.
End EntryPoint.

(** ** Witness *)

Definition late_run :=
  run (alone 0) 0 (run_system_server_hooks 64 4096 20 8 "/tmp" (set_hook None sample_zygote)).

Lemma system_server_thread_witness :
  omap attached late_run.1 = [1] /\ omap detached late_run.1 = [1] /\
  exists z, late_run.2 = Val (tt, z) /\ z_hook z = None.
Proof.
  pose proof (every_run_run _ _ (alone 0) 0
    (system_server_thread 64 4096 20 8 "/tmp" (set_hook None sample_zygote) eq_refl)) as H.
  fold late_run in H. destruct late_run.2 as [[[] z]|] eqn:Hr; [|vm_compute in Hr; discriminate].
  destruct H as (_ & Hz & Hd & _). rewrite Hd. split; [vm_compute; reflexivity|].
  split; [vm_compute; reflexivity|]. exists z. split; [reflexivity|exact Hz].
Defined.
