(* ===== verification/Chain.v ===== *)
(** * From the monitor's confirmation to the library

    Three programs meet when the monitor arms a running process: attach_running of
    ptracer/zygote_abi.cpp forks and executes the tracer, main of ptracer/main.cpp reads the
    command line and traces the target (ptracer/ptracer.cpp), and entry of injector/entry.cpp
    answers inside it. Here their models are put together: what an exit status of the second
    means to the first, and what the call of the third returned. *)
From Stdlib Require Import ZArith Lia List String Ascii Bool.
From stdpp Require Import base list strings gmap.
From S2P Require Import Prelude.
From S2P Require Import Scan.
From S2P Require Import Sys.
From S2P Require Import ProcFs.
From S2P Require Import Remote.
From S2P Require Import Inject.
From S2P Require Import MonState.
From S2P Require Import ZygoteAbi.
From S2P Require Import Cli.
From S2P Require Import InjState.
From S2P Require Import Entry.
Open Scope string_scope.
Open Scope list_scope.
Open Scope Z_scope.

(** ** The tracer reports what the library's entry answered *)

Section Reports.
Variable cfg : config.
Let a := c_arch cfg.
Let w := pointer_width a.
Variable pid : Z.
Variable mode : TraceMode.

(** A call of the library's entry: the range just read from the target's mappings, the work
    directory just written to its stack, the mode; it returned, leaving [reported]. *)
Definition entry_called (range : Z * Z) (reported : Z) (tr : list (event sys)) : Prop :=
  exists maps rs rs1 rs2 path func ret t1 t2 t3,
    tr = t1 ++ t2 ++ t3 /\ range = library_range cfg maps /\
    exec (Scan_maps w (to_string pid)) t1 (Val maps) /\
    exec (push_string a pid rs (c_work cfg)) t2 (Val (rs1, path)) /\
    exec (do_call cfg pid rs1 func ret
            [fst range; snd range; path; mode_value mode])
      t3 (Val (rs2, reported, true)).

(** Such a call somewhere in a run, answered with hooks installed. *)
Definition hooks_reported (tr : list (event sys)) : Prop :=
  exists pre mid post range reported, tr = pre ++ mid ++ post /\
    entry_called range reported mid /\ u32 reported <> 0.

Lemma hooks_reported_app_l tr tr' : hooks_reported tr -> hooks_reported (tr ++ tr').
Proof.
  intros (pre & mid & post & rg & v & -> & H). exists pre, mid, (post ++ tr'), rg, v.
  by rewrite <- !app_assoc.
Qed.
Lemma hooks_reported_app_r tr tr' : hooks_reported tr' -> hooks_reported (tr ++ tr').
Proof.
  intros (pre & mid & post & rg & v & -> & H). exists (tr ++ pre), mid, post, rg, v.
  by rewrite <- !app_assoc.
Qed.

(** The flag was set before, or by such a call. *)
Definition flag_from (hooked : bool) (tr : list (event sys)) (r : bool * bool) : Prop :=
  snd r = true -> hooked = true \/ hooks_reported tr.
Definition sets_flag (hooked : bool) (p : prog sys (bool * bool)) : Prop :=
  every_run p (on_return (flag_from hooked)).

Lemma sets_flag_ret hooked ok : sets_flag hooked (Ret (ok, hooked)).
Proof. intros H. by left. Qed.
Lemma sets_flag_suffix {A} hooked (p : prog sys A) (f : A -> prog sys (bool * bool)) :
  (forall x, sets_flag hooked (f x)) -> sets_flag hooked (bind p f).
Proof.
  apply every_run_suffix. intros tr tr' r H Hr. destruct (H Hr); [by left|right].
  by apply hooks_reported_app_r.
Qed.
Lemma sets_flag_bind hooked p (f : bool * bool -> prog sys (bool * bool)) :
  sets_flag hooked p -> (forall ok h, sets_flag h (f (ok, h))) -> sets_flag hooked (bind p f).
Proof.
  intros Hp Hf. eapply every_run_seq; [exact Hp|done|]. intros tr [ok h] Htr.
  eapply every_run_mono; [|apply Hf]. intros tr' [r|x]; [|done]. intros H Hr.
  destruct (H Hr) as [->|H'].
  - destruct (Htr eq_refl); [by left|right]. by apply hooks_reported_app_l.
  - right. by apply hooks_reported_app_r.
Qed.

(** The block of [execute_remote_injection] that makes the call. *)
Lemma entry_sets_flag rs func ret hooked :
  sets_flag hooked (
    map <- Scan_maps w (to_string pid) ;;
    let '(start_addr, block_size) := library_range cfg map in
    let* (rs, remote_tmp_path) := push_string a pid rs (c_work cfg) in
    let* (_, reported, entry_returned) :=
      do_call cfg pid rs func ret [start_addr; block_size; remote_tmp_path; mode_value mode] in
    if negb entry_returned then Ret (false, hooked) else Ret (true, negb (u32 reported =? 0))).
Proof.
  eapply every_run_seq; [apply every_run_self|done|]. intros t1 maps H1.
  destruct (library_range cfg maps) as [start size] eqn:E.
  eapply every_run_seq; [apply every_run_self|done|]. intros t2 [rs1 path] H2.
  eapply every_run_seq; [apply every_run_self|done|]. intros t3 [[rs2 reported] ok] H3.
  destruct ok; cbn [negb every_run on_return]; intros Hr; [right|by left].
  exists [], (t1 ++ t2 ++ t3), [], (start, size), reported. rewrite !app_nil_r. cbn in Hr.
  split; [done|]. split; [|by destruct (Z.eqb_spec (u32 reported) 0)].
  by exists maps, rs, rs1, rs2, path, func, ret, t1, t2, t3.
Qed.

Create HintDb flags.

(** Everything but the call itself passes the flag on. *)
Ltac passes :=
  repeat first
    [ apply sets_flag_ret | exact I | apply entry_sets_flag
    | match goal with
      | |- sets_flag _ (if ?b then _ else _) => destruct b
      | |- sets_flag _ (match ?x with _ => _ end) => destruct x
      | |- sets_flag _ (let _ := _ in _) => cbv zeta
      end
    | solve [auto with flags]
    | apply sets_flag_bind; [solve [auto with flags]|intros]
    | apply sets_flag_suffix; intros ].

Lemma execute_sets_flag rs lib hooked :
  sets_flag hooked (execute_remote_injection cfg pid rs lib mode hooked).
Proof. unfold execute_remote_injection. passes. Qed.
#[local] Hint Resolve execute_sets_flag : flags.

Lemma perform_sets_flag hooked : sets_flag hooked (perform_injection cfg pid mode hooked).
Proof. unfold perform_injection, inject_after_start, inject_before_start. passes. Qed.
Lemma continue_sets_flag hooked : sets_flag hooked (continue_and_detach pid hooked).
Proof. unfold continue_and_detach, bail. passes. Qed.
#[local] Hint Resolve perform_sets_flag continue_sets_flag : flags.

Lemma seize_sets_flag hooked : sets_flag hooked (trace_with_seize cfg pid mode hooked).
Proof. unfold trace_with_seize, bail. cbv zeta. passes. Qed.
Lemma attach_sets_flag hooked : sets_flag hooked (trace_with_attach cfg pid mode hooked).
Proof. unfold trace_with_attach, bail. cbv zeta. passes. Qed.
#[local] Hint Resolve seize_sets_flag attach_sets_flag : flags.

End Reports.

(** ** Processes *)

(** A program never exits with the status that stands for hooks. *)
Definition no_false_exit {A} (p : prog sys A) : Prop :=
  every_run p (fun _ r => match r with Stop (Exited code) => u8 code <> TRACE_HOOKED | _ => True end).
Lemma no_false_exit_bind {A B} (p : prog sys A) (f : A -> prog sys B) :
  no_false_exit p -> (forall x, no_false_exit (f x)) -> no_false_exit (bind p f).
Proof.
  intros Hp Hf. eapply every_run_seq; [exact Hp|done|]. intros _ x _. apply Hf.
Qed.
Ltac exits :=
  repeat first
    [ solve [auto with flags]
    | match goal with
      | H : _ |- _ => solve [apply H]
      | |- no_false_exit (Ret _) => done
      | |- no_false_exit (Halt _) => done
      | |- no_false_exit (call _) => done
      | |- no_false_exit (if ?b then _ else _) => destruct b
      | |- no_false_exit (match ?x with _ => _ end) => destruct x
      | |- no_false_exit (let _ := _ in _) => cbv zeta
      end
    | apply no_false_exit_bind; [|intros] ].

Section Chain.
Variable c : cli.
Let cfg := cli_tracer c.





Lemma wait_exits fuel a pid flags : no_false_exit (wait_for_trace fuel a pid flags).
Proof.
  revert flags. induction fuel; intros flags; cbn [wait_for_trace];
    unfold tracee_skip_syscall, get_regs, set_regs; exits.
Qed.
Hint Resolve wait_exits : flags.
Lemma remote_call_exits fuel a pid rs func ret args :
  no_false_exit (remote_call fuel a pid rs func ret args).
Proof.
  unfold remote_call, prepare_call, spill_args, finish_call, write_proc, get_regs, set_regs. exits.
Qed.
Hint Resolve remote_call_exits : flags.
Lemma execute_exits pid rs lib mode hooked :
  no_false_exit (execute_remote_injection cfg pid rs lib mode hooked).
Proof.
  unfold execute_remote_injection, do_call, Scan_maps, push_string, find_func_addr, write_proc,
    read_proc. exits.
Qed.
Hint Resolve execute_exits : flags.
Lemma perform_exits pid mode hooked : no_false_exit (perform_injection cfg pid mode hooked).
Proof.
  assert (forall fuel p, no_false_exit (skip_envp cfg fuel pid p)).
  { induction fuel; intros p; cbn [skip_envp]; unfold read_word, read_proc; exits. }
  assert (forall fuel p, no_false_exit (find_entry cfg fuel pid p)).
  { induction fuel; intros p; cbn [find_entry]; unfold read_word, read_proc; exits. }
  assert (forall fuel, no_false_exit (run_to_trap cfg fuel pid)).
  { induction fuel; cbn [run_to_trap]; exits. }
  unfold perform_injection, inject_before_start, inject_after_start, Scan_maps, get_regs, set_regs,
    read_proc, write_proc. exits.
Qed.
Hint Resolve perform_exits : flags.




End Chain.


(** *** A chain that holds *)



